(* ===== verification/_CoqProject ===== *)
-Q . S2P
Prelude.v
GoStrings.v
GoTime.v
TlsReloader.v
Float64.v
Encoding.v
RateLimit.v
LeaseStore.v
Ledger.v
Regex.v
Sha256.v
Json.v
JsonRound.v
AuditStream.v
AuditVerify.v
AcbVerify.v
Metrics.v
Exposition.v
Durations.v
Policy.v
PolicyDoc.v
NotifyPolicy.v
World.v
Trace.v
Counters.v
Provider.v
Server.v
NotifyServer.v
Samples.v
NotifyProps.v
Watcher.v
ServerProps.v
ServerEffects.v
ServerApi.v
Authn.v
Upkeep.v
Playground.v
Process.v
Broker.v
BrokerMain.v
Records.v
Termination.v
NotifyMain.v
Streams.v
Lifecycle.v
Flood.v
Probes.v
Expiry.v
NotifyRate.v
