(* ===== verification/Prelude.v ===== *)
(** * agent-cred-broker: a verification library

    ** The program

    The broker (src/cmd/broker, src/internal) hands short-lived credentials to
    agents.  A caller presents a Kubernetes token; the broker has the API server
    review it, looks the caller's service account up in a policy file, fetches
    the secret of the granted scope from 1Password Connect or GitHub, records a
    lease, writes a signed event to an audit stream, and only then answers with
    the secret.  Around the request handlers run a sweeper of expired leases, a
    watcher of the policy file, a gauge of the Connect token's expiry, a health
    listener and a reloader of the TLS key pair.  acb-verify checks an audit
    stream offline; ha-notify-proxy is a client of the broker that narrows a Home
    Assistant token down to three notification calls; acb-playground stands in
    for the two upstreams on a laptop.

    ** The files

    Go itself: [GoStrings] (package strings, decimal numbers), [GoTime] (times,
    durations, RFC 3339), [Float64] (binary64 as exact rationals with rounding),
    [Encoding] (hex, base64), [Regex] (anchored patterns), [Sha256], [Json] and
    [JsonRound] (encoding/json, and what it reads back of what it wrote),
    [Durations] (time.ParseDuration).

    Components, each with its data, operations and properties:
    - [RateLimit]: internal/ratelimit ([Allow], [Spend]);
    - [LeaseStore]: internal/lease ([Create], [Renew], [Surrender], [Remove],
      [SweepExpired]); [Ledger]: the contract it refines;
    - [Policy]: internal/policy/policy.go ([Parse], windows, queries);
      [PolicyDoc]: the document behind it, with [Duration.UnmarshalYAML];
    - [AuditStream]: internal/audit events, signer and emitter ([Emit]);
      [AuditVerify]: [Verify]; [AcbVerify]: cmd/acb-verify;
    - [Metrics], [Exposition]: internal/server/metrics.go, registry and page;
    - [TlsReloader]: internal/tlsx;
    - [World]: what the goroutines share and the atomic actions on it (one per
      critical section or system call), programs of actions ([prog]) and their
      runs: alone ([run], [exec eq]), or among other goroutines, which may take
      any actions of theirs in between ([runs], [exec interference]); [Trace]:
      what a program observed, and how many actions it may take; [Counters]: the
      counter of audit events against the events committed;
    - [Provider]: internal/provider, the interface with its laws
      ([ProviderLaws]) and its two instances;
    - [Server]: internal/server, middleware and handlers; [ServerProps],
      [ServerEffects], [ServerApi]: their properties, proved against the provider
      interface; [Samples]: a concrete broker the witnesses run;
    - [Watcher]: internal/policy/watcher.go and main's reload callbacks;
    - [Authn]: internal/authn ([Review]);
    - [Upkeep]: the gauge, readiness and the health listener; [Expiry]: what the
      gauge shows; [Probes]: the cached probes behind the readiness of both
      services, as two instances of one contract ([CachedProbe]);
    - [Process]: keys, environment and listener of a process, used by both mains;
    - [Broker]: the pool of goroutines of a broker; [BrokerMain]: cmd/broker from
      the environment to the listener; [Records]: the leases against their audit
      records; [Termination]: how long a request takes; [Flood]: how much of the
      audit stream a caller can fill;
    - [NotifyPolicy], [NotifyServer], [NotifyProps]: internal/notify;
      [NotifyMain]: cmd/ha-notify-proxy; [Streams]: the proxy leasing from the
      broker, and what their two audit streams say of each other; [NotifyRate]: how
      much a caller can have sent and recorded;
    - [Lifecycle]: both processes from launch to exit, with their listeners, the
      signal and the shutdown;
    - [Playground]: cmd/acb-playground.

    A struct is a [Record] with the source's field names behind a prefix; a
    method is a function of the same name; a function with effects is a [prog];
    an error return is a constructor of an error type, or [None] where no caller
    tells errors apart.

    ** What is proved

    - Disclosure (C1-C3, C28, C29): in every execution from process start, a
      response with secret material went to a caller the API server vouched for,
      within a grant of the validated policy in force, after its signed event was
      committed under the key of the key file; and nothing else carries secret
      material.
    - State (C4-C6, C9, C19, C20): the invariant of the broker, the effect of each
      request on the lease table, failing closed when the audit write fails, no
      lease without its record, the table as a refinement of its ledger.
    - Policy (C7, C8, C16, C22, C24): what is accepted and what a lookup answers,
      durations and windows, reloading.
    - Handlers (C10-C13, C25): renewals, claims, uniform denials, no panics, and
      termination within a bound.
    - Audit (C14, C15, C30, C31): contiguous signed events, one line each behind
      the fragments of torn writes, which the verifier accepts and whose gaps and
      duplicates it counts exactly.
    - Notify proxy (C32-C36): every request accounted for, its records joined to
      the broker's (C33), nothing called beyond the compiled ceiling whatever the
      policy (C34), a bound on what a caller can have sent and recorded (C35), the
      policy.
    - Processes (C26, C37-C39): exit status and shutdown, the TLS key pair, the
      readiness probes, the gauge of the Connect token's expiry.
    - Limits: on what a caller can write into the audit stream (C21) and on claim
      bytes (C23, which says what a clock that steps back does to it); providers
      (C17, C18), metrics page (C27), playground (C40).

    ** Bounds and fuel

    The JSON scanner has fuel [2 * length + 2], which [parse_fuel] shows enough;
    [raw_members] has the length of its text; decimal rendering has a round per
    bit; trimming and [duration_sum] have the length of their text, each round
    taking at least a byte; [scale_up] has 400 rounds, more than the decimal
    exponent of any float64, and [shortest] tries up to 17 digits, which
    determine a float64.  Integers are unbounded where the source cannot overflow
    them and wrap or saturate where it can ([wrap64], [wrapu64], [dur_mul],
    [tSub]); sequence numbers are 64-bit.

    ** Parameters

    Code outside the repository is a parameter: the YAML library, cron schedules,
    JSON canonicalisation, Ed25519 and RSA signatures, PEM and DER parsing,
    certificates, the Unicode table of printable runes, and what the outside
    answers to an action ([ext]: clock, random bytes, map iteration order, the
    audit writer, HTTP, files).  What a theorem needs of them is a hypothesis that
    states documented behaviour, and its witness instantiates them.

    ** Not modelled

    Sockets and timeouts of package net/http (a listener is what it accepts, when
    it returns and what [Shutdown] waits for); log lines and the texts of errors
    that only reach the log; response headers other than Cache-Control;
    cancellation of a request's context; the monotonic part of clock readings;
    float64 infinities and NaN, which the sources cannot reach. *)

From stdpp Require Export base gmap strings list sorting.
From Stdlib Require Export ZArith Lia.

Declare Scope go_scope.
Delimit Scope go_scope with go.

(** ** Results of fallible code: a value or an error *)

Inductive res (E A : Type) : Type :=
| Ok (a : A)
| Err (e : E).
Arguments Ok {E A} a.
Arguments Err {E A} e.

#[global] Instance res_ret {E} : MRet (res E) := fun _ a => Ok a.
#[global] Instance res_bind {E} : MBind (res E) :=
  fun _ _ f m => match m with Ok a => f a | Err e => Err e end.
#[global] Instance res_eq_dec `{EqDecision E, EqDecision A} : EqDecision (res E A).
Proof. solve_decision. Defined.

Definition is_Ok {E A} (r : res E A) : Prop := ∃ a, r = Ok a.

(** A guard with the error to return when the condition fails, the shape of
    every [if !cond { return nil, err }] in the sources. *)
Definition check {E} (b : bool) (e : E) : res E () := if b then Ok () else Err e.

(** ** Machine integers: Go's [int64] and [uint64], kept at their width *)

Definition int64_max : Z := 2 ^ 63 - 1.
Definition int64_min : Z := - 2 ^ 63.
Definition in_int64 (z : Z) : Prop := (int64_min ≤ z ≤ int64_max)%Z.
Definition wrap64 (z : Z) : Z := ((z + 2 ^ 63) `mod` 2 ^ 64 - 2 ^ 63)%Z.
Definition uint64_mod : Z := 2 ^ 64.
Definition wrapu64 (z : Z) : Z := (z `mod` uint64_mod)%Z.

(** ** Automation *)

Create HintDb acb discriminated.
Create Rewrite HintDb acb.
Create Rewrite HintDb regex.

(** Splits the outermost conditional of a hypothesis or of the goal. *)
Ltac go_case :=
  match goal with
  | |- context [bool_decide ?P] => destruct (bool_decide_reflect P)
  | H : context [bool_decide ?P] |- _ => destruct (bool_decide_reflect P)
  | |- _ => case_match
  end.

Ltac res_inv :=
  repeat match goal with
  | H : Ok _ = Ok _ |- _ => injection H as H; subst
  | H : Err _ = Err _ |- _ => injection H as H; subst
  | H : Ok _ = Err _ |- _ => discriminate H
  | H : Err _ = Ok _ |- _ => discriminate H
  end.

(** ** Generic lemmas *)

Section Res.
Context {E A B : Type}.

Lemma bind_Ok_inv (m : res E A) (f : A → res E B) (b : B) :
  (m ≫= f) = Ok b ↔ ∃ a, m = Ok a ∧ f a = Ok b.
Proof. destruct m as [a|e]; cbn; [split; [eauto | by intros (?&[= ->]&?)] | split; [done | by intros (?&?&?)]]. Qed.

Lemma check_bind_Ok (b : bool) (e : E) (f : () → res E B) (r : B) :
  (check b e ≫= f) = Ok r ↔ b = true ∧ f () = Ok r.
Proof. destruct b; cbn; naive_solver. Qed.

Lemma check_Ok (b : bool) (e : E) : check b e = Ok () ↔ b = true.
Proof. by destruct b. Qed.

End Res.

Lemma wrap64_id (z : Z) : in_int64 z → wrap64 z = z.
Proof.
  unfold in_int64, int64_min, int64_max, wrap64. intros H.
  rewrite Z.mod_small; lia.
Qed.

Lemma wrap64_range (z : Z) : in_int64 (wrap64 z).
Proof.
  unfold in_int64, int64_min, int64_max, wrap64.
  pose proof (Z.mod_pos_bound (z + 2 ^ 63) (2 ^ 64)). lia.
Qed.

Lemma wrapu64_id (z : Z) : (0 ≤ z < uint64_mod)%Z → wrapu64 z = z.
Proof. intros. by apply Z.mod_small. Qed.

Lemma wrapu64_range (z : Z) : (0 ≤ wrapu64 z < uint64_mod)%Z.
Proof. apply Z.mod_pos_bound. by compute. Qed.

Lemma map_keys_elem {V} (m : gmap string V) k : k ∈ (map_to_list m).*1 ↔ is_Some (m !! k).
Proof.
  rewrite list_elem_of_fmap. split.
  - intros ([k' v] & -> & Hin). apply elem_of_map_to_list in Hin. eauto.
  - intros [v Hv]. exists (k, v). split; [done|]. by apply elem_of_map_to_list.
Qed.

(** Sorting the keys of a map, whatever order they come in. *)
Lemma sorted_keys {V} (m : gmap string V) (l := merge_sort String.le (map_to_list m).*1) :
  StronglySorted String.le l ∧ NoDup l ∧ ∀ k, k ∈ l ↔ is_Some (m !! k).
Proof.
  split; [apply (StronglySorted_merge_sort _)|]. split.
  - unfold l. rewrite merge_sort_Permutation. apply NoDup_fst_map_to_list.
  - intros k. unfold l. rewrite merge_sort_Permutation. apply map_keys_elem.
Qed.

#[export] Hint Resolve wrap64_range wrapu64_range : acb.
#[export] Hint Rewrite @check_bind_Ok @check_Ok negb_true_iff orb_true_iff andb_true_iff : acb.
#[export] Hint Rewrite bool_decide_eq_true bool_decide_eq_false : acb.

(** ** Indexes: maps built from a list by a key *)

Lemma index_lookup_None {A V} (key : A → string) (val : A → V) (l : list A) k :
  k ∉ key <$> l → (list_to_map ((λ a, (key a, val a)) <$> l) : gmap string V) !! k = None.
Proof. intros H. apply not_elem_of_list_to_map_1. by rewrite <-list_fmap_compose. Qed.

(** Inserting a new first element commutes with building the index. *)
Lemma index_cons {A V} (key : A → string) (val : A → V) a (l : list A) (m : gmap string V) :
  key a ∉ key <$> l →
  list_to_map ((λ a, (key a, val a)) <$> l) ∪ <[key a := val a]> m
  = list_to_map ((λ a, (key a, val a)) <$> (a :: l)) ∪ m.
Proof.
  intros H. rewrite fmap_cons, list_to_map_cons, <-insert_union_l.
  symmetry. apply insert_union_r. by apply index_lookup_None.
Qed.

Lemma index_lookup {A V} (key : A → string) (val : A → V) (l : list A) k v :
  NoDup (key <$> l) →
  (list_to_map ((λ a, (key a, val a)) <$> l) : gmap string V) !! k = Some v
  ↔ ∃ a, a ∈ l ∧ key a = k ∧ val a = v.
Proof.
  intros Hnd. rewrite <-elem_of_list_to_map by (by rewrite <-list_fmap_compose).
  rewrite list_elem_of_fmap. naive_solver.
Qed.

(** Looking up the rest of a list after the first element was inserted. *)
Lemma fresh_insert {A V} (key : A → string) a v (m : gmap string V) (l : list A) :
  Forall (λ b, <[key a := v]> m !! key b = None) l ↔ key a ∉ key <$> l ∧ Forall (λ b, m !! key b = None) l.
Proof. rewrite !Forall_forall, list_elem_of_fmap. setoid_rewrite lookup_insert_None. naive_solver. Qed.
