(* ===== verification/GoStrings.v ===== *)
(** * Go strings

    Go strings are byte strings; here they are [string]s, whose characters are
    the 256 bytes.  The functions below are the operations of package [strings]
    (and the string operators) the sources call, at the separators they use. *)

From S2P Require Import Prelude.
From Stdlib Require Import Ascii.
Local Open Scope stdpp_scope.

Abbreviation chars := String.list_ascii_of_string.
Abbreviation of_chars := String.string_of_list_ascii.

(** [c ∈ s]: the byte occurs in the string. *)
Definition has_byte (c : ascii) (s : string) : Prop := c ∈ chars s.

Definition byte_val (c : ascii) : Z := Z.of_N (N_of_ascii c).
Definition byte_of (z : Z) : ascii := ascii_of_N (Z.to_N z).

Definition slen (s : string) : Z := Z.of_nat (String.length s).

(** [strings.HasPrefix(s, p)] *)
Definition HasPrefix (s p : string) : bool := String.prefix p s.

(** [strings.CutPrefix(s, p)]: the rest, when [p] is a prefix. *)
Fixpoint CutPrefix (s p : string) {struct p} : option string :=
  match p, s with
  | EmptyString, _ => Some s
  | String c p', String d s' => if Ascii.eqb c d then CutPrefix s' p' else None
  | String _ _, EmptyString => None
  end.

(** [strings.TrimPrefix(s, p)] *)
Definition TrimPrefix (s p : string) : string := default s (CutPrefix s p).

(** [strings.Cut(s, sep)] for a one-byte separator: before, after, found. *)
Fixpoint Cut (s : string) (sep : ascii) : string * string * bool :=
  match s with
  | EmptyString => ("", "", false)
  | String c s' =>
    if Ascii.eqb c sep then ("", s', true)
    else let '(a, b, ok) := Cut s' sep in (String c a, b, ok)
  end.

(** [strings.Split(s, sep)] for a one-byte separator. *)
Fixpoint Split (s : string) (sep : ascii) : list string :=
  match s with
  | EmptyString => [""]
  | String c s' =>
    if Ascii.eqb c sep then "" :: Split s' sep
    else match Split s' sep with
         | w :: ws => String c w :: ws
         | [] => [String c ""]
         end
  end.

(** [strings.Join(ws, sep)] *)
Definition Join (ws : list string) (sep : string) : string := String.concat sep ws.

Fixpoint dropWhile {A} (f : A → bool) (l : list A) : list A :=
  match l with
  | x :: l' => if f x then dropWhile f l' else l
  | [] => []
  end.

(** [strings.TrimRight(s, cutset)] for a one-byte cutset. *)
Definition TrimRight (s : string) (c : ascii) : string :=
  of_chars (reverse (dropWhile (Ascii.eqb c) (reverse (chars s)))).

(** UTF-8 encodings of the runes [unicode.IsSpace] accepts. *)
Definition space_encodings : list (list Z) :=
  [[9]; [10]; [11]; [12]; [13]; [32]; [194; 133]; [194; 160]; [225; 154; 128];
   [226; 128; 128]; [226; 128; 129]; [226; 128; 130]; [226; 128; 131]; [226; 128; 132];
   [226; 128; 133]; [226; 128; 134]; [226; 128; 135]; [226; 128; 136]; [226; 128; 137];
   [226; 128; 138]; [226; 128; 168]; [226; 128; 169]; [226; 128; 175]; [226; 129; 159];
   [227; 128; 128]]%Z.

Fixpoint strip_bytes (p : list Z) (l : list ascii) : option (list ascii) :=
  match p, l with
  | [], _ => Some l
  | z :: p', c :: l' => if Z.eqb z (byte_val c) then strip_bytes p' l' else None
  | _ :: _, [] => None
  end.

Definition strip_space (encs : list (list Z)) (l : list ascii) : option (list ascii) :=
  foldr (λ e acc, match strip_bytes e l with Some r => Some r | None => acc end) None encs.

Fixpoint trim_left_go (fuel : nat) (encs : list (list Z)) (l : list ascii) : list ascii :=
  match fuel with
  | O => l
  | S n => match strip_space encs l with Some l' => trim_left_go n encs l' | None => l end
  end.

(** [strings.TrimSpace(s)]: every round strips at least one byte, so the length
    of the string is enough fuel in both directions. *)
Definition TrimSpace (s : string) : string :=
  let l := trim_left_go (String.length s) space_encodings (chars s) in
  of_chars (reverse (trim_left_go (length l) (reverse <$> space_encodings) (reverse l))).

(** Decimal rendering of an integer ([%d], [strconv.Itoa]).  Each round writes
    one digit, so [log2 n + 1] rounds are enough. *)
Definition digit (z : Z) : ascii := byte_of (48 + z).

Fixpoint dec_go (fuel : nat) (n : Z) (acc : string) : string :=
  match fuel with
  | O => acc
  | S k =>
    let acc' := String (digit (n `mod` 10)) acc in
    if (n <? 10)%Z then acc' else dec_go k (n `div` 10) acc'
  end.

Definition itoa_nat (n : Z) : string := dec_go (S (Z.to_nat (Z.log2 n))) n "".
Definition itoa (z : Z) : string :=
  if (z <? 0)%Z then "-" +:+ itoa_nat (- z) else itoa_nat z.

(** Zero-padding to a minimal width ([appendInt] of package [time]). *)
Fixpoint zeros (n : nat) : string := match n with O => "" | S k => String "0" (zeros k) end.
Definition pad (w : nat) (n : Z) : string :=
  let s := itoa_nat n in zeros (w - String.length s) +:+ s.

(** The number a digit string denotes. *)
Fixpoint atoi_go (acc : Z) (s : string) : Z :=
  match s with
  | EmptyString => acc
  | String c s' => atoi_go (acc * 10 + (byte_val c - 48))%Z s'
  end.
Definition atoi (s : string) : Z := atoi_go 0 s.

(** ** Lemmas *)

Lemma append_nil_l s : "" +:+ s = s.
Proof. done. Qed.

Lemma append_cons c s1 s2 : String c s1 +:+ s2 = String c (s1 +:+ s2).
Proof. done. Qed.

Lemma append_nil_r s : s +:+ "" = s.
Proof. induction s as [|c s IH]; [done|]. by rewrite append_cons, IH. Qed.

Lemma append_assoc s1 s2 s3 : s1 +:+ s2 +:+ s3 = (s1 +:+ s2) +:+ s3.
Proof. induction s1 as [|c s1 IH]; [done|]. by rewrite !append_cons, IH. Qed.

Lemma chars_append s1 s2 : chars (s1 +:+ s2) = chars s1 ++ chars s2.
Proof. induction s1 as [|c s1 IH]; [done|]. rewrite append_cons. cbn. by rewrite IH. Qed.

Lemma length_chars s : length (chars s) = String.length s.
Proof. induction s; cbn; congruence. Qed.

Lemma length_append s1 s2 : String.length (s1 +:+ s2) = String.length s1 + String.length s2.
Proof. by rewrite <-!length_chars, chars_append, length_app. Qed.

Lemma chars_inj s1 s2 : chars s1 = chars s2 → s1 = s2.
Proof.
  intros H. rewrite <-(String.string_of_list_ascii_of_string s1), H.
  apply String.string_of_list_ascii_of_string.
Qed.

Lemma has_byte_nil c : ¬ has_byte c "".
Proof. unfold has_byte. cbn. apply not_elem_of_nil. Qed.

Lemma has_byte_cons c d s : has_byte c (String d s) ↔ c = d ∨ has_byte c s.
Proof. unfold has_byte. cbn. apply elem_of_cons. Qed.

Lemma has_byte_append c s1 s2 : has_byte c (s1 +:+ s2) ↔ has_byte c s1 ∨ has_byte c s2.
Proof. unfold has_byte. rewrite chars_append. apply elem_of_app. Qed.

#[global] Instance has_byte_dec c s : Decision (has_byte c s).
Proof. unfold has_byte. apply _. Defined.

Lemma CutPrefix_Some s p r : CutPrefix s p = Some r ↔ s = p +:+ r.
Proof.
  revert s. induction p as [|c p IH]; intros s; cbn [CutPrefix].
  - rewrite append_nil_l. naive_solver.
  - rewrite append_cons. destruct s as [|d s]; [naive_solver|].
    destruct (Ascii.eqb_spec c d) as [->|Hne]; [|naive_solver].
    rewrite IH. naive_solver.
Qed.

Lemma CutPrefix_append p r : CutPrefix (p +:+ r) p = Some r.
Proof. by apply CutPrefix_Some. Qed.

Lemma HasPrefix_CutPrefix s p : HasPrefix s p = bool_decide (is_Some (CutPrefix s p)).
Proof.
  unfold HasPrefix. revert s. induction p as [|c p IH]; intros s; cbn; [by destruct s|].
  destruct s as [|d s]; [done|]. cbn. destruct (Ascii.eqb_spec c d) as [->|Hne].
  - destruct (ascii_dec d d); [apply IH|done].
  - by destruct (ascii_dec c d).
Qed.

Lemma HasPrefix_spec s p : HasPrefix s p = true ↔ ∃ r, s = p +:+ r.
Proof.
  rewrite HasPrefix_CutPrefix, bool_decide_eq_true. unfold is_Some.
  by setoid_rewrite CutPrefix_Some.
Qed.

(** [Cut] splits at the first separator. *)
Lemma Cut_found s sep a b :
  Cut s sep = (a, b, true) ↔ s = a +:+ String sep b ∧ ¬ has_byte sep a.
Proof.
  revert a b. induction s as [|c s IH]; intros a b; cbn [Cut].
  - split; [naive_solver|]. intros [H _]. by destruct a.
  - destruct (Ascii.eqb_spec c sep) as [->|Hne].
    + split.
      * intros [= <- <-]. split; [done|apply has_byte_nil].
      * intros [H Hn]. destruct a as [|d a]; rewrite ?append_cons in H; [by injection H as <-|].
        injection H as Hc H. destruct Hn. apply has_byte_cons. by left.
    + destruct (Cut s sep) as [[a' b'] ok] eqn:E. split.
      * intros [= <- <- ->]. destruct (IH a' b') as [IH' _].
        destruct (IH' eq_refl) as [-> Hn]. rewrite append_cons. split; [done|].
        rewrite has_byte_cons. naive_solver.
      * intros [H Hn]. destruct a as [|d a]; rewrite ?append_cons in H; injection H as Hc H; [done|]. subst d.
        assert ((a', b', ok) = (a, b, true)) as [= -> -> ->]; [|done].
        apply IH. rewrite has_byte_cons in Hn. naive_solver.
Qed.

Lemma Cut_append a sep b : ¬ has_byte sep a → Cut (a +:+ String sep b) sep = (a, b, true).
Proof. intros. by apply Cut_found. Qed.

Lemma Cut_not_found s sep : ¬ has_byte sep s → Cut s sep = (s, "", false).
Proof.
  induction s as [|c s IH]; [done|]. rewrite has_byte_cons. intros Hn. cbn.
  destruct (Ascii.eqb_spec c sep) as [->|Hne]; [naive_solver|]. by rewrite IH by naive_solver.
Qed.

Lemma Split_not_nil s sep : Split s sep ≠ [].
Proof. destruct s as [|c s]; cbn; [done|]. repeat case_match; done. Qed.

(** Splitting never leaves a separator inside a piece, and joining the pieces
    gives the string back. *)
Lemma Split_Join s sep : Join (Split s sep) (String sep "") = s.
Proof.
  unfold Join. induction s as [|c s IH]; [done|]. cbn.
  pose proof (Split_not_nil s sep). destruct (Ascii.eqb_spec c sep) as [->|Hne].
  - destruct (Split s sep) as [|w ws] eqn:E; [done|]. cbn in *. by rewrite IH.
  - destruct (Split s sep) as [|w ws] eqn:E; [done|].
    destruct ws; cbn in *; by rewrite <-IH.
Qed.

Lemma Split_no_sep s sep : Forall (λ w, ¬ has_byte sep w) (Split s sep).
Proof.
  induction s as [|c s IH]; cbn.
  - constructor; [apply has_byte_nil|constructor].
  - destruct (Ascii.eqb_spec c sep) as [->|Hne].
    + constructor; [apply has_byte_nil|done].
    + pose proof (Split_not_nil s sep). destruct (Split s sep) as [|w ws]; [done|].
      apply Forall_cons in IH as [Hw Hws]. constructor; [|done].
      rewrite has_byte_cons. naive_solver.
Qed.

(** The occurrences of a byte. *)
Fixpoint count_byte (c : ascii) (s : string) : nat :=
  match s with
  | EmptyString => 0
  | String d s' => (if Ascii.eqb c d then 1 else 0) + count_byte c s'
  end.

Lemma count_byte_app c s1 s2 : count_byte c (s1 +:+ s2) = count_byte c s1 + count_byte c s2.
Proof. induction s1 as [|d s1 IH]; [done|]. rewrite append_cons. cbn. rewrite IH. lia. Qed.

Lemma count_byte_none c s : ¬ has_byte c s → count_byte c s = 0.
Proof.
  induction s as [|d s IH]; [done|]. rewrite has_byte_cons. intros Hn. cbn.
  destruct (Ascii.eqb_spec c d); [naive_solver|]. apply IH. naive_solver.
Qed.

Lemma count_byte_pos c s : has_byte c s → 0 < count_byte c s.
Proof.
  induction s as [|d s IH]; [by intros ?%has_byte_nil|]. rewrite has_byte_cons. cbn.
  destruct (Ascii.eqb_spec c d); [lia|]. intros [?|?%IH]; [done|lia].
Qed.

Lemma Split_cons a sep b : ¬ has_byte sep a → Split (a +:+ String sep b) sep = a :: Split b sep.
Proof.
  induction a as [|c a IH]; intros Hn.
  - rewrite append_nil_l. cbn. by destruct (Ascii.eqb_spec sep sep).
  - rewrite has_byte_cons in Hn. rewrite append_cons. cbn.
    destruct (Ascii.eqb_spec c sep) as [->|]; [naive_solver|]. by rewrite IH by naive_solver.
Qed.

Lemma Split_whole s sep : ¬ has_byte sep s → Split s sep = [s].
Proof.
  induction s as [|c s IH]; [done|]. rewrite has_byte_cons. intros Hn. cbn. destruct (Ascii.eqb_spec c sep) as [->|]; [naive_solver|].
  rewrite IH by naive_solver. done.
Qed.

(** *** Decimal *)

Definition is_digit (c : ascii) : bool := (48 <=? byte_val c)%Z && (byte_val c <=? 57)%Z.
Definition all_digits (s : string) : Prop := Forall (λ c, is_digit c = true) (chars s).

Lemma byte_val_range c : (0 ≤ byte_val c < 256)%Z.
Proof. unfold byte_val. pose proof (N_ascii_bounded c). lia. Qed.

Lemma byte_val_of z : (0 ≤ z < 256)%Z → byte_val (byte_of z) = z.
Proof. intros. unfold byte_val, byte_of. rewrite N_ascii_embedding; lia. Qed.

Lemma byte_of_val c : byte_of (byte_val c) = c.
Proof. unfold byte_val, byte_of. by rewrite N2Z.id, ascii_N_embedding. Qed.

Lemma digit_val z : (0 ≤ z < 10)%Z → byte_val (digit z) = (48 + z)%Z.
Proof. intros. apply byte_val_of. lia. Qed.

Lemma is_digit_digit z : (0 ≤ z < 10)%Z → is_digit (digit z) = true.
Proof. intros. unfold is_digit. rewrite digit_val by done. lia. Qed.

Lemma dec_go_value fuel n acc v :
  (0 ≤ n < 10 ^ Z.of_nat fuel)%Z → v = 0%Z → (fuel ≠ 0)%nat →
  atoi_go v (dec_go fuel n acc) = atoi_go n acc.
Proof.
  intros Hn -> Hf. revert n acc Hn Hf. induction fuel as [|k IH]; intros n acc Hn Hf; [done|].
  cbn [dec_go]. pose proof (Z.mod_pos_bound n 10 ltac:(lia)).
  destruct (Z.ltb_spec n 10).
  - cbn [atoi_go]. rewrite digit_val by lia. rewrite Z.mod_small by lia. f_equal. lia.
  - rewrite Nat2Z.inj_succ, Z.pow_succ_r in Hn by lia. destruct k as [|k]; [cbn in Hn; lia|].
    rewrite IH; [|split; [apply Z.div_pos; lia|apply Z.div_lt_upper_bound; lia]|done].
    cbn [atoi_go]. rewrite digit_val by lia. f_equal.
    pose proof (Z.div_mod n 10). lia.
Qed.

Lemma dec_go_digits fuel n acc :
  (0 ≤ n)%Z → all_digits acc → all_digits (dec_go fuel n acc).
Proof.
  unfold all_digits. revert n acc. induction fuel as [|k IH]; intros n acc Hn Ha; [done|].
  cbn [dec_go]. pose proof (Z.mod_pos_bound n 10 ltac:(lia)).
  assert (Forall (λ c, is_digit c = true) (chars (String (digit (n `mod` 10)) acc))).
  { cbn. constructor; [by apply is_digit_digit|done]. }
  destruct (Z.ltb_spec n 10); [done|]. apply IH; [apply Z.div_pos; lia|done].
Qed.

Lemma itoa_nat_value n : (0 ≤ n)%Z → atoi (itoa_nat n) = n.
Proof.
  intros Hn. unfold atoi, itoa_nat. rewrite dec_go_value; [done| |done|done].
  split; [done|]. rewrite Nat2Z.inj_succ, Z2Nat.id by apply Z.log2_nonneg.
  destruct (decide (n = 0%Z)) as [->|]; [done|].
  destruct (Z.log2_spec n) as [_ Hlt]; [lia|].
  eapply Z.lt_le_trans; [exact Hlt|]. apply Z.pow_le_mono_l. lia.
Qed.

Lemma itoa_nat_digits n : (0 ≤ n)%Z → all_digits (itoa_nat n).
Proof. intros. apply dec_go_digits; [done|constructor]. Qed.

Lemma atoi_go_zeros k s : atoi_go 0 (zeros k +:+ s) = atoi_go 0 s.
Proof. induction k as [|k IH]; [done|]. cbn [zeros]. rewrite append_cons. apply IH. Qed.

Lemma pad_value w n : (0 ≤ n)%Z → atoi (pad w n) = n.
Proof.
  intros. unfold pad, atoi. rewrite atoi_go_zeros. by apply itoa_nat_value.
Qed.

Lemma pad_digits w n : (0 ≤ n)%Z → all_digits (pad w n).
Proof.
  intros. unfold pad, all_digits. rewrite chars_append. apply Forall_app. split.
  - generalize (w - String.length (itoa_nat n)). intros k. induction k; cbn; by constructor.
  - by apply itoa_nat_digits.
Qed.

Lemma all_digits_no_byte c s : all_digits s → is_digit c = false → ¬ has_byte c s.
Proof.
  unfold all_digits, has_byte. rewrite Forall_forall. intros H Hc Hin.
  specialize (H c Hin). congruence.
Qed.

(** Lines each ended by the separator read back as the lines and an empty rest. *)
Lemma Split_lines sep ls :
  Forall (λ l, ¬ has_byte sep l) ls → Split (Join ((λ l, l +:+ String sep "") <$> ls) "") sep = ls ++ [""].
Proof.
  induction 1 as [|l ls Hl _ IH]; [done|]. rewrite fmap_cons.
  assert (Ej : Join ((l +:+ String sep "") :: ((λ l, l +:+ String sep "") <$> ls)) ""
               = l +:+ (String sep (Join ((λ l, l +:+ String sep "") <$> ls) ""))).
  { unfold Join. cbn [String.concat]. destruct ls as [|l2 ls]; [done|]. rewrite fmap_cons, <-append_assoc. done. }
  rewrite Ej, Split_cons by done. by rewrite IH.
Qed.

#[export] Hint Resolve pad_digits itoa_nat_digits : acb.
#[export] Hint Rewrite append_cons append_nil_r CutPrefix_append : acb.
