(* ===== verification/GoTime.v ===== *)
(** * Go times and durations

    [time.Time] is the number of nanoseconds since 0001-01-01T00:00:00Z, Go's
    zero time, as an unbounded [Z]; [time.Duration] is an [int64] number of
    nanoseconds, and what can overflow it is written with its wrap-around
    ([dur_mul]) or its saturation ([tSub]).  A monotonic clock reading is not
    kept apart from the wall clock.  The calendar follows the 400/100/4/1-year
    cycles of package [time]. *)

From S2P Require Import Prelude GoStrings.
From Stdlib Require Import Ascii.
Local Open Scope Z_scope.
Local Open Scope stdpp_scope.

Abbreviation Time := Z (only parsing).
Abbreviation Duration := Z (only parsing).

Definition Nanosecond : Duration := 1.
Definition Second : Duration := 10 ^ 9.
Definition Minute : Duration := 60 * Second.
Definition Hour : Duration := 60 * Minute.
Definition zeroTime : Time := 0.

(** [d * e] on durations: an [int64] product. *)
Definition dur_mul (d e : Duration) : Duration := wrap64 (d * e).

(** [d / e] on durations truncates toward zero. *)
Definition dur_div (d e : Duration) : Z := Z.quot d e.

(** [t.Add(d)], [t.Sub(u)] (saturating), [t.After(u)], [t.IsZero()] *)
Definition tAdd (t : Time) (d : Duration) : Time := t + d.
Definition tSub (t u : Time) : Duration := Z.max int64_min (Z.min int64_max (t - u)).
Definition After (t u : Time) : bool := u <? t.
Definition IsZero (t : Time) : bool := t =? zeroTime.

(** [t.Unix()] *)
Definition unix_epoch : Z := 62135596800.
Definition Unix (t : Time) : Z := t `div` Second - unix_epoch.

(** ** Calendar *)

Definition day_of (t : Time) : Z := t `div` (24 * Hour).

Definition isLeap (y : Z) : bool :=
  (y `mod` 4 =? 0) && (negb (y `mod` 100 =? 0) || (y `mod` 400 =? 0)).

(** Days since year 1 to (year, zero-based day of the year). *)
Definition year_yday (days : Z) : Z * Z :=
  let n400 := days `div` 146097 in
  let d1 := days - 146097 * n400 in
  let n100 := let n := d1 `div` 36524 in n - n `div` 4 in
  let d2 := d1 - 36524 * n100 in
  let n4 := d2 `div` 1461 in
  let d3 := d2 - 1461 * n4 in
  let n1 := let n := d3 `div` 365 in n - n `div` 4 in
  (1 + 400 * n400 + 100 * n100 + 4 * n4 + n1, d3 - 365 * n1).

Definition daysBefore (m : Z) : Z :=
  nth (Z.to_nat m) [0; 31; 59; 90; 120; 151; 181; 212; 243; 273; 304; 334; 365] 0.

(** Zero-based day of the year to (month 1..12, day 1..31). *)
Definition month_day (leap : bool) (yday : Z) : Z * Z :=
  if leap && (yday =? 59) then (2, 29)
  else
    let day := if leap && (59 <? yday) then yday - 1 else yday in
    let m := day `div` 31 in
    if daysBefore (m + 1) <=? day then (m + 2, day - daysBefore (m + 1) + 1)
    else (m + 1, day - daysBefore m + 1).

(** [t.UTC().Format("2006-01-02")] *)
Definition date_of_day (days : Z) : string :=
  let '(y, yd) := year_yday days in
  let '(m, d) := month_day (isLeap y) yd in
  (pad 4 y) +:+ "-" +:+ (pad 2 m) +:+ "-" +:+ (pad 2 d).
Definition FormatDate (t : Time) : string := date_of_day (day_of t).

(** [t.UTC().Format(time.RFC3339)] *)
Definition FormatRFC3339 (t : Time) : string :=
  let s := (t `div` Second) `mod` 86400 in
  (FormatDate t) +:+ "T" +:+ (pad 2 (s `div` 3600)) +:+ ":" +:+ (pad 2 ((s `div` 60) `mod` 60))
  +:+ ":" +:+ (pad 2 (s `mod` 60)) +:+ "Z".

(** ** Lemmas *)

Lemma tSub_range t u : in_int64 (tSub t u).
Proof. unfold tSub, in_int64, int64_min, int64_max. lia. Qed.

Lemma tSub_exact t u : in_int64 (t - u) → tSub t u = t - u.
Proof. unfold tSub, in_int64, int64_min, int64_max. lia. Qed.

Lemma dur_mul_exact d e : in_int64 (d * e) → dur_mul d e = d * e.
Proof. apply wrap64_id. Qed.

(** The inverse of the calendar. *)
Definition days_of (y yd : Z) : Z :=
  let y' := y - 1 in 365 * y' + y' `div` 4 - y' `div` 100 + y' `div` 400 + yd.

Definition yday_of (leap : bool) (m d : Z) : Z :=
  daysBefore (m - 1) + (d - 1) + (if leap && (2 <? m) then 1 else 0).

Ltac div_lia := Z.to_euclidean_division_equations; lia.

Lemma year_yday_range days :
  0 ≤ days → 1 ≤ (year_yday days).1 ∧ 0 ≤ (year_yday days).2 < 366.
Proof. unfold year_yday. cbn. intros Hd. split; div_lia. Qed.

Lemma days_of_year_yday days :
  0 ≤ days → days_of (year_yday days).1 (year_yday days).2 = days.
Proof.
  unfold year_yday, days_of. cbn. intros Hd.
  set (n400 := days `div` 146097). set (d1 := days - 146097 * n400).
  assert (0 ≤ d1 < 146097) by (subst d1 n400; div_lia).
  set (k := d1 `div` 36524). assert (0 ≤ k ≤ 4) by (subst k; div_lia).
  set (n100 := k - k `div` 4). set (d2 := d1 - 36524 * n100).
  assert (0 ≤ n100 ≤ 3 ∧ 0 ≤ d2 ≤ 36524) by (subst n100 d2 k; div_lia).
  set (n4 := d2 `div` 1461). set (d3 := d2 - 1461 * n4).
  assert (0 ≤ n4 ≤ 24 ∧ 0 ≤ d3 ≤ 1460) by (subst n4 d3; div_lia).
  set (j := d3 `div` 365). assert (0 ≤ j ≤ 4) by (subst j; div_lia).
  set (n1 := j - j `div` 4). assert (0 ≤ n1 ≤ 3) by (subst n1; div_lia).
  replace (1 + 400 * n400 + 100 * n100 + 4 * n4 + n1 - 1)
    with (400 * n400 + 100 * n100 + 4 * n4 + n1) by lia.
  replace ((400 * n400 + 100 * n100 + 4 * n4 + n1) `div` 4)
    with (100 * n400 + 25 * n100 + n4) by div_lia.
  replace ((400 * n400 + 100 * n100 + 4 * n4 + n1) `div` 100)
    with (4 * n400 + n100) by div_lia.
  replace ((400 * n400 + 100 * n100 + 4 * n4 + n1) `div` 400) with n400 by div_lia.
  subst d3 d2 d1. lia.
Qed.

Lemma month_day_table leap :
  forallb (λ yd, let '(m, d) := month_day leap yd in
                 (1 <=? m) && (1 <=? d) && (yday_of leap m d =? yd))
    (seqZ 0 366) = true.
Proof. destruct leap; vm_compute; reflexivity. Qed.

Lemma month_day_inv leap yd :
  0 ≤ yd < 366 →
  1 ≤ (month_day leap yd).1 ∧ 1 ≤ (month_day leap yd).2
  ∧ yday_of leap (month_day leap yd).1 (month_day leap yd).2 = yd.
Proof.
  intros Hyd. pose proof (month_day_table leap) as H.
  rewrite forallb_forall in H. specialize (H yd).
  destruct (month_day leap yd) as [m d]. cbn.
  pose proof (H ltac:(apply list_elem_of_In, elem_of_seqZ; lia)) as H'.
  apply andb_prop in H' as [[??]%andb_prop ?]. lia.
Qed.

(** Two pieces of digits around a separator determine both pieces. *)
Lemma digits_sep_inj a1 a2 sep b1 b2 :
  all_digits a1 → all_digits a2 → is_digit sep = false →
  a1 +:+ String sep b1 = a2 +:+ String sep b2 → a1 = a2 ∧ b1 = b2.
Proof.
  intros H1 H2 Hs He.
  pose proof (Cut_append a1 sep b1 (all_digits_no_byte _ _ H1 Hs)) as E1.
  pose proof (Cut_append a2 sep b2 (all_digits_no_byte _ _ H2 Hs)) as E2.
  rewrite He, E2 in E1. by injection E1.
Qed.

Lemma pad_inj w m n : 0 ≤ m → 0 ≤ n → pad w m = pad w n → m = n.
Proof. intros ?? E. rewrite <-(pad_value w m), <-(pad_value w n) by done. by rewrite E. Qed.

(** Distinct UTC days have distinct date strings. *)
Lemma date_of_day_inj a b : 0 ≤ a → 0 ≤ b → date_of_day a = date_of_day b → a = b.
Proof.
  intros Ha Hb. unfold date_of_day.
  destruct (year_yday_range a Ha) as [Hya Hda], (year_yday_range b Hb) as [Hyb Hdb].
  pose proof (days_of_year_yday a Ha) as Ea. pose proof (days_of_year_yday b Hb) as Eb.
  destruct (year_yday a) as [ya yda], (year_yday b) as [yb ydb]. cbn in *.
  destruct (month_day_inv (isLeap ya) yda Hda) as (Hma & Hdya & Ia).
  destruct (month_day_inv (isLeap yb) ydb Hdb) as (Hmb & Hdyb & Ib).
  destruct (month_day (isLeap ya) yda) as [ma da], (month_day (isLeap yb) ydb) as [mb db].
  cbn in *. rewrite !append_cons, !append_nil_l. intros E.
  apply digits_sep_inj in E as [Ey E]; [|auto with acb lia..|done].
  apply digits_sep_inj in E as [Em Ed]; [|auto with acb lia..|done].
  apply pad_inj in Ey, Em, Ed; [|lia..]. congruence.
Qed.

Lemma FormatDate_eq t u :
  0 ≤ t → 0 ≤ u → FormatDate t = FormatDate u ↔ day_of t = day_of u.
Proof.
  intros Ht Hu. unfold FormatDate. split; [|congruence].
  apply date_of_day_inj; unfold day_of, Hour, Minute, Second; apply Z.div_pos; lia.
Qed.

Lemma day_of_nonneg t : 0 ≤ t → 0 ≤ day_of t.
Proof. intros. unfold day_of, Hour, Minute, Second. apply Z.div_pos; lia. Qed.

(** 2026-07-03 12:00:02 UTC, from the API document's example event. *)
Example FormatRFC3339_example :
  FormatRFC3339 ((1783080002 + unix_epoch) * Second) = "2026-07-03T12:00:02Z".
Proof. vm_compute. reflexivity. Qed.

(** ** Reading RFC 3339, strictly, as [time.Time] decodes from JSON *)

Definition daysIn (y m : Z) : Z :=
  if (m =? 2) && isLeap y then 29 else daysBefore m - daysBefore (m - 1).

(** The [n] digits at the head of the text, within bounds. *)
Fixpoint take_digits (n : nat) (acc : Z) (l : list ascii) : option (Z * list ascii) :=
  match n, l with
  | O, _ => Some (acc, l)
  | S k, c :: l' => if is_digit c then take_digits k (10 * acc + (byte_val c - 48)) l' else None
  | S _, [] => None
  end.
Definition field (n : nat) (lo hi : Z) (l : list ascii) : option (Z * list ascii) :=
  '(v, r) ← take_digits n 0 l;
  if (lo <=? v) && (v <=? hi) then Some (v, r) else None.
Definition sep (c : ascii) (l : list ascii) : option (list ascii) :=
  match l with d :: l' => if Ascii.eqb c d then Some l' else None | [] => None end.

(** The digits of a fraction: nine of them count, the rest is read and dropped. *)
Fixpoint nanos (scale acc : Z) (l : list ascii) : Z * list ascii :=
  match l with
  | c :: l' => if is_digit c then nanos (scale `div` 10) (acc + scale * (byte_val c - 48)) l' else (acc, l)
  | [] => (acc, l)
  end.
Definition fraction (l : list ascii) : Z * list ascii :=
  match l with
  | p :: d :: l' =>
    if Ascii.eqb "." p && is_digit d then nanos (10 ^ 8) 0 (d :: l') else (0, l)
  | _ => (0, l)
  end.

(** The zone, as seconds east of UTC; nothing may follow it. *)
Definition zone (l : list ascii) : option Z :=
  match l with
  | [z] => if Ascii.eqb "Z" z then Some 0 else None
  | s :: l1 =>
    '(hh, l2) ← field 2 0 23 l1; l3 ← sep ":" l2; '(mm, l4) ← field 2 0 59 l3;
    match l4 with
    | [] => if Ascii.eqb "+" s then Some ((hh * 60 + mm) * 60)
            else if Ascii.eqb "-" s then Some (- ((hh * 60 + mm) * 60)) else None
    | _ => None
    end
  | [] => None
  end.

Definition ParseRFC3339 (s : string) : option Time :=
  '(y, l) ← field 4 0 9999 (chars s); l ← sep "-" l;
  '(m, l) ← field 2 1 12 l; l ← sep "-" l;
  '(d, l) ← field 2 1 (daysIn y m) l; l ← sep "T" l;
  '(hh, l) ← field 2 0 23 l; l ← sep ":" l;
  '(mm, l) ← field 2 0 59 l; l ← sep ":" l;
  '(ss, l) ← field 2 0 59 l;
  let '(ns, l) := fraction l in
  off ← zone l;
  Some ((days_of y (yday_of (isLeap y) m d) * 86400 + hh * 3600 + mm * 60 + ss - off) * Second + ns).

Example ParseRFC3339_examples :
  ParseRFC3339 "2026-07-03T12:00:02Z" = Some ((1783080002 + unix_epoch) * Second)
  ∧ ParseRFC3339 "2026-07-03T14:00:02.5+02:00" = Some ((1783080002 + unix_epoch) * Second + 500000000)
  ∧ ParseRFC3339 "2026-02-29T12:00:02Z" = None ∧ ParseRFC3339 "2026-07-03 12:00:02Z" = None.
Proof. by vm_compute. Qed.

(** ** [time.Duration.String] *)

(** The fraction of [v] in units of [10^prec], without its trailing zeros. *)
Definition fmtFrac (v : Z) (prec : nat) : string :=
  let r := v `mod` 10 ^ Z.of_nat prec in
  if r =? 0 then "" else "." +:+ (TrimRight (pad prec r) "0").

Definition dur_String (d : Duration) : string :=
  let u := Z.abs d in
  let sign := if d <? 0 then "-" else "" in
  if u =? 0 then "0s"
  else if u <? Second then
    let '(prec, unit) := if u <? 1000 then (0%nat, "ns")
                         else if u <? 1000000 then (3%nat, of_chars [byte_of 194; byte_of 181; "s"%char]) else (6%nat, "ms") in
    sign +:+ (itoa (u `div` 10 ^ Z.of_nat prec)) +:+ (fmtFrac u prec) +:+ unit
  else
    let s := u `div` Second in
    let m := s `div` 60 in
    let h := m `div` 60 in
    sign +:+ (if 0 <? h then (itoa h) +:+ "h" else "") +:+ (if 0 <? m then (itoa (m `mod` 60)) +:+ "m" else "")
    +:+ (itoa (s `mod` 60)) +:+ (fmtFrac u 9) +:+ "s".

Example dur_String_examples :
  dur_String (90 * Minute) = "1h30m0s" ∧ dur_String 1500000000 = "1.5s" ∧ dur_String 1500000 = "1.5ms"
  ∧ dur_String (- Hour) = "-1h0m0s".
Proof. by vm_compute. Qed.
