(* ===== verification/TlsReloader.v ===== *)
(** * The TLS key pair reloader (internal/tlsx/reloader.go)

    [GetCertificate] runs under the reloader's mutex: one atomic function of the
    reloader, of what [os.Stat] says of the certificate file (its modification
    time) and of what [tls.LoadX509KeyPair] returns.  The key pair itself (package
    crypto/tls) is a parameter type. *)

From S2P Require Import Prelude GoTime.
Local Open Scope Z_scope.
Local Open Scope stdpp_scope.

Inductive TlsErr := TStat | TLoad.

Section Reloader.
Context {Certificate : Type}.

Record Reloader := mkReloader { rl_cert : option Certificate; rl_mod : Time }.
Definition zeroReloader : Reloader := mkReloader None zeroTime.

Definition GetCertificate (r : Reloader) (stat : option Time) (load : option Certificate) : res TlsErr Certificate * Reloader :=
  match stat with
  | None => (match rl_cert r with Some c => Ok c | None => Err TStat end, r)
  | Some mtime =>
    match rl_cert r with
    | Some c =>
      if negb (After mtime (rl_mod r)) then (Ok c, r)
      else match load with
      | Some kp => (Ok kp, mkReloader (Some kp) mtime)
      | None => (Ok c, r)
      end
    | None =>
      match load with
      | Some kp => (Ok kp, mkReloader (Some kp) mtime)
      | None => (Err TLoad, r)
      end
    end
  end.

(** [Config()]: the eager first load. *)
Definition Config (stat : option Time) (load : option Certificate) : res TlsErr Reloader :=
  match GetCertificate zeroReloader stat load with
  | (Err e, _) => Err e
  | (Ok _, r) => Ok r
  end.

(** ** Serving *)

(** One handshake: what the files are at that moment. *)
Abbreviation hello := (option Time * option Certificate)%type.

Fixpoint serve (r : Reloader) (hs : list hello) : list (res TlsErr Certificate) * Reloader :=
  match hs with
  | [] => ([], r)
  | (stat, load) :: hs' =>
    let '(c, r1) := GetCertificate r stat load in
    let '(cs, r2) := serve r1 hs' in
    (c :: cs, r2)
  end.

(** The specification: the key pair of the latest good version of the files.  A
    version counts when it could be read and is newer than the one in use. *)
Definition rotate (cur : Certificate * Time) (h : hello) : Certificate * Time :=
  match h with
  | (Some mtime, Some kp) => if After mtime cur.2 then (kp, mtime) else cur
  | _ => cur
  end.

Lemma GetCertificate_rotate c t stat load :
  GetCertificate (mkReloader (Some c) t) stat load
  = (Ok (rotate (c, t) (stat, load)).1, mkReloader (Some (rotate (c, t) (stat, load)).1) (rotate (c, t) (stat, load)).2).
Proof. unfold GetCertificate, rotate. cbn. destruct stat as [m|], load as [p|]; try done; by destruct (After m t). Qed.

Lemma serve_rotate hs : ∀ c t,
  serve (mkReloader (Some c) t) hs
  = ((λ n, Ok (foldl rotate (c, t) (take n hs)).1) <$> seq 1 (length hs),
     let cur := foldl rotate (c, t) hs in mkReloader (Some cur.1) cur.2).
Proof.
  induction hs as [|[stat load] hs IH]; intros c t; [done|]. cbn [serve length seq]. rewrite GetCertificate_rotate.
  destruct (rotate (c, t) (stat, load)) as [c' t'] eqn:E. rewrite IH. cbn [fmap list_fmap take foldl]. rewrite E. f_equal.
  f_equal. rewrite <-(fmap_S_seq 1 (length hs)), <-list_fmap_compose. apply list_fmap_ext. intros i n _. unfold compose. cbn [take foldl]. by rewrite E.
Qed.

(** C37: A rotation is served without a restart and a bad file never drops TLS:
    after [Config] succeeded, every handshake gets a certificate, namely the pair
    of the latest version of the files that was readable at some handshake so
    far and newer than the one in use before; a failing stat, a half-written
    pair or an older file keeps the pair in use, and an unreadable newer version
    is tried again at the next handshake. *)
Theorem certificate_always_served mtime kp r hs :
  Config (Some mtime) (Some kp) = Ok r →
  serve r hs = ((λ n, Ok (foldl rotate (kp, mtime) (take n hs)).1) <$> seq 1 (length hs),
                let cur := foldl rotate (kp, mtime) hs in mkReloader (Some cur.1) cur.2).
Proof. intros [= <-]. apply serve_rotate. Qed.

End Reloader.

(** A rotation seen half-written, then whole. *)
Lemma certificate_always_served_witness :
  (serve (mkReloader (Some "old"%string) 10) [(Some 20, None); (None, None); (Some 20, Some "new"%string)]).1
  = [Ok "old"%string; Ok "old"%string; Ok "new"%string].
Proof.
  rewrite (certificate_always_served 10 "old"%string (mkReloader (Some "old"%string) 10)
             [(Some 20, None); (None, None); (Some 20, Some "new"%string)]); reflexivity.
Defined.
