(* ===== verification/Float64.v ===== *)
(** * Binary64 arithmetic

    Go's [float64] on finite results: a float is the rational number it denotes,
    and every operation rounds the exact result to the nearest multiple of
    [2 ^ max (e - 52) (-1074)], ties to even, where [e] is the exponent of the
    result.  Overflow to infinity is not represented: the operands of the sources
    (token counts, rates, seconds, counters) stay far below [2 ^ 1024]. *)

From S2P Require Import Prelude GoTime.
From Stdlib Require Import QArith Qround Qpower Lqa.
Local Open Scope Q_scope.

Abbreviation float64 := Q (only parsing).

Definition pow2 (e : Z) : Q := Qpower (2 # 1) e.

(** Round to the nearest integer, ties to even. *)
Definition rne (q : Q) : Z :=
  let f := Qfloor q in
  match Qcompare (q - inject_Z f) (1 # 2) with
  | Lt => f
  | Gt => (f + 1)%Z
  | Eq => if Z.even f then f else (f + 1)%Z
  end.

(** Exponent of a positive rational: [2 ^ e <= q < 2 ^ (e + 1)]. *)
Definition exponent (q : Q) : Z :=
  let k := (Z.log2 (Qnum q) - Z.log2 (Zpos (Qden q)))%Z in
  if Qle_bool (pow2 k) q then k else (k - 1)%Z.

Definition round_pos (q : Q) : Q :=
  let s := Z.max (exponent q - 52) (-1074) in
  inject_Z (rne (q * pow2 (- s))) * pow2 s.

Definition round64 (q : Q) : float64 :=
  match Qnum q with
  | Z0 => 0
  | Zpos _ => Qred (round_pos q)
  | Zneg _ => Qred (- round_pos (- q))
  end.

Definition f_of_int (z : Z) : float64 := round64 (inject_Z z).
Definition fadd (x y : float64) : float64 := round64 (x + y).
Definition fsub (x y : float64) : float64 := round64 (x - y).
Definition fmul (x y : float64) : float64 := round64 (x * y).
Definition fdiv (x y : float64) : float64 := round64 (x / y).
Definition flt (x y : float64) : bool := negb (Qle_bool y x).

(** [int64(f)] truncates toward zero. *)
Definition f_trunc (x : float64) : Z := Z.quot (Qnum x) (Zpos (Qden x)).

(** [d.Seconds()]: whole seconds and nanoseconds are converted apart. *)
Definition Seconds (d : Duration) : float64 :=
  fadd (f_of_int (Z.quot d Second)) (fdiv (f_of_int (Z.rem d Second)) (f_of_int Second)).

(** ** Rounding errors *)

Definition ulp_half : Q := pow2 (-53).
Definition tiny : Q := pow2 (-1075).

Lemma pow2_pos e : 0 < pow2 e.
Proof. apply Qpower_0_lt. reflexivity. Qed.

Lemma pow2_plus a b : pow2 (a + b) == pow2 a * pow2 b.
Proof. apply Qpower_plus. discriminate. Qed.

Lemma pow2_opp a : pow2 (- a) * pow2 a == 1.
Proof. rewrite <-pow2_plus. by rewrite Z.add_opp_diag_l. Qed.

Lemma pow2_Z e : (0 ≤ e)%Z → pow2 e == inject_Z (2 ^ e).
Proof. intros. unfold pow2. by rewrite Zpower_Qpower. Qed.

Lemma pow2_mono a b : (a ≤ b)%Z → pow2 a <= pow2 b.
Proof.
  intros H. replace b with (a + (b - a))%Z by lia. rewrite pow2_plus.
  assert (1 <= pow2 (b - a)).
  { rewrite pow2_Z by lia. change 1 with (inject_Z 1). rewrite <-Zle_Qle.
    pose proof (Z.pow_pos_nonneg 2 (b - a)). lia. }
  pose proof (pow2_pos a). nra.
Qed.

Lemma rne_bounds q : q - (1 # 2) <= inject_Z (rne q) <= q + (1 # 2).
Proof.
  unfold rne. pose proof (Qfloor_le q). pose proof (Qlt_floor q).
  rewrite inject_Z_plus in H0. change (inject_Z 1) with 1 in H0.
  destruct (Qcompare_spec (q - inject_Z (Qfloor q)) (1 # 2)) as [E|E|E];
    [destruct (Z.even _)| |]; rewrite ?inject_Z_plus; change (inject_Z 1) with 1; lra.
Qed.

Lemma rne_int z : rne (inject_Z z) = z.
Proof.
  unfold rne. rewrite Qfloor_Z. destruct (Qcompare_spec (inject_Z z - inject_Z z) (1 # 2)); lra || done.
Qed.

#[global] Instance rne_proper : Proper (Qeq ==> eq) rne.
Proof.
  intros x y E. unfold rne. rewrite (Qfloor_comp x y E).
  assert (C : Qcompare (x - inject_Z (Qfloor y)) (1 # 2) = Qcompare (y - inject_Z (Qfloor y)) (1 # 2))
    by (apply Qcompare_comp; lra).
  by rewrite C.
Qed.

Lemma pos_log2 (p : positive) :
  pow2 (Z.log2 (Zpos p)) <= inject_Z (Zpos p) < pow2 (Z.log2 (Zpos p) + 1).
Proof.
  rewrite !pow2_Z by (pose proof (Z.log2_nonneg (Zpos p)); lia).
  rewrite <-Zle_Qle, <-Zlt_Qlt. apply Z.log2_spec. lia.
Qed.

Lemma Q_num_den q : q * inject_Z (Zpos (Qden q)) == inject_Z (Qnum q).
Proof. destruct q as [n d]. unfold Qeq, Qmult, inject_Z. cbn. lia. Qed.

(** A fraction [n / d] is bounded by the powers of two that bound its parts. *)
Lemma frac_lt q n d a b :
  0 < q → q * d == n → n < pow2 a → pow2 b <= d → q < pow2 (a - b).
Proof.
  intros Hq E Hn Hd. pose proof (pow2_pos (- b)) as Hb. pose proof (pow2_opp b) as Ho.
  assert (1 <= d * pow2 (- b)) by nra.
  assert (q <= n * pow2 (- b)) by (rewrite <-E; nra).
  replace (a - b)%Z with (a + - b)%Z by lia. rewrite pow2_plus. nra.
Qed.

Lemma frac_ge q n d a b :
  0 < q → q * d == n → pow2 a <= n → d < pow2 b → pow2 (a - b) <= q.
Proof.
  intros Hq E Hn Hd. pose proof (pow2_pos (- b)) as Hb. pose proof (pow2_opp b) as Ho.
  assert (d * pow2 (- b) <= 1) by nra.
  assert (n * pow2 (- b) <= q) by (rewrite <-E; nra).
  replace (a - b)%Z with (a + - b)%Z by lia. rewrite pow2_plus. nra.
Qed.

Lemma exponent_spec q : 0 < q → pow2 (exponent q) <= q < pow2 (exponent q + 1).
Proof.
  intros Hq. unfold exponent. pose proof (Q_num_den q) as Hnd.
  destruct (Qnum q) as [|n|n] eqn:En.
  1,3: destruct q as [m d]; cbn in *; subst; unfold Qlt in Hq; cbn in Hq; lia.
  pose proof (pos_log2 n) as [Hn1 Hn2]. pose proof (pos_log2 (Qden q)) as [Hd1 Hd2].
  set (a := Z.log2 (Zpos n)) in *. set (b := Z.log2 (Zpos (Qden q))) in *.
  destruct (Qle_bool (pow2 (a - b)) q) eqn:E.
  - apply Qle_bool_iff in E. split; [done|].
    replace (a - b + 1)%Z with (a + 1 - b)%Z by lia. by eapply frac_lt.
  - replace (a - b - 1)%Z with (a - (b + 1))%Z by lia. split; [by eapply frac_ge|].
    replace (a - (b + 1) + 1)%Z with (a - b)%Z by lia.
    apply Qnot_le_lt. intros C%Qle_bool_iff. congruence.
Qed.

Lemma round64_pos q : 0 < q → round64 q == round_pos q.
Proof.
  intros Hq. unfold round64. destruct (Qnum q) eqn:En; [| apply Qred_correct |];
    destruct q as [m d]; cbn in *; subst; unfold Qlt in Hq; cbn in Hq; lia.
Qed.

Lemma exponent_unique q e : 0 < q → pow2 e <= q < pow2 (e + 1) → exponent q = e.
Proof.
  intros Hq [H1 H2]. destruct (exponent_spec q Hq) as [H3 H4].
  destruct (Z.lt_trichotomy (exponent q) e) as [Hlt|[->|Hlt]]; [exfalso|done|exfalso].
  - pose proof (pow2_mono (exponent q + 1) e ltac:(lia)). lra.
  - pose proof (pow2_mono (e + 1) (exponent q) ltac:(lia)). lra.
Qed.

Lemma round_pos_proper p q : 0 < p → p == q → round_pos p == round_pos q.
Proof.
  intros Hp E. unfold round_pos.
  assert (Ee : exponent p = exponent q).
  { apply exponent_unique; [done|]. rewrite E. apply exponent_spec. by rewrite <-E. }
  rewrite Ee. set (s := Z.max _ _). by rewrite (rne_proper (p * pow2 (- s)) (q * pow2 (- s))) by (by rewrite E).
Qed.

(** Equal rationals round to the same float. *)
Lemma round64_proper p q : p == q → round64 p = round64 q.
Proof.
  intros E. unfold round64. destruct p as [[|n|n] d] eqn:Ep, q as [[|m|m] c] eqn:Eq; cbn [Qnum];
    try done; try (unfold Qeq in E; cbn in E; lia).
  - apply Qred_complete, round_pos_proper; [|done]. unfold Qlt. cbn. lia.
  - apply Qred_complete. rewrite round_pos_proper; [reflexivity| |by rewrite E]. unfold Qlt. cbn. lia.
Qed.

Lemma round64_zero q : q == 0 → round64 q = 0.
Proof. intros E. unfold round64. destruct q as [[|p|p] d]; unfold Qeq in E; cbn in *; lia || done. Qed.

Lemma round64_upper q : 0 <= q → round64 q <= q + q * ulp_half + tiny.
Proof.
  intros Hq. pose proof (pow2_pos (-53)). pose proof (pow2_pos (-1075)).
  unfold ulp_half, tiny. destruct (Qlt_le_dec 0 q) as [Hp|Hp].
  - rewrite round64_pos by done. unfold round_pos. destruct (exponent_spec q Hp) as [He _].
    set (s := Z.max (exponent q - 52) (-1074)).
    destruct (rne_bounds (q * pow2 (- s))) as [_ Hr].
    pose proof (pow2_pos s). pose proof (pow2_opp s).
    assert (pow2 s * (1 # 2) <= q * pow2 (-53) + pow2 (-1075)).
    { assert (E : forall x, pow2 (x - 1) == pow2 x * (1 # 2)).
      { intros x. replace (x - 1)%Z with (x + -1)%Z by lia. apply pow2_plus. }
      rewrite <-E. destruct (Z.max_spec (exponent q - 52) (-1074)) as [[? Hs]|[? Hs]];
        fold s in Hs; rewrite Hs.
      - change (-1074 - 1)%Z with (-1075)%Z. nra.
      - replace (exponent q - 52 - 1)%Z with (exponent q + -53)%Z by lia.
        rewrite pow2_plus. nra. }
    nra.
  - rewrite round64_zero by lra. nra.
Qed.

Lemma round64_nonneg q : 0 <= q → 0 <= round64 q.
Proof.
  intros Hq. destruct (Qlt_le_dec 0 q) as [Hp|Hp]; [|rewrite round64_zero by lra; lra].
  rewrite round64_pos by done. unfold round_pos.
  set (s := Z.max _ _). pose proof (pow2_pos s). pose proof (pow2_pos (- s)).
  apply Qmult_le_0_compat; [|lra]. change 0 with (inject_Z 0). rewrite <-Zle_Qle.
  destruct (rne_bounds (q * pow2 (- s))) as [Hl _].
  assert (H1 : inject_Z (-1) < inject_Z (rne (q * pow2 (- s)))).
  { change (inject_Z (-1)) with (-1 # 1). nra. }
  rewrite <-Zlt_Qlt in H1. lia.
Qed.

Lemma round64_int n : (0 ≤ n < 2 ^ 53)%Z → round64 (inject_Z n) == inject_Z n.
Proof.
  intros Hn. destruct (decide (n = 0%Z)) as [->|Hne]; [done|].
  assert (Hp : 0 < inject_Z n) by (change 0 with (inject_Z 0); rewrite <-Zlt_Qlt; lia).
  rewrite round64_pos by done. unfold round_pos. destruct (exponent_spec _ Hp) as [He _].
  assert (exponent (inject_Z n) ≤ 52)%Z as H52.
  { destruct (Z.le_gt_cases (exponent (inject_Z n)) 52) as [|Hgt]; [done|exfalso].
    assert (Hc : pow2 53 <= inject_Z n) by (eapply Qle_trans; [apply pow2_mono|exact He]; lia).
    rewrite pow2_Z, <-Zle_Qle in Hc by lia. lia. }
  set (s := Z.max _ _). assert (s ≤ 0)%Z by lia.
  assert (E : inject_Z n * pow2 (- s) == inject_Z (n * 2 ^ (- s))).
  { rewrite pow2_Z, inject_Z_mult by lia. reflexivity. }
  rewrite E, rne_int, inject_Z_mult, <-pow2_Z by lia.
  rewrite <-Qmult_assoc, pow2_opp. ring.
Qed.

#[export] Hint Resolve round64_nonneg pow2_pos : acb.

Lemma round64_int_of q n : q == inject_Z n → (0 ≤ n < 2 ^ 53)%Z → round64 q == inject_Z n.
Proof. intros E Hn. rewrite (round64_proper _ _ E). by apply round64_int. Qed.

(** ** Seconds *)

Lemma ulp_half_small : 0 < ulp_half <= 1 # 1000000.
Proof. split; [apply pow2_pos|]. vm_compute. discriminate. Qed.

Lemma tiny_small : 0 < tiny <= ulp_half * (1 # 100).
Proof. split; [apply pow2_pos|]. vm_compute. discriminate. Qed.

Lemma round64_upper_of q b : 0 <= q <= b → round64 q <= b + b * ulp_half + tiny.
Proof. intros [H1 H2]. pose proof (round64_upper q H1). pose proof ulp_half_small. nra. Qed.

Lemma f_of_int_exact n : (0 ≤ n < 2 ^ 53)%Z → f_of_int n == inject_Z n.
Proof. apply round64_int. Qed.

Lemma Seconds_split d :
  inject_Z (Z.quot d Second) + inject_Z (Z.rem d Second) * (1 # 1000000000)
  == inject_Z d * (1 # 1000000000).
Proof.
  rewrite (Z.quot_rem' d Second) at 3. rewrite inject_Z_plus, inject_Z_mult.
  change (inject_Z Second) with (1000000000 # 1). lra.
Qed.

Lemma Seconds_bounds d :
  (0 ≤ d ≤ int64_max)%Z →
  0 <= Seconds d <= inject_Z d * (1 # 1000000000) * (1 + 3 * ulp_half) + 3 * tiny.
Proof.
  intros Hd. unfold Seconds, fadd, fdiv. pose proof (Seconds_split d) as E.
  assert (Hs : (0 ≤ Z.quot d Second < 2 ^ 53)%Z).
  { unfold int64_max, Second in *. rewrite Z.quot_div_nonneg by lia. split; [apply Z.div_pos|apply Z.div_lt_upper_bound]; lia. }
  assert (Hr : (0 ≤ Z.rem d Second < Second)%Z) by (apply Z.rem_bound_pos; unfold Second; lia).
  assert (H0s : 0 <= inject_Z (Z.quot d Second)) by (change 0 with (inject_Z 0); rewrite <-Zle_Qle; lia).
  assert (H0r : 0 <= inject_Z (Z.rem d Second)) by (change 0 with (inject_Z 0); rewrite <-Zle_Qle; lia).
  pose proof (f_of_int_exact (Z.quot d Second) Hs) as Es.
  assert (Er : f_of_int (Z.rem d Second) / f_of_int Second
               == inject_Z (Z.rem d Second) * (1 # 1000000000)).
  { unfold Second in *. rewrite !f_of_int_exact by lia. reflexivity. }
  set (x := f_of_int (Z.quot d Second)) in *.
  set (y := f_of_int (Z.rem d Second) / f_of_int Second) in *.
  set (X := inject_Z (Z.quot d Second)) in *. set (Y := inject_Z (Z.rem d Second)) in *.
  set (D := inject_Z d) in *. pose proof ulp_half_small. pose proof tiny_small.
  assert (Hy : 0 <= round64 y <= y + y * ulp_half + tiny)
    by (split; [apply round64_nonneg|apply round64_upper]; lra).
  split; [apply round64_nonneg; lra|].
  eapply Qle_trans; [apply (round64_upper_of _ (x + (y + y * ulp_half + tiny))); lra|].
  assert (0 <= x * ulp_half) by (apply Qmult_le_0_compat; lra).
  assert (0 <= y * ulp_half) by (apply Qmult_le_0_compat; lra).
  assert (y * ulp_half * ulp_half <= y * ulp_half) by nra.
  assert (tiny * ulp_half <= tiny) by nra.
  assert (D * (1 # 1000000000) == x + y) as -> by lra. lra.
Qed.

Lemma Seconds_0 : Seconds 0 = 0.
Proof. vm_compute. reflexivity. Qed.
