(* ===== verification/Encoding.v ===== *)
(** * Text encodings of bytes: hex and base64 (packages encoding/hex, encoding/base64)

    Bytes are the characters of a [string]. *)

From S2P Require Import Prelude GoStrings.
From Stdlib Require Import Ascii.
Local Open Scope Z_scope.
Local Open Scope stdpp_scope.

(** ** Hex *)

Definition hex_digit (z : Z) : ascii := if z <? 10 then byte_of (48 + z) else byte_of (87 + z).

(** [hex.EncodeToString] *)
Fixpoint hex_encode (s : string) : string :=
  match s with
  | EmptyString => ""
  | String c s' =>
    String (hex_digit (byte_val c `div` 16)) (String (hex_digit (byte_val c `mod` 16)) (hex_encode s'))
  end.

(** ** Base64 *)

Definition b64_char (url : bool) (z : Z) : ascii :=
  if z <? 26 then byte_of (65 + z)
  else if z <? 52 then byte_of (71 + z)
  else if z <? 62 then byte_of (z - 4)
  else if z =? 62 then (if url then "-" else "+")%char
  else (if url then "_" else "/")%char.

(** [EncodeToString] of [base64.StdEncoding] ([url = false], padded) and of
    [base64.RawURLEncoding] ([url = true], no padding). *)
Fixpoint b64_encode (url : bool) (l : list ascii) : string :=
  let e := b64_char url in
  match l with
  | a :: b :: c :: l' =>
    let x := byte_val a in let y := byte_val b in let z := byte_val c in
    String (e (x `div` 4)) (String (e (x `mod` 4 * 16 + y `div` 16))
      (String (e (y `mod` 16 * 4 + z `div` 64)) (String (e (z `mod` 64)) (b64_encode url l'))))
  | [a; b] =>
    let x := byte_val a in let y := byte_val b in
    String (e (x `div` 4)) (String (e (x `mod` 4 * 16 + y `div` 16))
      (String (e (y `mod` 16 * 4)) (if url then "" else "=")))
  | [a] =>
    let x := byte_val a in
    String (e (x `div` 4)) (String (e (x `mod` 4 * 16)) (if url then "" else "=="))
  | [] => ""
  end.

Definition StdEncodeToString (s : string) : string := b64_encode false (chars s).
Definition RawURLEncodeToString (s : string) : string := b64_encode true (chars s).

(** [base64.StdEncoding.DecodeString]: line breaks are ignored, padding is
    required, and the unused bits of the last digit are not looked at. *)
Definition b64_val (c : ascii) : option Z :=
  let v := byte_val c in
  if (65 <=? v) && (v <=? 90) then Some (v - 65)
  else if (97 <=? v) && (v <=? 122) then Some (v - 71)
  else if (48 <=? v) && (v <=? 57) then Some (v + 4)
  else if v =? 43 then Some 62
  else if v =? 47 then Some 63
  else None.

Fixpoint b64_decode (l : list ascii) : option (list ascii) :=
  match l with
  | [] => Some []
  | a :: b :: c :: d :: l' =>
    x ← b64_val a; y ← b64_val b;
    let b1 := byte_of (x * 4 + y `div` 16) in
    if Ascii.eqb c "=" then
      if Ascii.eqb d "=" && bool_decide (l' = []) then Some [b1] else None
    else
      z ← b64_val c;
      let b2 := byte_of (y `mod` 16 * 16 + z `div` 4) in
      if Ascii.eqb d "=" then if bool_decide (l' = []) then Some [b1; b2] else None
      else
        w ← b64_val d; rest ← b64_decode l';
        Some (b1 :: b2 :: byte_of (z `mod` 4 * 64 + w) :: rest)
  | _ => None
  end.

Definition is_break (c : ascii) : bool := (byte_val c =? 10) || (byte_val c =? 13).
Definition StdDecodeString (s : string) : option string :=
  of_chars <$> b64_decode (filter (λ c, is_break c = false) (chars s)).

(** ** Lemmas *)

Lemma hex_digit_inj a b : 0 ≤ a < 16 → 0 ≤ b < 16 → hex_digit a = hex_digit b → a = b.
Proof.
  intros Ha Hb E. apply (f_equal byte_val) in E. unfold hex_digit in E.
  destruct (Z.ltb_spec a 10), (Z.ltb_spec b 10); rewrite !byte_val_of in E by lia; lia.
Qed.

Lemma byte_val_inj c d : byte_val c = byte_val d → c = d.
Proof. intros E. by rewrite <-(byte_of_val c), E, byte_of_val. Qed.

#[global] Instance hex_encode_inj : Inj (=) (=) hex_encode.
Proof.
  intros s. induction s as [|c s IH]; intros [|d t]; [done..|].
  cbn. intros E. injection E as E1 E2 E3.
  pose proof (byte_val_range c). pose proof (byte_val_range d).
  apply hex_digit_inj in E1; [|split; [apply Z.div_pos|apply Z.div_lt_upper_bound]; lia..].
  apply hex_digit_inj in E2; [|apply Z.mod_pos_bound; lia..].
  f_equal; [|by apply IH]. apply byte_val_inj.
  rewrite (Z.div_mod (byte_val c) 16), (Z.div_mod (byte_val d) 16) by lia. congruence.
Qed.

Lemma hex_encode_length s : String.length (hex_encode s) = (2 * String.length s)%nat.
Proof. induction s as [|c s IH]; cbn; [done|]. rewrite IH. lia. Qed.

Example b64_examples :
  StdEncodeToString "Man" = "TWFu" ∧ StdEncodeToString "Ma" = "TWE=" ∧ StdEncodeToString "M" = "TQ=="
  ∧ RawURLEncodeToString "M" = "TQ" ∧ hex_encode "Go" = "476f".
Proof. by vm_compute. Qed.

(** *** Base64 round trip *)

Lemma b64_digit z : 0 ≤ z < 64 →
  b64_val (b64_char false z) = Some z ∧ is_break (b64_char false z) = false ∧ Ascii.eqb (b64_char false z) "=" = false.
Proof.
  intros Hz. assert (Forall (λ z, b64_val (b64_char false z) = Some z ∧ is_break (b64_char false z) = false
    ∧ Ascii.eqb (b64_char false z) "=" = false) (seqZ 0 64)) as H.
  { apply (bool_decide_unpack _). vm_compute. exact I. }
  rewrite Forall_forall in H. apply H. rewrite elem_of_seqZ. lia.
Qed.

(** The digits of a group are digits, and give its bytes back. *)
Lemma b64_group x y z : 0 ≤ x < 256 → 0 ≤ y < 256 → 0 ≤ z < 256 →
  let d2 := x `mod` 4 * 16 + y `div` 16 in let d3 := y `mod` 16 * 4 + z `div` 64 in
  (0 ≤ x `div` 4 < 64 ∧ 0 ≤ d2 < 64 ∧ 0 ≤ d3 < 64 ∧ 0 ≤ z `mod` 64 < 64)
  ∧ x `div` 4 * 4 + d2 `div` 16 = x ∧ d2 `mod` 16 * 16 + d3 `div` 4 = y ∧ d3 `mod` 4 * 64 + z `mod` 64 = z.
Proof. intros Hx Hy Hz. cbv zeta. split_and!; Z.div_mod_to_equations; lia. Qed.

Lemma filter_digit z s : 0 ≤ z < 64 →
  filter (λ c, is_break c = false) (chars (String (b64_char false z) s))
  = b64_char false z :: filter (λ c, is_break c = false) (chars s).
Proof. intros Hz. cbn [String.list_ascii_of_string]. apply filter_cons_True. by apply b64_digit. Qed.

Lemma b64_decode_encode l :
  b64_decode (filter (λ c, is_break c = false) (chars (b64_encode false l))) = Some l.
Proof.
  induction l as [l IH] using (induction_ltof1 _ length). unfold ltof in IH.
  destruct l as [|a [|b [|c l]]]; [done|..]; cbn [b64_encode]; pose proof (byte_val_range a) as Ha.
  - destruct (b64_group (byte_val a) 0 0 Ha) as ((H1 & H2 & _) & E1 & _); [lia..|].
    rewrite Z.div_0_l, Z.add_0_r in * by lia. rewrite !filter_digit by done. cbn.
    destruct (b64_digit _ H1) as (-> & _ & _), (b64_digit _ H2) as (-> & _ & _). cbn. by rewrite E1, byte_of_val.
  - pose proof (byte_val_range b) as Hb.
    destruct (b64_group (byte_val a) (byte_val b) 0 Ha Hb) as ((H1 & H2 & H3 & _) & E1 & E2 & _); [lia|].
    rewrite Z.div_0_l, Z.add_0_r in * by lia. rewrite !filter_digit by done. cbn.
    destruct (b64_digit _ H1) as (-> & _ & _), (b64_digit _ H2) as (-> & _ & _), (b64_digit _ H3) as (-> & _ & ->).
    cbn. by rewrite E1, E2, !byte_of_val.
  - pose proof (byte_val_range b) as Hb. pose proof (byte_val_range c) as Hc.
    destruct (b64_group (byte_val a) (byte_val b) (byte_val c) Ha Hb Hc) as ((H1 & H2 & H3 & H4) & E1 & E2 & E3).
    rewrite !filter_digit by done. cbn.
    destruct (b64_digit _ H1) as (-> & _ & _), (b64_digit _ H2) as (-> & _ & _), (b64_digit _ H3) as (-> & _ & ->),
      (b64_digit _ H4) as (-> & _ & ->).
    cbn. rewrite IH by (cbn; lia). cbn. by rewrite E1, E2, E3, !byte_of_val.
Qed.

Lemma StdDecode_encode s : StdDecodeString (StdEncodeToString s) = Some s.
Proof.
  unfold StdDecodeString, StdEncodeToString. rewrite b64_decode_encode. cbn.
  by rewrite String.string_of_list_ascii_of_string.
Qed.
