(* ===== verification/RateLimit.v ===== *)
(** * Token buckets and daily byte budgets (internal/ratelimit/ratelimit.go)

    [Limiter] and [ByteBudget] with their operations; every operation runs under
    the component's mutex, so it is one atomic function of the state and of the
    clock reading it takes. *)

From S2P Require Import Prelude GoStrings GoTime Float64.
From Stdlib Require Import QArith Lqa.
Local Open Scope Q_scope.
Local Open Scope stdpp_scope.

(** ** Data *)

Record bucket := mkBucket { bk_tokens : float64; bk_last : Time }.

Record Limiter := mkLimiter {
  lm_buckets : gmap string bucket;
  lm_rate : float64; (* tokens per second *)
  lm_burst : float64
}.

(** [New(ratePerMinute, burst)] *)
Definition NewLimiter (ratePerMinute : float64) (burst : Z) : Limiter :=
  mkLimiter ∅ (fdiv ratePerMinute 60) (f_of_int burst).

(** The bucket after crediting the time since its last use, capped at the burst. *)
Definition refill (l : Limiter) (now : Time) (b : bucket) : float64 :=
  let t := fadd (bk_tokens b) (fmul (Seconds (tSub now (bk_last b))) (lm_rate l)) in
  if flt (lm_burst l) t then lm_burst l else t.

(** [l.Allow(key)] at clock reading [now]. *)
Definition Allow (l : Limiter) (now : Time) (key : string) : bool * Limiter :=
  let b := default (mkBucket (lm_burst l) now) (lm_buckets l !! key) in
  let t := refill l now b in
  if flt t 1
  then (false, mkLimiter (<[key := mkBucket t now]> (lm_buckets l)) (lm_rate l) (lm_burst l))
  else (true, mkLimiter (<[key := mkBucket (fsub t 1) now]> (lm_buckets l)) (lm_rate l) (lm_burst l)).

(** A run of calls: the clock reading and the key of each. *)
Fixpoint Allows (l : Limiter) (calls : list (Time * string)) : list bool * Limiter :=
  match calls with
  | [] => ([], l)
  | (now, key) :: calls' =>
    let '(ok, l1) := Allow l now key in
    let '(oks, l2) := Allows l1 calls' in
    (ok :: oks, l2)
  end.

Record ByteBudget := mkByteBudget { bb_used : gmap string Z; bb_day : string }.

Definition NewByteBudget : ByteBudget := mkByteBudget ∅ "".

(** [b.Spend(key, n, limit)] at clock reading [now]. *)
Definition Spend (b : ByteBudget) (now : Time) (key : string) (n limit : Z) : bool * ByteBudget :=
  if Z.leb limit 0 then (true, b)
  else
    let day := FormatDate now in
    let b1 := if bool_decide (day = bb_day b) then b else mkByteBudget ∅ day in
    let used := default 0%Z (bb_used b1 !! key) in
    if Z.ltb limit (wrap64 (used + n)) then (false, b1)
    else (true, mkByteBudget (<[key := wrap64 (used + n)]> (bb_used b1)) (bb_day b1)).

(** A run of calls against per-key limits: the clock reading, key and size of each. *)
Fixpoint Spends (b : ByteBudget) (cap : string → Z) (calls : list (Time * string * Z))
  : list bool * ByteBudget :=
  match calls with
  | [] => ([], b)
  | (now, key, n) :: calls' =>
    let '(ok, b1) := Spend b now key n (cap key) in
    let '(oks, b2) := Spends b1 cap calls' in
    (ok :: oks, b2)
  end.

(** The bytes a run admitted for a key on a UTC day. *)
Fixpoint admitted_on (d : Z) (key : string) (calls : list (Time * string * Z)) (oks : list bool) : Z :=
  match calls, oks with
  | (now, k, n) :: calls', ok :: oks' =>
    ((if ok && bool_decide (k = key ∧ day_of now = d) then n else 0)
     + admitted_on d key calls' oks')%Z
  | _, _ => 0%Z
  end.

(** ** The limiter *)

(** Well-formed limiters: what [New] builds for the configurations in use, and
    buckets that never hold more than the burst. *)
Record limiter_wf (l : Limiter) : Prop := {
  lw_rate : 0 <= lm_rate l;
  lw_burst : 1 <= lm_burst l <= pow2 52;
  lw_buckets : map_Forall (λ _ b, 0 <= bk_tokens b <= lm_burst l) (lm_buckets l)
}.

Lemma flt_spec x y : flt x y = true ↔ x < y.
Proof.
  unfold flt. rewrite negb_true_iff. split.
  - intros H. apply Qnot_le_lt. intros C%Qle_bool_iff. congruence.
  - intros H. destruct (Qle_bool y x) eqn:E; [|done]. apply Qle_bool_iff in E. lra.
Qed.

Lemma flt_false x y : flt x y = false ↔ y <= x.
Proof. unfold flt. rewrite negb_false_iff. apply Qle_bool_iff. Qed.

Lemma refill_le_burst l now b : refill l now b <= lm_burst l.
Proof.
  unfold refill. destruct (flt _ _) eqn:E; [apply Qle_refl|]. by apply flt_false in E.
Qed.

Lemma inject_Z_1 : inject_Z 1 = 1.
Proof. done. Qed.

Lemma inject_Z_0 : inject_Z 0 = 0.
Proof. done. Qed.

(** Seconds between two clock readings, as an exact rational. *)
Definition elapsed (t u : Time) : Q := inject_Z (u - t) * (1 # 1000000000).

(** Rounding slack of one call. *)
Definition drift : Q := pow2 (-50).
Definition call_slack (l : Limiter) : Q := drift * (lm_burst l + lm_rate l + 1).

Lemma drift_ulp : drift == 8 * ulp_half.
Proof. vm_compute. reflexivity. Qed.

Lemma elapsed_seconds t u :
  (t ≤ u)%Z → 0 <= Seconds (tSub u t) <= elapsed t u * (1 + 3 * ulp_half) + 3 * tiny.
Proof.
  intros Htu. assert (Hr : (0 ≤ tSub u t ≤ int64_max)%Z ∧ (tSub u t ≤ u - t)%Z)
    by (unfold tSub, int64_min, int64_max; lia).
  destruct Hr as [Hr Hle]. destruct (Seconds_bounds _ Hr) as [H0 H1]. split; [done|].
  rewrite Zle_Qle in Hle. unfold elapsed. pose proof ulp_half_small. nra.
Qed.

(** What one refill can credit. *)
Lemma refill_upper l now b :
  0 <= lm_rate l → 0 <= bk_tokens b <= lm_burst l → (bk_last b ≤ now)%Z →
  0 <= refill l now b
  ∧ refill l now b <= bk_tokens b + lm_rate l * elapsed (bk_last b) now * (1 + drift)
                      + ulp_half * lm_burst l + 8 * tiny * (lm_rate l + 1).
Proof.
  intros Hrate Htok Hle. unfold refill. destruct (elapsed_seconds _ _ Hle) as [Hs0 Hs1].
  rewrite drift_ulp.
  set (S := Seconds _) in *. set (D := elapsed _ _) in *. set (r := lm_rate l) in *.
  set (T := bk_tokens b) in *. set (B := lm_burst l) in *.
  pose proof ulp_half_small as Hu. pose proof tiny_small as Ht.
  assert (Hdr : 0 <= D * r).
  { unfold D, elapsed. apply Qmult_le_0_compat; [|done].
    assert (0 <= inject_Z (now - bk_last b)) by (change 0 with (inject_Z 0); rewrite <-Zle_Qle; lia). lra. }
  assert (HG : 0 <= fmul S r <= D * r * (1 + 5 * ulp_half) + 4 * tiny * r + tiny).
  { split; [apply round64_nonneg; by apply Qmult_le_0_compat|].
    assert (S * r <= D * r * (1 + 3 * ulp_half) + 3 * tiny * r) by nra.
    eapply Qle_trans; [apply (round64_upper_of _ (D * r * (1 + 3 * ulp_half) + 3 * tiny * r)); split; [by apply Qmult_le_0_compat|done]|].
    assert (0 <= D * r * ulp_half) by (apply Qmult_le_0_compat; lra).
    assert (0 <= tiny * r) by (apply Qmult_le_0_compat; lra). nra. }
  set (G := fmul S r) in *.
  assert (HT : 0 <= fadd T G <= T + ulp_half * B + G * (1 + ulp_half) + tiny).
  { split; [apply round64_nonneg; lra|].
    eapply Qle_trans; [apply (round64_upper_of _ (T + G)); lra|]. nra. }
  assert (0 <= tiny * r) by (apply Qmult_le_0_compat; lra).
  assert (0 <= D * r * ulp_half) by (apply Qmult_le_0_compat; lra).
  destruct (flt B (fadd T G)) eqn:E; [apply flt_spec in E|]; split; nra.
Qed.

(** One call: a bucket gains at most the credited time plus the rounding slack,
    and an allowed call costs one token. *)
Lemma Allow_step l now key b :
  limiter_wf l → lm_buckets l !! key = Some b → (bk_last b ≤ now)%Z →
  ∃ t, lm_buckets (Allow l now key).2 !! key = Some (mkBucket t now)
  ∧ 0 <= t <= lm_burst l
  ∧ t + (if (Allow l now key).1 then 1 else 0)
    <= bk_tokens b + lm_rate l * elapsed (bk_last b) now * (1 + drift) + call_slack l
  ∧ t + (if (Allow l now key).1 then 1 else 0) <= lm_burst l + call_slack l.
Proof.
  intros Hwf Hb Hle. pose proof (lw_buckets l Hwf key b Hb) as Htok. cbn in Htok.
  destruct (refill_upper l now b (lw_rate l Hwf) Htok Hle) as [H0 H1].
  pose proof (lw_burst l Hwf) as [HB1 HB2]. pose proof (lw_rate l Hwf) as Hr.
  pose proof (refill_le_burst l now b) as Hcap.
  pose proof ulp_half_small as Hu. pose proof tiny_small as Ht.
  assert (Hslack : 2 * (ulp_half * lm_burst l) + 9 * tiny * (lm_rate l + 1) <= call_slack l).
  { unfold call_slack. rewrite drift_ulp.
    assert (9 * tiny * (lm_rate l + 1) <= ulp_half * (lm_rate l + 1)) by nra.
    assert (0 <= ulp_half * lm_burst l) by nra. assert (0 <= ulp_half * (lm_rate l + 1)) by nra. nra. }
  assert (0 <= tiny * (lm_rate l + 1)) by nra. assert (0 <= ulp_half * lm_burst l) by nra.
  unfold Allow. rewrite Hb. simpl. set (t := refill l now b) in *.
  destruct (flt t 1) eqn:E.
  - exists t. simpl. rewrite lookup_insert_eq. split; [done|]. split; [done|]. split; nra.
  - apply flt_false in E. exists (fsub t 1). simpl. rewrite lookup_insert_eq. split; [done|].
    assert (Hsub : 0 <= fsub t 1 <= t - 1 + ulp_half * lm_burst l + tiny).
    { split; [apply round64_nonneg; lra|].
      eapply Qle_trans; [apply (round64_upper_of _ (t - 1)); lra|].
      assert ((t - 1) * ulp_half <= lm_burst l * ulp_half) by (apply Qmult_le_compat_r; lra). lra. }
    split; [|split; nra]. split; [lra|].
    assert (ulp_half * lm_burst l <= 1 # 2).
    { assert (ulp_half * pow2 52 == 1 # 2) by (vm_compute; reflexivity). nra. }
    lra.
Qed.

Lemma Allow_params l now key :
  lm_rate (Allow l now key).2 = lm_rate l ∧ lm_burst (Allow l now key).2 = lm_burst l.
Proof. unfold Allow. by destruct (flt _ _). Qed.

(** Keys are isolated: a call for one key leaves every other bucket alone. *)
Lemma Allow_other l now key key' :
  key ≠ key' → lm_buckets (Allow l now key).2 !! key' = lm_buckets l !! key'.
Proof. intros. unfold Allow. destruct (flt _ _); simpl; by rewrite lookup_insert_ne. Qed.

(** A first call for a key behaves as if a full bucket had been there already. *)
Lemma Allow_fresh l now key :
  lm_buckets l !! key = None →
  Allow l now key
  = Allow (mkLimiter (<[key := mkBucket (lm_burst l) now]> (lm_buckets l)) (lm_rate l) (lm_burst l)) now key.
Proof.
  intros Hn. unfold Allow. simpl. rewrite Hn, lookup_insert_eq. simpl.
  unfold refill. simpl. by rewrite !insert_insert_eq.
Qed.

Lemma limiter_wf_fresh l now key :
  limiter_wf l →
  limiter_wf (mkLimiter (<[key := mkBucket (lm_burst l) now]> (lm_buckets l)) (lm_rate l) (lm_burst l)).
Proof.
  intros [Hr Hb Hm]. split; [done..|]. simpl. apply map_Forall_insert_2; [simpl; lra|done].
Qed.

(** A bucket whose last use is not in the future of [now]. *)
Definition clock_ok (l : Limiter) (now : Time) : Prop :=
  map_Forall (λ _ b, (bk_last b ≤ now)%Z) (lm_buckets l).

Lemma clock_ok_mono l now now' : (now ≤ now')%Z → clock_ok l now → clock_ok l now'.
Proof. intros H Hc k b Hk. specialize (Hc k b Hk). cbn in *. lia. Qed.

Lemma Allow_wf l now key :
  limiter_wf l → clock_ok l now →
  limiter_wf (Allow l now key).2 ∧ clock_ok (Allow l now key).2 now.
Proof.
  intros Hwf Hc.
  assert (Hex : ∃ t, lm_buckets (Allow l now key).2 !! key = Some (mkBucket t now)
                     ∧ 0 <= t <= lm_burst l).
  { destruct (lm_buckets l !! key) as [b|] eqn:E.
    - destruct (Allow_step l now key b Hwf E (Hc _ _ E)) as (t & H1 & H2 & _). eauto.
    - rewrite (Allow_fresh l now key E).
      set (l' := mkLimiter _ _ _).
      destruct (Allow_step l' now key (mkBucket (lm_burst l) now)) as (t & H1 & H2 & _);
        [by apply limiter_wf_fresh|apply lookup_insert_eq|cbn; lia|]. eauto. }
  destruct Hex as (t & Ht & Hb). destruct (Allow_params l now key) as [Er Eb].
  assert (Hall : ∀ k b, lm_buckets (Allow l now key).2 !! k = Some b →
                        0 <= bk_tokens b <= lm_burst l ∧ (bk_last b ≤ now)%Z).
  { intros k b Hk. destruct (decide (key = k)) as [->|Hne].
    - rewrite Ht in Hk. injection Hk as <-. cbn. split; [done|lia].
    - rewrite Allow_other in Hk by done.
      split; [exact (lw_buckets l Hwf k b Hk)|exact (Hc k b Hk)]. }
  destruct Hwf. split; [split; rewrite ?Er, ?Eb; [done..|]|]; intros k b Hk; by destruct (Hall k b Hk).
Qed.

(** How many calls of a run were allowed for a key. *)
Fixpoint allowed_count (key : string) (calls : list (Time * string)) (oks : list bool) : Z :=
  match calls, oks with
  | (_, k) :: calls', ok :: oks' =>
    ((if ok && bool_decide (k = key) then 1 else 0) + allowed_count key calls' oks')%Z
  | _, _ => 0%Z
  end.

(** Clock readings of a run: non-decreasing, from [t0] to at most [t1]. *)
Fixpoint clocked (t0 t1 : Time) (calls : list (Time * string)) : Prop :=
  match calls with
  | [] => (t0 ≤ t1)%Z
  | (now, _) :: calls' => (t0 ≤ now)%Z ∧ clocked now t1 calls'
  end.

Lemma clocked_le t0 t1 calls : clocked t0 t1 calls → (t0 ≤ t1)%Z.
Proof. revert t0. induction calls as [|[now k] calls IH]; cbn; [done|]. intros t0 [? ?%IH]. lia. Qed.

Lemma elapsed_plus a b c : elapsed a c == elapsed a b + elapsed b c.
Proof.
  unfold elapsed. replace (c - a)%Z with ((b - a) + (c - b))%Z by lia. rewrite inject_Z_plus. lra.
Qed.

Lemma elapsed_nonneg a b : (a ≤ b)%Z → 0 <= elapsed a b.
Proof.
  intros. unfold elapsed. assert (0 <= inject_Z (b - a)) by (change 0 with (inject_Z 0); rewrite <-Zle_Qle; lia). lra.
Qed.


(** From a bucket last used at [bk_last b], a run allows at most the tokens in
    it plus what the elapsed time credits. *)
Lemma Allows_bound_from calls : ∀ l key b t0 t1,
  limiter_wf l → clock_ok l t0 → lm_buckets l !! key = Some b → clocked t0 t1 calls →
  inject_Z (allowed_count key calls (Allows l calls).1)
  <= bk_tokens b + lm_rate l * elapsed (bk_last b) t1 * (1 + drift)
     + inject_Z (Z.of_nat (length calls)) * call_slack l.
Proof.
  induction calls as [|[now k] calls IH]; intros l key b t0 t1 Hwf Hc Hb Hck.
  - simpl in Hck |- *. change (Z.of_nat 0) with 0%Z. rewrite !inject_Z_0. pose proof (elapsed_nonneg (bk_last b) t1) as He.
    specialize (Hc _ _ Hb) as Hl. pose proof (lw_buckets l Hwf key b Hb) as Htok. simpl in Hl, Htok.
    assert (0 <= lm_rate l * elapsed (bk_last b) t1) by (apply Qmult_le_0_compat; [apply lw_rate; done|apply He; lia]).
    pose proof (pow2_pos (-50)) as Hd. fold drift in Hd. nra.
  - destruct Hck as [Ht0 Hck]. pose proof (clock_ok_mono _ _ _ Ht0 Hc) as Hcn.
    destruct (Allow_wf l now k Hwf Hcn) as [Hwf1 Hc1]. destruct (Allow_params l now k) as [Er Eb].
    pose proof (clocked_le _ _ _ Hck) as Hn1. specialize (Hcn _ _ Hb) as Hbn. cbn in Hbn.
    cbn [Allows allowed_count length].
    assert (Es : call_slack (Allow l now k).2 = call_slack l) by (unfold call_slack; by rewrite Er, Eb).
    assert (Hslack : 0 <= call_slack l).
    { unfold call_slack. pose proof (pow2_pos (-50)) as Hd. fold drift in Hd.
      destruct Hwf as [? [? ?] ?]. nra. }
    rewrite Nat2Z.inj_succ, <-Z.add_1_r, inject_Z_plus. change (inject_Z 1) with 1.
    destruct (Allow l now k) as [ok l1] eqn:EA. cbn [fst snd] in *.
    destruct (decide (k = key)) as [->|Hne].
    + destruct (Allow_step l now key b Hwf Hb Hbn) as (t & Hl1 & Ht & Hstep & _).
      rewrite EA in Hl1, Hstep. simpl in Hl1, Hstep.
      specialize (IH l1 key (mkBucket t now) now t1 Hwf1 Hc1 Hl1 Hck). simpl in IH.
      rewrite Es, Er in IH. destruct (Allows l1 calls) as [oks l2]. simpl in IH |- *.
      rewrite bool_decide_true, andb_true_r by done. rewrite inject_Z_plus.
      rewrite (elapsed_plus (bk_last b) now t1).
      destruct ok; cbn iota in *; rewrite ?inject_Z_1, ?inject_Z_0; lra.
    + assert (Hl1 : lm_buckets l1 !! key = Some b).
      { rewrite <-Hb. pose proof (Allow_other l now k key Hne) as Ho. by rewrite EA in Ho. }
      specialize (IH l1 key b now t1 Hwf1 Hc1 Hl1 Hck). rewrite Es, Er in IH.
      destruct (Allows l1 calls) as [oks l2]. simpl in IH |- *.
      rewrite bool_decide_false, andb_false_r by done. rewrite Z.add_0_l. lra.
Qed.


Lemma call_slack_nonneg l : limiter_wf l → 0 <= call_slack l.
Proof.
  intros [? [? ?] ?]. unfold call_slack. pose proof (pow2_pos (-50)) as Hd. fold drift in Hd. nra.
Qed.

(** In any window, whatever happened before it, at most the burst plus what the
    window's length credits. *)
Lemma Allows_bound calls : ∀ l key t0 t1,
  limiter_wf l → clock_ok l t0 → clocked t0 t1 calls →
  inject_Z (allowed_count key calls (Allows l calls).1)
  <= lm_burst l + lm_rate l * elapsed t0 t1 * (1 + drift)
     + inject_Z (Z.of_nat (length calls)) * call_slack l.
Proof.
  induction calls as [|[now k] calls IH]; intros l key t0 t1 Hwf Hc Hck.
  - simpl in Hck |- *. change (Z.of_nat 0) with 0%Z. rewrite !inject_Z_0. pose proof (elapsed_nonneg t0 t1 Hck).
    assert (0 <= lm_rate l * elapsed t0 t1) by (apply Qmult_le_0_compat; [apply lw_rate; done|done]).
    pose proof (pow2_pos (-50)) as Hd. fold drift in Hd. destruct Hwf as [? [? ?] ?]. nra.
  - destruct Hck as [Ht0 Hck]. pose proof (clock_ok_mono _ _ _ Ht0 Hc) as Hcn.
    destruct (Allow_wf l now k Hwf Hcn) as [Hwf1 Hc1]. destruct (Allow_params l now k) as [Er Eb].
    pose proof (clocked_le _ _ _ Hck) as Hn1. pose proof (call_slack_nonneg l Hwf) as Hs0.
    assert (Es : call_slack (Allow l now k).2 = call_slack l) by (unfold call_slack; by rewrite Er, Eb).
    assert (He : 0 <= lm_rate l * elapsed t0 now * (1 + drift)).
    { pose proof (elapsed_nonneg t0 now Ht0). pose proof (pow2_pos (-50)) as Hd. fold drift in Hd.
      pose proof (lw_rate l Hwf). apply Qmult_le_0_compat; [by apply Qmult_le_0_compat|lra]. }
    cbn [Allows allowed_count length]. rewrite Nat2Z.inj_succ, <-Z.add_1_r, inject_Z_plus, inject_Z_1.
    rewrite (elapsed_plus t0 now t1). destruct (Allow l now k) as [ok l1] eqn:EA. cbn [fst snd] in *.
    destruct (decide (k = key)) as [->|Hne].
    + assert (Hb : ∃ t, lm_buckets l1 !! key = Some (mkBucket t now)
                        ∧ t + (if ok then 1 else 0) <= lm_burst l + call_slack l).
      { destruct (lm_buckets l !! key) as [b|] eqn:E.
        - destruct (Allow_step l now key b Hwf E (Hcn _ _ E)) as (t & H1 & _ & _ & H2).
          rewrite EA in H1, H2. eauto.
        - rewrite (Allow_fresh l now key E) in EA. set (l' := mkLimiter _ _ _) in EA.
          destruct (Allow_step l' now key (mkBucket (lm_burst l) now)) as (t & H1 & _ & _ & H2);
            [by apply limiter_wf_fresh|apply lookup_insert_eq|simpl; lia|].
          rewrite EA in H1, H2. eauto. }
      destruct Hb as (t & Hl1 & Hst).
      pose proof (Allows_bound_from calls l1 key _ now t1 Hwf1 Hc1 Hl1 Hck) as IH'. simpl in IH'.
      rewrite Es, Er in IH'. destruct (Allows l1 calls) as [oks l2]. simpl in IH' |- *.
      rewrite bool_decide_true, andb_true_r, inject_Z_plus by done.
      destruct ok; cbn iota in *; rewrite ?inject_Z_1, ?inject_Z_0; lra.
    + specialize (IH l1 key now t1 Hwf1 Hc1 Hck). rewrite Es, Er, Eb in IH.
      destruct (Allows l1 calls) as [oks l2]. simpl in IH |- *.
      rewrite bool_decide_false, andb_false_r by done. rewrite Z.add_0_l. lra.
Qed.

Lemma NewLimiter_wf rpm burst :
  0 <= rpm → (1 ≤ burst ≤ 2 ^ 52)%Z → limiter_wf (NewLimiter rpm burst).
Proof.
  intros Hr Hb. split; cbn [NewLimiter lm_rate lm_burst lm_buckets].
  - apply round64_nonneg. apply Qmult_le_0_compat; [done|]. vm_compute. discriminate.
  - rewrite f_of_int_exact by lia. rewrite pow2_Z by lia. change 1 with (inject_Z 1).
    rewrite <-!Zle_Qle. lia.
  - apply map_Forall_empty.
Qed.

Lemma Allows_wf calls : ∀ l t0 t1,
  limiter_wf l → clock_ok l t0 → clocked t0 t1 calls →
  limiter_wf (Allows l calls).2 ∧ clock_ok (Allows l calls).2 t1
  ∧ lm_rate (Allows l calls).2 = lm_rate l ∧ lm_burst (Allows l calls).2 = lm_burst l.
Proof.
  induction calls as [|[now k] calls IH]; intros l t0 t1 Hwf Hc Hck.
  - simpl in *. split_and!; [done| |done..]. by eapply clock_ok_mono.
  - destruct Hck as [Ht0 Hck]. pose proof (clock_ok_mono _ _ _ Ht0 Hc) as Hcn.
    destruct (Allow_wf l now k Hwf Hcn) as [Hwf1 Hc1]. destruct (Allow_params l now k) as [Er Eb].
    specialize (IH _ now t1 Hwf1 Hc1 Hck). cbn [Allows].
    destruct (Allow l now k) as [ok l1]. simpl in *.
    destruct (Allows l1 calls) as [oks l2]. simpl in *. rewrite <-Er, <-Eb. done.
Qed.

(** An instant later than the last use of an integral bucket: nothing is credited. *)
Lemma refill_now l now b m B :
  lm_burst l == inject_Z B → bk_last b = now → bk_tokens b == inject_Z m →
  (0 ≤ m ≤ B)%Z → (B < 2 ^ 53)%Z → refill l now b == inject_Z m.
Proof.
  intros HB <- Ht Hm HB53. unfold refill.
  assert (tSub (bk_last b) (bk_last b) = 0%Z) as -> by (unfold tSub, int64_min, int64_max; lia).
  rewrite Seconds_0. assert (fmul 0 (lm_rate l) = 0) as -> by (apply round64_zero; lra).
  assert (Hadd : fadd (bk_tokens b) 0 == inject_Z m) by (apply round64_int_of; [lra|lia]).
  destruct (flt _ _) eqn:E; [|done]. apply flt_spec in E. rewrite HB, Hadd, <-Zlt_Qlt in E. lia.
Qed.

(** A run of simultaneous calls drains an integral bucket one token at a time. *)
Lemma Allows_burst n : ∀ l now key b m B,
  lm_burst l == inject_Z B → (B < 2 ^ 53)%Z → lm_buckets l !! key = Some b → bk_last b = now →
  bk_tokens b == inject_Z (Z.of_nat m) → (Z.of_nat m ≤ B)%Z →
  (Allows l (repeat (now, key) n)).1 = repeat true (n `min` m) ++ repeat false (n - m).
Proof.
  induction n as [|n IH]; intros l now key b m B HB HB53 Hb Hl Ht Hm; [done|].
  cbn [repeat Allows]. unfold Allow. rewrite Hb. simpl default.
  pose proof (refill_now l now b _ B HB Hl Ht ltac:(lia) HB53) as Hr.
  destruct (flt (refill l now b) 1) eqn:E.
  - apply flt_spec in E. change 1 with (inject_Z 1) in E. rewrite Hr, <-Zlt_Qlt in E.
    assert (m = 0)%nat as -> by lia. set (l1 := mkLimiter _ _ _).
    specialize (IH l1 now key (mkBucket (refill l now b) now) 0%nat B HB HB53).
    destruct (Allows l1 _) as [oks l2]. simpl in *. rewrite Nat.min_0_r, Nat.sub_0_r in IH.
    rewrite IH; [done|apply lookup_insert_eq|done..].
  - apply flt_false in E. change 1 with (inject_Z 1) in E at 1. rewrite Hr, <-Zle_Qle in E.
    destruct m as [|m]; [lia|]. set (l1 := mkLimiter _ _ _).
    assert (Hs : fsub (refill l now b) 1 == inject_Z (Z.of_nat m)).
    { apply round64_int_of; [|lia]. rewrite Hr, Nat2Z.inj_succ, <-Z.add_1_r, inject_Z_plus, inject_Z_1. lra. }
    specialize (IH l1 now key (mkBucket (fsub (refill l now b) 1) now) m B HB HB53).
    destruct (Allows l1 _) as [oks l2]. simpl in *.
    rewrite IH; [done|apply lookup_insert_eq|done|done|lia].
Qed.

(** ** The byte budget *)

Local Open Scope Z_scope.

(** What a budget has on record for a key on a date. *)
Definition used_on (b : ByteBudget) (day : string) (key : string) : Z :=
  if bool_decide (bb_day b = day) then default 0 (bb_used b !! key) else 0.

(** Amounts small enough that the [int64] sums are exact. *)
Definition small (z : Z) : Prop := 0 ≤ z ≤ 2 ^ 61.
Definition budget_small (b : ByteBudget) : Prop := map_Forall (λ _ u, small u) (bb_used b).

Lemma used_on_small b day key : budget_small b → small (used_on b day key).
Proof.
  intros H. unfold used_on. case_bool_decide; [|by unfold small].
  destruct (bb_used b !! key) as [u|] eqn:E; [exact (H _ _ E)|by unfold small].
Qed.

(** One call against a positive limit: admitted exactly when the day's total
    stays within the limit, and recorded exactly when admitted. *)
Lemma Spend_spec b now key n limit :
  budget_small b → small n → 0 < limit → limit ≤ 2 ^ 61 →
  let day := FormatDate now in
  let r := Spend b now key n limit in
  r.1 = bool_decide (used_on b day key + n ≤ limit)
  ∧ bb_day r.2 = day ∧ budget_small r.2
  ∧ (∀ k, used_on r.2 day k = used_on b day k + (if r.1 && bool_decide (k = key) then n else 0)).
Proof.
  intros Hb Hn Hl0 Hl1 day. unfold Spend. destruct (Z.leb_spec limit 0); [lia|].
  fold day. set (b1 := if bool_decide (day = bb_day b) then b else mkByteBudget ∅ day).
  assert (Hd1 : bb_day b1 = day) by (unfold b1; case_bool_decide; done).
  assert (Hu1 : ∀ k, default 0 (bb_used b1 !! k) = used_on b day k).
  { intros k. unfold b1, used_on. destruct (decide (day = bb_day b)) as [E|E].
    - rewrite !bool_decide_true by done. done.
    - rewrite !bool_decide_false by congruence. simpl. by rewrite lookup_empty. }
  assert (Hb1 : budget_small b1) by (unfold b1; case_bool_decide; [done|apply map_Forall_empty]).
  assert (Hu2 : ∀ k, used_on b1 day k = used_on b day k).
  { intros k. rewrite <-Hu1. unfold used_on. by rewrite bool_decide_true. }
  pose proof (used_on_small b day key Hb) as Hs. unfold small in Hs, Hn. rewrite Hu1.
  rewrite wrap64_id by (unfold in_int64, int64_min, int64_max; lia).
  destruct (Z.ltb_spec limit (used_on b day key + n)); simpl.
  - rewrite bool_decide_false by lia. split_and!; [done..|]. intros k. rewrite Hu2. lia.
  - rewrite bool_decide_true by lia. split_and!; [done|done| |].
    + apply map_Forall_insert_2; [unfold small; lia|done].
    + intros k. unfold used_on at 1. simpl. rewrite bool_decide_true by done.
      case_bool_decide as E; [subst; rewrite lookup_insert_eq; done|].
      rewrite lookup_insert_ne by done. rewrite Hu1. lia.
Qed.

Lemma Spend_unlimited b now key n limit : limit ≤ 0 → Spend b now key n limit = (true, b).
Proof. intros. unfold Spend. destruct (Z.leb_spec limit 0); [done|lia]. Qed.

(** Clock readings and sizes of a run. *)
Fixpoint spend_run_ok (t0 : Time) (calls : list (Time * string * Z)) : Prop :=
  match calls with
  | [] => True
  | (now, _, n) :: calls' => t0 ≤ now ∧ small n ∧ spend_run_ok now calls'
  end.

Lemma admitted_on_past d key calls : ∀ t0 oks,
  spend_run_ok t0 calls → d < day_of t0 → admitted_on d key calls oks = 0.
Proof.
  induction calls as [|[[now k] n] calls IH]; intros t0 oks Hok Hd; [done|].
  destruct oks as [|ok oks]; [done|]. destruct Hok as (Hle & _ & Hok). simpl.
  assert (day_of t0 ≤ day_of now) by (unfold day_of; apply Z.div_le_mono; [unfold Hour, Minute, Second|]; lia).
  rewrite bool_decide_false, andb_false_r by lia. rewrite (IH now); [done|done|lia].
Qed.

(** The date on record is that of some earlier call, or none yet. *)
Definition day_seen (b : ByteBudget) (t0 : Time) : Prop :=
  bb_day b = "" ∨ ∃ d0, 0 ≤ d0 ≤ day_of t0 ∧ bb_day b = date_of_day d0.

Lemma date_of_day_nonempty d : date_of_day d ≠ "".
Proof.
  unfold date_of_day. destruct (year_yday d) as [y yd], (month_day _ yd) as [m dd].
  destruct (pad 4 y); discriminate.
Qed.

Lemma Spends_day_bound d key cap calls : ∀ b t0,
  budget_small b → 0 ≤ t0 → 0 ≤ d → day_seen b t0 → spend_run_ok t0 calls →
  0 < cap key → (∀ k, cap k ≤ 2 ^ 61) →
  admitted_on d key calls (Spends b cap calls).1 + used_on b (date_of_day d) key
  ≤ Z.max (cap key) (used_on b (date_of_day d) key).
Proof.
  induction calls as [|[[now k] n] calls IH]; intros b t0 Hb Ht0 Hd Hseen Hok Hcap Hcaps;
    [simpl; lia|].
  destruct Hok as (Hle & Hn & Hok). cbn [Spends].
  assert (Hdle : day_of t0 ≤ day_of now)
    by (unfold day_of; apply Z.div_le_mono; [unfold Hour, Minute, Second|]; lia).
  pose proof (day_of_nonneg t0 Ht0) as Hd0.
  destruct (Z.le_gt_cases (cap k) 0) as [Hc|Hc].
  - rewrite Spend_unlimited by done.
    assert (Hs' : day_seen b now) by (destruct Hseen as [|(d0 & ? & ?)]; [by left|right; exists d0; split; [lia|done]]).
    specialize (IH b now Hb ltac:(lia) Hd Hs' Hok Hcap Hcaps).
    destruct (Spends b cap calls) as [oks b2]. simpl in *.
    rewrite bool_decide_false by (intros [-> _]; lia). lia.
  - destruct (Spend_spec b now k n (cap k) Hb Hn Hc (Hcaps k)) as (Hr & Hday & Hb1 & Hu).
    destruct (Spend b now k n (cap k)) as [ok b1]. simpl in *.
    assert (Hs1 : day_seen b1 now) by (right; exists (day_of now); split; [lia|done]).
    specialize (IH b1 now Hb1 ltac:(lia) Hd Hs1 Hok Hcap Hcaps).
    pose proof (admitted_on_past d key calls now (Spends b1 cap calls).1 Hok) as Hpast.
    destruct (Spends b1 cap calls) as [oks b2]. simpl in *.
    destruct (decide (day_of now = d)) as [<-|Hne].
    + specialize (Hu key). unfold FormatDate in *. rewrite Hu in IH.
      destruct (decide (k = key)) as [->|Hk].
      * rewrite !(bool_decide_true (key = key)) in IH by done. rewrite bool_decide_true by done.
        destruct ok; simpl in *; [|lia]. symmetry in Hr. apply bool_decide_eq_true in Hr. lia.
      * rewrite (bool_decide_false (key = k)) in IH by done.
        rewrite bool_decide_false by naive_solver. rewrite !andb_false_r in *. lia.
    + rewrite bool_decide_false, andb_false_r by naive_solver.
      assert (Hu1 : used_on b1 (date_of_day d) key = 0).
      { unfold used_on. rewrite bool_decide_false; [done|]. rewrite Hday. unfold FormatDate.
        intros E. apply date_of_day_inj in E; lia. }
      rewrite Hu1 in IH. destruct (Z.lt_ge_cases d (day_of now)) as [Hlt|Hge].
      * rewrite Hpast by done. lia.
      * assert (used_on b (date_of_day d) key = 0) as ->; [|lia].
        unfold used_on. rewrite bool_decide_false; [done|]. intros E.
        destruct Hseen as [Es|(d0 & Hd0' & Es)].
        -- rewrite Es in E. by destruct (date_of_day_nonempty d).
        -- rewrite Es in E. apply date_of_day_inj in E; lia.
Qed.

(** ** Properties *)

(** Whatever happened before, over any window of calls at non-decreasing
    clock readings a limiter built by [New] lets through, for any one key, at
    most [burst] requests plus [rate] per second of the window; the relative
    error [2^-50] and the slack per call are the accumulated binary64 rounding. *)
Lemma limiter_rate_bound rpm burst before t0 t1 t2 calls key :
  (0 <= rpm)%Q → 1 ≤ burst ≤ 2 ^ 52 →
  clocked t0 t1 before → clocked t1 t2 calls →
  let l := (Allows (NewLimiter rpm burst) before).2 in
  (inject_Z (allowed_count key calls (Allows l calls).1)
   <= inject_Z burst + fdiv rpm 60 * elapsed t1 t2 * (1 + drift)
      + inject_Z (Z.of_nat (length calls)) * (drift * (inject_Z burst + fdiv rpm 60 + 1)))%Q.
Proof.
  intros Hr Hb Hc1 Hc2 l.
  pose proof (NewLimiter_wf rpm burst Hr Hb) as Hwf.
  destruct (Allows_wf before _ t0 t1 Hwf ltac:(apply map_Forall_empty) Hc1) as (Hwf1 & Hc & Er & Eb).
  pose proof (Allows_bound calls _ key t1 t2 Hwf1 Hc Hc2) as H. fold l in H, Er, Eb.
  unfold call_slack in H. rewrite Er, Eb in H. simpl in H.
  rewrite (f_of_int_exact burst) in H by lia. exact H.
Qed.

(** A key's first [n] simultaneous requests are granted one by one until the
    burst is used up, and every further one is refused: the first
    [min n burst] answers are [true], the rest [false]. *)
Lemma limiter_burst_exact l now key n burst :
  (lm_burst l == inject_Z (Z.of_nat burst))%Q → Z.of_nat burst < 2 ^ 53 →
  lm_buckets l !! key = None →
  (Allows l (repeat (now, key) n)).1
  = repeat true (n `min` burst) ++ repeat false (n - burst).
Proof.
  intros HB HB53 Hn. destruct n as [|n]; [done|]. cbn [repeat Allows].
  rewrite (Allow_fresh l now key Hn). set (l' := mkLimiter _ _ _).
  pose proof (Allows_burst (S n) l' now key (mkBucket (lm_burst l) now) burst _ HB HB53
                ltac:(apply lookup_insert_eq) eq_refl HB ltac:(lia)) as H.
  exact H.
Qed.

(** *** Any clock *)

(** Clock readings past year 1, and sizes whose sums are exact. *)
Definition spend_sizes_ok (calls : list (Time * string * Z)) : Prop := Forall (λ c, 0 ≤ c.1.1 ∧ small c.2) calls.
Definition same_day (d : Z) (calls : list (Time * string * Z)) : Prop := Forall (λ c, day_of c.1.1 = d) calls.

Lemma Spends_app cap l1 : ∀ b l2,
  Spends b cap (l1 ++ l2)
  = ((Spends b cap l1).1 ++ (Spends (Spends b cap l1).2 cap l2).1, (Spends (Spends b cap l1).2 cap l2).2).
Proof.
  induction l1 as [|[[now k] n] l1 IH]; intros b l2; cbn [app Spends fst snd]; [by destruct (Spends b cap l2)|].
  destruct (Spend b now k n (cap k)) as [ok b1]. rewrite IH. by destruct (Spends b1 cap l1).
Qed.

(** What is on record stays within the caps. *)
Definition within_caps (cap : string → Z) (b : ByteBudget) : Prop :=
  budget_small b ∧ ∀ k, 0 < cap k → ∀ day, used_on b day k ≤ cap k.

Lemma Spend_within cap b now k n : (∀ k, cap k ≤ 2 ^ 61) → small n → within_caps cap b → within_caps cap (Spend b now k n (cap k)).2.
Proof.
  intros Hcaps Hn [Hb Hu]. destruct (Z.le_gt_cases (cap k) 0) as [Hc|Hc]; [by rewrite Spend_unlimited|].
  destruct (Spend_spec b now k n (cap k) Hb Hn Hc (Hcaps k)) as (Hr & Hday & Hb1 & Hu1). split; [done|]. intros k' Hk' day.
  destruct (decide (day = FormatDate now)) as [->|Hne].
  - rewrite Hu1, Hr. specialize (Hu k' Hk' (FormatDate now)). do 2 case_bool_decide; cbn [andb]; subst; lia.
  - unfold used_on. rewrite bool_decide_false by congruence. lia.
Qed.

Lemma Spends_within cap calls : (∀ k, cap k ≤ 2 ^ 61) → spend_sizes_ok calls → ∀ b,
  within_caps cap b → within_caps cap (Spends b cap calls).2.
Proof.
  intros Hcaps. induction 1 as [|[[now k] n] calls [_ Hn] _ IH]; intros b Hb; [done|]. cbn [Spends].
  pose proof (Spend_within cap b now k n Hcaps Hn Hb) as Hb1. destruct (Spend b now k n (cap k)) as [ok b1]. specialize (IH b1 Hb1).
  by destruct (Spends b1 cap calls).
Qed.

(** Over calls of one day the record grows by what is admitted. *)
Lemma Spends_used cap key d calls : (∀ k, cap k ≤ 2 ^ 61) → 0 < cap key → spend_sizes_ok calls → same_day d calls → ∀ b,
  within_caps cap b →
  used_on (Spends b cap calls).2 (date_of_day d) key
  = used_on b (date_of_day d) key + admitted_on d key calls (Spends b cap calls).1.
Proof.
  intros Hcaps Hkey Hok. induction Hok as [|[[now k] n] calls [_ Hn] _ IH]; intros Hd b Hb; [cbn; lia|].
  apply Forall_cons in Hd as [Hnow Hd]. cbn [fst snd] in *. cbn [Spends].
  pose proof (Spend_within cap b now k n Hcaps Hn Hb) as Hb1.
  assert (Hu : used_on (Spend b now k n (cap k)).2 (date_of_day d) key
    = used_on b (date_of_day d) key + if (Spend b now k n (cap k)).1 && bool_decide (k = key ∧ day_of now = d) then n else 0).
  { destruct (Z.le_gt_cases (cap k) 0) as [Hc|Hc].
    - rewrite Spend_unlimited by done. cbn. rewrite bool_decide_false by (intros [-> _]; lia). lia.
    - destruct (Spend_spec b now k n (cap k) (proj1 Hb) Hn Hc (Hcaps k)) as (_ & _ & _ & Hu). unfold FormatDate in Hu. rewrite Hnow in Hu.
      rewrite Hu. f_equal. rewrite (bool_decide_ext (key = k) (k = key ∧ day_of now = d)) by naive_solver. done. }
  destruct (Spend b now k n (cap k)) as [ok b1]. cbn [fst snd] in *. specialize (IH Hd b1 Hb1).
  destruct (Spends b1 cap calls) as [oks b2]. cbn [fst snd admitted_on] in *. lia.
Qed.

(** The counters start afresh on day [d] after these calls. *)
Definition fresh_day (cap : string → Z) (d : Z) (before : list (Time * string * Z)) : Prop :=
  before = [] ∨ ∃ before' c, before = before' ++ [c] ∧ 0 < cap c.1.2 ∧ day_of c.1.1 ≠ d.

Lemma fresh_day_used cap key d before : (∀ k, cap k ≤ 2 ^ 61) → spend_sizes_ok before → 0 ≤ d → fresh_day cap d before →
  used_on (Spends NewByteBudget cap before).2 (date_of_day d) key = 0.
Proof.
  intros Hcaps Hok Hd [->|(before' & [[now k] n] & -> & Hc & Hne)].
  - unfold used_on. case_bool_decide; [|done]. cbn. by rewrite lookup_empty.
  - apply Forall_app in Hok as [Hok [[Hnow Hn] _]%Forall_cons]. cbn [fst snd] in *. rewrite Spends_app. cbn [snd].
    destruct (Spends_within cap before' Hcaps Hok NewByteBudget) as [Hb _].
    { split; [apply map_Forall_empty|]. intros k' Hk' day. unfold used_on. case_bool_decide; cbn; rewrite ?lookup_empty; cbn; lia. }
    destruct (Spend_spec _ now k n (cap k) Hb Hn Hc (Hcaps k)) as (_ & Hday & _ & _). cbn [Spends].
    destruct (Spend _ now k n (cap k)) as [ok b1]. cbn [fst snd] in *. unfold used_on. rewrite bool_decide_false; [done|].
    rewrite Hday. unfold FormatDate. intros E. apply date_of_day_inj in E; [done| |done]. by apply day_of_nonneg.
Qed.

(** C23: The claim-bytes cap, enforced per key and per UTC day, for sizes and caps
    up to 2^61 bytes and from an empty tracker, over any calls of any keys.
    Whatever the clock does, even if it steps back: over any consecutive calls of
    one day the bytes admitted for a key stay within its positive cap; and once
    the day has changed, a call of that key is admitted exactly when its bytes and
    those admitted since then stay within the cap.  When the clock never goes back
    this makes the cap a bound on the whole day.  A cap of zero or less is no
    limit: every call is admitted. *)
Theorem byte_budget_daily_cap cap key before seg d :
  (∀ k, cap k ≤ 2 ^ 61) → spend_sizes_ok before → spend_sizes_ok seg → same_day d seg → 0 ≤ d →
  let b := (Spends NewByteBudget cap before).2 in
  let admitted := admitted_on d key seg (Spends b cap seg).1 in
  (0 < cap key → admitted ≤ cap key)
  ∧ (0 < cap key → fresh_day cap d before → ∀ now n, day_of now = d → small n →
       (Spend (Spends b cap seg).2 now key n (cap key)).1 = bool_decide (admitted + n ≤ cap key))
  ∧ (0 < cap key → ∀ calls t0, 0 ≤ t0 → spend_run_ok t0 calls →
       admitted_on d key calls (Spends NewByteBudget cap calls).1 ≤ cap key)
  ∧ (cap key ≤ 0 → ∀ b' now n, Spend b' now key n (cap key) = (true, b')).
Proof.
  intros Hcs Hok1 Hok2 Hd Hd0 b admitted.
  assert (Hw : within_caps cap b).
  { apply Spends_within; [done..|]. split; [apply map_Forall_empty|]. intros k Hk day.
    unfold used_on. case_bool_decide; cbn; rewrite ?lookup_empty; cbn; lia. }
  pose proof (Spends_within cap seg Hcs Hok2 b Hw) as [Hb2 Hu2].
  split_and!; [| | |intros Hc b' now n; by apply Spend_unlimited].
  - intros Hc. pose proof (Spends_used cap key d seg Hcs Hc Hok2 Hd b Hw) as E. fold admitted in E.
    specialize (Hu2 key Hc (date_of_day d)). pose proof (used_on_small b (date_of_day d) key (proj1 Hw)) as [Hpos _]. lia.
  - intros Hc Hf now n Hnow Hn. pose proof (Spends_used cap key d seg Hcs Hc Hok2 Hd b Hw) as E. fold admitted in E.
    unfold b in E at 2. rewrite fresh_day_used in E by done.
    destruct (Spend_spec (Spends b cap seg).2 now key n (cap key) Hb2 Hn Hc (Hcs key)) as (-> & _).
    unfold FormatDate. rewrite Hnow, E. done.
  - intros Hc calls t0 Ht Hok.
    pose proof (Spends_day_bound d key cap calls NewByteBudget t0 ltac:(apply map_Forall_empty)
                  Ht Hd0 ltac:(by left) Hok Hc Hcs) as H.
    assert (used_on NewByteBudget (date_of_day d) key = 0) as E
      by (unfold used_on; case_bool_decide; simpl; by rewrite ?lookup_empty).
    rewrite E in H. lia.
Qed.

Definition budget_demo : list (Time * string * Z) :=
  [(0, "a/b", 60); (Hour, "a/b", 50); (2 * Hour, "a/b", 40)].

(** Sixty and forty bytes of a hundred on the first day, fifty refused between
    them; the last forty bytes were exactly what was left. *)
Lemma byte_budget_daily_cap_witness :
  admitted_on 0 "a/b" budget_demo (Spends NewByteBudget (λ _, 100) budget_demo).1 ≤ 100
  ∧ (Spend (Spends NewByteBudget (λ _, 100) budget_demo).2 (3 * Hour) "a/b" 1 100).1 = false.
Proof.
  destruct (byte_budget_daily_cap (λ _, 100) "a/b" [] budget_demo 0) as (H1 & H2 & _).
  - intros k. lia.
  - constructor.
  - repeat constructor; vm_compute; discriminate.
  - repeat constructor.
  - lia.
  - split; [apply H1; lia|].
    etransitivity; [apply (H2 ltac:(lia) ltac:(by left) (3 * Hour) 1); [reflexivity|split; vm_compute; discriminate]|].
    vm_compute. reflexivity.
Defined.

(** A clock that steps back over midnight opens the first day's budget again. *)
Example clock_steps_back :
  admitted_on 0 "a/b" [(23 * Hour, "a/b", 100); (25 * Hour, "a/b", 1); (23 * Hour, "a/b", 100)]
    (Spends NewByteBudget (λ _, 100) [(23 * Hour, "a/b", 100); (25 * Hour, "a/b", 1); (23 * Hour, "a/b", 100)]).1 = 200.
Proof. vm_compute. reflexivity. Qed.
