(* ===== verification/LeaseStore.v ===== *)
(** * The lease table (internal/lease/store.go)

    [Lease] and [Store] with every operation of the package.  Each operation
    holds the store's mutex from its first to its last line, so it is one atomic
    function of the table, of the clock readings it takes and of the random bytes
    it draws; whatever handlers run concurrently, the table goes through a
    sequence of these operations ([any_step]). *)

From S2P Require Import Prelude GoStrings GoTime Encoding.
Local Open Scope Z_scope.
Local Open Scope stdpp_scope.

(** ** Data *)

Record Lease := mkLease {
  l_ID : string;
  l_SubjectKey : string;
  l_Scope : string;
  l_Semantics : string;
  l_IssuedAt : Time;
  l_ExpiresAt : Time;
  l_Renewable : bool;
  l_Surrendered : bool;
  l_expiredEmit : bool
}.

#[global] Instance Lease_eq_dec : EqDecision Lease.
Proof. solve_decision. Defined.

Abbreviation Store := (gmap string Lease).

Definition set_ExpiresAt (t : Time) (l : Lease) : Lease :=
  mkLease (l_ID l) (l_SubjectKey l) (l_Scope l) (l_Semantics l) (l_IssuedAt l) t
    (l_Renewable l) (l_Surrendered l) (l_expiredEmit l).
Definition set_Surrendered (l : Lease) : Lease :=
  mkLease (l_ID l) (l_SubjectKey l) (l_Scope l) (l_Semantics l) (l_IssuedAt l) (l_ExpiresAt l)
    (l_Renewable l) true (l_expiredEmit l).
Definition set_expiredEmit (l : Lease) : Lease :=
  mkLease (l_ID l) (l_SubjectKey l) (l_Scope l) (l_Semantics l) (l_IssuedAt l) (l_ExpiresAt l)
    (l_Renewable l) (l_Surrendered l) true.

(** ** Operations *)

Definition NewStore : Store := ∅.

(** [NewID(prefix)] with the 13 bytes [rand.Read] delivered. *)
Definition NewID (prefix rand : string) : string := prefix +:+ "_" +:+ (hex_encode rand).

Definition Create (st : Store) (now : Time) (rand : string)
    (subjectKey scope semantics : string) (ttl : Duration) (renewable : bool) : Lease * Store :=
  let l := mkLease (NewID "lease" rand) subjectKey scope semantics now (tAdd now ttl)
             renewable false false in
  (l, <[l_ID l := l]> st).

Definition Get (st : Store) (id : string) : option Lease := st !! id.

(** [Renew] reads the clock for the expiry test and again for the new expiry. *)
Definition Renew (st : Store) (now1 now2 : Time) (id : string) (ttl : Duration)
  : option Lease * string * Store :=
  match st !! id with
  | None => (None, "notfound", st)
  | Some l =>
    if l_Surrendered l then (None, "surrendered", st)
    else if After now1 (l_ExpiresAt l) then (None, "expired", st)
    else if negb (l_Renewable l) then (None, "nonrenewable", st)
    else
      let l' := set_ExpiresAt (tAdd now2 ttl) l in
      (Some l', "", <[id := l']> st)
  end.

Definition Surrender (st : Store) (id : string) : option Lease * string * Store :=
  match st !! id with
  | None => (None, "notfound", st)
  | Some l =>
    if l_Surrendered l then (Some l, "already", st)
    else let l' := set_Surrendered l in (Some l', "", <[id := l']> st)
  end.

Definition Remove (st : Store) (id : string) : Store := delete id st.

(** One iteration of the sweep loop, on the entry stored at [id]. *)
Definition sweep_entry (now : Time) (retain : Duration) (id : string)
    (acc : list Lease * Store) : list Lease * Store :=
  let '(out, st) := acc in
  match st !! id with
  | None => (out, st)
  | Some l =>
    let '(l', out, st) :=
      if After now (l_ExpiresAt l) && negb (l_expiredEmit l) && negb (l_Surrendered l)
      then let l' := set_expiredEmit l in (l', out ++ [l'], <[id := l']> st)
      else (l, out, st) in
    if After now (tAdd (l_ExpiresAt l') retain) then (out, delete id st) else (out, st)
  end.

(** [SweepExpired(retain)]; [order] is the order in which [range] visits the keys. *)
Definition SweepExpired (st : Store) (now : Time) (retain : Duration) (order : list string)
  : list Lease * Store :=
  foldl (λ acc id, sweep_entry now retain id acc) ([], st) order.

(** What [range] guarantees of its order: every key once. *)
Definition range_order (st : Store) (order : list string) : Prop :=
  order ≡ₚ (map_to_list st).*1.

(** ** The sweep, entry by entry *)

(** Due for a [lease.expired] report: past expiry, not reported, not surrendered. *)
Definition due (now : Time) (l : Lease) : bool :=
  After now (l_ExpiresAt l) && negb (l_expiredEmit l) && negb (l_Surrendered l).

Definition reported (now : Time) (l : Lease) : option Lease :=
  if due now l then Some (set_expiredEmit l) else None.

(** What the sweep leaves of an entry. *)
Definition swept (now : Time) (retain : Duration) (l : Lease) : option Lease :=
  if After now (tAdd (l_ExpiresAt l) retain) then None
  else Some (if due now l then set_expiredEmit l else l).

Lemma partial_alter_cases (st : Store) id f :
  partial_alter f id st
  = match f (st !! id) with Some l => <[id := l]> st | None => delete id st end.
Proof.
  apply map_eq. intros k. destruct (decide (id = k)) as [<-|Hne].
  - rewrite lookup_partial_alter_eq. case_match; by rewrite ?lookup_insert_eq, ?lookup_delete_eq.
  - rewrite lookup_partial_alter_ne by done.
    case_match; by rewrite ?lookup_insert_ne, ?lookup_delete_ne by done.
Qed.

Lemma sweep_entry_spec now retain id out st :
  sweep_entry now retain id (out, st)
  = (out ++ option_list (st !! id ≫= reported now),
     partial_alter (λ o, o ≫= swept now retain) id st).
Proof.
  rewrite partial_alter_cases. unfold sweep_entry, reported, swept, due.
  destruct (st !! id) as [l|] eqn:E; simpl; [|by rewrite app_nil_r, delete_id].
  destruct (After now (l_ExpiresAt l) && negb (l_expiredEmit l) && negb (l_Surrendered l)); simpl;
    (destruct (After now (tAdd (l_ExpiresAt l) retain));
     rewrite ?app_nil_r, ?delete_insert_eq, ?insert_id by done; done).
Qed.

Lemma sweep_fold now retain order : ∀ out st, NoDup order →
  foldl (λ acc id, sweep_entry now retain id acc) (out, st) order
  = (out ++ omap (λ id, st !! id ≫= reported now) order,
     (foldl (λ acc id, sweep_entry now retain id acc) (out, st) order).2)
  ∧ ∀ id, (foldl (λ acc id, sweep_entry now retain id acc) (out, st) order).2 !! id
          = if decide (id ∈ order) then st !! id ≫= swept now retain else st !! id.
Proof.
  induction order as [|k order IH]; intros out st Hnd.
  - split; [simpl; by rewrite app_nil_r|]. intros id. by rewrite decide_False by apply not_elem_of_nil.
  - apply NoDup_cons in Hnd as [Hk Hnd]. cbn [foldl]. rewrite sweep_entry_spec.
    set (st' := partial_alter _ k st).
    destruct (IH (out ++ option_list (st !! k ≫= reported now)) st' Hnd) as [E H]. split.
    + rewrite E at 1. f_equal.
      assert (Eo : omap (λ id, st' !! id ≫= reported now) order = omap (λ id, st !! id ≫= reported now) order).
      { clear -Hk. induction order as [|j order IH]; [done|]. apply not_elem_of_cons in Hk as [Hne Hk].
        cbn [omap list_omap]. rewrite IH by done. unfold st'. by rewrite lookup_partial_alter_ne by done. }
      rewrite Eo, <-app_assoc. f_equal. simpl. by destruct (st !! k ≫= reported now).
    + intros id. rewrite H. unfold st'. destruct (decide (id = k)) as [->|Hne].
      * rewrite decide_False, decide_True by (done || by left). by rewrite lookup_partial_alter_eq.
      * rewrite lookup_partial_alter_ne by done. destruct (decide (id ∈ order)).
        -- by rewrite decide_True by (by right).
        -- by rewrite decide_False by (by apply not_elem_of_cons).
Qed.

Lemma range_order_NoDup st order : range_order st order → NoDup order.
Proof. unfold range_order. intros ->. apply NoDup_fst_map_to_list. Qed.

Lemma range_order_elem st order id : range_order st order → id ∈ order ↔ is_Some (st !! id).
Proof. unfold range_order. intros ->. apply map_keys_elem. Qed.

Lemma SweepExpired_lookup st now retain order id :
  range_order st order →
  (SweepExpired st now retain order).2 !! id = st !! id ≫= swept now retain.
Proof.
  intros Ho. destruct (sweep_fold now retain order [] st (range_order_NoDup _ _ Ho)) as [_ H].
  unfold SweepExpired. rewrite H. destruct (decide (id ∈ order)) as [|Hn]; [done|].
  rewrite range_order_elem in Hn by done. destruct (st !! id); [naive_solver|done].
Qed.

Lemma SweepExpired_out st now retain order :
  range_order st order →
  (SweepExpired st now retain order).1 = omap (λ id, st !! id ≫= reported now) order.
Proof.
  intros Ho. destruct (sweep_fold now retain order [] st (range_order_NoDup _ _ Ho)) as [E _].
  unfold SweepExpired. by rewrite E.
Qed.

(** ** Runs: any interleaving of the operations *)

Inductive op :=
| OCreate (now : Time) (rand subjectKey scope semantics : string) (ttl : Duration) (renewable : bool)
| ORenew (now1 now2 : Time) (id : string) (ttl : Duration)
| OSurrender (id : string)
| ORemove (id : string)
| OSweep (now : Time) (retain : Duration) (order : list string).

Definition exec (st : Store) (o : op) : list Lease * Store :=
  match o with
  | OCreate now rand sk sc sem ttl ren => ([], (Create st now rand sk sc sem ttl ren).2)
  | ORenew now1 now2 id ttl => ([], (Renew st now1 now2 id ttl).2)
  | OSurrender id => ([], (Surrender st id).2)
  | ORemove id => ([], Remove st id)
  | OSweep now retain order => SweepExpired st now retain order
  end.

(** The table with its history: the identifiers ever issued and the
    identifiers reported expired, in order. *)
Record hist := mkHist { h_store : Store; h_used : gset string; h_reported : list string }.

Definition created (o : op) : gset string :=
  match o with OCreate _ rand _ _ _ _ _ => {[NewID "lease" rand]} | _ => ∅ end.

(** [crypto/rand] does not repeat an identifier, and [range] visits every key once. *)
Definition op_ok (h : hist) (o : op) : Prop :=
  match o with
  | OCreate _ rand _ _ _ _ _ => NewID "lease" rand ∉ h_used h
  | OSweep _ _ order => range_order (h_store h) order
  | _ => True
  end.

Inductive hstep (o : op) : hist → hist → Prop :=
| hstep_op h :
    op_ok h o →
    hstep o h (mkHist (exec (h_store h) o).2 (created o ∪ h_used h)
               (h_reported h ++ (l_ID <$> (exec (h_store h) o).1))).

(** A step by any operation, and the runs. *)
Definition any_step (h h' : hist) : Prop := ∃ o, hstep o h h'.

Definition h_init : hist := mkHist NewStore ∅ [].

(** Lookup after each operation, for the invariants below. *)
Lemma Renew_store st now1 now2 id ttl :
  (Renew st now1 now2 id ttl).2
  = match (Renew st now1 now2 id ttl).1.1 with Some l' => <[id := l']> st | None => st end.
Proof.
  unfold Renew. destruct (st !! id) as [l|]; [|done].
  by destruct (l_Surrendered l), (After now1 (l_ExpiresAt l)), (l_Renewable l).
Qed.

Lemma Surrender_store st id :
  (Surrender st id).2
  = match st !! id with Some l => <[id := set_Surrendered l]> st | None => st end.
Proof.
  unfold Surrender. destruct (st !! id) as [l|] eqn:E; [|done].
  destruct (l_Surrendered l) eqn:Es; [|done]. simpl.
  rewrite insert_id; [done|]. rewrite E. f_equal. destruct l; simpl in *. by rewrite Es.
Qed.

Lemma Renew_Some st now1 now2 id ttl l' o :
  (Renew st now1 now2 id ttl).1 = (Some l', o) →
  ∃ l, st !! id = Some l ∧ l' = set_ExpiresAt (tAdd now2 ttl) l ∧ o = ""
       ∧ l_Surrendered l = false ∧ now1 ≤ l_ExpiresAt l ∧ l_Renewable l = true.
Proof.
  unfold Renew. destruct (st !! id) as [l|]; [|done].
  destruct (l_Surrendered l) eqn:Es; [done|]. destruct (After _ _) eqn:Ea; [done|].
  destruct (l_Renewable l) eqn:Er; [|done]. simpl. intros [= <- <-].
  unfold After in Ea. exists l. split_and!; done || lia.
Qed.

Lemma Renew_outcome st now1 now2 id ttl l o : (Renew st now1 now2 id ttl).1 = (l, o) → l = None ↔ o ≠ "".
Proof.
  unfold Renew. destruct (st !! id) as [l0|]; [|intros [= <- <-]; done].
  destruct (l_Surrendered l0), (After now1 (l_ExpiresAt l0)), (l_Renewable l0); by intros [= <- <-].
Qed.

(** The phase of a lease, as the audit trail sees it. *)
Inductive phase := Active | Reported | Done | Absent.

Definition phase_of (o : option Lease) : phase :=
  match o with
  | None => Absent
  | Some l => if l_Surrendered l then Done else if l_expiredEmit l then Reported else Active
  end.

(** The abstract life cycle: what one operation may do to the phase of a lease. *)
Definition phase_next (o : op) (id : string) (p p' : phase) : Prop :=
  match o with
  | OCreate _ rand _ _ _ _ _ => p' = if decide (NewID "lease" rand = id) then Active else p
  | ORenew _ _ _ _ => p' = p
  | OSurrender k => p' = if decide (k = id) then match p with Absent => Absent | _ => Done end else p
  | ORemove k => p' = if decide (k = id) then Absent else p
  | OSweep _ _ _ => p' = p ∨ (p = Active ∧ p' = Reported) ∨ p' = Absent
  end.

Lemma exec_phase h o id :
  op_ok h o →
  phase_next o id (phase_of (h_store h !! id)) (phase_of ((exec (h_store h) o).2 !! id)).
Proof.
  intros Hok. set (st := h_store h) in *. destruct o as [now rand sk sc sem ttl ren|now1 now2 k ttl|k|k|now retain order]; simpl in *.
  - destruct (decide _) as [<-|Hne]; [by rewrite lookup_insert_eq|by rewrite lookup_insert_ne].
  - rewrite Renew_store. destruct (Renew st now1 now2 k ttl).1 as [[l'|] oc] eqn:E; [|done]. simpl.
    apply Renew_Some in E as (l & Hl & -> & _).
    destruct (decide (k = id)) as [<-|]; [by rewrite lookup_insert_eq, Hl|by rewrite lookup_insert_ne].
  - rewrite Surrender_store. destruct (decide (k = id)) as [<-|Hne].
    + destruct (st !! k) as [l|] eqn:E; [|by rewrite E]. rewrite lookup_insert_eq. simpl.
      by destruct (l_Surrendered l), (l_expiredEmit l).
    + destruct (st !! k); [by rewrite lookup_insert_ne|done].
  - unfold Remove. destruct (decide (k = id)) as [<-|Hne]; [by rewrite lookup_delete_eq|by rewrite lookup_delete_ne].
  - rewrite SweepExpired_lookup by done. destruct (st !! id) as [l|]; [|by left]. simpl.
    unfold swept, due. destruct (After now (tAdd _ _)); [by right; right|]. simpl.
    destruct (l_expiredEmit l) eqn:E1, (l_Surrendered l) eqn:E2, (After now (l_ExpiresAt l)); simpl;
      rewrite ?E1, ?E2; naive_solver.
Qed.

(** The invariant of every run. *)
Record hist_inv (h : hist) : Prop := {
  hi_id : ∀ id l, h_store h !! id = Some l → l_ID l = id;
  hi_used : ∀ id, is_Some (h_store h !! id) → id ∈ h_used h;
  hi_rep_used : ∀ id, id ∈ h_reported h → id ∈ h_used h;
  hi_rep : ∀ id l, h_store h !! id = Some l → id ∈ h_reported h ↔ l_expiredEmit l = true;
  hi_nodup : NoDup (h_reported h)
}.

Lemma sweep_out_ids h now retain order :
  hist_inv h → range_order (h_store h) order →
  l_ID <$> (SweepExpired (h_store h) now retain order).1
  = filter (λ id, is_Some (h_store h !! id ≫= reported now)) order.
Proof.
  intros Hi Ho. rewrite SweepExpired_out by done. clear Ho. induction order as [|k order IH]; [done|].
  rewrite filter_cons. cbn [omap list_omap]. destruct (h_store h !! k) as [l|] eqn:E; simpl.
  - destruct (reported now l) as [l'|] eqn:Er.
    + rewrite decide_True by eauto. rewrite fmap_cons, IH. f_equal. rewrite <-(hi_id h Hi k l E).
      unfold reported in Er. destruct (due now l); by simplify_eq.
    + rewrite decide_False by (by intros [? [=]]). exact IH.
  - exact IH.
Qed.

Lemma hist_inv_init : hist_inv h_init.
Proof.
  split; [| | | |constructor]; unfold h_init, NewStore; cbn [h_store h_used h_reported].
  - intros id l Hl. by rewrite lookup_empty in Hl.
  - intros id [l Hl]. by rewrite lookup_empty in Hl.
  - intros id Hin. by apply not_elem_of_nil in Hin.
  - intros id l Hl. by rewrite lookup_empty in Hl.
Qed.

(** What a sweep reports was live and unreported, and is marked if it stays. *)
Lemma sweep_reported h now retain order id :
  hist_inv h → range_order (h_store h) order →
  id ∈ l_ID <$> (SweepExpired (h_store h) now retain order).1 ↔
  ∃ l, h_store h !! id = Some l ∧ due now l = true.
Proof.
  intros Hi Ho. rewrite sweep_out_ids by done. rewrite list_elem_of_filter, range_order_elem by done.
  unfold reported. split.
  - intros [H _]. destruct (h_store h !! id) as [l|]; [|by destruct H]. simpl in H. exists l.
    destruct (due now l); [done|by destruct H].
  - intros (l & -> & Hd). simpl. rewrite Hd. eauto.
Qed.

Ltac unreported l :=
  exists l; split_and!; [done|done|rewrite bool_decide_false by apply not_elem_of_nil; by rewrite orb_false_r].

(** Where an entry of the table after an operation comes from. *)
Lemma exec_lookup h o id l' :
  hist_inv h → op_ok h o → (exec (h_store h) o).2 !! id = Some l' →
  (created o = {[id]} ∧ l_ID l' = id ∧ (id ∉ h_used h) ∧ l_expiredEmit l' = false) ∨
  ∃ l, h_store h !! id = Some l ∧ l_ID l' = l_ID l
       ∧ l_expiredEmit l' = (l_expiredEmit l || (bool_decide (id ∈ l_ID <$> (exec (h_store h) o).1))).
Proof.
  intros Hi. set (st := h_store h). destruct o as [now rand sk sc sem ttl ren|now1 now2 k ttl|k|k|now retain order];
    cbn [exec fst snd op_ok created]; intros Hok H; [|right..].
  - simpl in H. destruct (decide (NewID "lease" rand = id)) as [<-|Hne].
    + rewrite lookup_insert_eq in H. injection H as <-. by left.
    + rewrite lookup_insert_ne in H by done. right. unreported l'.
  - rewrite Renew_store in H. destruct (Renew st now1 now2 k ttl).1 as [[l|] oc] eqn:E; [|unreported l'].
    apply Renew_Some in E as (l0 & Hl & -> & _). simpl in H.
    destruct (decide (k = id)) as [<-|Hne]; [|rewrite lookup_insert_ne in H by done; unreported l'].
    rewrite lookup_insert_eq in H. injection H as <-. unreported l0.
  - rewrite Surrender_store in H. destruct (st !! k) as [l|] eqn:E; [|unreported l'].
    destruct (decide (k = id)) as [<-|Hne]; [|rewrite lookup_insert_ne in H by done; unreported l'].
    rewrite lookup_insert_eq in H. injection H as <-. unreported l.
  - unfold Remove in H. apply lookup_delete_Some in H as [_ H]. unreported l'.
  - rewrite SweepExpired_lookup in H by done.
    destruct (st !! id) as [l|] eqn:El; [|done]. simpl in H. exists l. split; [done|].
    unfold swept in H. destruct (After _ _); [done|]. injection H as <-.
    pose proof (sweep_reported h now retain order id Hi Hok) as Hr. fold st in Hr. rewrite El in Hr.
    destruct (due now l) eqn:Ed.
    + rewrite bool_decide_true by (apply Hr; eauto). by rewrite orb_true_r.
    + rewrite bool_decide_false, orb_false_r by (rewrite Hr; intros (? & [= <-] & ?); congruence). done.
Qed.

Lemma hist_inv_step h h' o : hist_inv h → hstep o h h' → hist_inv h'.
Proof.
  intros Hi Hs. destruct Hs as [h Hok]. pose proof Hi as [Hid Hus Hru Hre Hnd].
  assert (Hrep : ∀ id, id ∈ l_ID <$> (exec (h_store h) o).1 →
    ∃ now l, h_store h !! id = Some l ∧ due now l = true).
  { intros id Hin. destruct o; try by apply not_elem_of_nil in Hin.
    apply sweep_reported in Hin as (l & ? & ?); [|done..]. eauto. }
  split; simpl.
  - intros id l Hl. destruct (exec_lookup h o id l Hi Hok Hl) as [(_ & ? & _)|(l0 & Hl0 & E & _)]; [done|].
    rewrite E. eauto.
  - intros id [l Hl]. destruct (exec_lookup h o id l Hi Hok Hl) as [(E & _ & _)|(l0 & Hl0 & _)]; [rewrite E; set_solver|].
    apply elem_of_union_r. eauto.
  - intros id [?%Hru|Hin]%elem_of_app; [set_solver|].
    destruct (Hrep id Hin) as (?&l&Hl&_). apply elem_of_union_r. eauto.
  - intros id l Hl. rewrite elem_of_app.
    destruct (exec_lookup h o id l Hi Hok Hl) as [(_ & _ & Hn & Hf)|(l0 & Hl0 & _ & Hm)].
    + rewrite Hf. split; [|done]. intros [Hin|Hin]; destruct Hn; [by apply Hru|].
      destruct (Hrep id Hin) as (?&l1&Hl1&_). eauto.
    + rewrite Hm, orb_true_iff, bool_decide_eq_true, (Hre id l0 Hl0). done.
  - apply NoDup_app. split_and!; [done| |].
    + intros id Hin Hin'. destruct (Hrep id Hin') as (now&l&Hl&Hd).
      unfold due in Hd. rewrite (proj1 (Hre id l Hl) Hin) in Hd. by rewrite andb_false_r in Hd.
    + destruct o; try (by constructor). cbn [exec fst]. rewrite sweep_out_ids by done.
      apply NoDup_filter. by eapply range_order_NoDup.
Qed.

Lemma hist_inv_reachable h : rtc any_step h_init h → hist_inv h.
Proof.
  intros Hr. remember h_init as h0 eqn:E. assert (Hi : hist_inv h0) by (subst; apply hist_inv_init).
  clear E. induction Hr as [|h1 h2 h3 [o Hs] _ IH]; [done|]. apply IH. by eapply hist_inv_step.
Qed.

(** Runs whose clock readings never go back. *)
Definition first_reading (o : op) : option Time :=
  match o with
  | OCreate now _ _ _ _ _ _ | ORenew now _ _ _ | OSweep now _ _ => Some now
  | _ => None
  end.
Definition last_reading (o : op) : option Time :=
  match o with
  | ORenew _ now _ _ => Some now
  | _ => first_reading o
  end.

Inductive clocked_run : Time → hist → Prop :=
| crun_init t : clocked_run t h_init
| crun_step t t' h h' o :
    clocked_run t h → hstep o h h' →
    (∀ u, first_reading o = Some u → t ≤ u) → (∀ u, last_reading o = Some u → u ≤ t') → t ≤ t' →
    clocked_run t' h'.

Lemma clocked_run_inv t h :
  clocked_run t h →
  hist_inv h ∧ ∀ id l, h_store h !! id = Some l → l_expiredEmit l = true → l_ExpiresAt l < t.
Proof.
  induction 1 as [|t t' h h' o _ [Hi IH] Hs Hf Hl Ht].
  { split; [apply hist_inv_init|]. unfold h_init, NewStore. cbn. intros id l H. by rewrite lookup_empty in H. }
  split; [by eapply hist_inv_step|]. destruct Hs as [h Hok]. cbn [h_store].
  set (st := h_store h) in *. destruct o as [now rand sk sc sem ttl ren|now1 now2 k ttl|k|k|now retain order];
    cbn [exec snd]; intros id l H He.
  - simpl in H. destruct (decide (NewID "lease" rand = id)) as [<-|Hne].
    + rewrite lookup_insert_eq in H. by injection H as <-.
    + rewrite lookup_insert_ne in H by done. specialize (IH id l H He). lia.
  - rewrite Renew_store in H. destruct (Renew st now1 now2 k ttl).1 as [[l1|] oc] eqn:E; simpl in H;
      [|specialize (IH id l H He); lia].
    apply Renew_Some in E as (l0 & Hl0 & -> & _ & _ & Hle & _).
    destruct (decide (k = id)) as [<-|Hne];
      [|rewrite lookup_insert_ne in H by done; specialize (IH id l H He); lia].
    rewrite lookup_insert_eq in H. injection H as <-.
    specialize (IH k l0 Hl0 He). specialize (Hf now1 eq_refl). lia.
  - rewrite Surrender_store in H. destruct (st !! k) as [l1|] eqn:E; [|specialize (IH id l H He); lia].
    destruct (decide (k = id)) as [<-|Hne];
      [|rewrite lookup_insert_ne in H by done; specialize (IH id l H He); lia].
    rewrite lookup_insert_eq in H. injection H as <-. specialize (IH k l1 E He). simpl. lia.
  - unfold Remove in H. apply lookup_delete_Some in H as [_ H]. specialize (IH id l H He). lia.
  - rewrite SweepExpired_lookup in H by done. fold st in H. destruct (st !! id) as [l1|] eqn:E; [|done].
    simpl in H. unfold swept, due in H. destruct (After now (tAdd _ _)); [done|]. injection H as <-.
    specialize (Hl now eq_refl). destruct (After now (l_ExpiresAt l1)) eqn:Ea; simpl in *.
    + unfold After in Ea. destruct (negb _ && negb _); simpl; lia.
    + specialize (IH id l1 E He). lia.
Qed.

(** ** Properties *)

(** The sweep does not depend on the order in which Go ranges over the
    table: for any order, the table it leaves is the table with every entry
    replaced by [swept] of it (long-dead entries gone, due ones marked), and
    the leases it returns are exactly the due ones, marked, each once. *)
Lemma sweep_reference st now retain order :
  range_order st order →
  (SweepExpired st now retain order).2 = omap (swept now retain) st
  ∧ (SweepExpired st now retain order).1
    ≡ₚ set_expiredEmit <$> filter (λ l, due now l = true) (map_to_list st).*2.
Proof.
  intros Ho. split.
  - apply map_eq. intros id. rewrite SweepExpired_lookup, lookup_omap by done. done.
  - rewrite SweepExpired_out by done. unfold range_order in Ho. rewrite Ho. clear Ho.
    assert (Hall : ∀ id l, (id, l) ∈ map_to_list st → st !! id = Some l)
      by (intros id l; apply elem_of_map_to_list).
    induction (map_to_list st) as [|[id l] kvs IH]; [done|].
    rewrite !fmap_cons. cbn [fst snd]. rewrite filter_cons. cbn [omap list_omap].
    rewrite (Hall id l) by left. simpl. unfold reported at 1.
    specialize (IH ltac:(intros; apply Hall; by right)).
    destruct (due now l); [rewrite decide_True by done|rewrite decide_False by done; exact IH].
    rewrite fmap_cons. by f_equiv.
Qed.

Definition demo_lease (id : string) (exp : Time) (emit : bool) : Lease :=
  mkLease id "agents/a" "s" "static-disclosure" 0 exp true false emit.
Definition demo_store : Store :=
  <["x" := demo_lease "x" 10 false]> (<["y" := demo_lease "y" 99 false]> ∅).

Lemma sweep_reference_witness :
  (SweepExpired demo_store 50 100 ["y"; "x"]).2 = omap (swept 50 100) demo_store
  ∧ (SweepExpired demo_store 50 100 ["y"; "x"]).1 = [demo_lease "x" 10 true].
Proof.
  assert (Ho : range_order demo_store ["y"; "x"]).
  { unfold range_order. assert (E : (map_to_list demo_store).*1 = ["x"; "y"] ∨ (map_to_list demo_store).*1 = ["y"; "x"])
      by (vm_compute; tauto).
    destruct E as [-> | ->]; [constructor|done]. }
  destruct (sweep_reference demo_store 50 100 ["y"; "x"] Ho) as [H _].
  split; [exact H|]. vm_compute. reflexivity.
Defined.

(** However the operations of the store are interleaved, and whatever the
    clock does, a lease is reported expired at most once, exactly the leases of
    the table marked as reported are in the report, and every lease of the
    table sits under its own identifier. *)
Lemma expired_reported_once h :
  rtc any_step h_init h →
  NoDup (h_reported h)
  ∧ ∀ id l, h_store h !! id = Some l →
      l_ID l = id ∧ (id ∈ h_reported h ↔ l_expiredEmit l = true).
Proof.
  intros Hr. destruct (hist_inv_reachable h Hr) as [Hid _ _ Hre Hnd].
  split; [done|]. intros id l Hl. split; [by apply Hid|by apply Hre].
Qed.

Definition demo_create : op := OCreate 0 "0123456789abc" "agents/a" "s" "static-disclosure" 10 true.
Definition demo_id : string := NewID "lease" "0123456789abc".
Definition demo_hist (o : list op) : hist :=
  foldl (λ h o, mkHist (exec (h_store h) o).2 (created o ∪ h_used h)
                  (h_reported h ++ (l_ID <$> (exec (h_store h) o).1))) h_init o.
Definition demo_sweep : op := OSweep 20 100 [demo_id].

Lemma demo_run :
  any_step h_init (demo_hist [demo_create])
  ∧ any_step (demo_hist [demo_create]) (demo_hist [demo_create; demo_sweep])
  ∧ any_step (demo_hist [demo_create; demo_sweep]) (demo_hist [demo_create; demo_sweep; demo_sweep]).
Proof.
  split_and!.
  - exists demo_create. apply (hstep_op demo_create h_init). apply not_elem_of_empty.
  - exists demo_sweep. apply (hstep_op demo_sweep (demo_hist [demo_create])). vm_compute. reflexivity.
  - exists demo_sweep. apply (hstep_op demo_sweep (demo_hist [demo_create; demo_sweep])). vm_compute. reflexivity.
Qed.

(** With a clock that never goes back, a lease whose expiry has been
    reported is never extended: every later [Renew] of it is refused and
    leaves the table as it is. *)
Lemma reported_never_renewed t h id now1 now2 ttl :
  clocked_run t h → id ∈ h_reported h → t ≤ now1 →
  (Renew (h_store h) now1 now2 id ttl).1.1 = None
  ∧ (Renew (h_store h) now1 now2 id ttl).2 = h_store h.
Proof.
  intros Hr Hin Hle. destruct (clocked_run_inv t h Hr) as [Hi He].
  assert (Hn : (Renew (h_store h) now1 now2 id ttl).1.1 = None).
  { destruct (Renew (h_store h) now1 now2 id ttl).1 as [[l'|] oc] eqn:E; [exfalso|done].
    apply Renew_Some in E as (l & Hl & _ & _ & _ & Hx & _).
    specialize (He id l Hl (proj1 (hi_rep h Hi id l Hl) Hin)). lia. }
  split; [done|]. by rewrite Renew_store, Hn.
Qed.
