(* ===== verification/Ledger.v ===== *)
(** * The lease table against its contract

    What the lease table promises the rest of the broker, as a ledger: a lease is
    opened once, may be reported expired once, closed once, and forgotten.  Every
    run of the table's operations is a run of the ledger, whatever the
    interleaving and the order of the sweeps. *)

From S2P Require Import Prelude GoStrings GoTime Encoding LeaseStore.
Local Open Scope Z_scope.
Local Open Scope stdpp_scope.

(** ** The ledger *)

Inductive mark := Opened | Expired | Closed | Forgotten.
Record entry := mkEntry { en_id : string; en_mark : mark }.
Abbreviation ledger := (gmap string phase).

Inductive ledger_step : entry → ledger → ledger → Prop :=
| ls_open id (m : ledger) : m !! id = None → ledger_step (mkEntry id Opened) m (<[id := Active]> m)
| ls_expire id (m : ledger) : m !! id = Some Active → ledger_step (mkEntry id Expired) m (<[id := Reported]> m)
| ls_close id (m : ledger) p :
    m !! id = Some p → p = Active ∨ p = Reported → ledger_step (mkEntry id Closed) m (<[id := Done]> m)
| ls_forget id (m : ledger) p :
    m !! id = Some p → p ≠ Absent → ledger_step (mkEntry id Forgotten) m (<[id := Absent]> m).

Inductive ledger_run : list entry → ledger → ledger → Prop :=
| lr_nil m : ledger_run [] m m
| lr_cons e es m1 m2 m3 : ledger_step e m1 m2 → ledger_run es m2 m3 → ledger_run (e :: es) m1 m3.

Lemma ledger_run_one e m1 m2 : ledger_step e m1 m2 → ledger_run [e] m1 m2.
Proof. intros H. econstructor; [exact H|constructor]. Qed.

Lemma ledger_run_app es1 es2 m1 m2 m3 : ledger_run es1 m1 m2 → ledger_run es2 m2 m3 → ledger_run (es1 ++ es2) m1 m3.
Proof. induction 1 as [|e es m1 m2 m3' Hs _ IH]; [done|]. intros H. econstructor; [exact Hs|by apply IH]. Qed.

(** The marks of one lease in a ledger, and the ones still open to it. *)
Definition marks (id : string) (es : list entry) : list mark :=
  omap (λ e, if decide (en_id e = id) then Some (en_mark e) else None) es.
Definition to_come (p : option phase) : list mark :=
  match p with
  | None => [Opened; Expired; Closed; Forgotten]
  | Some Active => [Expired; Closed; Forgotten]
  | Some Reported => [Closed; Forgotten]
  | Some Done => [Forgotten]
  | Some Absent => []
  end.

Lemma ledger_step_marks e m1 m2 : ledger_step e m1 m2 →
  sublist (en_mark e :: to_come (m2 !! en_id e)) (to_come (m1 !! en_id e))
  ∧ ∀ id, id ≠ en_id e → m2 !! id = m1 !! id.
Proof.
  destruct 1 as [id m H|id m H|id m p H [-> | ->]|id m p H Hp]; cbn [en_id en_mark]; rewrite lookup_insert_eq, H;
    (split; [|intros j Hj; by rewrite lookup_insert_ne]).
  - done.
  - done.
  - cbn. by apply sublist_cons.
  - done.
  - destruct p; cbn; [by do 2 apply sublist_cons|by apply sublist_cons|done|done].
Qed.

Lemma ledger_run_marks es m1 m2 id : ledger_run es m1 m2 → sublist (marks id es) (to_come (m1 !! id)).
Proof.
  induction 1 as [|e es m1 m2 m3 Hs _ IH]; [apply sublist_nil_l|].
  destruct (ledger_step_marks _ _ _ Hs) as [Hm Ho]. unfold marks. cbn [omap list_omap].
  destruct (decide (en_id e = id)) as [<-|Hne].
  - etrans; [|exact Hm]. by apply sublist_skip.
  - by rewrite <-(Ho id) by done.
Qed.

(** ** The table as a ledger *)

Definition ledger_of (used : gset string) (st : Store) : ledger :=
  map_imap (λ id _, Some (phase_of (st !! id))) (gset_to_gmap () used).

Lemma ledger_of_lookup used st id :
  ledger_of used st !! id = if decide (id ∈ used) then Some (phase_of (st !! id)) else None.
Proof.
  unfold ledger_of. rewrite map_lookup_imap, lookup_gset_to_gmap.
  destruct (decide (id ∈ used)); [by rewrite option_guard_True|by rewrite option_guard_False].
Qed.

(** One entry changes: one entry of the ledger changes. *)
Lemma ledger_of_alter used st st' id :
  id ∈ used → (∀ j, j ≠ id → st' !! j = st !! j) →
  ledger_of used st' = <[id := phase_of (st' !! id)]> (ledger_of used st).
Proof.
  intros Hu Ho. apply map_eq. intros j. destruct (decide (j = id)) as [->|Hne].
  - by rewrite lookup_insert_eq, ledger_of_lookup, decide_True.
  - rewrite lookup_insert_ne, !ledger_of_lookup by done. by rewrite Ho.
Qed.

Lemma ledger_of_same used st st' :
  (∀ id, phase_of (st' !! id) = phase_of (st !! id)) → ledger_of used st' = ledger_of used st.
Proof. intros H. apply map_eq. intros id. by rewrite !ledger_of_lookup, H. Qed.

Lemma ledger_of_open used st id l :
  id ∉ used → phase_of (Some l) = Active →
  ledger_step (mkEntry id Opened) (ledger_of used st) (ledger_of ({[id]} ∪ used) (<[id := l]> st)).
Proof.
  intros Hu Hl. assert (E : ledger_of ({[id]} ∪ used) (<[id := l]> st) = <[id := Active]> (ledger_of used st)).
  { apply map_eq. intros j. rewrite ledger_of_lookup. destruct (decide (j = id)) as [->|Hne].
    - rewrite decide_True by set_solver. by rewrite !lookup_insert_eq, Hl.
    - rewrite !lookup_insert_ne, ledger_of_lookup by done. destruct (decide (j ∈ used)).
      + by rewrite decide_True by set_solver.
      + by rewrite decide_False by set_solver. }
  rewrite E. constructor. by rewrite ledger_of_lookup, decide_False.
Qed.

Lemma ledger_of_forget used st id l :
  id ∈ used → st !! id = Some l → ledger_step (mkEntry id Forgotten) (ledger_of used st) (ledger_of used (delete id st)).
Proof.
  intros Hu Hl. rewrite (ledger_of_alter used st (delete id st) id Hu) by (intros j Hj; by rewrite lookup_delete_ne).
  rewrite lookup_delete_eq. apply (ls_forget _ _ (phase_of (Some l))); [by rewrite ledger_of_lookup, decide_True, Hl|].
  cbn. by destruct (l_Surrendered l), (l_expiredEmit l).
Qed.

(** The identifiers a ledger reports expired. *)
Definition expiries (es : list entry) : list string :=
  omap (λ e, match en_mark e with Expired => Some (en_id e) | _ => None end) es.

(** ** The sweep *)

Definition keyed (used : gset string) (st : Store) : Prop :=
  ∀ id l, st !! id = Some l → l_ID l = id ∧ id ∈ used.

Lemma sweep_entry_ledger used now retain id out st :
  keyed used st →
  ∃ es, ledger_run es (ledger_of used st) (ledger_of used (sweep_entry now retain id (out, st)).2)
    ∧ l_ID <$> (sweep_entry now retain id (out, st)).1 = (l_ID <$> out) ++ expiries es
    ∧ keyed used (sweep_entry now retain id (out, st)).2.
Proof.
  intros Hk. unfold sweep_entry. destruct (st !! id) as [l|] eqn:El.
  2:{ exists []. split_and!; [constructor|by rewrite app_nil_r|done]. }
  destruct (Hk id l El) as [Hid Hu].
  assert (Hdel : ∀ st', keyed used st' → keyed used (delete id st')).
  { intros st' H j lj [_ Hj]%lookup_delete_Some. by apply H. }
  destruct (_ && _ && _) eqn:Ed; cbv beta iota zeta.
  - apply andb_true_iff in Ed as [[_ He%negb_true_iff]%andb_true_iff Hs%negb_true_iff].
    set (l' := set_expiredEmit l). assert (Hk' : keyed used (<[id := l']> st)).
    { intros j lj [[<- <-]|[_ Hj]]%lookup_insert_Some; [done|by apply Hk]. }
    assert (Hx : ledger_step (mkEntry id Expired) (ledger_of used st) (ledger_of used (<[id := l']> st))).
    { rewrite (ledger_of_alter used st (<[id := l']> st) id Hu) by (intros j Hj; by rewrite lookup_insert_ne).
      rewrite lookup_insert_eq. cbn. rewrite Hs. constructor. rewrite ledger_of_lookup, decide_True, El by done. cbn. by rewrite Hs, He. }
    destruct (After now (tAdd _ _)); cbn [fst snd].
    + exists [mkEntry id Expired; mkEntry id Forgotten]. split_and!; [|by rewrite fmap_app; cbn; rewrite Hid|by apply Hdel].
      econstructor; [exact Hx|]. apply ledger_run_one. eapply ledger_of_forget; [done|apply lookup_insert_eq].
    + exists [mkEntry id Expired]. split_and!; [by apply ledger_run_one|by rewrite fmap_app; cbn; rewrite Hid|done].
  - destruct (After now (tAdd _ _)); cbn [fst snd].
    + exists [mkEntry id Forgotten]. split_and!; [|symmetry; apply app_nil_r|by apply Hdel].
      apply ledger_run_one. by eapply ledger_of_forget.
    + exists []. split_and!; [constructor|by rewrite app_nil_r|done].
Qed.

Lemma sweep_ledger used now retain order : ∀ out st,
  keyed used st →
  ∃ es, ledger_run es (ledger_of used st) (ledger_of used (foldl (λ acc id, sweep_entry now retain id acc) (out, st) order).2)
    ∧ l_ID <$> (foldl (λ acc id, sweep_entry now retain id acc) (out, st) order).1 = (l_ID <$> out) ++ expiries es.
Proof.
  induction order as [|id order IH]; intros out st Hk; cbn [foldl].
  - exists []. split; [constructor|by rewrite app_nil_r].
  - destruct (sweep_entry_ledger used now retain id out st Hk) as (es1 & Hr1 & Ho1 & Hk1).
    destruct (sweep_entry now retain id (out, st)) as [out1 st1]. cbn [fst snd] in *.
    destruct (IH out1 st1 Hk1) as (es2 & Hr2 & Ho2). exists (es1 ++ es2). split; [by eapply ledger_run_app|].
    rewrite Ho2, Ho1, <-app_assoc. f_equal. symmetry. apply omap_app.
Qed.

(** ** Simulation *)

Lemma hstep_ledger h h' o :
  hist_inv h → hstep o h h' →
  ∃ es, ledger_run es (ledger_of (h_used h) (h_store h)) (ledger_of (h_used h') (h_store h'))
    ∧ h_reported h' = h_reported h ++ expiries es.
Proof.
  intros Hi Hs. destruct Hs as [h Hok]. set (st := h_store h) in *. set (used := h_used h) in *.
  assert (Hk : keyed used st) by (intros id l Hl; split; [by eapply hi_id|eapply hi_used; eauto]).
  destruct o as [now rand sk sc sem ttl ren|now1 now2 k ttl|k|k|now retain order]; cbn [h_store h_used h_reported exec created fst snd] in *;
    rewrite ?(left_id_L ∅ (∪)).
  - eexists. split; [apply ledger_run_one, ledger_of_open; [exact Hok|reflexivity]|done].
  - exists []. split; [|done]. erewrite <-(ledger_of_same used); [constructor|]. intros id.
    exact (exec_phase h (ORenew now1 now2 k ttl) id I).
  - rewrite Surrender_store. destruct (st !! k) as [l|] eqn:E; [|exists []; split; [constructor|done]].
    destruct (Hk k l E) as [_ Hu]. destruct (l_Surrendered l) eqn:Es.
    + exists []. split; [|done]. rewrite insert_id; [constructor|]. rewrite E. f_equal. destruct l; cbn in *. by rewrite Es.
    + exists [mkEntry k Closed]. split; [|done]. apply ledger_run_one.
      rewrite (ledger_of_alter used st (<[k := set_Surrendered l]> st) k Hu) by (intros j Hj; by rewrite lookup_insert_ne). rewrite lookup_insert_eq.
      apply (ls_close _ _ (phase_of (Some l))); [by rewrite ledger_of_lookup, decide_True, E|]. cbn. rewrite Es.
      destruct (l_expiredEmit l); auto.
  - unfold Remove. destruct (st !! k) as [l|] eqn:E.
    + destruct (Hk k l E) as [_ Hu]. exists [mkEntry k Forgotten]. split; [|done]. apply ledger_run_one. by eapply ledger_of_forget.
    + exists []. split; [|done]. rewrite delete_id by done. constructor.
  - destruct (sweep_ledger used now retain order [] st Hk) as (es & Hr & Ho). exists es. split; [exact Hr|].
    unfold SweepExpired. by rewrite Ho.
Qed.

(** C20: Every run of the lease table's operations refines the ledger: there is a
    run of the ledger from empty to the table's present phases, whose expiry
    entries are exactly the sweeps' reports, in order; and in it the marks of
    every lease are among opened, expired, closed, forgotten, in that order and
    each at most once, so a closed, expired or forgotten lease never becomes
    active again. *)
Theorem store_refines_ledger h :
  rtc any_step h_init h →
  ∃ es, ledger_run es ∅ (ledger_of (h_used h) (h_store h)) ∧ h_reported h = expiries es
    ∧ ∀ id, sublist (marks id es) [Opened; Expired; Closed; Forgotten].
Proof.
  intros Hr. assert (H : ∃ es, ledger_run es ∅ (ledger_of (h_used h) (h_store h)) ∧ h_reported h = expiries es).
  - pattern h. revert h Hr. apply rtc_ind_r.
    + exists []. split; [|done]. replace (ledger_of (h_used h_init) (h_store h_init)) with (∅ : ledger); [constructor|].
      apply map_eq. intros id. by rewrite ledger_of_lookup, lookup_empty, decide_False by apply not_elem_of_empty.
    + intros h1 h2 Hr [o Hs] (es1 & Hl1 & Hrep). destruct (hstep_ledger _ _ _ (hist_inv_reachable _ Hr) Hs) as (es2 & Hl2 & ->).
      exists (es1 ++ es2). split; [by eapply ledger_run_app|]. rewrite Hrep. symmetry. apply omap_app.
  - destruct H as (es & Hl & Hrep). exists es. split_and!; [done..|]. intros id. by apply (ledger_run_marks es ∅ _ id) in Hl.
Qed.

Lemma store_refines_ledger_witness :
  ∃ es, expiries es = [demo_id] ∧ sublist (marks demo_id es) [Opened; Expired; Closed; Forgotten].
Proof.
  destruct demo_run as (H1 & H2 & _).
  destruct (store_refines_ledger (demo_hist [demo_create; demo_sweep])) as (es & _ & He & Hm).
  - eapply rtc_l; [exact H1|]. eapply rtc_l; [exact H2|]. apply rtc_refl.
  - exists es. split; [|apply Hm]. rewrite <-He. vm_compute. reflexivity.
Defined.
