(* ===== verification/Regex.v ===== *)
(** * Regular expressions (package regexp, as the sources use it)

    The sources use anchored patterns ([^...$]) over ASCII character classes
    with literals, groups, alternation, [*], [+], [?] and [{n}].  A pattern is
    matched by Brzozowski derivatives; [in_re] is its language.  A byte outside
    ASCII is in no class of the sources, so matching bytes and matching runes
    agree. *)

From S2P Require Import Prelude GoStrings.
From Stdlib Require Import Ascii.
Local Open Scope stdpp_scope.

Inductive re :=
| Void
| Eps
| Cls (f : ascii → bool)
| Cat (r s : re)
| Alt (r s : re)
| Star (r : re).

Inductive in_re : re → list ascii → Prop :=
| in_Eps : in_re Eps []
| in_Cls f c : f c = true → in_re (Cls f) [c]
| in_Cat r s u v : in_re r u → in_re s v → in_re (Cat r s) (u ++ v)
| in_Alt_l r s u : in_re r u → in_re (Alt r s) u
| in_Alt_r r s u : in_re s u → in_re (Alt r s) u
| in_Star_nil r : in_re (Star r) []
| in_Star_app r u v : in_re r u → in_re (Star r) v → in_re (Star r) (u ++ v).

(** Constructors that drop what cannot or need not match. *)
Definition cat (r s : re) : re :=
  match r, s with
  | Void, _ | _, Void => Void
  | Eps, _ => s
  | _, _ => Cat r s
  end.
Definition alt (r s : re) : re :=
  match r, s with
  | Void, _ => s
  | _, Void => r
  | _, _ => Alt r s
  end.

Fixpoint nullable (r : re) : bool :=
  match r with
  | Void | Cls _ => false
  | Eps | Star _ => true
  | Cat r s => nullable r && nullable s
  | Alt r s => nullable r || nullable s
  end.

Fixpoint deriv (c : ascii) (r : re) : re :=
  match r with
  | Void | Eps => Void
  | Cls f => if f c then Eps else Void
  | Cat r s => if nullable r then alt (cat (deriv c r) s) (deriv c s) else cat (deriv c r) s
  | Alt r s => alt (deriv c r) (deriv c s)
  | Star r => cat (deriv c r) (Star r)
  end.

Fixpoint match_chars (r : re) (l : list ascii) : bool :=
  match l with
  | [] => nullable r
  | c :: l' => match_chars (deriv c r) l'
  end.

(** [MatchString] of an anchored pattern. *)
Definition MatchString (r : re) (s : string) : bool := match_chars r (chars s).

(** ** Pattern syntax *)

Definition ch (c : ascii) : re := Cls (Ascii.eqb c).
Definition lit (s : string) : re := foldr (λ c r, Cat (ch c) r) Eps (chars s).
Definition plus (r : re) : re := Cat r (Star r).
Definition opt (r : re) : re := Alt r Eps.
Definition rep (n : nat) (r : re) : re := Nat.iter n (Cat r) Eps.

Definition between (a b c : ascii) : bool :=
  (byte_val a <=? byte_val c)%Z && (byte_val c <=? byte_val b)%Z.
Definition az (c : ascii) : bool := between "a" "z" c.
Definition AZ (c : ascii) : bool := between "A" "Z" c.
Definition d09 (c : ascii) : bool := between "0" "9" c.

(** ** The matcher decides the language *)

Lemma in_Void w : ¬ in_re Void w.
Proof. inversion 1. Qed.

Lemma in_Eps_iff w : in_re Eps w ↔ w = [].
Proof. split; [by inversion 1|intros ->; constructor]. Qed.

Lemma in_Cls_iff f w : in_re (Cls f) w ↔ ∃ c, w = [c] ∧ f c = true.
Proof. split; [inversion 1; eauto|intros (c & -> & H); by constructor]. Qed.

Lemma in_Cat_iff r s w : in_re (Cat r s) w ↔ ∃ u v, w = u ++ v ∧ in_re r u ∧ in_re s v.
Proof. split; [inversion 1; subst; eauto 6|intros (u & v & -> & ? & ?); by constructor]. Qed.

Lemma in_Alt_iff r s w : in_re (Alt r s) w ↔ in_re r w ∨ in_re s w.
Proof. split; [inversion 1; auto|intros [?|?]; [by apply in_Alt_l|by apply in_Alt_r]]. Qed.

Lemma in_cat r s w : in_re (cat r s) w ↔ in_re (Cat r s) w.
Proof.
  rewrite in_Cat_iff.
  assert (Hv : ∀ t, ¬ (∃ u v, w = u ++ v ∧ in_re Void u ∧ in_re t v)) by (intros t (u & v & _ & ?%in_Void & _); done).
  assert (Hv' : ∀ t, ¬ (∃ u v, w = u ++ v ∧ in_re t u ∧ in_re Void v)) by (intros t (u & v & _ & _ & ?%in_Void); done).
  assert (He : in_re s w ↔ ∃ u v, w = u ++ v ∧ in_re Eps u ∧ in_re s v).
  { split; [intros Hs; exists [], w; split_and!; [done|apply in_Eps|done]
           |intros (u & v & -> & ->%in_Eps_iff & Hs); exact Hs]. }
  pose proof (in_Void w). destruct r; [naive_solver|destruct s; naive_solver|..];
    (destruct s; [naive_solver|simpl; rewrite in_Cat_iff; naive_solver..]).
Qed.

Lemma in_alt r s w : in_re (alt r s) w ↔ in_re (Alt r s) w.
Proof.
  rewrite in_Alt_iff. pose proof (in_Void w). destruct r, s; simpl; rewrite ?in_Alt_iff; naive_solver.
Qed.

Lemma nullable_spec r : nullable r = true ↔ in_re r [].
Proof.
  induction r as [| |f|r IHr s IHs|r IHr s IHs|r IHr]; simpl.
  - split; [done|by intros ?%in_Void].
  - rewrite in_Eps_iff. done.
  - rewrite in_Cls_iff. naive_solver.
  - rewrite andb_true_iff, in_Cat_iff, IHr, IHs. split.
    + intros [? ?]. by exists [], [].
    + intros (u & v & E & ? & ?). symmetry in E. apply app_eq_nil in E as [-> ->]. done.
  - by rewrite orb_true_iff, in_Alt_iff, IHr, IHs.
  - split; [intros _; constructor|done].
Qed.

Lemma in_Star_cons r c w :
  in_re (Star r) (c :: w) ↔ ∃ u v, w = u ++ v ∧ in_re r (c :: u) ∧ in_re (Star r) v.
Proof.
  split.
  - intros H. remember (Star r) as r' eqn:Er. remember (c :: w) as w' eqn:Ew.
    induction H as [| | | | | |r0 u v Hu _ Hv IHv]; try done.
    injection Er as ->. destruct u as [|d u]; simpl in Ew; [by apply IHv|].
    injection Ew as -> <-. exists u, v. done.
  - intros (u & v & -> & Hu & Hv). apply (in_Star_app r (c :: u) v); done.
Qed.

Lemma deriv_spec c r w : in_re (deriv c r) w ↔ in_re r (c :: w).
Proof.
  revert w. induction r as [| |f|r IHr s IHs|r IHr s IHs|r IHr]; intros w; simpl.
  - split; by intros ?%in_Void.
  - rewrite in_Eps_iff. split; [by intros ?%in_Void|done].
  - rewrite in_Cls_iff. destruct (f c) eqn:E.
    + rewrite in_Eps_iff. naive_solver.
    + split; [by intros ?%in_Void|naive_solver congruence].
  - assert (Hc : in_re (cat (deriv c r) s) w ↔ ∃ u v, w = u ++ v ∧ in_re r (c :: u) ∧ in_re s v).
    { rewrite in_cat, in_Cat_iff. by setoid_rewrite IHr. }
    rewrite in_Cat_iff. destruct (nullable r) eqn:En.
    + apply nullable_spec in En. rewrite in_alt, in_Alt_iff, Hc, IHs. split.
      * intros [(u & v & -> & ? & ?)|Hs]; [by exists (c :: u), v|by exists [], (c :: w)].
      * intros ([|d u] & v & E & Hu & Hv); simpl in E; simplify_eq; [by right|left; eauto].
    + rewrite Hc. split.
      * intros (u & v & -> & ? & ?). by exists (c :: u), v.
      * intros ([|d u] & v & E & Hu & Hv); simpl in E; simplify_eq; [|eauto].
        apply nullable_spec in Hu. congruence.
  - by rewrite in_alt, !in_Alt_iff, IHr, IHs.
  - rewrite in_cat, in_Cat_iff, in_Star_cons. by setoid_rewrite IHr.
Qed.

Lemma match_chars_spec l : ∀ r, match_chars r l = true ↔ in_re r l.
Proof. induction l as [|c l IH]; intros r; simpl; [apply nullable_spec|by rewrite IH, deriv_spec]. Qed.

Lemma MatchString_spec r s : MatchString r s = true ↔ in_re r (chars s).
Proof. apply match_chars_spec. Qed.

(** ** Languages of the pattern syntax *)

Lemma in_lit s w : in_re (lit s) w ↔ w = chars s.
Proof.
  unfold lit. generalize (chars s). intros l. revert w. induction l as [|c l IH]; intros w; simpl.
  - apply in_Eps_iff.
  - rewrite in_Cat_iff. setoid_rewrite IH. unfold ch. setoid_rewrite in_Cls_iff. split.
    + intros (u & v & -> & (d & -> & ->%Ascii.eqb_eq) & ->). done.
    + intros ->. exists [c], l. split_and!; [done| |done]. exists c. split; [done|apply Ascii.eqb_refl].
Qed.

Lemma in_Star_Cls f w : in_re (Star (Cls f)) w ↔ Forall (λ c, f c = true) w.
Proof.
  induction w as [|c w IH]; [split; constructor|]. rewrite in_Star_cons, Forall_cons, <-IH. split.
  - intros (u & v & -> & (d & E & Hf)%in_Cls_iff & Hv). injection E as <- ->. done.
  - intros [Hf Hs]. exists [], w. split_and!; [done| |done]. by constructor.
Qed.

Lemma in_plus_Cls f w : in_re (plus (Cls f)) w ↔ w ≠ [] ∧ Forall (λ c, f c = true) w.
Proof.
  unfold plus. rewrite in_Cat_iff. split.
  - intros (u & v & -> & (c & -> & Hf)%in_Cls_iff & Hv%in_Star_Cls). split; [done|]. by constructor.
  - intros [Hne Hall]. destruct w as [|c w]; [done|]. apply Forall_cons in Hall as [Hc Hw].
    exists [c], w. split_and!; [done|by constructor|by apply in_Star_Cls].
Qed.

Lemma in_rep_Cls f n w : in_re (rep n (Cls f)) w ↔ length w = n ∧ Forall (λ c, f c = true) w.
Proof.
  revert w. induction n as [|n IH]; intros w; simpl.
  - rewrite in_Eps_iff. split; [intros ->; split; [done|constructor]|intros [?%nil_length_inv _]; done].
  - rewrite in_Cat_iff. split.
    + intros (u & v & -> & (c & -> & Hf)%in_Cls_iff & [Hl Hv]%IH). simpl. split; [lia|by constructor].
    + intros [Hl Hall]. destruct w as [|c w]; [done|]. apply Forall_cons in Hall as [Hc Hw].
      exists [c], w. split_and!; [done|by constructor|]. apply IH. simpl in Hl. split; [lia|done].
Qed.

Lemma in_opt r w : in_re (opt r) w ↔ in_re r w ∨ w = [].
Proof. unfold opt. by rewrite in_Alt_iff, in_Eps_iff. Qed.

(** Every byte of a matched string is allowed somewhere in the pattern. *)
Fixpoint byte_ok (r : re) (c : ascii) : Prop :=
  match r with
  | Void | Eps => False
  | Cls f => f c = true
  | Cat r s | Alt r s => byte_ok r c ∨ byte_ok s c
  | Star r => byte_ok r c
  end.

Lemma in_re_bytes r w : in_re r w → Forall (byte_ok r) w.
Proof.
  induction 1; simpl; try (by constructor).
  - apply Forall_app. split; eapply Forall_impl; eauto; simpl; tauto.
  - eapply Forall_impl; eauto; simpl; tauto.
  - eapply Forall_impl; eauto; simpl; tauto.
  - by apply Forall_app.
Qed.

#[export] Hint Rewrite in_lit in_Star_Cls in_plus_Cls in_rep_Cls in_opt in_Cat_iff in_Alt_iff in_Cls_iff : regex.
