(* ===== verification/Sha256.v ===== *)
(** * SHA-256 (package crypto/sha256)

    The hash the sources use for policy hashes, key identifiers and change
    detection, on byte strings: FIPS 180-4 on 32-bit words. *)

From S2P Require Import Prelude GoStrings Encoding.
From Stdlib Require Import Ascii.
Local Open Scope Z_scope.
Local Open Scope stdpp_scope.

Definition w32 (z : Z) : Z := z `mod` 2 ^ 32.
Definition rotr (n x : Z) : Z := Z.lor (Z.shiftr x n) (w32 (Z.shiftl x (32 - n))).
Definition shr (n x : Z) : Z := Z.shiftr x n.
Definition Ch (x y z : Z) : Z := Z.lxor (Z.land x y) (Z.land (2 ^ 32 - 1 - x) z).
Definition Maj (x y z : Z) : Z := Z.lxor (Z.lxor (Z.land x y) (Z.land x z)) (Z.land y z).
Definition Sig0 (x : Z) : Z := Z.lxor (Z.lxor (rotr 2 x) (rotr 13 x)) (rotr 22 x).
Definition Sig1 (x : Z) : Z := Z.lxor (Z.lxor (rotr 6 x) (rotr 11 x)) (rotr 25 x).
Definition sig0 (x : Z) : Z := Z.lxor (Z.lxor (rotr 7 x) (rotr 18 x)) (shr 3 x).
Definition sig1 (x : Z) : Z := Z.lxor (Z.lxor (rotr 17 x) (rotr 19 x)) (shr 10 x).

(** The constants are the first 32 bits of the fractional parts of the cube
    roots ([K256]) and square roots ([H256]) of the first primes. *)
Definition is_prime (n : Z) : bool := forallb (λ d, negb (n `mod` d =? 0)) (seqZ 2 (Z.sqrt n - 1)).
Definition primes (n : nat) : list Z := take n (filter (λ p, is_prime p = true) (seqZ 2 400)).

(** The largest [r] below [2 ^ n] (above [acc]) with [r ^ 3 <= x]. *)
Fixpoint icbrt (n : nat) (acc x : Z) : Z :=
  match n with
  | O => acc
  | S k =>
    let r := acc + 2 ^ Z.of_nat k in
    icbrt k (if r * r * r <=? x then r else acc) x
  end.

Definition K256 : list Z :=
  Eval vm_compute in map (λ p, w32 (icbrt 36 0 (p * 2 ^ 96))) (primes 64).
Definition H256 : list Z :=
  Eval vm_compute in map (λ p, w32 (Z.sqrt (p * 2 ^ 64))) (primes 8).

(** Big-endian words of a block. *)
Fixpoint words (l : list Z) : list Z :=
  match l with
  | a :: b :: c :: d :: l' => (a * 2 ^ 24 + b * 2 ^ 16 + c * 2 ^ 8 + d) :: words l'
  | _ => []
  end.

Definition bytes_be (n : nat) (x : Z) : list Z :=
  map (λ i, Z.shiftr x (8 * i) `mod` 256) (reverse (seqZ 0 (Z.of_nat n))).

(** Padding: [0x80], zeros, the bit length on eight bytes. *)
Definition padding (len : Z) : list Z :=
  0x80 :: repeat 0 (Z.to_nat ((55 - len) `mod` 64)) ++ bytes_be 8 (8 * len).

(** The message schedule, kept newest first. *)
Fixpoint schedule_go (n : nat) (ws : list Z) : list Z :=
  match n with
  | O => ws
  | S k =>
    let w i := nth i ws 0 in
    schedule_go k (w32 (sig1 (w 1%nat) + w 6%nat + sig0 (w 14%nat) + w 15%nat) :: ws)
  end.
Definition message_schedule (ws : list Z) : list Z := reverse (schedule_go 48 (reverse ws)).

Definition round256 (s : list Z) (kw : Z * Z) : list Z :=
  match s with
  | [a; b; c; d; e; f; g; h] =>
    let t1 := h + Sig1 e + Ch e f g + kw.1 + kw.2 in
    let t2 := Sig0 a + Maj a b c in
    [w32 (t1 + t2); a; b; c; w32 (d + t1); e; f; g]
  | _ => s
  end.

Definition compress (hs : list Z) (block : list Z) : list Z :=
  zip_with (λ x y, w32 (x + y)) hs (foldl round256 hs (zip K256 (message_schedule (words block)))).

Fixpoint blocks (fuel : nat) (hs : list Z) (l : list Z) : list Z :=
  match fuel, l with
  | S n, _ :: _ => blocks n (compress hs (take 64 l)) (drop 64 l)
  | _, _ => hs
  end.

(** [sha256.Sum256(s)], as a 32-byte string.  Every round consumes a block, so
    the padded length is enough fuel. *)
Definition Sum256 (s : string) : string :=
  let l := byte_val <$> chars s in
  let m := l ++ padding (slen s) in
  of_chars (byte_of <$> mjoin (bytes_be 4 <$> blocks (length m) H256 m)).

(** NIST examples, one and two blocks. *)
Example Sum256_abc :
  hex_encode (Sum256 "abc") = "ba7816bf8f01cfea414140de5dae2223b00361a396177a9cb410ff61f20015ad".
Proof. vm_compute. reflexivity. Qed.

Example Sum256_two_blocks :
  hex_encode (Sum256 "abcdbcdecdefdefgefghfghighijhijkijkljklmklmnlmnomnopnopq")
  = "248d6a61d20638b8e5c026930c3e6039a33ce45964ff2167f6ecedd419db06c1".
Proof. vm_compute. reflexivity. Qed.

Lemma round256_length s kw : length s = 8%nat → length (round256 s kw) = 8%nat.
Proof. intros H. do 9 (destruct s as [|? s]; try done). Qed.

Lemma compress_length hs b : length hs = 8%nat → length (compress hs b) = 8%nat.
Proof.
  intros H. unfold compress. rewrite length_zip_with.
  assert (Hf : ∀ l s, length s = 8%nat → length (foldl round256 s l) = 8%nat).
  { induction l as [|kw l IH]; intros s Hs; [done|]. cbn. by apply IH, round256_length. }
  rewrite Hf by done. by rewrite H.
Qed.

Lemma Sum256_length s : String.length (Sum256 s) = 32%nat.
Proof.
  assert (Hb : ∀ n hs l, length hs = 8%nat → length (blocks n hs l) = 8%nat).
  { induction n as [|n IH]; intros hs l Hl; [done|]. destruct l; [done|]. cbn [blocks]. by apply IH, compress_length. }
  unfold Sum256. rewrite <-length_chars, String.list_ascii_of_string_of_list_ascii, length_fmap.
  set (hs := blocks _ _ _). assert (H8 : length hs = 8%nat) by (by apply Hb). clearbody hs.
  do 9 (destruct hs as [|? hs]; try done).
Qed.
