(* ===== verification/Json.v ===== *)
(** * JSON as package encoding/json reads and writes it

    Values ([jv]), the compact encoder with its string escaping (HTML characters,
    control bytes, invalid UTF-8, U+2028 and U+2029), the scanner, and the
    decoding of the Go types the sources decode: strings, [int64], booleans,
    string maps, string slices, slices of string maps, structs (case-insensitive
    field names, duplicates applied in order, [null] leaving a field as it was).
    A number keeps its literal text. *)

From S2P Require Import Prelude GoStrings Encoding.
From Stdlib Require Import Ascii.
Local Open Scope Z_scope.
Local Open Scope stdpp_scope.

Inductive jv :=
| JNull
| JBool (b : bool)
| JNum (lit : string)
| JStr (s : string)
| JArr (l : list jv)
| JObj (l : list (string * jv)).

(** ** UTF-8 *)

Definition in_range (a b : Z) (c : ascii) : bool := (a <=? byte_val c) && (byte_val c <=? b).
Definition cont (c : ascii) : bool := in_range 128 191 c.

(** The width of the valid encoding at the head of the bytes, 0 when it is invalid. *)
Definition rune_width (l : list ascii) : nat :=
  match l with
  | [] => O
  | c :: l1 =>
    if in_range 0 127 c then 1%nat
    else match l1 with
    | [] => O
    | c1 :: l2 =>
      if in_range 194 223 c then (if cont c1 then 2%nat else O)
      else match l2 with
      | [] => O
      | c2 :: l3 =>
        if in_range 224 239 c then
          let lo := if byte_val c =? 224 then 160 else 128 in
          let hi := if byte_val c =? 237 then 159 else 191 in
          if in_range lo hi c1 && cont c2 then 3%nat else O
        else match l3 with
        | [] => O
        | c3 :: _ =>
          let lo := if byte_val c =? 240 then 144 else 128 in
          let hi := if byte_val c =? 244 then 143 else 191 in
          if in_range 240 244 c && in_range lo hi c1 && cont c2 && cont c3 then 4%nat else O
        end
      end
    end
  end.

(** The encoding of a code point. *)
Definition encode_rune (r : Z) : list ascii :=
  if r <? 128 then [byte_of r]
  else if r <? 2048 then [byte_of (192 + r `div` 64); byte_of (128 + r `mod` 64)]
  else if r <? 65536 then
    [byte_of (224 + r `div` 4096); byte_of (128 + (r `div` 64) `mod` 64); byte_of (128 + r `mod` 64)]
  else
    [byte_of (240 + r `div` 262144); byte_of (128 + (r `div` 4096) `mod` 64);
     byte_of (128 + (r `div` 64) `mod` 64); byte_of (128 + r `mod` 64)].

Definition replacement : list ascii := encode_rune 65533.

(** ** Encoding *)

Definition u00 (c : ascii) : list ascii :=
  chars "\u00" ++ [hex_digit (byte_val c `div` 16); hex_digit (byte_val c `mod` 16)].

(** The escape of an ASCII byte. *)
Definition esc_ascii (c : ascii) : list ascii :=
  let v := byte_val c in
  if (v =? 34) || (v =? 92) then ["\"%char; c]
  else if v =? 8 then chars "\b"
  else if v =? 12 then chars "\f"
  else if v =? 10 then chars "\n"
  else if v =? 13 then chars "\r"
  else if v =? 9 then chars "\t"
  else if (v <? 32) || (v =? 60) || (v =? 62) || (v =? 38) then u00 c
  else [c].

(** U+2028 and U+2029 are escaped for the sake of JSONP. *)
Definition line_sep (l : list ascii) : option ascii :=
  match l with
  | c :: c1 :: c2 :: _ =>
    if (byte_val c =? 226) && (byte_val c1 =? 128) && in_range 168 169 c2
    then Some (byte_of (byte_val c2 - 112)) else None
  | _ => None
  end.

(** [appendString] with HTML escaping; [copy] and [drop] count the bytes of the
    current rune still to be copied or dropped. *)
Fixpoint esc (copy drop : nat) (l : list ascii) : list ascii :=
  match l with
  | [] => []
  | c :: l' =>
    match copy, drop with
    | S k, _ => c :: esc k 0 l'
    | O, S k => esc 0 k l'
    | O, O =>
      if in_range 0 127 c then esc_ascii c ++ esc 0 0 l'
      else match rune_width l with
      | O => chars "\ufffd" ++ esc 0 0 l'
      | S k =>
        match line_sep l with
        | Some d => chars "\u202" ++ d :: esc 0 2 l'
        | None => c :: esc k 0 l'
        end
      end
    end
  end.

Definition dquote : ascii := byte_of 34.
Definition quote (s : string) : string := of_chars (dquote :: esc 0 0 (chars s) ++ [dquote]).

(** [json.Marshal], on a value whose maps are already in key order. *)
Fixpoint render (v : jv) : string :=
  match v with
  | JNull => "null"
  | JBool b => if b then "true" else "false"
  | JNum lit => lit
  | JStr s => quote s
  | JArr l => "[" +:+ (Join (render <$> l) ",") +:+ "]"
  | JObj l => "{" +:+ (Join ((λ kv, (quote kv.1) +:+ ":" +:+ (render kv.2)) <$> l) ",") +:+ "}"
  end.

Definition JInt (z : Z) : jv := JNum (itoa z).

(** A map is written in increasing order of its keys. *)
Definition key_le {V} (p q : string * V) : Prop := String.le p.1 q.1.
#[global] Instance key_le_dec {V} : RelDecision (@key_le V).
Proof. intros p q. unfold key_le. apply _. Defined.
Definition sorted_entries {V} (m : gmap string V) : list (string * V) := merge_sort key_le (map_to_list m).

Lemma sorted_entries_elem {V} (m : gmap string V) k v : (k, v) ∈ sorted_entries m ↔ m !! k = Some v.
Proof. unfold sorted_entries. by rewrite merge_sort_Permutation, elem_of_map_to_list. Qed.

Lemma sorted_entries_NoDup {V} (m : gmap string V) : NoDup (sorted_entries m).*1.
Proof. unfold sorted_entries. rewrite merge_sort_Permutation. apply NoDup_fst_map_to_list. Qed.

Definition JMap {V} (f : V → jv) (m : gmap string V) : jv :=
  JObj ((λ kv, (kv.1, f kv.2)) <$> sorted_entries m).

(** A Go [map[string]string]; [None] is the nil map. *)
Definition JStrMap (m : option (gmap string string)) : jv :=
  match m with None => JNull | Some m => JMap JStr m end.

(** A Go [[]string] that was only ever appended to: nil when empty. *)
Definition JStrs (l : list string) : jv := match l with [] => JNull | _ => JArr (JStr <$> l) end.

(** A field with [omitempty]. *)
Definition omitempty (k s : string) : list (string * jv) :=
  if bool_decide (s = "") then [] else [(k, JStr s)].

(** [json.NewEncoder(w).Encode(v)] ends the value with a newline. *)
Definition newline : ascii := byte_of 10.
Definition encode (v : jv) : string := (render v) +:+ (String newline "").

(** ** Scanning *)

(** The end of the input inside a value is told apart from a syntax error;
    [PFuel] is the recursion bound, never reached from [parse]. *)
Inductive pres (A : Type) :=
| POk (a : A) (rest : list ascii)
| PEnd
| PErr
| PFuel.
Arguments POk {A} a rest.
Arguments PEnd {A}.
Arguments PErr {A}.
Arguments PFuel {A}.

Definition pbind {A B} (r : pres A) (f : A → list ascii → pres B) : pres B :=
  match r with POk a l => f a l | PEnd => PEnd | PErr => PErr | PFuel => PFuel end.

Definition is_ws (c : ascii) : bool :=
  let v := byte_val c in (v =? 32) || (v =? 9) || (v =? 13) || (v =? 10).
Definition skip_ws (l : list ascii) : list ascii := dropWhile is_ws l.

Definition hex_val (c : ascii) : option Z :=
  let v := byte_val c in
  if in_range 48 57 c then Some (v - 48)
  else if in_range 97 102 c then Some (v - 87)
  else if in_range 65 70 c then Some (v - 55)
  else None.

Definition hex4 (a b c d : ascii) : option Z :=
  x ← hex_val a; y ← hex_val b; z ← hex_val c; w ← hex_val d;
  Some (4096 * x + 256 * y + 16 * z + w).

(** The [\uXXXX] at the head of the bytes. *)
Definition getu4 (l : list ascii) : option Z :=
  match l with
  | b :: u :: a1 :: a2 :: a3 :: a4 :: _ =>
    if (byte_val b =? 92) && (byte_val u =? 117) then hex4 a1 a2 a3 a4 else None
  | _ => None
  end.

Definition simple_escape (c : ascii) : option ascii :=
  let v := byte_val c in
  if (v =? 34) || (v =? 92) || (v =? 47) then Some c
  else if v =? 98 then Some (byte_of 8)
  else if v =? 102 then Some (byte_of 12)
  else if v =? 110 then Some (byte_of 10)
  else if v =? 114 then Some (byte_of 13)
  else if v =? 116 then Some (byte_of 9)
  else None.

(** The rune of a [\u] escape of value [r], given what follows it, and the
    number of further bytes it takes (a surrogate pair takes the next escape). *)
Definition unquote_u (r : Z) (l : list ascii) : list ascii * nat :=
  if (55296 <=? r) && (r <? 57344) then
    match getu4 l with
    | Some r1 =>
      if (r <? 56320) && (56320 <=? r1) && (r1 <? 57344)
      then (encode_rune (65536 + (r - 55296) * 1024 + (r1 - 56320)), 6%nat)
      else (replacement, O)
    | None => (replacement, O)
    end
  else (encode_rune r, O).

Definition pcons (pre : list ascii) (r : pres (list ascii)) : pres (list ascii) :=
  pbind r (λ s l, POk (pre ++ s) l).

(** The bytes of a string literal after its opening quote, unquoted: escapes
    resolved, invalid UTF-8 replaced. *)
Fixpoint str_go (copy drop : nat) (l : list ascii) : pres (list ascii) :=
  match l with
  | [] => PEnd
  | c :: l' =>
    match copy, drop with
    | S k, _ => pcons [c] (str_go k 0 l')
    | O, S k => str_go 0 k l'
    | O, O =>
      if byte_val c =? 34 then POk [] l'
      else if byte_val c =? 92 then
        match l' with
        | [] => PEnd
        | e :: l1 =>
          if byte_val e =? 117 then
            match l1 with
            | a1 :: a2 :: a3 :: a4 :: l2 =>
              match hex4 a1 a2 a3 a4 with
              | Some r => let '(bs, k) := unquote_u r l2 in pcons bs (str_go 0 k l2)
              | None => PErr
              end
            | _ => if forallb (λ a, bool_decide (is_Some (hex_val a))) l1 then PEnd else PErr
            end
          else match simple_escape e with
               | Some x => pcons [x] (str_go 0 0 l1)
               | None => PErr
               end
        end
      else if byte_val c <? 32 then PErr
      else match rune_width l with
           | O => pcons replacement (str_go 0 0 l')
           | S k => pcons [c] (str_go k 0 l')
           end
    end
  end.

(** Numbers: an optional minus, an integer part without leading zeros, an
    optional fraction and an optional exponent. *)
Definition digit_b (c : ascii) : bool := in_range 48 57 c.

Fixpoint span (f : ascii → bool) (l : list ascii) : list ascii * list ascii :=
  match l with
  | c :: l' => if f c then let '(a, b) := span f l' in (c :: a, b) else ([], l)
  | [] => ([], [])
  end.

(** One digit or more. *)
Definition digits1 (l : list ascii) : pres (list ascii) :=
  match span digit_b l with
  | ([], []) => PEnd
  | ([], _) => PErr
  | (ds, r) => POk ds r
  end.

Definition num_frac (l : list ascii) : pres (list ascii) :=
  match l with
  | c :: l' => if byte_val c =? 46 then pcons [c] (digits1 l') else POk [] l
  | [] => POk [] l
  end.

Definition num_exp (l : list ascii) : pres (list ascii) :=
  match l with
  | c :: l' =>
    if (byte_val c =? 101) || (byte_val c =? 69) then
      match l' with
      | s :: l1 =>
        if (byte_val s =? 43) || (byte_val s =? 45) then pcons [c; s] (digits1 l1)
        else pcons [c] (digits1 l')
      | [] => PEnd
      end
    else POk [] l
  | [] => POk [] l
  end.

Definition num_int (l : list ascii) : pres (list ascii) :=
  match l with
  | c :: l' => if byte_val c =? 48 then POk [c] l' else digits1 l
  | [] => PEnd
  end.

Definition num_unsigned (l : list ascii) : pres (list ascii) :=
  pbind (num_int l) (λ i l1, pbind (num_frac l1) (λ f l2, pbind (num_exp l2) (λ e l3, POk (i ++ f ++ e) l3))).

Definition num_lit (l : list ascii) : pres (list ascii) :=
  match l with
  | c :: l' => if byte_val c =? 45 then pcons [c] (num_unsigned l') else num_unsigned l
  | [] => PEnd
  end.

(** The rest of a keyword. *)
Fixpoint expect (w l : list ascii) : pres () :=
  match w, l with
  | [], _ => POk () l
  | _ :: _, [] => PEnd
  | c :: w', d :: l' => if Ascii.eqb c d then expect w' l' else PErr
  end.

Definition maxNestingDepth : nat := Z.to_nat 10000.

(** Values, the elements of an array after the bracket or a
    comma, the members of an object after the brace or a comma.  [depth] is the number of levels that may still be opened. *)
Fixpoint pval (fuel depth : nat) (l : list ascii) : pres jv :=
  match fuel with
  | O => PFuel
  | S n =>
    match skip_ws l with
    | [] => PEnd
    | c :: l' =>
      let v := byte_val c in
      if v =? 34 then pbind (str_go 0 0 l') (λ s r, POk (JStr (of_chars s)) r)
      else if v =? 123 then
        match depth with
        | O => PErr
        | S d =>
          match skip_ws l' with
          | [] => PEnd
          | e :: r => if byte_val e =? 125 then POk (JObj []) r
                      else pbind (pobj n d l') (λ kvs r, POk (JObj kvs) r)
          end
        end
      else if v =? 91 then
        match depth with
        | O => PErr
        | S d =>
          match skip_ws l' with
          | [] => PEnd
          | e :: r => if byte_val e =? 93 then POk (JArr []) r
                      else pbind (parr n d l') (λ vs r, POk (JArr vs) r)
          end
        end
      else if v =? 116 then pbind (expect (chars "rue") l') (λ _ r, POk (JBool true) r)
      else if v =? 102 then pbind (expect (chars "alse") l') (λ _ r, POk (JBool false) r)
      else if v =? 110 then pbind (expect (chars "ull") l') (λ _ r, POk JNull r)
      else pbind (num_lit (c :: l')) (λ s r, POk (JNum (of_chars s)) r)
    end
  end
with parr (fuel depth : nat) (l : list ascii) : pres (list jv) :=
  match fuel with
  | O => PFuel
  | S n =>
    pbind (pval n depth l) (λ v r,
      match skip_ws r with
      | [] => PEnd
      | c :: r' =>
        if byte_val c =? 44 then pbind (parr n depth r') (λ vs r2, POk (v :: vs) r2)
        else if byte_val c =? 93 then POk [v] r'
        else PErr
      end)
  end
with pobj (fuel depth : nat) (l : list ascii) : pres (list (string * jv)) :=
  match fuel with
  | O => PFuel
  | S n =>
    match skip_ws l with
    | [] => PEnd
    | q :: l1 =>
      if negb (byte_val q =? 34) then PErr
      else pbind (str_go 0 0 l1) (λ k r,
        match skip_ws r with
        | [] => PEnd
        | c :: r1 =>
          if negb (byte_val c =? 58) then PErr
          else pbind (pval n depth r1) (λ v r2,
            match skip_ws r2 with
            | [] => PEnd
            | c :: r3 =>
              if byte_val c =? 44
              then pbind (pobj n depth r3) (λ kvs r4, POk ((of_chars k, v) :: kvs) r4)
              else if byte_val c =? 125 then POk [(of_chars k, v)] r3
              else PErr
            end)
        end)
    end
  end.

(** Every call consumes a byte or passes from a list to its first value, so
    twice the length, plus two, is enough fuel ([parse_fuel]). *)
Definition parse (l : list ascii) : pres jv := pval (2 * length l + 2) maxNestingDepth l.

(** ** Decoding *)

Inductive dres (A : Type) := DOk (a : A) | DEOF | DErr.
Arguments DOk {A} a.
Arguments DEOF {A}.
Arguments DErr {A}.

Definition dbind {A B} (r : dres A) (f : A → option B) : dres B :=
  match r with
  | DOk a => match f a with Some b => DOk b | None => DErr end
  | DEOF => DEOF
  | DErr => DErr
  end.

(** A value whose end the scanner sees at its last byte. *)
Definition self_delimited (v : jv) : bool := match v with JArr _ | JObj _ => true | _ => false end.

(** [json.NewDecoder(r).Decode] of the first value of a body read through
    [http.MaxBytesReader] with [limit]: what follows the value is not looked at,
    a blank body is [io.EOF], and a body over the limit is an error unless its
    first value is complete within it. *)
Definition decode_stream (limit : Z) (body : string) : dres jv :=
  let all := chars body in
  let over := limit <? Z.of_nat (length all) in
  let l := if over then take (Z.to_nat limit) all else all in
  match parse l with
  | POk v r => if over && negb (self_delimited v) && bool_decide (r = []) then DErr else DOk v
  | PEnd => if negb over && forallb is_ws l then DEOF else DErr
  | PErr | PFuel => DErr
  end.

(** [json.Unmarshal]: one value and nothing but blanks around it. *)
Definition unmarshal (data : string) : option jv :=
  match parse (chars data) with
  | POk v r => if forallb is_ws r then Some v else None
  | _ => None
  end.

(** Scalars: [null] leaves the target as it was. *)
Definition dec_string (v : jv) (old : string) : option string :=
  match v with JStr s => Some s | JNull => Some old | _ => None end.
Definition dec_bool (v : jv) (old : bool) : option bool :=
  match v with JBool b => Some b | JNull => Some old | _ => None end.

(** [strconv.ParseInt] on a number literal: digits only, within 64 bits. *)
Definition parse_int (lit : string) : option Z :=
  let ok s z := if negb (bool_decide (s = "")) && forallb digit_b (chars s)
                   && (int64_min <=? z) && (z <=? int64_max) then Some z else None in
  match CutPrefix lit "-" with
  | Some s => ok s (- atoi s)
  | None => ok lit (atoi lit)
  end.
Definition dec_int64 (v : jv) (old : Z) : option Z :=
  match v with JNum lit => parse_int lit | JNull => Some old | _ => None end.

(** Maps: members are added to the map already there, [null] makes it nil. *)
Definition dec_map_entry (acc : option (gmap string string)) (kv : string * jv)
  : option (gmap string string) :=
  m ← acc; s ← dec_string kv.2 ""; Some (<[kv.1 := s]> m).
Definition dec_strmap (v : jv) (old : option (gmap string string)) : option (option (gmap string string)) :=
  match v with
  | JNull => Some None
  | JObj kvs => m ← foldl dec_map_entry (Some (default ∅ old)) kvs; Some (Some m)
  | _ => None
  end.

(** Slices: the elements are decoded into those the backing array already has;
    a shorter array hides the others without clearing them. *)
Record slice (A : Type) := mkSlice { s_back : list A; s_len : nat }.
Arguments mkSlice {A} s_back s_len.
Arguments s_back {A} s.
Arguments s_len {A} s.
Definition nil_slice {A} : slice A := mkSlice [] 0.
Definition elems {A} (s : slice A) : list A := take (s_len s) (s_back s).

Fixpoint dec_elems {A} (dec : jv → A → option A) (zero : A) (vs : list jv) (back : list A) : option (list A) :=
  match vs with
  | [] => Some back
  | v :: vs' =>
    a ← dec v (default zero (head back)); l ← dec_elems dec zero vs' (tail back); Some (a :: l)
  end.
Definition dec_slice {A} (dec : jv → A → option A) (zero : A) (v : jv) (old : slice A) : option (slice A) :=
  match v with
  | JNull => Some nil_slice
  | JArr [] => Some nil_slice
  | JArr vs => l ← dec_elems dec zero vs (s_back old); Some (mkSlice l (length vs))
  | _ => None
  end.

(** Field names match exactly, or else up to case folding: besides the ASCII
    letters, U+017F folds to [S] and U+212A to [K]. *)
Fixpoint fold_name (l : list ascii) : list ascii :=
  match l with
  | c :: l1 =>
    if in_range 97 122 c then byte_of (byte_val c - 32) :: fold_name l1
    else match l1 with
    | c1 :: l2 =>
      if (byte_val c =? 197) && (byte_val c1 =? 191) then "S"%char :: fold_name l2
      else match l2 with
      | c2 :: l3 =>
        if (byte_val c =? 226) && (byte_val c1 =? 132) && (byte_val c2 =? 170)
        then "K"%char :: fold_name l3 else c :: fold_name l1
      | [] => c :: fold_name l1
      end
    | [] => c :: fold_name l1
    end
  | [] => []
  end.

Definition field_of (names : list string) (key : string) : option string :=
  if bool_decide (key ∈ names) then Some key
  else head (filter (λ n, fold_name (chars n) = fold_name (chars key)) names).

(** A struct: [set name v s] decodes [v] into the field [name]; unknown names are
    ignored and a type error anywhere fails the whole decoding. *)
Definition dec_struct {A} (names : list string) (set : string → jv → A → option A) (v : jv) (old : A) : option A :=
  match v with
  | JNull => Some old
  | JObj kvs =>
    foldl (λ acc kv, a ← acc;
             match field_of names kv.1 with Some n => set n kv.2 a | None => Some a end) (Some old) kvs
  | _ => None
  end.

Example decode_examples :
  dec_strmap (JObj [("a", JStr "x"); ("b", JNull); ("a", JStr "y")]) None
    = Some (Some {["a" := "y"; "b" := ""]})
  ∧ field_of ["scope"; "ttl_seconds"] "SCOPE" = Some "scope"
  ∧ decode_stream 5 "    " = DEOF ∧ decode_stream 3 "[1, 2]" = DErr ∧ decode_stream 3 "[1]]]]" = DOk (JArr [JNum "1"])
  ∧ parse_int "-9223372036854775808" = Some int64_min ∧ parse_int "9223372036854775808" = None
  ∧ parse_int "1e3" = None.
Proof. by vm_compute. Qed.

(** ** Rendered text is printable *)

(** No control byte: in particular no newline. *)
Definition printable (l : list ascii) : Prop := Forall (λ c, 32 ≤ byte_val c) l.

Section JvInd.
Context (P : jv → Prop).
Hypothesis Hnull : P JNull.
Hypothesis Hbool : ∀ b, P (JBool b).
Hypothesis Hnum : ∀ lit, P (JNum lit).
Hypothesis Hstr : ∀ s, P (JStr s).
Hypothesis Harr : ∀ l, Forall P l → P (JArr l).
Hypothesis Hobj : ∀ l, Forall (λ kv, P kv.2) l → P (JObj l).

Fixpoint jv_rect' (v : jv) : P v :=
  match v with
  | JNull => Hnull
  | JBool b => Hbool b
  | JNum lit => Hnum lit
  | JStr s => Hstr s
  | JArr l =>
    Harr l ((fix go (l : list jv) : Forall P l :=
      match l with
      | [] => List.Forall_nil P
      | v :: l' => List.Forall_cons P v l' (jv_rect' v) (go l')
      end) l)
  | JObj l =>
    Hobj l ((fix go (l : list (string * jv)) : Forall (λ kv, P kv.2) l :=
      match l with
      | [] => List.Forall_nil (λ kv : string * jv, P kv.2)
      | kv :: l' => List.Forall_cons (λ kv : string * jv, P kv.2) kv l' (jv_rect' kv.2) (go l')
      end) l)
  end.
End JvInd.

Lemma printable_app a b : printable (a ++ b) ↔ printable a ∧ printable b.
Proof. unfold printable. by rewrite Forall_app. Qed.

Lemma printable_cons c l : printable (c :: l) ↔ 32 ≤ byte_val c ∧ printable l.
Proof. unfold printable. by rewrite Forall_cons. Qed.

(** A literal text is printable when a computation says so. *)
Lemma printable_dec s : forallb (λ c, 32 <=? byte_val c) (chars s) = true → printable (chars s).
Proof.
  rewrite forallb_forall. unfold printable. rewrite Forall_forall.
  intros Hf c Hc. apply list_elem_of_In in Hc. specialize (Hf c Hc). by apply Z.leb_le.
Qed.

Lemma hex_digit_printable z : 0 ≤ z < 16 → 32 ≤ byte_val (hex_digit z).
Proof. intros Hz. unfold hex_digit. case_match; rewrite byte_val_of; lia. Qed.

Lemma esc_ascii_printable c : printable (esc_ascii c).
Proof.
  pose proof (byte_val_range c) as Hr. unfold esc_ascii. cbv zeta.
  destruct (_ || _) eqn:E1.
  { apply orb_true_iff in E1. rewrite !Z.eqb_eq in E1. apply printable_cons. split; [by compute|].
    apply printable_cons. split; [lia|constructor]. }
  repeat (case_match; [by apply printable_dec|]).
  destruct (_ || _ || _ || _) eqn:E2.
  - unfold u00. apply printable_app. split; [by apply printable_dec|].
    rewrite !printable_cons. split; [apply hex_digit_printable|split; [apply hex_digit_printable|constructor]].
    + split; [apply Z.div_pos; lia|apply Z.div_lt_upper_bound; lia].
    + apply Z.mod_pos_bound; lia.
  - rewrite !orb_false_iff, Z.ltb_ge in E2. apply printable_cons. split; [lia|constructor].
Qed.

(** The bytes of a multi-byte rune are all at least 128. *)
Lemma rune_width_cont c l k :
  rune_width (c :: l) = S k → in_range 0 127 c = false → printable (take k l).
Proof.
  unfold rune_width. intros Hw Hc. rewrite Hc in Hw. unfold cont, in_range in *.
  repeat (case_match; try discriminate); injection Hw as <-; simpl;
    repeat match goal with H : (_ && _) = true |- _ => apply andb_true_iff in H as [? ?] end;
    rewrite ?Z.leb_le in *; rewrite !printable_cons; repeat split; try lia; try apply Forall_nil_2;
    repeat match goal with H : (if _ then _ else _) <= _ |- _ => revert H; case_match; intros end; lia.
Qed.

Lemma esc_printable l : ∀ copy drop, printable (take copy l) → printable (esc copy drop l).
Proof.
  induction l as [|c l IH]; intros copy drop Hcopy; [apply Forall_nil_2|]. cbn [esc].
  destruct copy as [|k].
  - destruct drop as [|k]; [|by apply IH].
    case_match eqn:Ec.
    { apply printable_app. split; [apply esc_ascii_printable|by apply IH]. }
    destruct (rune_width (c :: l)) as [|k] eqn:Ew.
    { apply printable_app. split; [by apply printable_dec|by apply IH]. }
    destruct (line_sep (c :: l)) as [d|] eqn:El.
    + apply printable_app. split; [by apply printable_dec|]. apply printable_cons. split; [|by apply IH].
      unfold line_sep in El. destruct l as [|c1 [|c2 l]]; try done. case_match eqn:E; [|done].
      injection El as <-. rewrite !andb_true_iff in E. destruct E as [_ E]. unfold in_range in E.
      rewrite andb_true_iff, !Z.leb_le in E. rewrite byte_val_of; lia.
    + apply printable_cons. split.
      * unfold in_range in Ec. pose proof (byte_val_range c). rewrite andb_false_iff, !Z.leb_gt in Ec. lia.
      * apply IH. by eapply rune_width_cont.
  - cbn [take] in Hcopy. apply printable_cons in Hcopy as [Hc Hk]. apply printable_cons. split; [done|by apply IH].
Qed.

Lemma quote_chars s : chars (quote s) = dquote :: esc 0 0 (chars s) ++ [dquote].
Proof. apply String.list_ascii_of_string_of_list_ascii. Qed.

Lemma quote_printable s : printable (chars (quote s)).
Proof.
  rewrite quote_chars. apply printable_cons. split; [by compute|].
  apply printable_app. split; [apply esc_printable, Forall_nil_2|]. apply printable_cons. split; [by compute|apply Forall_nil_2].
Qed.

Lemma itoa_printable z : printable (chars (itoa z)).
Proof.
  assert (Hn : ∀ n, 0 ≤ n → printable (chars (itoa_nat n))).
  { intros n Hn. pose proof (itoa_nat_digits n Hn) as Hd. unfold all_digits in Hd.
    eapply Forall_impl; [exact Hd|]. intros c Hc. unfold is_digit in Hc. rewrite andb_true_iff, !Z.leb_le in Hc. simpl. lia. }
  unfold itoa. destruct (Z.ltb_spec z 0); [|by apply Hn].
  rewrite chars_append. apply printable_app. split; [by apply printable_dec|]. apply Hn. lia.
Qed.

(** Values whose numbers are printed integers, as everywhere in the sources. *)
Fixpoint int_nums (v : jv) : Prop :=
  match v with
  | JNum lit => ∃ z, lit = itoa z
  | JArr l => foldr (λ v P, int_nums v ∧ P) True l
  | JObj l => foldr (λ kv P, int_nums kv.2 ∧ P) True l
  | _ => True
  end.

Lemma int_nums_arr l : int_nums (JArr l) ↔ Forall int_nums l.
Proof. induction l as [|v l IH]; simpl; [done|]. rewrite Forall_cons. by rewrite <-IH. Qed.
Lemma int_nums_obj l : int_nums (JObj l) ↔ Forall (λ kv, int_nums kv.2) l.
Proof. induction l as [|v l IH]; simpl; [done|]. rewrite Forall_cons. by rewrite <-IH. Qed.

Lemma Join_printable ws sep :
  printable (chars sep) → Forall (λ w, printable (chars w)) ws → printable (chars (Join ws sep)).
Proof.
  intros Hs. unfold Join. induction 1 as [|w ws Hw Hws IH]; [apply Forall_nil_2|].
  destruct ws as [|w2 ws]; [done|]. cbn [String.concat] in *.
  rewrite !chars_append, !printable_app. done.
Qed.

Lemma render_printable v : int_nums v → printable (chars (render v)).
Proof.
  induction v as [|b|lit|s|l IH|l IH] using jv_rect'; intros Hv; cbn [render].
  - by apply printable_dec.
  - destruct b; by apply printable_dec.
  - destruct Hv as [z ->]. apply itoa_printable.
  - apply quote_printable.
  - apply int_nums_arr in Hv. rewrite !chars_append, !printable_app.
    split; [by apply printable_dec|]. split; [|by apply printable_dec].
    apply Join_printable; [by apply printable_dec|]. apply Forall_fmap. rewrite Forall_forall in *.
    intros w Hw. simpl. apply IH; auto.
  - apply int_nums_obj in Hv. rewrite !chars_append, !printable_app.
    split; [by apply printable_dec|]. split; [|by apply printable_dec].
    apply Join_printable; [by apply printable_dec|]. apply Forall_fmap. rewrite Forall_forall in *.
    intros kv Hkv. cbn [compose]. unfold compose. rewrite !chars_append, !printable_app. split; [apply quote_printable|].
    split; [by apply printable_dec|]. apply IH; auto.
Qed.

(** ** The scanner always answers *)

(** A result other than [PFuel] that leaves at most [k] bytes. *)
Definition leaves {A} (k : nat) (r : pres A) : Prop :=
  match r with POk _ l => (length l ≤ k)%nat | PFuel => False | _ => True end.

Lemma leaves_pbind {A B} k k' (r : pres A) (f : A → list ascii → pres B) :
  leaves k r → (∀ a l, (length l ≤ k)%nat → leaves k' (f a l)) → leaves k' (pbind r f).
Proof. destruct r; simpl; auto. Qed.

Lemma leaves_pcons k pre r : leaves k r → leaves k (pcons pre r).
Proof. intros H. eapply leaves_pbind; [exact H|]. done. Qed.

Lemma leaves_mono {A} k k' (r : pres A) : leaves k r → (k ≤ k')%nat → leaves k' r.
Proof. destruct r; simpl; auto. lia. Qed.

Lemma dropWhile_length {A} (f : A → bool) l : (length (dropWhile f l) ≤ length l)%nat.
Proof. induction l as [|c l IH]; simpl; [lia|]. destruct (f c); simpl; lia. Qed.

Lemma skip_ws_cons l c r : skip_ws l = c :: r → (length r < length l)%nat.
Proof. intros E. pose proof (dropWhile_length is_ws l) as H. unfold skip_ws in E. rewrite E in H. simpl in H. lia. Qed.

Lemma str_go_leaves l : ∀ copy drop, leaves (pred (length l)) (str_go copy drop l).
Proof.
  induction l as [l IH] using (induction_ltof1 _ length). unfold ltof in IH.
  intros copy drop. destruct l as [|c l]; [done|]. cbn [str_go pred length].
  assert (Hrec : ∀ l2 copy drop, (length l2 ≤ length l)%nat → leaves (length l) (str_go copy drop l2)).
  { intros l2 cp dr Hl. eapply leaves_mono; [apply IH; simpl; lia|]. lia. }
  assert (Hc : ∀ pre l2 copy drop, (length l2 ≤ length l)%nat → leaves (length l) (pcons pre (str_go copy drop l2))).
  { intros. by apply leaves_pcons, Hrec. }
  destruct copy; [|by apply Hc]. destruct drop; [|by apply Hrec].
  case_match; [simpl; lia|]. case_match.
  - destruct l as [|e l1]; [done|]. case_match.
    + destruct l1 as [|a1 [|a2 [|a3 [|a4 l2]]]]; try (by case_match).
      destruct (hex4 a1 a2 a3 a4); [|done]. destruct (unquote_u _ _). apply Hc. simpl. lia.
    + destruct (simple_escape e); [apply Hc; simpl; lia|done].
  - case_match; [done|]. destruct (rune_width (c :: l)); by apply Hc.
Qed.

Lemma span_length f l : ∀ a b, span f l = (a, b) → (length b ≤ length l)%nat ∧ (a ≠ [] → (length b < length l)%nat).
Proof.
  induction l as [|c l IH]; simpl; intros a b E; [by injection E as <- <-|].
  destruct (f c); [|injection E as <- <-; simpl; split; [lia|done]].
  destruct (span f l) as [a' b'] eqn:Es. injection E as <- <-. destruct (IH a' b' eq_refl). split; [lia|intros; lia].
Qed.

Lemma digits1_leaves l : leaves (pred (length l)) (digits1 l).
Proof.
  unfold digits1. destruct (span digit_b l) as [a b] eqn:E. apply span_length in E as [E1 E2].
  destruct a as [|c a]; [by destruct b|]. simpl. specialize (E2 ltac:(done)). lia.
Qed.

Lemma num_unsigned_leaves l : leaves (pred (length l)) (num_unsigned l).
Proof.
  unfold num_unsigned. eapply leaves_pbind with (k := pred (length l)).
  { unfold num_int. destruct l as [|c l]; [done|]. case_match; [simpl; lia|apply digits1_leaves]. }
  intros i l1 H1. eapply leaves_pbind with (k := pred (length l)).
  { unfold num_frac. destruct l1 as [|c l1]; [done|]. case_match; [|done].
    apply leaves_pcons. eapply leaves_mono; [apply digits1_leaves|]. simpl in *. lia. }
  intros f l2 H2. eapply leaves_pbind with (k := pred (length l)); [|intros; simpl; lia].
  unfold num_exp. destruct l2 as [|c l2]; [done|]. case_match; [|done].
  destruct l2 as [|s l2]; [done|]. case_match; apply leaves_pcons;
    (eapply leaves_mono; [apply digits1_leaves|]); simpl in *; lia.
Qed.

Lemma num_lit_leaves l : leaves (pred (length l)) (num_lit l).
Proof.
  unfold num_lit. destruct l as [|c l]; [done|]. case_match; [|apply num_unsigned_leaves].
  apply leaves_pcons. eapply leaves_mono; [apply num_unsigned_leaves|]. simpl. lia.
Qed.

Lemma expect_leaves w : ∀ l, leaves (length l) (expect w l).
Proof.
  induction w as [|c w IH]; intros [|d l]; simpl; try done. case_match; [|done].
  eapply leaves_mono; [apply IH|]. lia.
Qed.

Lemma parse_go_leaves n : ∀ d l,
  ((2 * length l + 1 ≤ n)%nat → leaves (pred (length l)) (pval n d l))
  ∧ ((2 * length l + 2 ≤ n)%nat → leaves (pred (length l)) (parr n d l))
  ∧ ((2 * length l + 2 ≤ n)%nat → leaves (pred (length l)) (pobj n d l)).
Proof.
  induction n as [|n IH]; intros d l; [split_and!; lia|]. split_and!; intros Hn.
  - cbn [pval]. destruct (skip_ws l) as [|c l'] eqn:E; [done|]. apply skip_ws_cons in E.
    assert (Hk : ∀ {A B} (r : pres A) (f : A → B), leaves (length l') r →
              leaves (pred (length l)) (pbind r (λ a r, POk (f a) r))).
    { intros A B r f Hr. eapply leaves_pbind; [exact Hr|]. simpl. lia. }
    case_match; [apply Hk; eapply leaves_mono; [apply str_go_leaves|]; lia|].
    case_match.
    { destruct d as [|d]; [done|]. destruct (skip_ws l') as [|e r] eqn:E2; [done|]. apply skip_ws_cons in E2.
      case_match; [simpl; lia|]. apply Hk. eapply leaves_mono; [apply IH; lia|]. lia. }
    case_match.
    { destruct d as [|d]; [done|]. destruct (skip_ws l') as [|e r] eqn:E2; [done|]. apply skip_ws_cons in E2.
      case_match; [simpl; lia|]. apply Hk. eapply leaves_mono; [apply IH; lia|]. lia. }
    do 3 (case_match; [apply (Hk _ _ _ (λ _, _)); apply expect_leaves|]).
    apply Hk. eapply leaves_mono; [apply num_lit_leaves|]. simpl. lia.
  - cbn [parr]. eapply leaves_pbind; [apply IH; lia|]. intros v r Hr.
    destruct (skip_ws r) as [|c r'] eqn:E; [done|]. apply skip_ws_cons in E. case_match.
    + eapply leaves_pbind; [apply IH; lia|]. simpl. lia.
    + case_match; [simpl; lia|done].
  - cbn [pobj]. destruct (skip_ws l) as [|q l1] eqn:E; [done|]. apply skip_ws_cons in E. case_match; [done|].
    eapply leaves_pbind; [apply str_go_leaves|]. intros k r Hr.
    destruct (skip_ws r) as [|c r1] eqn:E1; [done|]. apply skip_ws_cons in E1. case_match; [done|].
    eapply leaves_pbind; [apply IH; lia|]. intros v r2 Hr2.
    destruct (skip_ws r2) as [|c2 r3] eqn:E2; [done|]. apply skip_ws_cons in E2. case_match.
    + eapply leaves_pbind; [apply IH; lia|]. simpl. lia.
    + case_match; [simpl; lia|done].
Qed.

Lemma parse_fuel l : leaves (pred (length l)) (parse l).
Proof. apply parse_go_leaves. lia. Qed.
