(* ===== verification/JsonRound.v ===== *)
(** * Reading back what was written

    Scanning a rendered value gives the value back, its strings made valid UTF-8
    (the encoder replaces every invalid byte by U+FFFD); compacting a rendered
    value leaves it as it is. *)

From S2P Require Import Prelude GoStrings Encoding Json.
From Stdlib Require Import Ascii.
Local Open Scope Z_scope.
Local Open Scope stdpp_scope.

(** ** Strings *)

(** Every byte that is not part of a valid encoding becomes U+FFFD; [copy] counts
    the bytes of the current rune still to be copied. *)
Fixpoint valid_go (copy : nat) (l : list ascii) : list ascii :=
  match l with
  | [] => []
  | c :: l' =>
    match copy with
    | S k => c :: valid_go k l'
    | O =>
      match rune_width l with
      | O => replacement ++ valid_go 0 l'
      | S k => c :: valid_go k l'
      end
    end
  end.
Definition valid_utf8 (s : string) : string := of_chars (valid_go 0 (chars s)).

(** A valid encoding is recognised by its own bytes. *)
Lemma rune_width_take l l' k :
  rune_width l = S k → take (S k) l' = take (S k) l → rune_width l' = S k.
Proof.
  intros Hw Ht. unfold rune_width in Hw.
  destruct l as [|c l]; [done|]. destruct l' as [|d l']; [done|]. cbn [take] in Ht. injection Ht as -> Ht.
  unfold rune_width. destruct (in_range 0 127 c); [done|].
  destruct l as [|c1 l]; [done|]. destruct (in_range 194 223 c).
  { destruct (cont c1) eqn:E; [|done]. injection Hw as <-. destruct l' as [|d1 l']; [done|].
    cbn [take] in Ht. injection Ht as ->. by rewrite E. }
  destruct l as [|c2 l]; [done|]. destruct (in_range 224 239 c).
  { case_match eqn:E; [|done]. injection Hw as <-. destruct l' as [|d1 [|d2 l']]; try done.
    cbn [take] in Ht. injection Ht as -> ->. by rewrite E. }
  destruct l as [|c3 l]; [done|]. case_match eqn:E; [|done]. injection Hw as <-.
  destruct l' as [|d1 [|d2 [|d3 l']]]; try done. cbn [take] in Ht. injection Ht as -> -> ->. by rewrite E.
Qed.

Lemma rune_width_length l k : rune_width l = S k → (S k ≤ length l)%nat.
Proof.
  unfold rune_width. intros Hw. repeat (case_match; try discriminate); injection Hw as <-; simpl; lia.
Qed.

Lemma rune_width_ascii c l : in_range 0 127 c = true → rune_width (c :: l) = 1%nat.
Proof. intros H. unfold rune_width. by rewrite H. Qed.

(** [esc] copies the bytes it was told to copy, and drops those to drop. *)
Lemma esc_copy l : ∀ k, (k ≤ length l)%nat → esc k 0 l = take k l ++ esc 0 0 (drop k l).
Proof. induction l as [|c l IH]; intros [|k] Hk; simpl in *; try done. f_equal. apply IH. lia. Qed.
Lemma esc_drop l : ∀ k, (k ≤ length l)%nat → esc 0 k l = esc 0 0 (drop k l).
Proof. induction l as [|c l IH]; intros [|k] Hk; simpl in *; try done. apply IH. lia. Qed.
Lemma valid_copy l : ∀ k, (k ≤ length l)%nat → valid_go k l = take k l ++ valid_go 0 (drop k l).
Proof. induction l as [|c l IH]; intros [|k] Hk; simpl in *; try done. f_equal. apply IH. lia. Qed.

Lemma pcons_pcons a b r : pcons a (pcons b r) = pcons (a ++ b) r.
Proof. destruct r; try done. cbn. by rewrite app_assoc. Qed.
Lemma pcons_nil r : pcons [] r = r.
Proof. by destruct r. Qed.

Lemma str_go_copy a : ∀ l, str_go (length a) 0 (a ++ l) = pcons a (str_go 0 0 l).
Proof.
  induction a as [|c a IH]; intros l; [by rewrite pcons_nil|]. cbn [length app str_go].
  rewrite IH, pcons_pcons. done.
Qed.

(** An escape is read back as the byte it stands for. *)
Lemma str_go_esc_ascii c l :
  in_range 0 127 c = true → str_go 0 0 (esc_ascii c ++ l) = pcons [c] (str_go 0 0 l).
Proof.
  intros Hc. destruct c as [[] [] [] [] [] [] [] []]; try discriminate Hc; reflexivity.
Qed.

Lemma str_go_replacement l : str_go 0 0 (chars "\ufffd" ++ l) = pcons replacement (str_go 0 0 l).
Proof. reflexivity. Qed.

(** The escaped forms of U+2028 and U+2029. *)
Lemma line_sep_Some c l d :
  line_sep (c :: l) = Some d →
  ∃ c2 l2, l = byte_of 128 :: c2 :: l2 ∧ c = byte_of 226 ∧ rune_width (c :: l) = 3%nat
    ∧ (c2 = byte_of 168 ∧ d = "8"%char ∨ c2 = byte_of 169 ∧ d = "9"%char).
Proof.
  unfold line_sep. destruct l as [|c1 [|c2 l]]; try done. case_match eqn:E; [|done]. intros [= <-].
  rewrite !andb_true_iff, !Z.eqb_eq in E. unfold in_range in E. rewrite andb_true_iff, !Z.leb_le in E.
  destruct E as [[E1 E2] E3]. exists c2, l.
  rewrite <-(byte_of_val c), <-(byte_of_val c1), E1, E2. split; [done|]. split; [done|].
  assert (byte_val c2 = 168 ∨ byte_val c2 = 169) as [E|E] by lia;
    rewrite <-(byte_of_val c2), E; (split; [reflexivity|]); [left|right]; done.
Qed.

Lemma str_go_line_sep c l d l' :
  line_sep (c :: l) = Some d →
  str_go 0 0 (chars "\u202" ++ d :: l') = pcons (take 3 (c :: l)) (str_go 0 0 l').
Proof. intros (c2 & l2 & -> & -> & _ & [[-> ->]|[-> ->]])%line_sep_Some; reflexivity. Qed.

(** A byte of a multi-byte rune is neither a quote, nor a backslash, nor a control. *)
Lemma str_go_multi c l k :
  in_range 0 127 c = false → rune_width (c :: l) = S k → str_go 0 0 (c :: l) = pcons [c] (str_go k 0 l).
Proof.
  intros Hc Hw. cbn [str_go]. rewrite Hw. unfold in_range in Hc.
  pose proof (byte_val_range c). rewrite andb_false_iff, !Z.leb_gt in Hc.
  destruct (Z.eqb_spec (byte_val c) 34); [lia|]. destruct (Z.eqb_spec (byte_val c) 92); [lia|].
  destruct (Z.ltb_spec (byte_val c) 32); [lia|]. done.
Qed.

(** One step of [esc]: what it writes for the rune at the head, and what is left. *)
Inductive esc_step (l : list ascii) : list ascii → list ascii → list ascii → Prop :=
| esc_step_ascii c l' : l = c :: l' → in_range 0 127 c = true → esc_step l (esc_ascii c) [c] l'
| esc_step_bad c l' : l = c :: l' → in_range 0 127 c = false → rune_width l = O →
    esc_step l (chars "\ufffd") replacement l'
| esc_step_sep c l' d : l = c :: l' → line_sep l = Some d → rune_width l = 3%nat →
    esc_step l (chars "\u202" ++ [d]) (take 3 l) (drop 3 l)
| esc_step_rune c l' k : l = c :: l' → in_range 0 127 c = false → rune_width l = S k → line_sep l = None →
    esc_step l (take (S k) l) (take (S k) l) (drop (S k) l).

Lemma esc_cases c l :
  ∃ out val l', esc_step (c :: l) out val l' ∧ (length l' ≤ length l)%nat
    ∧ esc 0 0 (c :: l) = out ++ esc 0 0 l' ∧ valid_go 0 (c :: l) = val ++ valid_go 0 l'.
Proof.
  cbn [esc]. destruct (in_range 0 127 c) eqn:Ec.
  { exists (esc_ascii c), [c], l. split_and!; [by econstructor|lia|done|].
    cbn [valid_go]. by rewrite rune_width_ascii. }
  destruct (rune_width (c :: l)) as [|k] eqn:Ew.
  { exists (chars "\ufffd"), replacement, l. split_and!; [by econstructor|lia|done|].
    cbn [valid_go]. by rewrite Ew. }
  pose proof (rune_width_length _ _ Ew) as Hl. simpl in Hl.
  assert (Hv : valid_go 0 (c :: l) = take (S k) (c :: l) ++ valid_go 0 (drop (S k) (c :: l))).
  { cbn [valid_go]. rewrite Ew. cbn [take drop app]. by rewrite valid_copy by lia. }
  destruct (line_sep (c :: l)) as [d|] eqn:El.
  - destruct (line_sep_Some _ _ _ El) as (_ & _ & _ & _ & Hw & _). rewrite Ew in Hw. injection Hw as ->.
    exists (chars "\u202" ++ [d]), (take 3 (c :: l)), (drop 3 (c :: l)). split_and!; [by econstructor| | |done].
    + cbn [drop]. rewrite length_drop. lia.
    + rewrite esc_drop by lia. by rewrite <-app_assoc.
  - exists (take (S k) (c :: l)), (take (S k) (c :: l)), (drop (S k) (c :: l)).
    split_and!; [by econstructor| | |done].
    + cbn [drop]. rewrite length_drop. lia.
    + cbn [take drop app]. by rewrite esc_copy by lia.
Qed.

Lemma esc_step_read l out val l' r :
  esc_step l out val l' → str_go 0 0 (out ++ r) = pcons val (str_go 0 0 r).
Proof.
  intros [c l1 Hl Hc|c l1 Hl Hc Hw|c l1 d Hl Hs Hw|c l1 k Hl Hc Hw Hs]; subst l.
  - by apply str_go_esc_ascii.
  - apply str_go_replacement.
  - rewrite <-app_assoc. by apply (str_go_line_sep c l1).
  - pose proof (rune_width_length _ _ Hw) as Hn. simpl in Hn. cbn [take app].
    rewrite (str_go_multi c _ k Hc).
    + replace k with (length (take k l1)) at 1 by (rewrite length_take; lia). by rewrite str_go_copy, pcons_pcons.
    + eapply rune_width_take; [exact Hw|]. cbn [take]. f_equal.
      rewrite take_app_le by (rewrite length_take; lia). by rewrite take_take, Nat.min_id.
Qed.

(** What [appendString] writes, the scanner reads back, as valid UTF-8. *)
Lemma str_go_esc l r : str_go 0 0 (esc 0 0 l ++ dquote :: r) = POk (valid_go 0 l) r.
Proof.
  induction l as [l IH] using (induction_ltof1 _ length). unfold ltof in IH.
  destruct l as [|c l]; [reflexivity|].
  destruct (esc_cases c l) as (out & val & l' & Hs & Hl & -> & ->).
  rewrite <-app_assoc, (esc_step_read _ _ _ _ _ Hs), IH by (simpl; lia). done.
Qed.

Lemma str_go_quote l r : str_go 0 0 ((esc 0 0 l ++ [dquote]) ++ r) = POk (valid_go 0 l) r.
Proof. rewrite <-app_assoc. apply str_go_esc. Qed.

(** ** Values *)

Fixpoint valid_jv (v : jv) : jv :=
  match v with
  | JStr s => JStr (valid_utf8 s)
  | JArr l => JArr (valid_jv <$> l)
  | JObj l => JObj ((λ kv, (valid_utf8 kv.1, valid_jv kv.2)) <$> l)
  | _ => v
  end.

(** The nesting of arrays and objects. *)
Fixpoint depth (v : jv) : nat :=
  match v with
  | JArr l => S (foldr (λ v n, Nat.max (depth v) n) O l)
  | JObj l => S (foldr (λ kv n, Nat.max (depth kv.2) n) O l)
  | _ => O
  end.

(** What may follow a number: nothing that would continue it. *)
Definition num_stop (l : list ascii) : Prop :=
  match l with
  | [] => True
  | c :: _ => digit_b c = false ∧ byte_val c ≠ 46 ∧ byte_val c ≠ 101 ∧ byte_val c ≠ 69
  end.

Lemma span_digits a l :
  Forall (λ c, digit_b c = true) a → num_stop l → span digit_b (a ++ l) = (a, l).
Proof.
  intros Ha Hl. induction Ha as [|c a Hc Ha IH]; cbn.
  - destruct l as [|c l]; [done|]. destruct Hl as [Hc _]. cbn. by rewrite Hc.
  - by rewrite Hc, IH.
Qed.

Lemma num_unsigned_digits a l :
  Forall (λ c, digit_b c = true) a → a ≠ [] → (head a = Some "0"%char → a = ["0"%char]) → num_stop l →
  num_unsigned (a ++ l) = POk a l.
Proof.
  intros Ha Hn H0 Hl. unfold num_unsigned.
  assert (Hi : num_int (a ++ l) = POk a l).
  { destruct a as [|c a]; [done|]. cbn [app num_int]. destruct (Z.eqb_spec (byte_val c) 48) as [E|E].
    - assert (c = "0"%char) as -> by (by rewrite <-(byte_of_val c), E).
      specialize (H0 eq_refl). injection H0 as ->. done.
    - unfold digits1. change (c :: a ++ l) with ((c :: a) ++ l). by rewrite span_digits. }
  rewrite Hi. cbn [pbind]. unfold num_frac, num_exp. destruct l as [|c l]; cbn [pbind]; [by rewrite !app_nil_r|].
  destruct Hl as (_ & H1 & H2 & H3). apply Z.eqb_neq in H1, H2, H3. rewrite H1. cbn [pbind].
  rewrite H2, H3. cbn [orb pbind]. by rewrite !app_nil_r.
Qed.

(** A printed number has no leading zero. *)
Lemma dec_go_head fuel n acc :
  0 < n < 10 ^ Z.of_nat fuel → ∃ d s, 1 ≤ d < 10 ∧ dec_go fuel n acc = String (digit d) s.
Proof.
  revert n acc. induction fuel as [|k IH]; intros n acc Hn; [cbn in Hn; lia|]. cbn [dec_go].
  destruct (Z.ltb_spec n 10).
  - exists n, acc. rewrite Z.mod_small by lia. split; [lia|done].
  - rewrite Nat2Z.inj_succ, Z.pow_succ_r in Hn by lia. apply IH. split.
    + apply Z.div_str_pos. lia.
    + apply Z.div_lt_upper_bound; lia.
Qed.

Lemma itoa_nat_head n : 0 < n → ∃ d s, 1 ≤ d < 10 ∧ itoa_nat n = String (digit d) s.
Proof.
  intros Hn. apply dec_go_head. split; [done|]. rewrite Nat2Z.inj_succ, Z2Nat.id by apply Z.log2_nonneg.
  destruct (Z.log2_spec n) as [_ Hlt]; [lia|]. eapply Z.lt_le_trans; [exact Hlt|]. apply Z.pow_le_mono_l. lia.
Qed.

Lemma num_unsigned_itoa n l : 0 ≤ n → num_stop l → num_unsigned (chars (itoa_nat n) ++ l) = POk (chars (itoa_nat n)) l.
Proof.
  intros Hn Hl. destruct (decide (n = 0)) as [->|Hz].
  { apply num_unsigned_digits; [by repeat constructor|done..]. }
  pose proof (itoa_nat_digits n Hn) as Hd. destruct (itoa_nat_head n ltac:(lia)) as (d & s & Hb & E).
  apply num_unsigned_digits; [exact Hd| | |done]; rewrite E; cbn [chars String.list_ascii_of_string]; [done|].
  intros [= H0]. apply (f_equal byte_val) in H0. rewrite digit_val in H0 by lia. change (byte_val "0") with 48 in H0. lia.
Qed.

(** The first byte of a printed integer: no blank, quote, bracket, brace or letter. *)
Lemma itoa_nat_first n : 0 ≤ n → ∃ c s, chars (itoa_nat n) = c :: s ∧ 48 ≤ byte_val c ≤ 57.
Proof.
  intros Hn. destruct (decide (n = 0)) as [->|]; [by exists "0"%char, []|].
  destruct (itoa_nat_head n ltac:(lia)) as (d & s & Hb & ->). eexists _, _. split; [done|].
  rewrite digit_val by lia. lia.
Qed.

Lemma itoa_first z : ∃ c s, chars (itoa z) = c :: s ∧ (byte_val c = 45 ∨ 48 ≤ byte_val c ≤ 57).
Proof.
  unfold itoa. destruct (Z.ltb_spec z 0); [eexists _, _; split; [done|by left]|].
  destruct (itoa_nat_first z ltac:(done)) as (c & s & -> & Hc). eauto.
Qed.

Lemma num_lit_itoa z l : num_stop l → num_lit (chars (itoa z) ++ l) = POk (chars (itoa z)) l.
Proof.
  intros Hl. unfold itoa. destruct (Z.ltb_spec z 0).
  - rewrite chars_append. cbn [String.list_ascii_of_string app num_lit].
    rewrite num_unsigned_itoa by (done || lia). done.
  - rewrite <-(num_unsigned_itoa z l) by done. destruct (itoa_nat_first z ltac:(done)) as (c & s & -> & Hc).
    cbn [app num_lit]. destruct (Z.eqb_spec (byte_val c) 45); [lia|done].
Qed.

(** *** The scanner on rendered values *)

(** The texts of elements and members, without the enclosing brackets. *)
Definition arr_text (l : list jv) : list ascii := chars (Join (render <$> l) ",").
Definition member_text (kv : string * jv) : string := (quote kv.1) +:+ ":" +:+ (render kv.2).
Definition obj_text (l : list (string * jv)) : list ascii := chars (Join (member_text <$> l) ",").

Lemma render_arr l : chars (render (JArr l)) = "["%char :: arr_text l ++ ["]"%char].
Proof. cbn [render]. by rewrite !chars_append. Qed.
Lemma render_obj l : chars (render (JObj l)) = "{"%char :: obj_text l ++ ["}"%char].
Proof. cbn [render]. by rewrite !chars_append. Qed.

Lemma member_chars k v :
  chars (member_text (k, v)) = dquote :: (esc 0 0 (chars k) ++ [dquote]) ++ ":"%char :: chars (render v).
Proof. unfold member_text. by rewrite !chars_append, quote_chars. Qed.

Lemma Join_cons2 (w w2 : string) ws sep : Join (w :: w2 :: ws) sep = w +:+ sep +:+ Join (w2 :: ws) sep.
Proof. done. Qed.

Lemma chars_Join_cons w ws :
  chars (Join (w :: ws) ",") = chars w ++ match ws with [] => [] | _ => ","%char :: chars (Join ws ",") end.
Proof.
  destruct ws as [|w2 ws]; [by rewrite app_nil_r|]. rewrite Join_cons2, !chars_append. done.
Qed.

(** A value starts with a byte that is not blank, and that tells its kind. *)
Lemma render_first v : int_nums v → ∃ c s, chars (render v) = c :: s ∧ is_ws c = false
  ∧ byte_val c ≠ 93 ∧ byte_val c ≠ 125.
Proof.
  intros Hv. destruct v as [|[]|lit|s|l|l]; try (eexists _, _; by split_and!).
  destruct Hv as [z ->]. cbn [render]. destruct (itoa_first z) as (c & s & -> & Hc). exists c, s. split; [done|].
  unfold is_ws. split_and!; [|lia..]. rewrite !orb_false_iff, !Z.eqb_neq. lia.
Qed.

Lemma skip_ws_no c l : is_ws c = false → skip_ws (c :: l) = c :: l.
Proof. intros H. unfold skip_ws. cbn. by rewrite H. Qed.

Lemma of_chars_chars s : of_chars (chars s) = s.
Proof. apply String.string_of_list_ascii_of_string. Qed.

(** What the scanner does on the text of one value, given fuel and depth. *)
Definition scans (v : jv) : Prop := ∀ fuel d r,
  int_nums v → (2 * length (chars (render v)) ≤ fuel)%nat → (depth v ≤ d)%nat → num_stop r →
  pval fuel d (chars (render v) ++ r) = POk (valid_jv v) r.

Lemma pval_num z fuel d r : num_stop r → pval (S fuel) d (chars (itoa z) ++ r) = POk (JNum (itoa z)) r.
Proof.
  intros Hr. pose proof (num_lit_itoa z r Hr) as Hl.
  destruct (itoa_first z) as (c & s & E & Hc). rewrite E in *. cbn [pval app] in *.
  rewrite skip_ws_no by (unfold is_ws; rewrite !orb_false_iff, !Z.eqb_neq; lia).
  repeat match goal with |- context [byte_val c =? ?k] =>
    replace (byte_val c =? k) with false by (symmetry; apply Z.eqb_neq; lia) end.
  rewrite Hl. cbn [pbind]. by rewrite <-E, of_chars_chars.
Qed.

Lemma pval_str s fuel d r : pval (S fuel) d (chars (quote s) ++ r) = POk (JStr (valid_utf8 s)) r.
Proof.
  rewrite quote_chars. cbn [pval app]. rewrite skip_ws_no by done. cbn [byte_val].
  change (byte_val dquote =? 34) with true. cbn iota. rewrite str_go_quote. done.
Qed.

Lemma depth_arr v l : (depth v ≤ depth (JArr (v :: l)) - 1 ∧ depth (JArr l) ≤ depth (JArr (v :: l)))%nat.
Proof. cbn. lia. Qed.

(** Elements up to the closing bracket. *)
Lemma parr_scans l : l ≠ [] → Forall scans l → Forall int_nums l → ∀ fuel d r,
  (2 * length (arr_text l) + 1 ≤ fuel)%nat → (depth (JArr l) ≤ S d)%nat →
  parr fuel d (arr_text l ++ "]"%char :: r) = POk (valid_jv <$> l) r.
Proof.
  intros Hne Hs Hi. induction l as [|v l IH]; [done|]. intros [|fuel] d r Hf Hd; [lia|].
  apply Forall_cons in Hs as [Hv Hs]. apply Forall_cons in Hi as [Hiv Hi].
  unfold arr_text in *. cbn [fmap list_fmap] in *. rewrite chars_Join_cons in *. cbn [parr].
  rewrite length_app in Hf. cbn [depth foldr] in Hd. rewrite <-app_assoc, Hv by (done || lia || by destruct l).
  destruct l as [|v2 l].
  - cbn [fmap list_fmap app pbind]. rewrite skip_ws_no by done. done.
  - cbn [fmap list_fmap app length pbind] in *. rewrite skip_ws_no by done.
    change (byte_val "," =? 44) with true. cbn iota.
    rewrite IH; [done|done|done|done|lia|revert Hd; cbn; lia].
Qed.

Lemma pobj_scans l : l ≠ [] → Forall (λ kv, scans kv.2) l → Forall (λ kv, int_nums kv.2) l → ∀ fuel d r,
  (2 * length (obj_text l) + 1 ≤ fuel)%nat → (depth (JObj l) ≤ S d)%nat →
  pobj fuel d (obj_text l ++ "}"%char :: r) = POk ((λ kv, (valid_utf8 kv.1, valid_jv kv.2)) <$> l) r.
Proof.
  intros Hne Hs Hi. induction l as [|[k v] l IH]; [done|]. intros [|fuel] d r Hf Hd; [lia|].
  apply Forall_cons in Hs as [Hv Hs]. apply Forall_cons in Hi as [Hiv Hi]. cbn [snd] in *.
  unfold obj_text in *. cbn [fmap list_fmap] in *. rewrite chars_Join_cons in *. cbn [pobj].
  rewrite (member_chars k v) in *. cbn [app]. cbn [length app] in Hf. rewrite !length_app in Hf. cbn [length] in Hf.
  cbn [depth foldr snd] in Hd. rewrite <-!app_assoc. cbn [app].
  rewrite skip_ws_no by done. change (byte_val dquote =? 34) with true. cbn [negb].
  rewrite str_go_esc. cbn [pbind].
  rewrite skip_ws_no by done. change (byte_val ":" =? 58) with true. cbn [negb].
  rewrite Hv by (done || lia || by destruct l).
  destruct l as [|kv2 l].
  - cbn [fmap list_fmap app pbind]. rewrite skip_ws_no by done. done.
  - cbn [fmap list_fmap app length pbind] in *. rewrite skip_ws_no by done.
    change (byte_val "," =? 44) with true. cbn iota.
    rewrite IH; [done|done|done|done|lia|revert Hd; cbn; lia].
Qed.

Lemma render_scans v : scans v.
Proof.
  induction v as [|b|lit|s|l IH|l IH] using jv_rect'; intros fuel d r Hi Hf Hd Hr.
  - destruct fuel; [cbn in Hf; lia|]. done.
  - destruct fuel; [destruct b; cbn in Hf; lia|]. by destruct b.
  - destruct Hi as [z ->]. cbn [render] in *. destruct fuel; [|by apply pval_num].
    destruct (itoa_first z) as (c & s & E & _). rewrite E in Hf. cbn in Hf. lia.
  - cbn [render] in *. destruct fuel; [rewrite quote_chars in Hf; cbn in Hf; lia|]. apply pval_str.
  - rewrite render_arr in *. apply int_nums_arr in Hi. cbn [length] in Hf. rewrite length_app in Hf. cbn [length] in Hf.
    destruct fuel as [|fuel]; [lia|]. destruct d as [|d]; [cbn in Hd; lia|].
    cbn [pval app]. rewrite skip_ws_no by done. cbn [byte_val]. rewrite <-app_assoc. cbn [app].
    change (byte_val "[") with 91. cbn [Z.eqb Pos.eqb].
    destruct l as [|v l]; [done|].
    pose proof (parr_scans (v :: l) ltac:(done) IH Hi fuel d r ltac:(lia) Hd) as Hp.
    apply Forall_cons in Hi as [Hv _]. destruct (render_first v Hv) as (c & s & E & Hw & H93 & _).
    unfold arr_text in *. cbn [fmap list_fmap] in *. rewrite chars_Join_cons, E in *. cbn [app] in *.
    rewrite skip_ws_no by done. replace (byte_val c =? 93) with false by (symmetry; by apply Z.eqb_neq).
    by rewrite Hp.
  - rewrite render_obj in *. apply int_nums_obj in Hi. cbn [length] in Hf. rewrite length_app in Hf. cbn [length] in Hf.
    destruct fuel as [|fuel]; [lia|]. destruct d as [|d]; [cbn in Hd; lia|].
    cbn [pval app]. rewrite skip_ws_no by done. cbn [byte_val]. rewrite <-app_assoc. cbn [app].
    change (byte_val "{") with 123. cbn [Z.eqb Pos.eqb].
    destruct l as [|kv l]; [done|].
    pose proof (pobj_scans (kv :: l) ltac:(done) IH Hi fuel d r ltac:(lia) Hd) as Hp.
    unfold obj_text in *. cbn [fmap list_fmap] in *. destruct kv as [k v]. rewrite chars_Join_cons, member_chars in *. cbn [app] in *.
    rewrite skip_ws_no by done. change (byte_val dquote =? 125) with false. cbn iota.
    by rewrite Hp.
Qed.

(** [json.Unmarshal] of a marshalled value. *)
Lemma unmarshal_render v : int_nums v → (depth v ≤ maxNestingDepth)%nat → unmarshal (render v) = Some (valid_jv v).
Proof.
  intros Hi Hd. unfold unmarshal, parse. pose proof (render_scans v (2 * length (chars (render v)) + 2)%nat maxNestingDepth [] Hi) as H.
  rewrite app_nil_r in H. rewrite H; [done|lia|done|done].
Qed.

(** ** Raw messages

    [json.RawMessage] keeps the text of a value; marshalling it again compacts
    the text: blanks outside strings are dropped, and the characters [<], [>],
    [&], U+2028 and U+2029 are escaped. *)

Definition html_byte (c : ascii) : bool := (byte_val c =? 60) || (byte_val c =? 62) || (byte_val c =? 38).

(** [appendCompact]; [instr] and [escd]: inside a string, after a backslash;
    [skip] counts the bytes already replaced by an escape. *)
Fixpoint compact (instr escd : bool) (skip : nat) (l : list ascii) : list ascii :=
  match l with
  | [] => []
  | c :: l' =>
    match skip with
    | S k => compact instr escd k l'
    | O =>
      let out := if html_byte c then u00 c
                 else match line_sep l with Some d => chars "\u202" ++ [d] | None => [c] end in
      let skip' := match line_sep l with Some _ => 2%nat | None => O end in
      if instr then
        if escd then out ++ compact true false skip' l'
        else out ++ compact (negb (byte_val c =? 34)) (byte_val c =? 92) skip' l'
      else if is_ws c then compact false false O l'
      else out ++ compact (byte_val c =? 34) false skip' l'
    end
  end.

(** The members of an object, after its brace: keys unquoted, values as text.
    The scanner finds the end of a value. *)
Fixpoint raw_members (fuel depth : nat) (l : list ascii) : option (list (string * list ascii)) :=
  match fuel with
  | O => None
  | S n =>
    match skip_ws l with
    | [] => None
    | q :: l1 =>
      if negb (byte_val q =? 34) then None
      else match str_go 0 0 l1 with
      | POk k r =>
        match skip_ws r with
        | [] => None
        | c :: r1 =>
          if negb (byte_val c =? 58) then None
          else
            let val := skip_ws r1 in
            match pval (2 * length val + 2) depth val with
            | POk _ r2 =>
              let raw := take (length val - length r2) val in
              match skip_ws r2 with
              | [] => None
              | c :: r3 =>
                if byte_val c =? 44 then (λ kvs, (of_chars k, raw) :: kvs) <$> raw_members n depth r3
                else if byte_val c =? 125 then Some [(of_chars k, raw)]
                else None
              end
            | _ => None
            end
        end
      | _ => None
      end
    end
  end.

(** The text of an object as a list of raw members; one member takes at least
    four bytes, so the length is enough fuel. *)
Definition raw_object (data : string) : option (list (string * list ascii)) :=
  match skip_ws (chars data) with
  | b :: l =>
    if byte_val b =? 123 then
      match skip_ws l with
      | e :: _ => if byte_val e =? 125 then Some [] else raw_members (length l) (pred maxNestingDepth) l
      | [] => None
      end
    else None
  | [] => None
  end.

(** *** Compacting rendered text *)

Lemma line_sep_no c l : byte_val c ≠ 226 → line_sep (c :: l) = None.
Proof. intros H. unfold line_sep. destruct l as [|? [|? ?]]; try done. apply Z.eqb_neq in H. by rewrite H. Qed.

(** Bytes that compaction copies inside a string, and that leave it open. *)
Fixpoint inert (escd : bool) (l : list ascii) : bool :=
  match l with
  | [] => negb escd
  | c :: l' =>
    negb (html_byte c) && negb (byte_val c =? 226)
    && (if escd then inert false l' else negb (byte_val c =? 34) && inert (byte_val c =? 92) l')
  end.

Lemma compact_inert l r : ∀ escd, inert escd l = true →
  compact true escd 0 (l ++ r) = l ++ compact true false 0 r.
Proof.
  induction l as [|c l IH]; intros escd H; cbn [inert] in H; [by destruct escd|].
  rewrite !andb_true_iff, !negb_true_iff in H. destruct H as [[Hh H2] H]. cbn [app compact].
  rewrite Hh, line_sep_no by (by apply Z.eqb_neq). cbn [app].
  destruct escd; [by rewrite IH|]. rewrite andb_true_iff, negb_true_iff in H. destruct H as [H3 H].
  rewrite H3. cbn [negb]. by rewrite IH.
Qed.

Lemma esc_ascii_inert c : in_range 0 127 c = true → inert false (esc_ascii c) = true.
Proof. destruct c as [[] [] [] [] [] [] [] []]; try discriminate; reflexivity. Qed.

(** The bytes of a rune after its first one. *)
Lemma rune_tail_inert c l k :
  rune_width (c :: l) = S k → in_range 0 127 c = false → Forall (λ c, 128 ≤ byte_val c ≤ 191) (take k l).
Proof.
  unfold rune_width. intros Hw Hc. rewrite Hc in Hw. unfold cont, in_range in *.
  repeat (case_match; try discriminate); injection Hw as <-; simpl;
    repeat match goal with H : (_ && _) = true |- _ => apply andb_true_iff in H as [? ?] end;
    rewrite ?Z.leb_le in *; repeat constructor; try lia;
    repeat match goal with H : (if _ then _ else _) <= _ |- _ => revert H; case_match; intros end;
    repeat match goal with H : _ <= (if _ then _ else _) |- _ => revert H; case_match; intros end; lia.
Qed.

Lemma inert_high l : Forall (λ c, 128 ≤ byte_val c ≤ 191) l → inert false l = true.
Proof.
  induction 1 as [|c l Hc Hl IH]; [done|]. cbn [inert]. unfold html_byte.
  repeat match goal with |- context [byte_val c =? ?k] =>
    replace (byte_val c =? k) with false by (symmetry; apply Z.eqb_neq; lia) end. done.
Qed.

Lemma line_sep_take c l k r :
  rune_width (c :: l) = S k → line_sep (c :: l) = None → line_sep (c :: take k l ++ r) = None.
Proof.
  intros Hw Hs. destruct (decide (byte_val c = 226)) as [E|E]; [|by apply line_sep_no].
  unfold rune_width, in_range in Hw. rewrite E in Hw. cbn [Z.leb Z.compare Pos.compare Pos.compare_cont andb Z.eqb Pos.eqb] in Hw.
  destruct l as [|c1 [|c2 l]]; try done. case_match; [|done]. injection Hw as <-. cbn [take app]. exact Hs.
Qed.

Lemma esc_step_compact l out val l' r :
  esc_step l out val l' → compact true false 0 (out ++ r) = out ++ compact true false 0 r.
Proof.
  intros [c l1 Hl Hc|c l1 Hl Hc Hw|c l1 d Hl Hs Hw|c l1 k Hl Hc Hw Hs]; subst l.
  - by apply compact_inert, esc_ascii_inert.
  - by apply compact_inert.
  - apply compact_inert. by destruct (line_sep_Some _ _ _ Hs) as (c2 & l2 & -> & -> & _ & [[-> ->]|[-> ->]]).
  - pose proof (rune_tail_inert c l1 k Hw Hc) as Ht. cbn [take app compact]. rewrite (line_sep_take c l1 k r Hw Hs).
    unfold in_range in Hc. pose proof (byte_val_range c). rewrite andb_false_iff, !Z.leb_gt in Hc. unfold html_byte.
    repeat match goal with |- context [byte_val c =? ?k] =>
      replace (byte_val c =? k) with false by (symmetry; apply Z.eqb_neq; lia) end.
    cbn [orb negb app]. f_equal. by apply compact_inert, inert_high.
Qed.

Lemma compact_esc l r : compact true false 0 (esc 0 0 l ++ r) = esc 0 0 l ++ compact true false 0 r.
Proof.
  induction l as [l IH] using (induction_ltof1 _ length). unfold ltof in IH.
  destruct l as [|c l]; [reflexivity|].
  destruct (esc_cases c l) as (out & val & l' & Hs & Hl & -> & _).
  rewrite <-!app_assoc, (esc_step_compact _ _ _ _ _ Hs), IH by (simpl; lia). done.
Qed.

(** Bytes that compaction copies outside strings. *)
Definition plain (c : ascii) : bool :=
  negb (is_ws c) && negb (html_byte c) && negb (byte_val c =? 34) && negb (byte_val c =? 226).

Lemma compact_plain l r : forallb plain l = true → compact false false 0 (l ++ r) = l ++ compact false false 0 r.
Proof.
  induction l as [|c l IH]; [done|]. cbn [forallb]. unfold plain at 1. rewrite !andb_true_iff, !negb_true_iff.
  intros [[[[H1 H2] H3] H4] H]. cbn [app compact]. rewrite H1, H2, H3, line_sep_no by (by apply Z.eqb_neq).
  cbn [app]. by rewrite IH.
Qed.

Lemma compact_quote s r : compact false false 0 (chars (quote s) ++ r) = chars (quote s) ++ compact false false 0 r.
Proof.
  rewrite quote_chars. cbn [app compact]. change (is_ws dquote) with false. rewrite line_sep_no by done.
  change (html_byte dquote) with false. change (byte_val dquote =? 34) with true. cbn [app]. f_equal.
  rewrite <-!app_assoc, compact_esc. f_equal. cbn [app compact]. rewrite line_sep_no by done. done.
Qed.

Lemma digits_plain l : Forall (λ c, is_digit c = true) l → forallb plain l = true.
Proof.
  induction 1 as [|c l Hc Hl IH]; [done|]. cbn [forallb]. rewrite IH, andb_true_r.
  unfold is_digit in Hc. rewrite andb_true_iff, !Z.leb_le in Hc. unfold plain, is_ws, html_byte.
  repeat match goal with |- context [byte_val c =? ?k] =>
    replace (byte_val c =? k) with false by (symmetry; apply Z.eqb_neq; lia) end. done.
Qed.

Lemma itoa_plain z : forallb plain (chars (itoa z)) = true.
Proof.
  unfold itoa. destruct (Z.ltb_spec z 0); [rewrite chars_append; cbn [String.list_ascii_of_string app forallb]|];
    rewrite digits_plain; try done; apply itoa_nat_digits; lia.
Qed.

(** Texts that compaction copies. *)
Definition compacted (l : list ascii) : Prop := ∀ r, compact false false 0 (l ++ r) = l ++ compact false false 0 r.

Lemma compacted_app a b : compacted a → compacted b → compacted (a ++ b).
Proof. intros Ha Hb r. by rewrite <-!app_assoc, Ha, Hb. Qed.
Lemma compacted_plain l : forallb plain l = true → compacted l.
Proof. intros H r. by apply compact_plain. Qed.
Lemma compacted_Join ws : Forall (λ w, compacted (chars w)) ws → compacted (chars (Join ws ",")).
Proof.
  induction 1 as [|w ws Hw Hws IH]; [by intros r|]. rewrite chars_Join_cons. apply compacted_app; [done|].
  destruct ws; [by intros r|]. apply (compacted_app [","%char]); [by apply compacted_plain|done].
Qed.

Lemma render_compacted v : int_nums v → compacted (chars (render v)).
Proof.
  induction v as [|b|lit|s|l IH|l IH] using jv_rect'; intros Hv.
  - by apply compacted_plain.
  - destruct b; by apply compacted_plain.
  - destruct Hv as [z ->]. apply compacted_plain, itoa_plain.
  - intros r. apply compact_quote.
  - apply int_nums_arr in Hv. rewrite render_arr. apply (compacted_app ["["%char]); [by apply compacted_plain|].
    apply compacted_app; [|by apply compacted_plain]. apply compacted_Join, Forall_fmap.
    rewrite Forall_forall in *. intros v ?. apply IH; auto.
  - apply int_nums_obj in Hv. rewrite render_obj. apply (compacted_app ["{"%char]); [by apply compacted_plain|].
    apply compacted_app; [|by apply compacted_plain]. apply compacted_Join, Forall_fmap.
    rewrite Forall_forall in *. intros kv ?. unfold compose, member_text. rewrite !chars_append.
    apply compacted_app; [intros r; apply compact_quote|]. apply (compacted_app [":"%char]); [by apply compacted_plain|]. apply IH; auto.
Qed.

Lemma compact_render v : int_nums v → compact false false 0 (chars (render v)) = chars (render v).
Proof. intros Hv. pose proof (render_compacted v Hv []) as H. rewrite !app_nil_r in H. exact H. Qed.

(** *** The raw members of a rendered object *)

Lemma skip_ws_render v r : int_nums v → skip_ws (chars (render v) ++ r) = chars (render v) ++ r.
Proof. intros Hv. destruct (render_first v Hv) as (c & s & -> & Hc & _). by apply skip_ws_no. Qed.

Lemma raw_members_render l : l ≠ [] → Forall (λ kv, int_nums kv.2) l → ∀ fuel d r,
  (length l ≤ fuel)%nat → (depth (JObj l) ≤ S d)%nat →
  raw_members fuel d (obj_text l ++ "}"%char :: r) = Some ((λ kv, (valid_utf8 kv.1, chars (render kv.2))) <$> l).
Proof.
  intros Hne Hi. induction l as [|[k v] l IH]; [done|]. intros [|fuel] d r Hf Hd; [cbn in Hf; lia|].
  apply Forall_cons in Hi as [Hiv Hi]. cbn [snd] in *. cbn [length] in Hf. cbn [depth foldr snd] in Hd.
  unfold obj_text in *. cbn [fmap list_fmap]. rewrite chars_Join_cons, (member_chars k v). cbn [raw_members app].
  rewrite <-!app_assoc. cbn [app]. rewrite skip_ws_no by done. change (byte_val dquote =? 34) with true. cbn [negb].
  rewrite str_go_esc. rewrite skip_ws_no by done. change (byte_val ":" =? 58) with true. cbn [negb]. cbv zeta.
  rewrite skip_ws_render by done. rewrite (render_scans v) by (done || (rewrite length_app; lia) || lia || by destruct l).
  rewrite length_app, Nat.add_sub, take_app_length.
  destruct l as [|kv2 l].
  - cbn [fmap list_fmap app]. rewrite skip_ws_no by done. done.
  - cbn [fmap list_fmap app] in *. rewrite skip_ws_no by done. change (byte_val "," =? 44) with true. cbn iota.
    rewrite IH; [done|done|done|lia|revert Hd; cbn; lia].
Qed.

Lemma obj_text_length l : (length l ≤ length (obj_text l))%nat.
Proof.
  unfold obj_text. induction l as [|[k v] l IH]; [done|]. cbn [fmap list_fmap].
  rewrite chars_Join_cons, length_app, member_chars. cbn [length]. destruct l; cbn [fmap list_fmap length] in *; lia.
Qed.

Lemma raw_object_render l :
  int_nums (JObj l) → (depth (JObj l) ≤ maxNestingDepth)%nat →
  raw_object (render (JObj l)) = Some ((λ kv, (valid_utf8 kv.1, chars (render kv.2))) <$> l).
Proof.
  intros Hi Hd. apply int_nums_obj in Hi. unfold raw_object. rewrite render_obj. rewrite skip_ws_no by done.
  change (byte_val "{" =? 123) with true. cbn iota. destruct l as [|[k v] l]; [done|].
  assert (E : ∃ s, obj_text ((k, v) :: l) = dquote :: s).
  { unfold obj_text. cbn [fmap list_fmap]. rewrite chars_Join_cons, member_chars. by eexists. }
  destruct E as [s E]. rewrite E. cbn [app]. rewrite skip_ws_no by done.
  change (byte_val dquote =? 125) with false. cbn iota. change (dquote :: s ++ ["}"%char]) with ((dquote :: s) ++ ["}"%char]).
  rewrite <-E. apply raw_members_render; [done|done| |].
  - rewrite length_app. pose proof (obj_text_length ((k, v) :: l)). lia.
  - unfold maxNestingDepth in *. rewrite Nat.succ_pred; [done|]. lia.
Qed.

(** ASCII text is valid UTF-8. *)
Lemma valid_utf8_ascii s : forallb (in_range 0 127) (chars s) = true → valid_utf8 s = s.
Proof.
  intros H. unfold valid_utf8. rewrite <-(of_chars_chars s) at 2. f_equal.
  induction (chars s) as [|c l IH]; [done|]. cbn [forallb] in H. apply andb_true_iff in H as [Hc H].
  cbn [valid_go]. rewrite rune_width_ascii by done. by rewrite IH.
Qed.

(** A response body written by [json.NewEncoder], read by [json.NewDecoder]. *)
Lemma decode_stream_encode v (rest : string) :
  int_nums v → (depth v ≤ maxNestingDepth)%nat → num_stop (chars rest) →
  decode_stream (slen (render v +:+ rest)) (render v +:+ rest) = DOk (valid_jv v).
Proof.
  intros Hi Hd Hr. unfold decode_stream, slen. cbv zeta. rewrite length_chars.
  destruct (Z.ltb_spec (Z.of_nat (String.length (render v +:+ rest))) (Z.of_nat (String.length (render v +:+ rest)))) as [H|_]; [lia|].
  unfold parse. rewrite chars_append, render_scans; [done|done|rewrite length_app; lia|done|done].
Qed.
