(* ===== verification/AuditStream.v ===== *)
(** * The signed audit stream (internal/audit/audit.go)

    Subjects, events with their JSON form, the signer and the emitter.  RFC 8785
    canonicalisation (package jcs) and the Ed25519 primitives are parameters.
    [Emit] runs under the emitter's mutex: one atomic function of the emitter, of
    the clock reading and of what the writer does with the line.  The stream the
    writer received is part of the state, with the events committed so far kept
    beside it as history. *)

From S2P Require Import Prelude GoStrings GoTime Encoding Sha256 Json.
From Stdlib Require Import Ascii.
Local Open Scope Z_scope.
Local Open Scope stdpp_scope.

(** ** Data *)

Definition Version : Z := 1.
Definition Kind : string := "act-claim".

Definition TypeLeaseIssued : string := "lease.issued".
Definition TypeLeaseDenied : string := "lease.denied".
Definition TypeLeaseRenewed : string := "lease.renewed".
Definition TypeLeaseSurrendered : string := "lease.surrendered".
Definition TypeLeaseExpired : string := "lease.expired".
Definition TypeClaimRecorded : string := "claim.recorded".
Definition TypePolicyReloaded : string := "policy.reloaded".
Definition TypePolicyReloadFailed : string := "policy.reload_failed".
Definition TypeAuthFailed : string := "auth.failed".
Definition TypeBrokerStarted : string := "broker.started".

Record Subject := mkSubject {
  s_Namespace : string;
  s_ServiceAccount : string;
  s_Pod : string;
  s_PodUID : string
}.

(** [Subject.Key()] *)
Definition Key (s : Subject) : string := (s_Namespace s) +:+ "/" +:+ (s_ServiceAccount s).

Record Source := mkSource { src_IP : string; src_UserAgent : string }.

Record BrokerInfo := mkBrokerInfo { bi_Instance : string; bi_KID : string; bi_Seq : Z }.

(** The values the sources put in the [Attested] map. *)
Inductive aval :=
| AStr (s : string)
| AInt (z : Z)
| ABool (b : bool)
| AStrs (l : list string).

Record Event := mkEvent {
  ev_V : Z;
  ev_Kind : string;
  ev_Type : string;
  ev_TS : string;
  ev_RequestID : string;
  ev_Broker : BrokerInfo;
  ev_Subject : option Subject;
  ev_Source : option Source;
  ev_Attested : gmap string aval;
  ev_Asserted : option (gmap string string); (* [None] is the nil map *)
  ev_Sig : string
}.

(** The composite literals of the callers: what they leave out is zero. *)
Definition newEvent (typ reqID : string) (sub : option Subject) (src : option Source)
    (attested : gmap string aval) (asserted : option (gmap string string)) : Event :=
  mkEvent 0 "" typ "" reqID (mkBrokerInfo "" "" 0) sub src attested asserted "".

#[global] Instance Subject_eq_dec : EqDecision Subject.
Proof. solve_decision. Defined.
#[global] Instance Source_eq_dec : EqDecision Source.
Proof. solve_decision. Defined.
#[global] Instance BrokerInfo_eq_dec : EqDecision BrokerInfo.
Proof. solve_decision. Defined.
#[global] Instance aval_eq_dec : EqDecision aval.
Proof. solve_decision. Defined.
#[global] Instance Event_eq_dec : EqDecision Event.
Proof. solve_decision. Defined.

(** ** JSON form *)

Definition subject_json (s : Subject) : jv :=
  JObj ([("namespace", JStr (s_Namespace s)); ("serviceaccount", JStr (s_ServiceAccount s))]
        ++ omitempty "pod" (s_Pod s) ++ omitempty "pod_uid" (s_PodUID s)).

Definition source_json (s : Source) : jv :=
  JObj (omitempty "ip" (src_IP s) ++ omitempty "user_agent" (src_UserAgent s)).

Definition broker_json (b : BrokerInfo) : jv :=
  JObj [("instance", JStr (bi_Instance b)); ("kid", JStr (bi_KID b)); ("seq", JInt (bi_Seq b))].

Definition aval_json (a : aval) : jv :=
  match a with
  | AStr s => JStr s
  | AInt z => JInt z
  | ABool b => JBool b
  | AStrs l => JStrs l
  end.

(** A pointer or a map with [omitempty]. *)
Definition opt_field {A} (k : string) (f : A → jv) (o : option A) : list (string * jv) :=
  match o with None => [] | Some a => [(k, f a)] end.
Definition map_field {V} (k : string) (f : V → jv) (m : gmap string V) : list (string * jv) :=
  if bool_decide (m = ∅) then [] else [(k, JMap f m)].

Definition event_fields (ev : Event) : list (string * jv) :=
  [("v", JInt (ev_V ev)); ("kind", JStr (ev_Kind ev)); ("type", JStr (ev_Type ev)); ("ts", JStr (ev_TS ev))]
  ++ omitempty "request_id" (ev_RequestID ev)
  ++ [("broker", broker_json (ev_Broker ev))]
  ++ opt_field "subject" subject_json (ev_Subject ev)
  ++ opt_field "source" source_json (ev_Source ev)
  ++ map_field "attested" aval_json (ev_Attested ev)
  ++ map_field "asserted" JStr (default ∅ (ev_Asserted ev))
  ++ omitempty "sig" (ev_Sig ev).

Definition event_json (ev : Event) : jv := JObj (event_fields ev).

(** ** Signer and emitter *)

Record Signer := mkSigner { sg_priv : string; sg_pub : string; sg_kid : string }.

Section Audit.
Context (ed25519_Public : string → string) (ed25519_Sign : string → string → string).
Context (jcs_Transform : string → option string).

Definition NewSigner (priv : string) : Signer :=
  let pub := ed25519_Public priv in
  mkSigner priv pub ("k" +:+ (hex_encode (String.substring 0 4 (Sum256 pub)))).

Definition PublicBase64 (s : Signer) : string := StdEncodeToString (sg_pub s).

(** What [w.Write] did: took the whole line, or failed after [n] bytes of it. *)
Inductive write_res := Written | Failed (n : nat).

Record Emitter := mkEmitter {
  em_signer : Signer;
  em_instance : string;
  em_seq : Z;
  em_out : string;      (* the bytes the writer received *)
  em_log : list Event   (* history: the events committed, oldest first *)
}.

Definition NewEmitter (signer : Signer) (instance : string) : Emitter := mkEmitter signer instance 0 "" [].

Inductive EmitErr := ECanonicalize | EWrite.

(** The envelope [Emit] fills in before signing. *)
Definition envelope (e : Emitter) (now : Time) (ev : Event) : Event :=
  mkEvent Version Kind (ev_Type ev) (FormatRFC3339 now) (ev_RequestID ev)
    (mkBrokerInfo (em_instance e) (sg_kid (em_signer e)) (wrapu64 (em_seq e + 1)))
    (ev_Subject ev) (ev_Source ev) (ev_Attested ev) (ev_Asserted ev) "".

Definition with_sig (ev : Event) (sig : string) : Event :=
  mkEvent (ev_V ev) (ev_Kind ev) (ev_Type ev) (ev_TS ev) (ev_RequestID ev) (ev_Broker ev)
    (ev_Subject ev) (ev_Source ev) (ev_Attested ev) (ev_Asserted ev) sig.

Definition line_of (ev : Event) : string := (render (event_json ev)) +:+ (String newline "").

(** [e.Emit(ev)]: the marshalling cannot fail on these types. *)
Definition Emit (e : Emitter) (now : Time) (wr : write_res) (ev : Event) : res EmitErr () * Emitter :=
  let ev1 := envelope e now ev in
  match jcs_Transform (render (event_json ev1)) with
  | None => (Err ECanonicalize, e)
  | Some canonical =>
    let ev2 := with_sig ev1 (StdEncodeToString (ed25519_Sign (sg_priv (em_signer e)) canonical)) in
    let line := line_of ev2 in
    match wr with
    | Failed n =>
      (Err EWrite, mkEmitter (em_signer e) (em_instance e) (em_seq e)
                     ((em_out e) +:+ (String.substring 0 n line)) (em_log e))
    | Written =>
      (Ok (), mkEmitter (em_signer e) (em_instance e) (bi_Seq (ev_Broker ev2))
                ((em_out e) +:+ line) (em_log e ++ [ev2]))
    end
  end.

End Audit.

(** ** Runs of the emitter *)

(** One call: the clock reading, what the writer does, the event. *)
Abbreviation emit_call := (Time * write_res * Event)%type.

Section Runs.
Context (ed25519_Sign : string → string → string) (jcs_Transform : string → option string).
Abbreviation Emit' := (Emit ed25519_Sign jcs_Transform).

Fixpoint Emits (e : Emitter) (calls : list emit_call) : list (res EmitErr ()) * Emitter :=
  match calls with
  | [] => ([], e)
  | (now, wr, ev) :: calls' =>
    let '(r, e1) := Emit' e now wr ev in
    let '(rs, e2) := Emits e1 calls' in
    (r :: rs, e2)
  end.

(** The signature of a committed event covers its unsigned form. *)
Definition signed_by (s : Signer) (ev : Event) : Prop :=
  ∃ canonical, jcs_Transform (render (event_json (with_sig ev ""))) = Some canonical
    ∧ ev_Sig ev = StdEncodeToString (ed25519_Sign (sg_priv s) canonical).

(** [Emit] either commits the next event, whole, or leaves the log alone. *)
Lemma Emit_cases e now wr ev :
  (∃ sig, let ev' := with_sig (envelope e now ev) sig in
     signed_by (em_signer e) ev' ∧ wr = Written
     ∧ Emit' e now wr ev
       = (Ok (), mkEmitter (em_signer e) (em_instance e) (wrapu64 (em_seq e + 1))
                   ((em_out e) +:+ (line_of ev')) (em_log e ++ [ev'])))
  ∨ ∃ err out, Emit' e now wr ev = (Err err, mkEmitter (em_signer e) (em_instance e) (em_seq e)
                                             ((em_out e) +:+ out) (em_log e))
       ∧ (wr = Failed 0 → out = "") ∧ (wr = Written → out = "").
Proof.
  unfold Emit. destruct (jcs_Transform _) as [c|] eqn:Ec.
  - destruct wr as [|n].
    + left. exists (StdEncodeToString (ed25519_Sign (sg_priv (em_signer e)) c)).
      split; [by exists c|]. done.
    + right. eexists EWrite, _. split; [reflexivity|]. split; [|done]. intros [= ->]. by destruct (line_of _).
  - right. exists ECanonicalize, "". split; [|done]. rewrite append_nil_r. by destruct e.
Qed.

Definition is_ok (r : res EmitErr ()) : bool := match r with Ok _ => true | Err _ => false end.
Definition oks (rs : list (res EmitErr ())) : nat := length (filter (λ r, is_ok r = true) rs).

(** The sequence numbers of [n] consecutive events after [base]. *)
Definition seqs_from (base : Z) (n : nat) : list Z := (λ i, wrapu64 (base + 1 + Z.of_nat i)) <$> seq 0 n.

Lemma seqs_from_S base n : seqs_from base (S n) = wrapu64 (base + 1) :: seqs_from (base + 1) n.
Proof.
  unfold seqs_from. cbn [seq]. rewrite fmap_cons. f_equal; [f_equal; lia|].
  rewrite <-fmap_S_seq, <-list_fmap_compose. apply list_fmap_ext. intros i x _. unfold compose. f_equal. lia.
Qed.

Lemma wrapu64_add_l a b : wrapu64 (wrapu64 a + b) = wrapu64 (a + b).
Proof. unfold wrapu64. apply Zplus_mod_idemp_l. Qed.

Lemma seqs_from_wrap base n : seqs_from (wrapu64 base) n = seqs_from base n.
Proof.
  unfold seqs_from. apply list_fmap_ext. intros i x _. rewrite <-!Z.add_assoc. apply wrapu64_add_l.
Qed.

Lemma Emits_log calls : ∀ e rs e',
  Emits e calls = (rs, e') →
  ∃ new, em_log e' = em_log e ++ new ∧ em_signer e' = em_signer e ∧ em_instance e' = em_instance e
    ∧ length new = oks rs
    ∧ ((λ ev, bi_Seq (ev_Broker ev)) <$> new) = seqs_from (em_seq e) (oks rs)
    ∧ Forall (λ ev, signed_by (em_signer e) ev ∧ bi_Instance (ev_Broker ev) = em_instance e
                    ∧ bi_KID (ev_Broker ev) = sg_kid (em_signer e)) new.
Proof.
  induction calls as [|[[now wr] ev] calls IH]; intros e rs e' E; cbn [Emits] in E.
  { injection E as <- <-. exists []. rewrite app_nil_r. done. }
  destruct (Emit_cases e now wr ev) as [(sig & Hs & _ & He)|(err & out & He & _)];
    rewrite He in E; destruct (Emits _ calls) as [rs' e2] eqn:E2; injection E as <- <-;
    destruct (IH _ _ _ E2) as (new & Hl & Hsg & Hin & Hlen & Hseq & Hall); cbn [em_log em_signer em_instance em_seq] in *.
  - exists (with_sig (envelope e now ev) sig :: new). rewrite Hl, <-app_assoc. split_and!; try done.
    + unfold oks in *. rewrite filter_cons_True by done. cbn [length]. by rewrite Hlen.
    + rewrite fmap_cons, Hseq. unfold oks at 2. rewrite filter_cons_True by done.
      cbn [length]. rewrite seqs_from_S, seqs_from_wrap. done.
    + constructor; [|done]. split_and!; [exact Hs|done..].
  - exists new. unfold oks. by rewrite filter_cons_False.
Qed.

End Runs.

(** ** The JSON of an event is one line *)

Lemma omitempty_int_nums k s : Forall (λ kv, int_nums kv.2) (omitempty k s).
Proof. unfold omitempty. case_match; repeat constructor. Qed.

Lemma JMap_int_nums {V} (f : V → jv) m : (∀ v, int_nums (f v)) → int_nums (JMap f m).
Proof.
  intros Hf. unfold JMap. apply int_nums_obj, Forall_fmap, Forall_true. intros kv. apply Hf.
Qed.

Lemma event_int_nums ev : int_nums (event_json ev).
Proof.
  assert (Hi : ∀ z, int_nums (JInt z)) by (intros z; by exists z).
  apply int_nums_obj. unfold event_fields. rewrite !Forall_app. split_and!.
  - rewrite !Forall_cons. split_and!; try done; try apply Hi.
  - apply omitempty_int_nums.
  - constructor; [|constructor]. cbn. split_and!; try done. apply Hi.
  - destruct (ev_Subject ev); [|constructor]. constructor; [|constructor]. cbn [snd]. apply int_nums_obj.
    rewrite !Forall_app. split_and!; [repeat constructor|apply omitempty_int_nums..].
  - destruct (ev_Source ev); [|constructor]. constructor; [|constructor]. cbn [snd]. apply int_nums_obj.
    rewrite !Forall_app. split; apply omitempty_int_nums.
  - unfold map_field. case_match; [constructor|]. constructor; [|constructor]. apply JMap_int_nums.
    intros [s|z|b|l]; [done|apply Hi|done|]. destruct l; [done|]. apply int_nums_arr, Forall_fmap, Forall_true. done.
  - unfold map_field. case_match; [constructor|]. constructor; [|constructor]. by apply JMap_int_nums.
  - apply omitempty_int_nums.
Qed.

(** Whatever a caller put into the strings of an event. *)
Lemma event_single_line ev : ¬ has_byte newline (render (event_json ev)).
Proof.
  intros Hin. pose proof (render_printable _ (event_int_nums ev)) as Hp.
  unfold printable in Hp. rewrite Forall_forall in Hp. specialize (Hp _ Hin). by vm_compute in Hp.
Qed.

(** ** Properties *)

Section Props.
Context (ed25519_Sign : string → string → string) (jcs_Transform : string → option string).

(** C14: Whatever the clock, the events and the writer's failures, the committed
    events of an emitter carry the sequence numbers 1, 2, 3, ... without gap or
    duplicate (modulo 2^64), there are exactly as many of them as calls that
    returned success, and each one carries the emitter's instance name, its key
    id and a signature over the canonical form of the event without [sig]. *)
Theorem emit_sequence_contiguous signer instance calls rs e :
  Emits ed25519_Sign jcs_Transform (NewEmitter signer instance) calls = (rs, e) →
  ((λ ev, bi_Seq (ev_Broker ev)) <$> em_log e) = seqs_from 0 (oks rs)
  ∧ length (em_log e) = oks rs
  ∧ Forall (λ ev, signed_by ed25519_Sign jcs_Transform signer ev
                  ∧ bi_Instance (ev_Broker ev) = instance ∧ bi_KID (ev_Broker ev) = sg_kid signer) (em_log e).
Proof.
  intros E. apply Emits_log in E as (new & Hl & _ & _ & Hlen & Hseq & Hall). cbn in Hl. by rewrite Hl.
Qed.

(** *** The bytes of the stream *)

(** An event that reached the writer: its line was taken whole and the event
    committed, or the write failed after [n] bytes of it. *)
Inductive attempt := Committed (ev : Event) | Torn (ev : Event) (n : nat).

Definition attempted (a : attempt) : Event := match a with Committed ev | Torn ev _ => ev end.
Definition write_of (a : attempt) : write_res := match a with Committed _ => Written | Torn _ n => Failed n end.
Definition committed (h : list attempt) : list Event :=
  omap (λ a, match a with Committed ev => Some ev | Torn _ _ => None end) h.
Definition bytes_of (a : attempt) : string :=
  match a with Committed ev => line_of ev | Torn ev n => String.substring 0 n (line_of ev) end.

(** Every attempt carries the number after the last committed one: a torn line's
    number is used again. *)
Fixpoint numbered (base : Z) (h : list attempt) : Prop :=
  match h with
  | [] => True
  | a :: h' =>
    bi_Seq (ev_Broker (attempted a)) = wrapu64 (base + 1)
    ∧ numbered (match a with Committed _ => wrapu64 (base + 1) | Torn _ _ => base end) h'
  end.

(** The lines of the stream, the last one unfinished: a committed event ends its
    line; a torn one leaves a fragment at the beginning of the line of the next
    (or a line of its own, if all of it came out before the writer failed). *)
Fixpoint stream_lines (pending : string) (h : list attempt) : list string :=
  match h with
  | [] => [pending]
  | Committed ev :: h' => (pending +:+ (render (event_json ev))) :: stream_lines "" h'
  | Torn ev n :: h' =>
    let text := render (event_json ev) in
    if (n <=? String.length text)%nat then stream_lines (pending +:+ (String.substring 0 n text)) h'
    else (pending +:+ text) :: stream_lines "" h'
  end.

Lemma Join_empty_cons w ws : Join (w :: ws) "" = w +:+ (Join ws "").
Proof. unfold Join. destruct ws as [|w2 ws]; [by rewrite append_nil_r|]. reflexivity. Qed.

Lemma Emits_attempts calls : ∀ e rs e',
  Emits ed25519_Sign jcs_Transform e calls = (rs, e') →
  ∃ h, em_log e' = em_log e ++ committed h ∧ em_out e' = (em_out e) +:+ (Join (bytes_of <$> h) "")
    ∧ numbered (em_seq e) h ∧ Forall (λ a, signed_by ed25519_Sign jcs_Transform (em_signer e) (attempted a)) h
    ∧ (write_of <$> h) `sublist_of` ((λ c : emit_call, c.1.2) <$> calls).
Proof.
  induction calls as [|[[now wr] ev] calls IH]; intros e rs e' E; cbn [Emits] in E.
  { injection E as <- <-. exists []. by rewrite app_nil_r, append_nil_r. }
  destruct (Emit ed25519_Sign jcs_Transform e now wr ev) as [r e1] eqn:E1. destruct (Emits _ _ e1 calls) as [rs' e2] eqn:E2.
  injection E as <- <-. destruct (IH _ _ _ E2) as (h & Hl & Ho & Hn & Hs & Hw). rewrite Hl, Ho. unfold Emit in E1.
  destruct (jcs_Transform _) as [c|] eqn:Ec; [|injection E1 as _ <-; exists h; split_and!; try done; by apply sublist_cons].
  set (ev2 := with_sig (envelope e now ev) (StdEncodeToString (ed25519_Sign (sg_priv (em_signer e)) c))) in *.
  assert (Hev : signed_by ed25519_Sign jcs_Transform (em_signer e) ev2) by (by exists c).
  assert (Hseq : bi_Seq (ev_Broker ev2) = wrapu64 (em_seq e + 1)) by done.
  clearbody ev2.
  destruct wr as [|n]; injection E1 as _ <-; cbn [em_log em_out em_seq em_signer] in *.
  - exists (Committed ev2 :: h). cbn [committed omap list_omap numbered attempted].
    rewrite fmap_cons, Join_empty_cons, <-app_assoc, <-append_assoc, <-Hseq.
    split; [done|]. split; [done|]. split; [done|]. split; [by constructor|]. by apply sublist_skip.
  - exists (Torn ev2 n :: h). cbn [committed omap list_omap numbered attempted]. rewrite fmap_cons, Join_empty_cons, <-append_assoc.
    split; [done|]. split; [done|]. split; [done|]. split; [by constructor|]. by apply sublist_skip.
Qed.

(** The writer took each line whole or not at all. *)
Definition atomic_writes (calls : list emit_call) : Prop :=
  Forall (λ c : emit_call, c.1.2 = Written ∨ c.1.2 = Failed 0) calls.

Lemma Join_lines evs :
  Split (Join (line_of <$> evs) "") newline = (render ∘ event_json <$> evs) ++ [""].
Proof.
  change (line_of <$> evs) with ((λ ev, (render (event_json ev)) +:+ String newline "") <$> evs).
  rewrite <-(Split_lines newline (render ∘ event_json <$> evs)), <-list_fmap_compose; [done|].
  apply Forall_fmap, Forall_true. intros ev. apply event_single_line.
Qed.

(** A torn line is a fragment without a line break, or the whole line. *)
Lemma torn_bytes ev n : let text := render (event_json ev) in
  bytes_of (Torn ev n) = if (n <=? String.length text)%nat then String.substring 0 n text else line_of ev.
Proof.
  cbv zeta. cbn [bytes_of]. unfold line_of. generalize (render (event_json ev)). intros text. revert n.
  induction text as [|c text IH]; intros [|n]; try done.
  - destruct n; done.
  - rewrite append_cons. cbn [String.substring String.length Nat.leb]. rewrite IH. by destruct (_ <=? _)%nat.
Qed.

Lemma substring_no_byte c n s : ¬ has_byte c s → ¬ has_byte c (String.substring 0 n s).
Proof.
  revert n. induction s as [|d s IH]; intros [|n] Hn; try done; try apply has_byte_nil. cbn [String.substring].
  rewrite has_byte_cons in *. specialize (IH n). naive_solver.
Qed.

Lemma Split_attempts h : ∀ pending, ¬ has_byte newline pending →
  Split (pending +:+ (Join (bytes_of <$> h) "")) newline = stream_lines pending h.
Proof.
  assert (Hline : ∀ pending ev rest, ¬ has_byte newline pending →
    Split (pending +:+ (line_of ev +:+ rest)) newline = (pending +:+ (render (event_json ev))) :: Split rest newline).
  { intros pending ev rest Hp. unfold line_of. rewrite <-append_assoc, append_assoc. apply Split_cons.
    rewrite has_byte_append. intros [?|?]; [done|]. by eapply event_single_line. }
  induction h as [|a h IH]; intros pending Hp.
  { change (Join _ _) with "". rewrite append_nil_r. cbn [stream_lines]. by apply Split_whole. }
  rewrite fmap_cons, Join_empty_cons. destruct a as [ev|ev n]; cbn [stream_lines].
  - cbn [bytes_of]. rewrite Hline by done. f_equal. apply (IH ""), has_byte_nil.
  - rewrite torn_bytes. cbv zeta. destruct (_ <=? _)%nat.
    + rewrite append_assoc. apply IH. rewrite has_byte_append. intros [?|H]; [done|].
      by eapply substring_no_byte in H; [|apply event_single_line].
    + rewrite Hline by done. f_equal. apply (IH ""), has_byte_nil.
Qed.

(** Without torn bytes every line is one event. *)
Lemma stream_lines_whole h : Forall (λ a, write_of a = Written ∨ write_of a = Failed 0) h →
  stream_lines "" h = (render ∘ event_json <$> committed h) ++ [""].
Proof.
  induction 1 as [|a h Ha _ IH]; [done|]. destruct a as [ev|ev n]; cbn [stream_lines committed omap list_omap].
  - rewrite append_nil_l, IH. done.
  - destruct Ha as [|[= ->]]; [done|]. cbn [Nat.leb]. assert (String.substring 0 0 (render (event_json ev)) = "") as -> by (by destruct (render _)).
    exact IH.
Qed.

(** C15: The lines of the audit stream, whatever the events carry and whatever the
    writer does: a committed event ends exactly one line with its JSON, and that
    is the whole line unless writes failed part-way just before it, whose
    fragments then stand in front; no byte a caller supplies (in a scope name, a
    user agent, a context or a claim) breaks a line or inserts one.  A torn event
    is signed and carries the sequence number that the next one uses again, and
    the attempts are those of the calls, in order.  When the writer takes each
    line whole or not at all, the stream is exactly the JSON of the committed
    events, one per line. *)
Theorem emit_stream_lines signer instance calls rs e :
  Emits ed25519_Sign jcs_Transform (NewEmitter signer instance) calls = (rs, e) →
  (∃ h, committed h = em_log e ∧ Split (em_out e) newline = stream_lines "" h
     ∧ numbered 0 h ∧ Forall (λ a, signed_by ed25519_Sign jcs_Transform signer (attempted a)) h
     ∧ (write_of <$> h) `sublist_of` ((λ c : emit_call, c.1.2) <$> calls))
  ∧ (atomic_writes calls → Split (em_out e) newline = (render ∘ event_json <$> em_log e) ++ [""]).
Proof.
  intros E. apply Emits_attempts in E as (h & Hl & Ho & Hn & Hs & Hw). cbn in Hl, Ho, Hn, Hs.
  assert (Hsp : Split (em_out e) newline = stream_lines "" h) by (rewrite Ho; apply (Split_attempts h ""), has_byte_nil).
  split; [by exists h|]. intros Ha. rewrite Hsp, Hl. apply stream_lines_whole.
  apply Forall_forall. intros a Hin. unfold atomic_writes in Ha. rewrite Forall_forall in Ha.
  assert (Hm : write_of a ∈ (λ c : emit_call, c.1.2) <$> calls) by (eapply elem_of_sublist; [|exact Hw]; by apply list_elem_of_fmap_2).
  apply list_elem_of_fmap in Hm as (c & -> & Hc). by apply Ha.
Qed.

End Props.

(** Two events with a failed write between them; the second carries a newline in
    caller-supplied text. *)
Definition demo_signer : Signer := mkSigner "key" "pub" "k00000000".
Definition demo_event (agent : string) : Event :=
  newEvent TypeAuthFailed "req_1" None (Some (mkSource "10.0.0.1" agent)) {["reason" := AStr "missing-bearer"]} None.
Definition demo_calls : list emit_call :=
  [(0, Written, demo_event "curl"); (1, Failed 0, demo_event "curl"); (2, Written, demo_event (String newline "x"))].
Definition demo_run : list (res EmitErr ()) * Emitter :=
  Emits (λ _ m, m) Some (NewEmitter demo_signer "broker-0") demo_calls.

Lemma emit_sequence_contiguous_witness : ((λ ev, bi_Seq (ev_Broker ev)) <$> em_log demo_run.2) = [1; 2].
Proof.
  etransitivity.
  - apply (emit_sequence_contiguous (λ _ m, m) Some demo_signer "broker-0" demo_calls demo_run.1 demo_run.2).
    vm_compute. reflexivity.
  - vm_compute. reflexivity.
Defined.

(** The same with the second write failing after ten bytes: they stand before the
    line of the third event, which carries the torn one's number. *)
Definition torn_calls : list emit_call :=
  [(0, Written, demo_event "curl"); (1, Failed 10, demo_event "curl"); (2, Written, demo_event (String newline "x"))].
Definition torn_run : list (res EmitErr ()) * Emitter :=
  Emits (λ _ m, m) Some (NewEmitter demo_signer "broker-0") torn_calls.

Lemma emit_stream_lines_witness :
  Split (em_out demo_run.2) newline = (render ∘ event_json <$> em_log demo_run.2) ++ [""]
  ∧ length (em_log demo_run.2) = 2%nat
  ∧ ∃ h, Split (em_out torn_run.2) newline = stream_lines "" h ∧ committed h = em_log torn_run.2.
Proof.
  split; [|split; [vm_compute; reflexivity|]].
  - apply (emit_stream_lines (λ _ m, m) Some demo_signer "broker-0" demo_calls demo_run.1 demo_run.2).
    + vm_compute. reflexivity.
    + repeat constructor; ((left; reflexivity) || (right; reflexivity)).
  - destruct (emit_stream_lines (λ _ m, m) Some demo_signer "broker-0" torn_calls torn_run.1 torn_run.2) as [(h & Hc & Hl & _) _].
    + vm_compute. reflexivity.
    + exists h. split; [exact Hl|exact Hc].
Defined.
