(* ===== verification/AuditVerify.v ===== *)
(** * Verification of the audit stream (internal/audit/audit.go: Verify)

    [Verify] of one line: the event is decoded, the signed text is rebuilt from
    the line's own members without [sig], and the signature is checked on its
    canonical form.  A decoded event ([VEvent]) has the fields of [Event]; its
    [Attested] values are what encoding/json makes of [any] (a number stands for
    the [float64] of its literal).  RFC 8785 canonicalisation and Ed25519 are
    parameters, with their documented properties as hypotheses. *)

From S2P Require Import Prelude GoStrings GoTime Encoding Sha256 Json JsonRound AuditStream.
From Stdlib Require Import Ascii.
Local Open Scope Z_scope.
Local Open Scope stdpp_scope.

(** ** Decoding an event *)

(** [strconv.ParseUint] on a number literal. *)
Definition parse_uint (lit : string) : option Z :=
  if negb (bool_decide (lit = "")) && forallb digit_b (chars lit) && (atoi lit <? uint64_mod)
  then Some (atoi lit) else None.
Definition dec_uint64 (v : jv) (old : Z) : option Z :=
  match v with JNum lit => parse_uint lit | JNull => Some old | _ => None end.

(** Pointers: [null] is nil, anything else is decoded into what is there. *)
Definition dec_ptr {A} (dec : jv → A → option A) (zero : A) (v : jv) (old : option A) : option (option A) :=
  match v with JNull => Some None | _ => Some <$> dec v (default zero old) end.

(** Mantissa and decimal exponent of a number literal; like [strconv.ParseFloat],
    digits of the exponent beyond 10000 are not accumulated. *)
Definition float_parts (lit : string) : Z * Z :=
  let l := match chars lit with c :: l' => if byte_val c =? 45 then l' else c :: l' | [] => [] end in
  let '(ip, r) := span digit_b l in
  let '(fp, r) := match r with c :: r' => if byte_val c =? 46 then span digit_b r' else ([], r) | [] => ([], []) end in
  let e := match r with
           | _ :: s :: r' =>
             let neg := byte_val s =? 45 in
             let ds := if neg || (byte_val s =? 43) then r' else s :: r' in
             let n := foldl (λ e c, if e <? 10000 then e * 10 + (byte_val c - 48) else e) 0 ds in
             if neg then - n else n
           | _ => 0
           end in
  (atoi (of_chars (ip ++ fp)), e - Z.of_nat (length fp)).

(** The literal does not overflow [float64]: below the midpoint of the largest
    finite number and its would-be successor. *)
Definition float_ok (lit : string) : bool :=
  let '(m, e) := float_parts lit in
  let limit := 2 ^ 1024 - 2 ^ 970 in
  if 0 <=? e then m * 10 ^ e <? limit else m <? limit * 10 ^ (- e).

(** [any] accepts every value whose numbers fit. *)
Fixpoint any_ok (v : jv) : bool :=
  match v with
  | JNum lit => float_ok lit
  | JArr l => forallb any_ok l
  | JObj l => forallb (λ kv, any_ok kv.2) l
  | _ => true
  end.

Definition dec_any_entry (acc : option (gmap string jv)) (kv : string * jv) : option (gmap string jv) :=
  m ← acc; if any_ok kv.2 then Some (<[kv.1 := kv.2]> m) else None.
Definition dec_anymap (v : jv) (old : option (gmap string jv)) : option (option (gmap string jv)) :=
  match v with
  | JNull => Some None
  | JObj kvs => m ← foldl dec_any_entry (Some (default ∅ old)) kvs; Some (Some m)
  | _ => None
  end.

Record VEvent := mkVEvent {
  ve_V : Z;
  ve_Kind : string;
  ve_Type : string;
  ve_TS : string;
  ve_RequestID : string;
  ve_Broker : BrokerInfo;
  ve_Subject : option Subject;
  ve_Source : option Source;
  ve_Attested : option (gmap string jv);
  ve_Asserted : option (gmap string string);
  ve_Sig : string
}.

Definition zeroBroker : BrokerInfo := mkBrokerInfo "" "" 0.
Definition zeroSubject : Subject := mkSubject "" "" "" "".
Definition zeroSource : Source := mkSource "" "".
Definition zeroVEvent : VEvent := mkVEvent 0 "" "" "" "" zeroBroker None None None None "".

Definition set_broker_field (n : string) (v : jv) (b : BrokerInfo) : option BrokerInfo :=
  if bool_decide (n = "instance") then s ← dec_string v (bi_Instance b); Some (mkBrokerInfo s (bi_KID b) (bi_Seq b))
  else if bool_decide (n = "kid") then s ← dec_string v (bi_KID b); Some (mkBrokerInfo (bi_Instance b) s (bi_Seq b))
  else z ← dec_uint64 v (bi_Seq b); Some (mkBrokerInfo (bi_Instance b) (bi_KID b) z).
Definition dec_broker : jv → BrokerInfo → option BrokerInfo := dec_struct ["instance"; "kid"; "seq"] set_broker_field.

Definition set_subject_field (n : string) (v : jv) (s : Subject) : option Subject :=
  if bool_decide (n = "namespace") then x ← dec_string v (s_Namespace s); Some (mkSubject x (s_ServiceAccount s) (s_Pod s) (s_PodUID s))
  else if bool_decide (n = "serviceaccount") then x ← dec_string v (s_ServiceAccount s); Some (mkSubject (s_Namespace s) x (s_Pod s) (s_PodUID s))
  else if bool_decide (n = "pod") then x ← dec_string v (s_Pod s); Some (mkSubject (s_Namespace s) (s_ServiceAccount s) x (s_PodUID s))
  else x ← dec_string v (s_PodUID s); Some (mkSubject (s_Namespace s) (s_ServiceAccount s) (s_Pod s) x).
Definition dec_subject : jv → Subject → option Subject :=
  dec_struct ["namespace"; "serviceaccount"; "pod"; "pod_uid"] set_subject_field.

Definition set_source_field (n : string) (v : jv) (s : Source) : option Source :=
  if bool_decide (n = "ip") then x ← dec_string v (src_IP s); Some (mkSource x (src_UserAgent s))
  else x ← dec_string v (src_UserAgent s); Some (mkSource (src_IP s) x).
Definition dec_source : jv → Source → option Source := dec_struct ["ip"; "user_agent"] set_source_field.

Definition event_names : list string :=
  ["v"; "kind"; "type"; "ts"; "request_id"; "broker"; "subject"; "source"; "attested"; "asserted"; "sig"].

Definition set_event_field (n : string) (v : jv) (e : VEvent) : option VEvent :=
  let '(mkVEvent V K T TS R B Sb Src At As Sg) := e in
  if bool_decide (n = "v") then x ← dec_int64 v V; Some (mkVEvent x K T TS R B Sb Src At As Sg)
  else if bool_decide (n = "kind") then x ← dec_string v K; Some (mkVEvent V x T TS R B Sb Src At As Sg)
  else if bool_decide (n = "type") then x ← dec_string v T; Some (mkVEvent V K x TS R B Sb Src At As Sg)
  else if bool_decide (n = "ts") then x ← dec_string v TS; Some (mkVEvent V K T x R B Sb Src At As Sg)
  else if bool_decide (n = "request_id") then x ← dec_string v R; Some (mkVEvent V K T TS x B Sb Src At As Sg)
  else if bool_decide (n = "broker") then x ← dec_broker v B; Some (mkVEvent V K T TS R x Sb Src At As Sg)
  else if bool_decide (n = "subject") then x ← dec_ptr dec_subject zeroSubject v Sb; Some (mkVEvent V K T TS R B x Src At As Sg)
  else if bool_decide (n = "source") then x ← dec_ptr dec_source zeroSource v Src; Some (mkVEvent V K T TS R B Sb x At As Sg)
  else if bool_decide (n = "attested") then x ← dec_anymap v At; Some (mkVEvent V K T TS R B Sb Src x As Sg)
  else if bool_decide (n = "asserted") then x ← dec_strmap v As; Some (mkVEvent V K T TS R B Sb Src At x Sg)
  else x ← dec_string v Sg; Some (mkVEvent V K T TS R B Sb Src At As x).
Definition dec_event (v : jv) : option VEvent := dec_struct event_names set_event_field v zeroVEvent.

(** ** Verify *)

(** [map[string]json.RawMessage]: of equal names the last wins. *)
Definition raw_map (data : string) : option (gmap string (list ascii)) :=
  foldl (λ m kv, <[kv.1 := kv.2]> m) ∅ <$> raw_object data.

(** Marshalling it: names in order, values compacted. *)
Definition raw_member (kv : string * list ascii) : string :=
  (quote kv.1) +:+ ":" +:+ (of_chars (compact false false 0 kv.2)).
Definition marshal_raw (m : gmap string (list ascii)) : string :=
  "{" +:+ (Join (raw_member <$> sorted_entries m) ",") +:+ "}".

Inductive VerifyErr := VParse | VNoSig | VSigEncoding | VObject | VCanonicalize | VSignature.

Section Verify.
Context (jcs_Transform : string → option string) (ed25519_Verify : string → string → string → bool).

Definition Verify (line pub : string) : res VerifyErr VEvent :=
  match unmarshal line ≫= dec_event with
  | None => Err VParse
  | Some ev =>
    if bool_decide (ve_Sig ev = "") then Err VNoSig
    else match StdDecodeString (ve_Sig ev) with
    | None => Err VSigEncoding
    | Some sig =>
      match raw_map line with
      | None => Err VObject
      | Some raw =>
        match jcs_Transform (marshal_raw (delete "sig" raw)) with
        | None => Err VCanonicalize
        | Some canonical => if ed25519_Verify pub canonical sig then Ok ev else Err VSignature
        end
      end
    end
  end.

End Verify.

(** ** What an emitted event decodes to *)

Definition valid_broker (b : BrokerInfo) : BrokerInfo :=
  mkBrokerInfo (valid_utf8 (bi_Instance b)) (valid_utf8 (bi_KID b)) (bi_Seq b).
Definition valid_subject (s : Subject) : Subject :=
  mkSubject (valid_utf8 (s_Namespace s)) (valid_utf8 (s_ServiceAccount s)) (valid_utf8 (s_Pod s)) (valid_utf8 (s_PodUID s)).
Definition valid_source (s : Source) : Source := mkSource (valid_utf8 (src_IP s)) (valid_utf8 (src_UserAgent s)).

(** A map read back: names made valid UTF-8 may collide, the last one wins. *)
Definition read_back {V W} (f : V → W) (m : gmap string V) : option (gmap string W) :=
  if bool_decide (m = ∅) then None
  else Some (foldl (λ acc kv, <[valid_utf8 kv.1 := f kv.2]> acc) ∅ (sorted_entries m)).

Definition decoded (ev : Event) : VEvent :=
  mkVEvent (ev_V ev) (valid_utf8 (ev_Kind ev)) (valid_utf8 (ev_Type ev)) (valid_utf8 (ev_TS ev))
    (valid_utf8 (ev_RequestID ev)) (valid_broker (ev_Broker ev)) (valid_subject <$> ev_Subject ev)
    (valid_source <$> ev_Source ev) (read_back (λ a, valid_jv (aval_json a)) (ev_Attested ev))
    (read_back valid_utf8 (default ∅ (ev_Asserted ev))) (valid_utf8 (ev_Sig ev)).

(** The integers of an event have their Go types. *)
Definition aval_int64 (a : aval) : Prop := match a with AInt z => in_int64 z | _ => True end.
Record typed (ev : Event) : Prop := {
  ty_v : in_int64 (ev_V ev);
  ty_seq : 0 ≤ bi_Seq (ev_Broker ev) < uint64_mod;
  ty_attested : map_Forall (λ _, aval_int64) (ev_Attested ev)
}.

(** *** Numbers *)

Lemma itoa_nat_nonempty n : 0 ≤ n → itoa_nat n ≠ "".
Proof. intros Hn E. destruct (itoa_nat_first n Hn) as (c & s & H & _). by rewrite E in H. Qed.

Lemma itoa_digits_b n : 0 ≤ n → forallb digit_b (chars (itoa_nat n)) = true.
Proof.
  intros Hn. pose proof (itoa_nat_digits n Hn) as H. unfold all_digits in H. apply forallb_forall.
  intros c Hc. apply list_elem_of_In in Hc. rewrite Forall_forall in H. exact (H c Hc).
Qed.

Lemma dec_uint64_itoa z old : 0 ≤ z < uint64_mod → dec_uint64 (JInt z) old = Some z.
Proof.
  intros Hz. unfold dec_uint64, JInt, parse_uint, itoa. destruct (Z.ltb_spec z 0); [lia|].
  rewrite bool_decide_false by (apply itoa_nat_nonempty; lia). rewrite itoa_digits_b, itoa_nat_value by lia.
  destruct (Z.ltb_spec z uint64_mod); [done|lia].
Qed.

Lemma CutPrefix_minus n : 0 ≤ n → CutPrefix (itoa_nat n) "-" = None.
Proof.
  intros Hn. destruct (itoa_nat_first n Hn) as (c & s & H & Hc). destruct (itoa_nat n) as [|d t]; [done|].
  injection H as -> _. cbn [CutPrefix]. destruct (Ascii.eqb_spec "-" c) as [<-|]; [|done].
  change (byte_val "-") with 45 in Hc. lia.
Qed.

Lemma dec_int64_itoa z old : in_int64 z → dec_int64 (JInt z) old = Some z.
Proof.
  intros [H1 H2]. unfold dec_int64, JInt, parse_int, itoa. apply Z.leb_le in H1 as H1', H2 as H2'.
  destruct (Z.ltb_spec z 0).
  - rewrite CutPrefix_append. rewrite bool_decide_false by (apply itoa_nat_nonempty; lia).
    rewrite itoa_digits_b, itoa_nat_value, Z.opp_involutive, H1', H2' by lia. done.
  - rewrite CutPrefix_minus by done. rewrite bool_decide_false by (by apply itoa_nat_nonempty).
    rewrite itoa_digits_b, itoa_nat_value, H1', H2' by lia. done.
Qed.

Lemma float_parts_digits l :
  Forall (λ c, digit_b c = true) l → span digit_b l = (l, []).
Proof. intros H. rewrite <-(app_nil_r l) at 1. by apply span_digits. Qed.

Lemma float_ok_itoa z : in_int64 z → float_ok (itoa z) = true.
Proof.
  intros [H1 H2]. assert (Hp : float_parts (itoa z) = (Z.abs z, 0)).
  { unfold float_parts, itoa. destruct (Z.ltb_spec z 0).
    - rewrite chars_append. cbn [String.list_ascii_of_string app]. change (byte_val "-" =? 45) with true. cbn iota.
      rewrite float_parts_digits by (apply itoa_nat_digits; lia). rewrite app_nil_r, of_chars_chars, itoa_nat_value by lia.
      f_equal. lia.
    - destruct (itoa_nat_first z ltac:(done)) as (c & s & E & Hc). rewrite E.
      destruct (Z.eqb_spec (byte_val c) 45); [lia|]. rewrite <-E, float_parts_digits by (by apply itoa_nat_digits).
      rewrite app_nil_r, of_chars_chars, itoa_nat_value by done. f_equal. lia. }
  unfold float_ok. rewrite Hp. cbn [Z.leb Z.compare]. rewrite Z.pow_0_r, Z.mul_1_r. apply Z.ltb_lt.
  unfold int64_min, int64_max in *. apply Z.lt_le_trans with (2 ^ 64); [lia|]. by apply Z.leb_le.
Qed.

Lemma aval_any_ok a : aval_int64 a → any_ok (valid_jv (aval_json a)) = true.
Proof.
  destruct a as [s|z|b|l]; [done|apply float_ok_itoa|done|]. intros _. destruct l as [|s l]; [done|].
  cbn. induction l; [done|]. cbn. done.
Qed.

(** *** Members *)

Definition valid_member (kv : string * jv) : string * jv := (valid_utf8 kv.1, valid_jv kv.2).

Section Members.
Context {A : Type} (names : list string) (set : string → jv → A → option A).

Definition dec_member (acc : option A) (kv : string * jv) : option A :=
  a ← acc; match field_of names kv.1 with Some n => set n kv.2 a | None => Some a end.

(** A name that decodes as itself. *)
Definition own_name (k : string) : Prop := forallb (in_range 0 127) (chars k) = true ∧ k ∈ names.

Lemma fold_one k v a : own_name k → foldl dec_member (Some a) (valid_member <$> [(k, v)]) = set k (valid_jv v) a.
Proof.
  intros [Hk Hn]. cbn [fmap list_fmap foldl]. unfold dec_member, valid_member. cbn [fst snd].
  rewrite valid_utf8_ascii by done. unfold field_of. by rewrite bool_decide_true.
Qed.

Lemma fold_omit k s a :
  own_name k → set k (JStr "") a = Some a →
  foldl dec_member (Some a) (valid_member <$> omitempty k s) = set k (JStr (valid_utf8 s)) a.
Proof.
  intros Hk H0. unfold omitempty. case_bool_decide as E; [by rewrite E|]. by apply fold_one.
Qed.

Lemma fold_opt {B} k (f : B → jv) (o : option B) a :
  own_name k →
  foldl dec_member (Some a) (valid_member <$> opt_field k f o)
  = match o with None => Some a | Some b => set k (valid_jv (f b)) a end.
Proof. intros Hk. destruct o; [|done]. by apply fold_one. Qed.

Lemma fold_map {V} k (f : V → jv) (m : gmap string V) a :
  own_name k →
  foldl dec_member (Some a) (valid_member <$> map_field k f m)
  = if bool_decide (m = ∅) then Some a else set k (valid_jv (JMap f m)) a.
Proof. intros Hk. unfold map_field. case_match; [done|]. by apply fold_one. Qed.

Lemma fold_app l1 l2 a b :
  foldl dec_member (Some a) (valid_member <$> l1) = Some b →
  foldl dec_member (Some a) (valid_member <$> (l1 ++ l2)) = foldl dec_member (Some b) (valid_member <$> l2).
Proof. intros E. by rewrite fmap_app, foldl_app, E. Qed.

Lemma fold_cons k v l a b :
  own_name k → set k (valid_jv v) a = Some b →
  foldl dec_member (Some a) (valid_member <$> ((k, v) :: l)) = foldl dec_member (Some b) (valid_member <$> l).
Proof. intros Hk E. apply (fold_app [(k, v)]). by rewrite fold_one. Qed.

End Members.

Ltac own := (split; [reflexivity|apply bool_decide_unpack with (dec := decide _); vm_compute; exact I]).

Lemma dec_subject_json s : dec_subject (valid_jv (subject_json s)) zeroSubject = Some (valid_subject s).
Proof.
  change (foldl (dec_member ["namespace"; "serviceaccount"; "pod"; "pod_uid"] set_subject_field) (Some zeroSubject)
    (valid_member <$> [("namespace", JStr (s_Namespace s)); ("serviceaccount", JStr (s_ServiceAccount s))]
        ++ omitempty "pod" (s_Pod s) ++ omitempty "pod_uid" (s_PodUID s)) = Some (valid_subject s)).
  cbn [app]. do 2 (erewrite fold_cons; [|own|reflexivity]).
  erewrite fold_app; [|rewrite fold_omit; [reflexivity|own|reflexivity]].
  rewrite fold_omit; [reflexivity|own|reflexivity].
Qed.

Lemma dec_source_json s : dec_source (valid_jv (source_json s)) zeroSource = Some (valid_source s).
Proof.
  change (foldl (dec_member ["ip"; "user_agent"] set_source_field) (Some zeroSource)
    (valid_member <$> omitempty "ip" (src_IP s) ++ omitempty "user_agent" (src_UserAgent s)) = Some (valid_source s)).
  erewrite fold_app; [|rewrite fold_omit; [reflexivity|own|reflexivity]].
  rewrite fold_omit; [reflexivity|own|reflexivity].
Qed.

Lemma dec_broker_json b : 0 ≤ bi_Seq b < uint64_mod → dec_broker (valid_jv (broker_json b)) zeroBroker = Some (valid_broker b).
Proof.
  intros Hs.
  change (foldl (dec_member ["instance"; "kid"; "seq"] set_broker_field) (Some zeroBroker)
    (valid_member <$> [("instance", JStr (bi_Instance b)); ("kid", JStr (bi_KID b)); ("seq", JInt (bi_Seq b))]) = Some (valid_broker b)).
  do 2 (erewrite fold_cons; [|own|reflexivity]). rewrite fold_one by own.
  unfold set_broker_field. cbn [valid_jv JInt]. fold (JInt (bi_Seq b)). by rewrite dec_uint64_itoa.
Qed.

Lemma valid_JMap {V} (f : V → jv) m : valid_jv (JMap f m) = JObj ((λ kv, (valid_utf8 kv.1, valid_jv (f kv.2))) <$> sorted_entries m).
Proof. unfold JMap. cbn [valid_jv]. by rewrite <-list_fmap_compose. Qed.

Lemma fold_any (l : list (string * aval)) : ∀ acc, Forall (λ kv, aval_int64 kv.2) l →
  foldl dec_any_entry (Some acc) ((λ kv, (valid_utf8 kv.1, valid_jv (aval_json kv.2))) <$> l)
  = Some (foldl (λ acc kv, <[valid_utf8 kv.1 := valid_jv (aval_json kv.2)]> acc) acc l).
Proof.
  induction l as [|kv l IH]; intros acc H; [done|]. apply Forall_cons in H as [Hv H]. cbn [fmap list_fmap foldl].
  unfold dec_any_entry at 2. cbn [fst snd mbind option_bind]. rewrite aval_any_ok by done. by apply IH.
Qed.

Lemma fold_str (l : list (string * string)) : ∀ acc,
  foldl dec_map_entry (Some acc) ((λ kv, (valid_utf8 kv.1, valid_jv (JStr kv.2))) <$> l)
  = Some (foldl (λ acc kv, <[valid_utf8 kv.1 := valid_utf8 kv.2]> acc) acc l).
Proof. induction l as [|kv l IH]; intros acc; [done|]. apply IH. Qed.

Lemma sorted_entries_Forall {V} (P : V → Prop) (m : gmap string V) :
  map_Forall (λ _, P) m → Forall (λ kv, P kv.2) (sorted_entries m).
Proof.
  intros H. unfold sorted_entries. rewrite merge_sort_Permutation. apply Forall_forall. intros [k v] Hk.
  apply elem_of_map_to_list in Hk. exact (H k v Hk).
Qed.

(** The optional parts of an event, each into the field that is still nil. *)
Section Parts.
Context (V : Z) (K T TS R : string) (B : BrokerInfo) (Sb : option Subject) (Src : option Source)
  (At : option (gmap string jv)) (As : option (gmap string string)) (Sg : string).
Abbreviation read a l := (foldl (dec_member event_names set_event_field) (Some a) (valid_member <$> l)).

Lemma read_subject o :
  read (mkVEvent V K T TS R B None Src At As Sg) (opt_field "subject" subject_json o)
  = Some (mkVEvent V K T TS R B (valid_subject <$> o) Src At As Sg).
Proof.
  rewrite fold_opt by own. destruct o as [s|]; [|done]. unfold set_event_field. cbn [bool_decide].
  change (dec_ptr dec_subject zeroSubject (valid_jv (subject_json s)) None)
    with (Some <$> dec_subject (valid_jv (subject_json s)) zeroSubject). by rewrite dec_subject_json.
Qed.

Lemma read_source o :
  read (mkVEvent V K T TS R B Sb None At As Sg) (opt_field "source" source_json o)
  = Some (mkVEvent V K T TS R B Sb (valid_source <$> o) At As Sg).
Proof.
  rewrite fold_opt by own. destruct o as [s|]; [|done]. unfold set_event_field. cbn [bool_decide].
  change (dec_ptr dec_source zeroSource (valid_jv (source_json s)) None)
    with (Some <$> dec_source (valid_jv (source_json s)) zeroSource). by rewrite dec_source_json.
Qed.

Lemma read_attested m :
  map_Forall (λ _, aval_int64) m →
  read (mkVEvent V K T TS R B Sb Src None As Sg) (map_field "attested" aval_json m)
  = Some (mkVEvent V K T TS R B Sb Src (read_back (λ a, valid_jv (aval_json a)) m) As Sg).
Proof.
  intros Hm. rewrite fold_map by own. unfold read_back. case_bool_decide; [done|]. rewrite valid_JMap.
  unfold set_event_field, dec_anymap. cbn [bool_decide default]. rewrite fold_any by (by apply sorted_entries_Forall). done.
Qed.

Lemma read_asserted m :
  read (mkVEvent V K T TS R B Sb Src At None Sg) (map_field "asserted" JStr m)
  = Some (mkVEvent V K T TS R B Sb Src At (read_back valid_utf8 m) Sg).
Proof.
  rewrite fold_map by own. unfold read_back. case_bool_decide; [done|]. rewrite valid_JMap.
  unfold set_event_field, dec_strmap. cbn [bool_decide default]. rewrite fold_str. done.
Qed.

End Parts.

(** An event with Go-typed integers is read back, its strings as valid UTF-8. *)
Lemma dec_event_json ev : typed ev → dec_event (valid_jv (event_json ev)) = Some (decoded ev).
Proof.
  intros [Hv Hs Ha].
  change (foldl (dec_member event_names set_event_field) (Some zeroVEvent) (valid_member <$> event_fields ev) = Some (decoded ev)).
  unfold event_fields. cbn [app].
  erewrite fold_cons; [|own|unfold set_event_field, zeroVEvent; cbn [valid_jv JInt]; fold (JInt (ev_V ev)); by rewrite dec_int64_itoa].
  do 3 (erewrite fold_cons; [|own|reflexivity]).
  erewrite fold_app; [|rewrite fold_omit; [reflexivity|own|reflexivity]].
  erewrite fold_cons; [|own|unfold set_event_field; rewrite dec_broker_json by done; reflexivity].
  erewrite fold_app by apply read_subject. erewrite fold_app by apply read_source.
  erewrite fold_app by (by apply read_attested). erewrite fold_app by apply read_asserted.
  rewrite fold_omit; [reflexivity|own|reflexivity].
Qed.

(** ** The signed text is rebuilt *)

Lemma foldl_insert {V} (l : list (string * V)) :
  foldl (λ m kv, <[kv.1 := kv.2]> m) ∅ l = list_to_map (M := gmap string V) (reverse l).
Proof.
  induction l as [|[k v] l IH] using rev_ind; [done|]. rewrite foldl_app, reverse_snoc, list_to_map_cons. cbn. by rewrite IH.
Qed.

Lemma event_keys ev : (event_fields ev).*1 `sublist_of` event_names.
Proof.
  assert (Ho : ∀ k s, (omitempty k s).*1 `sublist_of` [k]).
  { intros k s. unfold omitempty. case_match; [apply sublist_nil_l|done]. }
  assert (Hp : ∀ B k (f : B → jv) o, (opt_field k f o).*1 `sublist_of` [k]).
  { intros B k f [b|]; [done|apply sublist_nil_l]. }
  assert (Hm : ∀ B k (f : B → jv) m, (map_field k f m).*1 `sublist_of` [k]).
  { intros B k f m. unfold map_field. case_match; [apply sublist_nil_l|done]. }
  unfold event_fields. rewrite !fmap_app.
  change event_names with (["v"; "kind"; "type"; "ts"] ++ ["request_id"] ++ ["broker"] ++ ["subject"] ++ ["source"]
    ++ ["attested"] ++ ["asserted"] ++ ["sig"]).
  repeat apply sublist_app; auto.
Qed.

Lemma event_names_ascii k : k ∈ event_names → valid_utf8 k = k.
Proof.
  intros Hk. apply valid_utf8_ascii.
  assert (H : Forall (λ k, forallb (in_range 0 127) (chars k) = true) event_names) by (repeat constructor).
  rewrite Forall_forall in H. by apply H.
Qed.

(** The members without the signature: what was signed. *)
Lemma event_fields_sig ev : ev_Sig ev ≠ "" →
  event_fields ev = event_fields (with_sig ev "") ++ [("sig", JStr (ev_Sig ev))].
Proof.
  intros Hs. unfold event_fields, omitempty at 2. cbn [ev_Sig with_sig]. rewrite bool_decide_false by done.
  unfold omitempty at 3. rewrite bool_decide_true by done. rewrite app_nil_r, <-!app_assoc. done.
Qed.

Lemma depth_arr_le l n : Forall (λ v, depth v ≤ n)%nat l → (depth (JArr l) ≤ S n)%nat.
Proof. induction 1 as [|v l Hv Hl IH]; cbn in *; lia. Qed.
Lemma depth_obj_le l n : Forall (λ kv, depth kv.2 ≤ n)%nat l → (depth (JObj l) ≤ S n)%nat.
Proof. induction 1 as [|v l Hv Hl IH]; cbn in *; lia. Qed.

Lemma event_depth ev : (depth (event_json ev) ≤ 3)%nat.
Proof.
  assert (Ho : ∀ k s n, Forall (λ kv, depth kv.2 ≤ n)%nat (omitempty k s)).
  { intros k s n. unfold omitempty. case_match; repeat constructor. cbn. lia. }
  apply depth_obj_le. unfold event_fields. rewrite !Forall_app. split_and!; [repeat constructor; cbn; lia|done| | | | | |done].
  - constructor; [|constructor]. cbn. lia.
  - destruct (ev_Subject ev); constructor; [|constructor]. cbn [snd]. apply depth_obj_le.
    rewrite !Forall_app. split_and!; [repeat constructor; cbn; lia|done..].
  - destruct (ev_Source ev); constructor; [|constructor]. cbn [snd]. apply depth_obj_le. rewrite !Forall_app. done.
  - unfold map_field. case_match; constructor; [|constructor]. apply depth_obj_le, Forall_fmap, Forall_true.
    intros [k [s|z|b|l]]; cbn; try lia. destruct l as [|s l]; [cbn; lia|]. apply (depth_arr_le _ 0).
    apply Forall_fmap, Forall_true. cbn. lia.
  - unfold map_field. case_match; constructor; [|constructor]. apply depth_obj_le, Forall_fmap, Forall_true. cbn. lia.
Qed.

(** Marshalling the raw members of rendered values renders an object with the
    same members, in another order. *)
Lemma marshal_raw_members (l : list (string * jv)) m :
  Forall (λ kv, int_nums kv.2) l → NoDup l.*1 →
  m = list_to_map (reverse ((λ kv, (kv.1, chars (render kv.2))) <$> l)) →
  ∃ l', l' ≡ₚ l ∧ marshal_raw m = render (JObj l').
Proof.
  intros Hi Hn ->.
  assert (Hp : sorted_entries (V := list ascii) (list_to_map (reverse ((λ kv, (kv.1, chars (render kv.2))) <$> l)))
    ≡ₚ (λ kv, (kv.1, chars (render kv.2))) <$> l).
  { unfold sorted_entries. rewrite merge_sort_Permutation, map_to_list_to_map; [by rewrite reverse_Permutation|].
    rewrite fmap_reverse, reverse_Permutation, <-list_fmap_compose. exact Hn. }
  apply Permutation_map_inv in Hp as (l' & E & Hl). exists l'. split; [done|].
  unfold marshal_raw. rewrite E. cbn [render]. f_equal. f_equal. f_equal. rewrite <-list_fmap_compose.
  apply list_fmap_ext. intros i kv Hk. unfold compose, raw_member. cbn [fst snd].
  assert (int_nums kv.2) as Hv.
  { rewrite Forall_forall in Hi. apply Hi. rewrite Hl. by eapply list_elem_of_lookup_2. }
  by rewrite compact_render, of_chars_chars.
Qed.

(** *** The signature is ASCII text *)

Lemma b64_char_ascii z : 0 ≤ z < 64 → in_range 0 127 (b64_char false z) = true.
Proof.
  intros Hz. assert (Forall (λ z, in_range 0 127 (b64_char false z) = true) (seqZ 0 64)) as H.
  { apply (bool_decide_unpack _). vm_compute. exact I. }
  rewrite Forall_forall in H. apply H. rewrite elem_of_seqZ. lia.
Qed.

Lemma b64_ascii l : forallb (in_range 0 127) (chars (b64_encode false l)) = true.
Proof.
  induction l as [l IH] using (induction_ltof1 _ length). unfold ltof in IH.
  destruct l as [|a [|b [|c l]]]; [done|..]; cbn [b64_encode String.list_ascii_of_string forallb]; pose proof (byte_val_range a) as Ha.
  - destruct (b64_group (byte_val a) 0 0 Ha) as ((H1 & H2 & _) & _); [lia..|].
    rewrite Z.div_0_l, Z.add_0_r in H2 by lia. by rewrite !b64_char_ascii.
  - pose proof (byte_val_range b) as Hb.
    destruct (b64_group (byte_val a) (byte_val b) 0 Ha Hb) as ((H1 & H2 & H3 & _) & _); [lia|].
    rewrite Z.div_0_l, Z.add_0_r in H3 by lia. by rewrite !b64_char_ascii.
  - pose proof (byte_val_range b) as Hb. pose proof (byte_val_range c) as Hc.
    destruct (b64_group (byte_val a) (byte_val b) (byte_val c) Ha Hb Hc) as ((H1 & H2 & H3 & H4) & _).
    rewrite !b64_char_ascii by done. apply IH. cbn. lia.
Qed.

Lemma b64_nonempty s : s ≠ "" → StdEncodeToString s ≠ "".
Proof. unfold StdEncodeToString. by destruct s as [|a [|b [|c s]]]. Qed.

(** ** What the emitter writes, the verifier accepts *)

(** What the code relies on of the two packages: a signature is 64 bytes long and
    verifies under the key's public half; the canonical form of an object does not
    depend on the order in which its distinct names are written. *)
Class SigningLaws (ed25519_Public : string → string) (ed25519_Sign : string → string → string)
    (ed25519_Verify : string → string → string → bool) (jcs_Transform : string → option string) : Prop := {
  sign_size : ∀ k m, String.length (ed25519_Sign k m) = 64%nat;
  verify_sign : ∀ k m, ed25519_Verify (ed25519_Public k) m (ed25519_Sign k m) = true;
  jcs_order : ∀ l l', l' ≡ₚ l → NoDup (valid_utf8 <$> l.*1) → int_nums (JObj l) → (depth (JObj l) ≤ maxNestingDepth)%nat →
    jcs_Transform (render (JObj l')) = jcs_Transform (render (JObj l))
}.

Section RoundTrip.
Context (ed25519_Public : string → string) (ed25519_Sign : string → string → string).
Context (ed25519_Verify : string → string → string → bool) (jcs_Transform : string → option string).
Context `{!SigningLaws ed25519_Public ed25519_Sign ed25519_Verify jcs_Transform}.

Lemma raw_map_event ev : ev_Sig ev ≠ "" →
  ∃ raw l', raw_map (render (event_json ev)) = Some raw ∧ l' ≡ₚ event_fields (with_sig ev "")
    ∧ marshal_raw (delete "sig" raw) = render (JObj l').
Proof.
  intros Hs. unfold raw_map, event_json.
  rewrite (raw_object_render (event_fields ev)); [|apply event_int_nums|].
  2: { etrans; [apply event_depth|]. apply Nat.leb_le. vm_compute. reflexivity. }
  cbn [fmap option_fmap option_map]. rewrite foldl_insert.
  pose proof (event_keys ev) as Hk. pose proof (event_int_nums ev) as Hi. apply int_nums_obj in Hi.
  assert (Hv : (λ kv, (valid_utf8 kv.1, chars (render kv.2))) <$> event_fields ev
               = (λ kv, (kv.1, chars (render kv.2))) <$> event_fields ev).
  { apply list_fmap_ext. intros i kv Hl. f_equal. apply event_names_ascii. eapply elem_of_sublist; [|exact Hk].
    apply list_elem_of_fmap. exists kv. split; [done|]. by eapply list_elem_of_lookup_2. }
  rewrite Hv. assert (Hn : NoDup (event_fields ev).*1).
  { eapply sublist_NoDup; [|exact Hk]. apply (bool_decide_unpack _). vm_compute. exact I. }
  clear Hv Hk. rewrite event_fields_sig in Hn, Hi |- * by done. rewrite fmap_app in Hn. rewrite fmap_app.
  cbn [fmap list_fmap fst snd] in Hn |- *.
  apply NoDup_app in Hn as (Hn & Hd & _). apply Forall_app in Hi as [Hi _].
  eexists. rewrite reverse_snoc, list_to_map_cons. rewrite delete_insert_eq, delete_id.
  - destruct (marshal_raw_members (event_fields (with_sig ev "")) _ Hi Hn eq_refl) as (l' & Hp & E).
    exists l'. split_and!; [done|exact Hp|exact E].
  - apply not_elem_of_list_to_map_1. rewrite fmap_reverse, elem_of_reverse, <-list_fmap_compose.
    intros Hin. apply (Hd "sig"); [exact Hin|]. set_solver.
Qed.

(** A signed event, as one line, verifies and decodes to itself. *)
Lemma signed_verifies signer ev :
  sg_pub signer = ed25519_Public (sg_priv signer) → typed ev →
  signed_by ed25519_Sign jcs_Transform signer ev →
  Verify jcs_Transform ed25519_Verify (render (event_json ev)) (sg_pub signer) = Ok (decoded ev).
Proof.
  intros Hpub Hty (canonical & Hc & Hsig). unfold Verify.
  assert (Hd : (depth (event_json ev) ≤ maxNestingDepth)%nat).
  { etrans; [apply event_depth|]. apply Nat.leb_le. vm_compute. reflexivity. }
  rewrite unmarshal_render by (done || apply event_int_nums). cbn [mbind option_bind]. rewrite dec_event_json by done.
  cbn [ve_Sig decoded]. rewrite Hsig, valid_utf8_ascii by apply b64_ascii.
  assert (Hne : ed25519_Sign (sg_priv signer) canonical ≠ "").
  { intros E. pose proof (sign_size (sg_priv signer) canonical) as Hl. by rewrite E in Hl. }
  rewrite bool_decide_false by (by apply b64_nonempty). rewrite StdDecode_encode.
  destruct (raw_map_event ev) as (raw & l' & -> & Hp & ->); [rewrite Hsig; by apply b64_nonempty|].
  rewrite (jcs_order (event_fields (with_sig ev "")) l'); [|done| | |].
  - change (JObj (event_fields (with_sig ev ""))) with (event_json (with_sig ev "")). rewrite Hc.
    by rewrite Hpub, verify_sign.
  - pose proof (event_keys (with_sig ev "")) as Hk. replace (valid_utf8 <$> _) with ((event_fields (with_sig ev "")).*1).
    + eapply sublist_NoDup; [|exact Hk]. apply (bool_decide_unpack _). vm_compute. exact I.
    + rewrite <-list_fmap_id at 1. apply list_fmap_ext. intros i k Hl. symmetry. apply event_names_ascii.
      eapply elem_of_sublist; [|exact Hk]. by eapply list_elem_of_lookup_2.
  - apply (event_int_nums (with_sig ev "")).
  - etrans; [apply (event_depth (with_sig ev ""))|]. apply Nat.leb_le. vm_compute. reflexivity.
Qed.

(** Every attested integer has its Go type. *)
Definition typed_calls (calls : list emit_call) : Prop :=
  Forall (λ c : emit_call, map_Forall (λ _, aval_int64) (ev_Attested c.2)) calls.

Lemma Emits_typed calls : ∀ e rs e',
  typed_calls calls → Emits ed25519_Sign jcs_Transform e calls = (rs, e') →
  Forall typed (em_log e) → Forall typed (em_log e').
Proof.
  induction calls as [|[[now wr] ev] calls IH]; intros e rs e' Hc E He; cbn [Emits] in E; [by injection E as <- <-|].
  apply Forall_cons in Hc as [Hev Hc].
  destruct (Emit_cases ed25519_Sign jcs_Transform e now wr ev) as [(sig & _ & _ & Hem)|(err & out & Hem & _)];
    rewrite Hem in E; destruct (Emits _ _ _ calls) as [rs' e2] eqn:E2; injection E as <- <-; eapply IH; try done.
  cbn. apply Forall_app. split; [done|]. constructor; [|constructor].
  split; cbn; [by vm_compute|apply wrapu64_range|exact Hev].
Qed.

Lemma Emits_verify priv instance calls rs e :
  typed_calls calls →
  Emits ed25519_Sign jcs_Transform (NewEmitter (NewSigner ed25519_Public priv) instance) calls = (rs, e) →
  Forall (λ ev, (Verify jcs_Transform ed25519_Verify (render (event_json ev)) (ed25519_Public priv) = Ok (decoded ev)
                 ∧ bi_Instance (ev_Broker ev) = instance) ∧ 0 ≤ bi_Seq (ev_Broker ev) < uint64_mod) (em_log e).
Proof.
  intros Hc E. pose proof (Emits_typed _ _ _ _ Hc E (List.Forall_nil _)) as Ht.
  apply Emits_log in E as (new & Hl & _ & _ & _ & _ & Hall). cbn in Hl. rewrite Hl in *.
  rewrite Forall_forall in *. intros ev Hev. destruct (Hall ev Hev) as (Hs & Hi & _).
  split; [split; [|done]|by apply Ht]. apply (signed_verifies (NewSigner ed25519_Public priv)); auto.
Qed.

(** C31: What the emitter commits, [Verify] accepts: for a signer made from a
    private key, whatever events are emitted and whatever writes fail, every
    committed event, read as the line it was written as, verifies under the
    signer's public key and decodes to that event (its strings as valid UTF-8). *)
Theorem emitted_events_verify priv instance calls rs e :
  typed_calls calls →
  Emits ed25519_Sign jcs_Transform (NewEmitter (NewSigner ed25519_Public priv) instance) calls = (rs, e) →
  Forall (λ ev, Verify jcs_Transform ed25519_Verify (render (event_json ev)) (ed25519_Public priv) = Ok (decoded ev))
    (em_log e).
Proof.
  intros Hc E. eapply Forall_impl; [by eapply Emits_verify|]. by intros ev [[? _] _].
Qed.

End RoundTrip.

(** ** A concrete signature scheme and canonical form

    Keyed SHA-256 as a stand-in for Ed25519, and members sorted by name as the
    canonical form: the laws above can hold. *)

Definition toy_sign (k m : string) : string := (Sum256 (k +:+ m)) +:+ (Sum256 (m +:+ k)).
Definition toy_verify (p m s : string) : bool := bool_decide (s = toy_sign p m).
Definition sorted_form (s : string) : option string :=
  match unmarshal s with
  | Some (JObj l) => Some (render (JObj (merge_sort key_le l)))
  | Some v => Some (render v)
  | None => None
  end.

#[global] Instance key_le_trans {V} : Transitive (@key_le V).
Proof. intros p q r. unfold key_le. apply transitivity. Qed.
#[global] Instance key_le_total {V} : Total (@key_le V).
Proof. intros p q. unfold key_le. apply total; apply _. Qed.

Lemma depth_obj_inv l n : (depth (JObj l) ≤ S n)%nat → Forall (λ kv, depth kv.2 ≤ n)%nat l.
Proof. induction l as [|kv l IH]; cbn; constructor; [lia|]. apply IH. cbn. lia. Qed.

Lemma sort_members {V} (l l' : list (string * V)) : l' ≡ₚ l → NoDup l.*1 → merge_sort key_le l' = merge_sort key_le l.
Proof.
  intros Hp Hn. apply (StronglySorted_unique_strong key_le).
  - intros [k1 v1] [k2 v2] H1 H2. unfold key_le. cbn. intros Ha Hb. rewrite merge_sort_Permutation in H1, H2. rewrite Hp in H1.
    assert (k1 = k2) as -> by (by apply (anti_symm String.le)). f_equal.
    apply (elem_of_list_to_map_1 (M := gmap string)) in H1, H2; [congruence|done..].
  - apply StronglySorted_merge_sort; apply _.
  - apply StronglySorted_merge_sort; apply _.
  - by rewrite !merge_sort_Permutation.
Qed.

Lemma sorted_form_obj l : int_nums (JObj l) → (depth (JObj l) ≤ maxNestingDepth)%nat →
  sorted_form (render (JObj l)) = Some (render (JObj (merge_sort key_le (valid_member <$> l)))).
Proof. intros Hi Hd. unfold sorted_form. by rewrite unmarshal_render. Qed.

#[global] Instance toy_laws : SigningLaws (λ k, k) toy_sign toy_verify sorted_form.
Proof.
  split.
  - intros k m. unfold toy_sign. by rewrite length_append, !Sum256_length.
  - intros k m. unfold toy_verify. by rewrite bool_decide_true.
  - intros l l' Hp Hn Hi Hd. assert (Hi' : int_nums (JObj l')).
    { apply int_nums_obj. rewrite Hp. by apply int_nums_obj. }
    assert (Hd' : (depth (JObj l') ≤ maxNestingDepth)%nat).
    { unfold maxNestingDepth in *. destruct (Z.to_nat 10000) eqn:E; [lia|]. apply depth_obj_le. rewrite Hp. by apply depth_obj_inv. }
    rewrite !sorted_form_obj by done. do 3 f_equal. apply sort_members; [by rewrite Hp|].
    rewrite <-list_fmap_compose in Hn. rewrite <-list_fmap_compose. exact Hn.
Qed.

(** The emitter of [demo_calls] with these: two events, one failed write, a
    user agent with a newline and an invalid byte. *)
Definition signed_calls : list emit_call :=
  [(0, Written, demo_event "curl"); (1, Failed 0, demo_event "curl");
   (2, Written, demo_event (String newline (String (byte_of 200) "x")))].
Definition signed_run : list (res EmitErr ()) * Emitter :=
  Emits toy_sign sorted_form (NewEmitter (NewSigner (λ k, k) "priv") "broker-0") signed_calls.

Lemma emitted_events_verify_witness :
  length (em_log signed_run.2) = 2%nat
  ∧ Forall (λ ev, Verify sorted_form toy_verify (render (event_json ev)) "priv" = Ok (decoded ev)) (em_log signed_run.2).
Proof.
  split; [vm_compute; reflexivity|].
  apply (emitted_events_verify (λ k, k) toy_sign toy_verify sorted_form "priv" "broker-0" signed_calls signed_run.1 signed_run.2).
  - repeat constructor; intros k v; cbn [demo_event newEvent ev_Attested snd];
      intros [_ <-]%lookup_singleton_Some; exact I.
  - unfold signed_run. destruct (Emits _ _ _ _) as [rs e]. reflexivity.
Defined.
