(* ===== verification/AcbVerify.v ===== *)
(** * The offline verifier (cmd/acb-verify/main.go)

    Lines are scanned, verified one by one, and the sequence numbers of each
    instance are sorted and searched for gaps and duplicates.  A reader is the
    text it delivers; an argument that cannot be opened is [None]. *)

From S2P Require Import Prelude GoStrings GoTime Encoding Sha256 Json JsonRound AuditStream AuditVerify.
From Stdlib Require Import Ascii.
Local Open Scope Z_scope.
Local Open Scope stdpp_scope.

(** ** Scanning lines *)

(** [bufio.ScanLines] drops one carriage return before the line break. *)
Definition dropCR (s : string) : string :=
  match reverse (chars s) with
  | c :: r => if byte_val c =? 13 then of_chars (reverse r) else s
  | [] => s
  end.

(** The limit [sc.Buffer] sets: a line must fit with its break. *)
Definition maxToken : Z := Z.shiftl 1 20.

(** The tokens up to the first line that is too long, and whether there was none. *)
Fixpoint tokens (pieces : list string) : list string * bool :=
  match pieces with
  | [] => ([], true)
  | [last] => if maxToken <=? slen last then ([], false)
              else (if bool_decide (last = "") then [] else [dropCR last], true)
  | p :: pieces' =>
    if maxToken <=? slen p then ([], false)
    else let '(ts, ok) := tokens pieces' in (dropCR p :: ts, ok)
  end.
Definition scan_lines (data : string) : list string * bool := tokens (Split data newline).

(** ** Sequence numbers *)

(** The loop over a sorted list: gaps and duplicates. *)
Fixpoint analyse (l : list Z) : Z * Z :=
  match l with
  | a :: (b :: _) as l' =>
    let '(gaps, dups) := analyse l' in
    let d := wrapu64 (b - a) in
    if d =? 0 then (gaps, dups + 1) else if 1 <? d then (gaps + 1, dups) else (gaps, dups)
  | _ => (0, 0)
  end.

(** The counts over all instances; their order does not matter to the sums. *)
Definition analyse_all (seqs : gmap string (list Z)) : Z * Z :=
  map_fold (λ _ l acc, let '(g, d) := analyse (merge_sort Z.le l) in (acc.1 + g, acc.2 + d)) (0, 0) seqs.

(** ** main *)

Record tally := mkTally { t_total : Z; t_valid : Z; t_invalid : Z; t_seqs : gmap string (list Z) }.

Record summary := mkSummary {
  sm_events : Z; sm_valid : Z; sm_invalid : Z; sm_gaps : Z; sm_dups : Z; sm_instances : Z }.

Section Main.
Context (jcs_Transform : string → option string) (ed25519_Verify : string → string → string → bool).

Definition check_line (pub : string) (t : tally) (line : string) : tally :=
  if bool_decide (line = "") then t
  else match Verify jcs_Transform ed25519_Verify line pub with
  | Err _ => mkTally (t_total t + 1) (t_valid t) (t_invalid t + 1) (t_seqs t)
  | Ok ev =>
    let i := bi_Instance (ve_Broker ev) in
    mkTally (t_total t + 1) (t_valid t + 1) (t_invalid t)
      (<[i := default [] (t_seqs t !! i) ++ [bi_Seq (ve_Broker ev)]]> (t_seqs t))
  end.

Fixpoint check_readers (pub : string) (t : tally) (readers : list string) : option tally :=
  match readers with
  | [] => Some t
  | r :: readers' =>
    let '(lines, ok) := scan_lines r in
    let t' := foldl (check_line pub) t lines in
    if ok then check_readers pub t' readers' else None
  end.

Definition summarise (t : tally) : summary :=
  let '(gaps, dups) := analyse_all (t_seqs t) in
  mkSummary (t_total t) (t_valid t) (t_invalid t) gaps dups (Z.of_nat (size (t_seqs t))).

(** The exit code and, when one is printed, the summary. *)
Definition main (pubB64 : string) (stdin : string) (args : list (option string)) : Z * option summary :=
  if bool_decide (pubB64 = "") then (2, None)
  else match StdDecodeString pubB64 with
  | None => (2, None)
  | Some pub =>
    if negb (bool_decide (String.length pub = 32%nat)) then (2, None)
    else match mapM (M := option) id args with
    | None => (2, None)
    | Some files =>
      match check_readers pub (mkTally 0 0 0 ∅) (if bool_decide (files = []) then [stdin] else files) with
      | None => (2, None)
      | Some t => (if 0 <? t_invalid t then 1 else 0, Some (summarise t))
      end
    end
  end.

End Main.

Example scan_examples :
  scan_lines (String newline "") = ([""], true) ∧ scan_lines "" = ([], true)
  ∧ analyse [1; 2; 3] = (0, 0) ∧ analyse [1; 2; 2; 5; 9] = (2, 1).
Proof. by vm_compute. Qed.

(** ** Gap analysis *)

Lemma analyse_cons2 a b l :
  analyse (a :: b :: l)
  = let '(gaps, dups) := analyse (b :: l) in
    let d := wrapu64 (b - a) in
    if d =? 0 then (gaps, dups + 1) else if 1 <? d then (gaps + 1, dups) else (gaps, dups).
Proof. done. Qed.

Lemma analyse_nonneg l : 0 ≤ (analyse l).1 ∧ 0 ≤ (analyse l).2.
Proof.
  induction l as [|a [|b l] IH]; [done..|]. rewrite analyse_cons2. revert IH. destruct (analyse (b :: l)) as [g d]. intros IH.
  cbv zeta. destruct (_ =? 0); [|destruct (1 <? _)]; cbn [fst snd] in *; lia.
Qed.

Lemma seqZ_sorted n : ∀ a, StronglySorted Z.le (seqZ a (Z.of_nat n)).
Proof.
  induction n as [|n IH]; intros a; [constructor|]. rewrite seqZ_cons by lia. replace (Z.pred (Z.of_nat (S n))) with (Z.of_nat n) by lia.
  constructor; [apply IH|]. apply Forall_forall. intros x Hx%elem_of_seqZ. lia.
Qed.

(** What there is to report of some sequence numbers, whatever their order: a gap
    after every number that is followed by a missing one and, further up, by one
    that is there, so one gap per maximal run of missing numbers inside the range
    observed; and a duplicate for every occurrence after the first. *)
Definition gap_after (l : list Z) (z : Z) : Prop := (z + 1 ∉ l) ∧ Exists (λ y, z < y) l.
#[global] Instance gap_after_dec l z : Decision (gap_after l z).
Proof. unfold gap_after. apply _. Defined.

Definition gap_count (l : list Z) : Z := Z.of_nat (length (filter (gap_after l) (remove_dups l))).
Definition dup_count (l : list Z) : Z := Z.of_nat (length l) - Z.of_nat (length (remove_dups l)).

Lemma remove_dups_Permutation (l l' : list Z) : l ≡ₚ l' → remove_dups l ≡ₚ remove_dups l'.
Proof.
  intros Hp. apply NoDup_Permutation; [apply NoDup_remove_dups..|]. intros z. rewrite !elem_of_remove_dups. by rewrite Hp.
Qed.

Lemma gap_after_Permutation l l' z : l ≡ₚ l' → gap_after l z ↔ gap_after l' z.
Proof. intros Hp. unfold gap_after. by rewrite Hp. Qed.

Lemma counts_Permutation l l' : l ≡ₚ l' → gap_count l = gap_count l' ∧ dup_count l = dup_count l'.
Proof.
  intros Hp. unfold gap_count, dup_count. rewrite <-(Permutation_length Hp), <-(Permutation_length (remove_dups_Permutation _ _ Hp)).
  split; [|done]. f_equal. rewrite (list_filter_iff (gap_after l) (gap_after l')) by (intros z; by apply gap_after_Permutation).
  by rewrite (remove_dups_Permutation _ _ Hp).
Qed.

(** The numbers above the least do not see it. *)
Lemma gap_after_cons a l z : a ≤ z → gap_after (a :: l) z ↔ gap_after l z.
Proof.
  intros Ha. unfold gap_after. rewrite not_elem_of_cons, Exists_cons. split; [|intros [H1 H2]; split; [split; [lia|done]|by right]].
  intros [[_ H1] [H2|H2]]; [lia|done].
Qed.

Lemma filter_gap_cons a l m : Forall (λ z, a ≤ z) m → filter (gap_after (a :: l)) m = filter (gap_after l) m.
Proof.
  induction 1 as [|z m Hz _ IH]; [done|]. pose proof (gap_after_cons a l z Hz) as Hg. rewrite !filter_cons, IH.
  repeat case_decide; naive_solver.
Qed.

Lemma analyse_counts l :
  StronglySorted Z.le l → Forall (λ z, 0 ≤ z < uint64_mod) l → analyse l = (gap_count l, dup_count l).
Proof.
  induction l as [|a l IH]; intros Hs Hr; [done|].
  apply StronglySorted_inv in Hs as [Hs Ha]. apply Forall_cons in Hr as [Hra Hr]. specialize (IH Hs Hr).
  destruct l as [|b l].
  { unfold gap_count, dup_count. change (remove_dups [a]) with [a]. rewrite filter_cons_False; [done|]. intros [_ [?|[]%Exists_nil]%Exists_cons]. lia. }
  rewrite analyse_cons2, IH. cbv zeta. clear IH. pose proof Ha as [Hab _]%Forall_cons. apply Forall_cons in Hr as [Hrb _].
  assert (wrapu64 (b - a) = b - a) as -> by (apply wrapu64_id; lia).
  assert (Hb : ∀ z, z ∈ b :: l → b ≤ z).
  { apply StronglySorted_inv in Hs as [_ Hb]. rewrite Forall_forall in Hb. intros z [->|Hz]%elem_of_cons; [lia|]. by apply Hb. }
  assert (Hf : filter (gap_after (a :: b :: l)) (remove_dups (b :: l)) = filter (gap_after (b :: l)) (remove_dups (b :: l))).
  { apply filter_gap_cons, Forall_forall. intros z. rewrite elem_of_remove_dups. intros Hz. apply Hb in Hz. lia. }
  unfold gap_count, dup_count. assert (Hin : b ∈ b :: l) by left. set (m := b :: l) in *. clearbody m.
  cbn [remove_dups length]. case_decide as Hd; rewrite ?filter_cons, Hf.
  - apply Hb in Hd. destruct (Z.eqb_spec (b - a) 0); [f_equal; lia|lia].
  - assert (a ≠ b) by (intros ->; done). destruct (Z.eqb_spec (b - a) 0); [lia|].
    assert (Hg : gap_after (a :: m) a ↔ 1 < b - a).
    { unfold gap_after. rewrite not_elem_of_cons, Exists_cons, Exists_exists. split.
      - intros [[_ Hn] _]. destruct (decide (b = a + 1)) as [->|]; [done|lia].
      - intros Hlt. split; [split; [lia|]|right; exists b; split; [done|lia]]. intros Hn%Hb. lia. }
    case_decide as Hc; rewrite Hg in Hc; destruct (Z.ltb_spec 1 (b - a)); try lia; cbn [length]; f_equal; lia.
Qed.

(** On a sorted list, nothing is reported exactly when it is an interval. *)
Lemma analyse_sorted l :
  StronglySorted Z.le l → Forall (λ z, 0 ≤ z < uint64_mod) l →
  analyse l = (0, 0) ↔ ∃ a, l = seqZ a (Z.of_nat (length l)).
Proof.
  induction l as [|a l IH]; intros Hs Hr; [split; [by exists 0|done]|].
  apply StronglySorted_inv in Hs as [Hs Ha]. apply Forall_cons in Hr as [Hra Hr]. specialize (IH Hs Hr).
  assert (Hcons : ∀ x, a :: l = seqZ x (Z.of_nat (length (a :: l))) ↔ x = a ∧ l = seqZ (a + 1) (Z.of_nat (length l))).
  { intros x. cbn [length]. rewrite seqZ_cons by lia. replace (Z.pred _) with (Z.of_nat (length l)) by lia.
    unfold Z.succ. split; [intros [= <- H]; done|]. intros [-> H]. by f_equal. }
  setoid_rewrite Hcons. destruct l as [|b l]; [split; [by exists a|done]|].
  apply Forall_cons in Ha as [Hab _]. apply Forall_cons in Hr as [Hrb _]. rewrite analyse_cons2.
  pose proof (analyse_nonneg (b :: l)) as Hn. revert IH Hn. destruct (analyse (b :: l)) as [g d]. cbn [fst snd]. intros IH Hn. cbv zeta.
  assert (wrapu64 (b - a) = b - a) as -> by (apply wrapu64_id; lia).
  assert (Hb : ∀ x, b :: l = seqZ x (Z.of_nat (length (b :: l))) → x = b).
  { intros x. cbn [length]. rewrite seqZ_cons by lia. by intros [= ->]. }
  destruct (Z.eqb_spec (b - a) 0); [|destruct (Z.ltb_spec 1 (b - a))].
  - split; [intros [= ? ?]; lia|]. intros (x & -> & E). apply Hb in E. lia.
  - split; [intros [= ? ?]; lia|]. intros (x & -> & E). apply Hb in E. lia.
  - rewrite IH. split; intros (x & E).
    + exists a. split; [done|]. rewrite (Hb x E) in E. rewrite E at 1. f_equal. lia.
    + destruct E as [-> E]. by exists (a + 1).
Qed.

(** Nothing is reported exactly when the numbers are an interval, each once. *)
Lemma analyse_clean l :
  Forall (λ z, 0 ≤ z < uint64_mod) l →
  analyse (merge_sort Z.le l) = (0, 0) ↔ ∃ a, l ≡ₚ seqZ a (Z.of_nat (length l)).
Proof.
  intros Hr. assert (Hs : StronglySorted Z.le (merge_sort Z.le l)) by (apply StronglySorted_merge_sort; apply _).
  pose proof (merge_sort_Permutation Z.le l) as Hp. rewrite analyse_sorted; [|done|by rewrite Hp]. rewrite (Permutation_length Hp).
  split; intros [a E]; exists a; [by rewrite <-E, Hp|].
  apply (StronglySorted_unique Z.le); [done|apply seqZ_sorted|]. by rewrite Hp.
Qed.

(** The same of any list, sorted first. *)
Lemma analyse_reports l :
  Forall (λ z, 0 ≤ z < uint64_mod) l → analyse (merge_sort Z.le l) = (gap_count l, dup_count l).
Proof.
  intros Hr. pose proof (merge_sort_Permutation Z.le l) as Hp. destruct (counts_Permutation _ _ Hp) as [<- <-].
  apply analyse_counts; [apply StronglySorted_merge_sort; apply _|by rewrite Hp].
Qed.

Lemma analyse_single i l :
  analyse_all {[i := l]} = analyse (merge_sort Z.le l).
Proof.
  unfold analyse_all. rewrite map_fold_singleton. by destruct (analyse _).
Qed.

(** ** Scanning the lines of events *)

Lemma dropCR_printable s : printable (chars s) → dropCR s = s.
Proof.
  intros Hp. unfold dropCR. destruct (reverse (chars s)) as [|c r] eqn:E; [done|].
  assert (c ∈ chars s) as Hc by (rewrite <-elem_of_reverse, E; left).
  unfold printable in Hp. rewrite Forall_forall in Hp. specialize (Hp c Hc). cbn in Hp.
  destruct (Z.eqb_spec (byte_val c) 13); [lia|done].
Qed.

Definition fits (ev : Event) : Prop := slen (render (event_json ev)) < maxToken.

Lemma tokens_cons p l : l ≠ [] → slen p < maxToken →
  tokens (p :: l) = (dropCR p :: (tokens l).1, (tokens l).2).
Proof.
  intros Hl Hp. destruct l as [|q l]; [done|]. apply Z.leb_gt in Hp.
  change (tokens (p :: q :: l)) with (if maxToken <=? slen p then ([], false)
    else let '(ts, ok) := tokens (q :: l) in (dropCR p :: ts, ok)).
  rewrite Hp. by destruct (tokens (q :: l)).
Qed.

Lemma scan_events evs : Forall fits evs →
  scan_lines (Join (line_of <$> evs) "") = (render ∘ event_json <$> evs, true).
Proof.
  intros Hf. unfold scan_lines. rewrite Join_lines. induction Hf as [|ev evs Hev Hf IH]; [reflexivity|].
  rewrite fmap_cons. cbn [app]. rewrite tokens_cons; [|by destruct evs|exact Hev]. rewrite IH. cbn [fst snd].
  rewrite dropCR_printable; [done|]. apply render_printable, event_int_nums.
Qed.

(** ** The verifier on lines the emitter committed *)

Section Streams.
Context (ed25519_Public : string → string) (ed25519_Sign : string → string → string).
Context (ed25519_Verify : string → string → string → bool) (jcs_Transform : string → option string).
Context `{!SigningLaws ed25519_Public ed25519_Sign ed25519_Verify jcs_Transform}.

Abbreviation seq_of := (λ ev, bi_Seq (ev_Broker ev)).

(** Verified lines of one instance add to its numbers. *)
Lemma check_lines pub i evs : ∀ t,
  Forall (λ ev, Verify jcs_Transform ed25519_Verify (render (event_json ev)) pub = Ok (decoded ev)
                ∧ bi_Instance (ev_Broker ev) = i) evs →
  let n := Z.of_nat (length evs) in
  foldl (check_line jcs_Transform ed25519_Verify pub) t (render ∘ event_json <$> evs)
  = mkTally (t_total t + n) (t_valid t + n) (t_invalid t)
      (match evs with
       | [] => t_seqs t
       | _ => <[valid_utf8 i := default [] (t_seqs t !! valid_utf8 i) ++ (seq_of <$> evs)]> (t_seqs t)
       end).
Proof.
  induction evs as [|ev evs IH]; intros t Hv n.
  { cbn. rewrite !Z.add_0_r. by destruct t. }
  apply Forall_cons in Hv as [[Hv Hi] Hvs]. rewrite fmap_cons. cbn [foldl]. unfold check_line at 2, compose at 1.
  rewrite bool_decide_false by (intros E; apply (f_equal chars) in E; unfold event_json in E; by rewrite render_obj in E).
  unfold compose at 1. rewrite Hv. rewrite IH by done. cbn [t_total t_valid t_invalid t_seqs ve_Broker decoded valid_broker bi_Instance bi_Seq].
  rewrite Hi. subst n. cbn [length]. f_equal; [lia..|]. rewrite fmap_cons. destruct evs as [|ev2 evs]; [done|].
  rewrite lookup_insert_eq. cbn [default id]. rewrite insert_insert_eq. by rewrite <-app_assoc.
Qed.

(** C30: acb-verify on what the emitter committed.  Feed it any lines of committed
    events, in any order, some left out or repeated: it exits 0, counts every
    line as valid and none as invalid, reports exactly one gap for each maximal
    run of missing sequence numbers between two observed ones, and exactly one
    duplicate for each repetition of a number.  So it reports neither exactly when
    the numbers are an interval, each present once: the whole stream passes, and
    leaving out an inner event or repeating one shows. *)
Theorem verifier_reports_exactly priv instance calls rs e evs stdin :
  String.length (ed25519_Public priv) = 32%nat → typed_calls calls →
  Emits ed25519_Sign jcs_Transform (NewEmitter (NewSigner ed25519_Public priv) instance) calls = (rs, e) →
  Forall (λ ev, ev ∈ em_log e ∧ fits ev) evs →
  let seqs := seq_of <$> evs in
  main jcs_Transform ed25519_Verify (StdEncodeToString (ed25519_Public priv)) stdin [Some (Join (line_of <$> evs) "")]
  = (0, Some (mkSummary (Z.of_nat (length evs)) (Z.of_nat (length evs)) 0 (gap_count seqs) (dup_count seqs)
                (if bool_decide (evs = []) then 0 else 1)))
  ∧ (gap_count seqs = 0 ∧ dup_count seqs = 0 ↔ ∃ a, seqs ≡ₚ seqZ a (Z.of_nat (length evs))).
Proof.
  intros Hk Hc E Hevs seqs. pose proof (Emits_verify _ _ _ _ _ _ _ _ _ Hc E) as Hlog.
  assert (Hv : Forall (λ ev, Verify jcs_Transform ed25519_Verify (render (event_json ev)) (ed25519_Public priv) = Ok (decoded ev)
                ∧ bi_Instance (ev_Broker ev) = instance) evs).
  { rewrite Forall_forall in *. intros ev Hev. apply Hlog. by apply Hevs. }
  assert (Hr : Forall (λ z, 0 ≤ z < uint64_mod) (seq_of <$> evs)).
  { apply Forall_fmap. rewrite Forall_forall in *. intros ev Hev. apply Hlog. by apply Hevs. }
  unfold main. rewrite bool_decide_false by (apply b64_nonempty; by destruct (ed25519_Public priv)).
  rewrite StdDecode_encode, bool_decide_true by done. cbn [negb mapM id mbind option_bind mret option_ret check_readers].
  rewrite bool_decide_false by done. cbn [check_readers].
  rewrite scan_events by (eapply Forall_impl; [exact Hevs|]; by intros ev [_ ?]).
  rewrite (check_lines _ instance) by done. cbn [t_total t_valid t_invalid t_seqs]. rewrite lookup_empty. cbn [default app].
  unfold summarise. cbn [t_total t_valid t_invalid t_seqs]. destruct evs as [|ev evs].
  { split; [done|]. split; [intros _; by exists 0|done]. }
  rewrite insert_empty, analyse_single, bool_decide_false, map_size_singleton by done.
  pose proof (analyse_clean _ Hr) as Hc0. rewrite length_fmap in Hc0. fold seqs in Hr, Hc0 |- *. rewrite <-Hc0, analyse_reports by done.
  split; [done|]. split; [by intros [-> ->]|by intros [= -> ->]].
Qed.

End Streams.

(** Three events, the middle one withheld: one gap. *)
Definition key32 : string := "0123456789abcdef0123456789abcdef".
Definition three_calls : list emit_call :=
  [(0, Written, demo_event "a"); (1, Written, demo_event "b"); (2, Written, demo_event "c")].
Definition three_run : list (res EmitErr ()) * Emitter :=
  Emits toy_sign sorted_form (NewEmitter (NewSigner (λ k, k) key32) "broker-0") three_calls.
Definition outer_events : list Event :=
  match em_log three_run.2 with [a; b; c] => [c; a] | _ => [] end.

Lemma verifier_reports_exactly_witness :
  main sorted_form toy_verify (StdEncodeToString key32) "" [Some (Join (line_of <$> outer_events) "")]
  = (0, Some (mkSummary 2 2 0 1 0 1)).
Proof.
  destruct (verifier_reports_exactly (λ k, k) toy_sign toy_verify sorted_form key32 "broker-0" three_calls
              three_run.1 three_run.2 outer_events "") as [Hm _].
  - reflexivity.
  - repeat constructor; intros k v; cbn [demo_event newEvent ev_Attested snd];
      intros [_ <-]%lookup_singleton_Some; exact I.
  - unfold three_run. destruct (Emits _ _ _ _) as [rs e]. reflexivity.
  - assert (Hl : length (em_log three_run.2) = 3%nat) by (vm_compute; reflexivity).
    assert (Hf : forallb (λ ev, slen (render (event_json ev)) <? maxToken) (em_log three_run.2) = true) by (vm_compute; reflexivity).
    unfold outer_events. destruct (em_log three_run.2) as [|a [|b [|c [|]]]]; try discriminate Hl.
    cbn [forallb] in Hf. rewrite !andb_true_iff, !Z.ltb_lt in Hf. destruct Hf as (Ha & _ & Hc & _).
    constructor; [split; [set_solver|exact Hc]|]. constructor; [split; [set_solver|exact Ha]|constructor].
  - assert (Hs : (λ ev, bi_Seq (ev_Broker ev)) <$> outer_events = [3; 1]) by (vm_compute; reflexivity).
    rewrite Hs in Hm. revert Hs Hm. generalize outer_events. intros evs Hs Hm. etransitivity; [exact Hm|].
    destruct evs as [|a [|b [|]]]; try discriminate Hs. reflexivity.
Defined.
