(* ===== verification/Metrics.v ===== *)
(** * The metrics registry (internal/server/metrics.go)

    Counters and gauges keyed by metric name and rendered labels.  The one
    parameter is [isPrint], the Unicode table behind [strconv.IsPrint], consulted
    for code points beyond ASCII only. *)

From S2P Require Import Prelude GoStrings GoTime Float64 Encoding Json.
From Stdlib Require Import Ascii QArith.
Local Open Scope Z_scope.
Local Open Scope stdpp_scope.

Record Metrics := mkMetrics {
  mt_counters : gmap string (gmap string float64);
  mt_gauges : gmap string (gmap string float64)
}.

(** [NewMetrics()]; the help texts are constants of the exposition. *)
Definition NewMetrics : Metrics := mkMetrics ∅ ∅.

(** The code point of a valid multi-byte encoding of width [w]. *)
Definition rune_val (w : nat) (l : list ascii) : Z :=
  match w, l with
  | 2%nat, a :: b :: _ => (byte_val a - 192) * 64 + (byte_val b - 128)
  | 3%nat, a :: b :: c :: _ => ((byte_val a - 224) * 64 + (byte_val b - 128)) * 64 + (byte_val c - 128)
  | 4%nat, a :: b :: c :: d :: _ =>
    (((byte_val a - 240) * 64 + (byte_val b - 128)) * 64 + (byte_val c - 128)) * 64 + (byte_val d - 128)
  | _, _ => 0
  end.

(** The [n] last hexadecimal digits of a number. *)
Fixpoint hex_digits (n : nat) (z : Z) : list ascii :=
  match n with
  | O => []
  | S k => hex_digit ((z `div` 16 ^ Z.of_nat k) `mod` 16) :: hex_digits k z
  end.

(** [strconv.Quote] on an ASCII byte. *)
Definition q_ascii (c : ascii) : list ascii :=
  let v := byte_val c in
  if (v =? 34) || (v =? 92) then ["\"%char; c]
  else if (32 <=? v) && (v <? 127) then [c]
  else if v =? 7 then chars "\a"
  else if v =? 8 then chars "\b"
  else if v =? 12 then chars "\f"
  else if v =? 10 then chars "\n"
  else if v =? 13 then chars "\r"
  else if v =? 9 then chars "\t"
  else if v =? 11 then chars "\v"
  else chars "\x" ++ hex_digits 2 v.

Section Labels.
Context (isPrint : Z → bool).

Fixpoint q_go (copy drop : nat) (l : list ascii) : list ascii :=
  match l with
  | [] => []
  | c :: l' =>
    match copy, drop with
    | S k, _ => c :: q_go k 0 l'
    | O, S k => q_go 0 k l'
    | O, O =>
      if in_range 0 127 c then q_ascii c ++ q_go 0 0 l'
      else match rune_width l with
      | O => chars "\x" ++ hex_digits 2 (byte_val c) ++ q_go 0 0 l'
      | S k =>
        let r := rune_val (S k) l in
        if isPrint r then c :: q_go k 0 l'
        else (if r <? 65536 then chars "\u" ++ hex_digits 4 r else chars "\U" ++ hex_digits 8 r) ++ q_go 0 k l'
      end
    end
  end.

(** [fmt.Sprintf("%q", s)] *)
Definition Quote (s : string) : string := of_chars (dquote :: q_go 0 0 (chars s) ++ [dquote]).

(** The [strings.NewReplacer] of [labelString]: one pass over the bytes. *)
Definition replace_byte (c : ascii) : list ascii :=
  let v := byte_val c in
  if v =? 92 then chars "\\" else if v =? 34 then ["\"%char; c] else if v =? 10 then chars "\n" else [c].
Definition replacer (s : string) : string := of_chars (mbind replace_byte (chars s)).

Definition labelString (labels : gmap string string) : string :=
  if bool_decide (labels = ∅) then ""
  else "{" +:+ (Join ((λ kv, kv.1 +:+ "=" +:+ (Quote (replacer kv.2))) <$> sorted_entries labels) ",") +:+ "}".

(** [m.Add(name, labels, v)] and [m.Inc(name, labels)] *)
Definition Add (m : Metrics) (name : string) (labels : gmap string string) (v : float64) : Metrics :=
  let set := default ∅ (mt_counters m !! name) in
  let ls := labelString labels in
  mkMetrics (<[name := <[ls := fadd (default 0%Q (set !! ls)) v]> set]> (mt_counters m)) (mt_gauges m).

Definition Inc (m : Metrics) (name : string) (labels : gmap string string) : Metrics := Add m name labels 1%Q.

(** [m.Set(name, labels, v)] *)
Definition Set_ (m : Metrics) (name : string) (labels : gmap string string) (v : float64) : Metrics :=
  let set := default ∅ (mt_gauges m !! name) in
  mkMetrics (mt_counters m) (<[name := <[labelString labels := v]> set]> (mt_gauges m)).

End Labels.

Example label_example :
  labelString (λ _, true) {["subject" := "agents/builder"; "scope" := "db"]}
  = of_chars (chars "{scope=" ++ [dquote] ++ chars "db" ++ [dquote] ++ chars ",subject="
              ++ [dquote] ++ chars "agents/builder" ++ [dquote] ++ chars "}").
Proof. by vm_compute. Qed.
