(* ===== verification/Exposition.v ===== *)
(** * The metrics page (internal/server/metrics.go, ServeHTTP)

    The registry in Prometheus text format, with Go's shortest rendering of
    floats, and that no label value can break a line of the page. *)

From S2P Require Import Prelude GoStrings GoTime Float64 Encoding Json Metrics.
From Stdlib Require Import Ascii QArith Qround Qpower Qabs.
Local Open Scope Z_scope.
Local Open Scope stdpp_scope.

(** ** [%g] on a float64 *)

(** The digits of a positive number to [n] places: [c] and [k] with [c * 10^(k-n)]
    the number cut off, where [10^(k-1) <= q < 10^k]. *)
Fixpoint scale_up (fuel : nat) (q : Q) (k : Z) : Z :=
  match fuel with
  | O => k
  | S f => if Qle_bool 1 (10 * q)%Q then k else scale_up f (Qred (10 * q)) (k - 1)
  end.
Definition dec_point (q : Q) : Z :=
  if Qle_bool 1 q then slen (itoa_nat (Qfloor q)) else scale_up 400 q 0.

Definition ten (e : Z) : Q := Qpower (10 # 1) e.
Definition cut_digits (q : Q) (k : Z) (n : Z) : Z := Qfloor (q * ten (n - k)).
Definition dec_value (c k n : Z) : Q := Qred (inject_Z c * ten (k - n)).

(** The fewest digits that read back as [q], the closer of the two candidates
    (cut off, or one more in the last place) when both do. *)
Fixpoint shortest (fuel : nat) (q : Q) (k n : Z) : Z * Z :=
  let down := cut_digits q k n in
  let okdown := Qeq_bool (round64 (dec_value down k n)) q in
  let okup := Qeq_bool (round64 (dec_value (down + 1) k n)) q in
  if okdown && okup then (rne (q * ten (n - k)), n)
  else if okdown then (down, n)
  else if okup then (down + 1, n)
  else match fuel with O => (down, n) | S f => shortest f q k (n + 1) end.

Definition trim_zeros (s : string) : string := TrimRight s "0".

(** [strconv]'s digits without trailing zeros, and the place of the point. *)
Definition decimal (q : Q) : string * Z :=
  let k := dec_point q in
  let '(c, n) := shortest 16 q k 1 in
  let s := itoa_nat c in
  (trim_zeros s, k + (slen s - n)).

Definition two_digits (n : Z) : string := if n <? 10 then "0" +:+ (itoa_nat n) else itoa_nat n.

(** [%g]: scientific notation below [1e-04] and from [1e+06] on... *)
Definition fmt_e (ds : string) (dp : Z) : string :=
  let exp := dp - 1 in
  match ds with
  | String d rest =>
    (String d (if bool_decide (rest = "") then "" else "." +:+ rest)) +:+ "e"
      +:+ (if exp <? 0 then "-" else "+") +:+ (two_digits (Z.abs exp))
  | EmptyString => "0e+00"
  end.
(** ... and positional notation between. *)
Definition fmt_f (ds : string) (dp : Z) : string :=
  let nd := slen ds in
  if dp <=? 0 then "0." +:+ (zeros (Z.to_nat (- dp))) +:+ ds
  else if nd <=? dp then ds +:+ (zeros (Z.to_nat (dp - nd)))
  else (String.substring 0 (Z.to_nat dp) ds) +:+ "." +:+ (String.substring (Z.to_nat dp) (Z.to_nat (nd - dp)) ds).

Definition FormatG (x : float64) : string :=
  match Qnum x with
  | Z0 => "0"
  | _ =>
    let '(ds, dp) := decimal (Qabs x) in
    (if Qnum x <? 0 then "-" else "")
      +:+ (if (dp - 1 <? -4) || (6 <=? dp - 1) then fmt_e ds dp else fmt_f ds dp)
  end.

Example FormatG_examples :
  FormatG 0 = "0" ∧ FormatG 1 = "1" ∧ FormatG 42 = "42" ∧ FormatG 100000 = "100000" ∧ FormatG 1000000 = "1e+06"
  ∧ FormatG 1234567 = "1.234567e+06" ∧ FormatG (f_of_int 1893456000) = "1.893456e+09"
  ∧ FormatG (fdiv 1 10) = "0.1" ∧ FormatG (fadd (fdiv 1 10) (fdiv 2 10)) = "0.30000000000000004"
  ∧ FormatG (fdiv 1 3) = "0.3333333333333333" ∧ FormatG (fdiv 5 2) = "2.5" ∧ FormatG (fdiv 1 16384) = "6.103515625e-05"
  ∧ FormatG (f_of_int 9007199254740993) = "9.007199254740992e+15" ∧ FormatG (-(1 # 2)) = "-0.5".
Proof. by vm_compute. Qed.

(** ** The page *)

Definition help : list (string * string) :=
  [("acb_leases_issued_total", "Leases issued, by subject and scope.");
   ("acb_leases_denied_total", "Lease denials, by subject, scope and reason.");
   ("acb_claims_recorded_total", "Agent-asserted claims recorded, by subject.");
   ("acb_auth_failures_total", "Authentication failures (aggregate).");
   ("acb_rate_limited_total", "Requests rejected by rate limiting, by subject.");
   ("acb_audit_events_total", "Audit events emitted, by type.");
   ("acb_audit_write_errors_total", "Audit events that failed to write (requests failed closed).");
   ("acb_provider_errors_total", "Secret provider failures, by provider.");
   ("acb_provider_duration_seconds_sum", "Cumulative provider fetch latency.");
   ("acb_provider_duration_seconds_count", "Provider fetch count.");
   ("acb_connect_token_expiry_timestamp_seconds", "Unix expiry of the 1Password Connect token (the broker's one long-lived credential); 0/absent if unparseable.")].
Definition help_of (n : string) : string := default "" ((list_to_map help : gmap string string) !! n).

(** The lines of one metric, and of one of the two stores. *)
Definition metric_lines (typ : string) (e : string * gmap string float64) : list string :=
  let '(n, series) := e in
  (if bool_decide (help_of n = "") then [] else ["# HELP " +:+ n +:+ " " +:+ (help_of n)])
  ++ ["# TYPE " +:+ n +:+ " " +:+ typ]
  ++ ((λ kv, n +:+ kv.1 +:+ " " +:+ (FormatG kv.2)) <$> sorted_entries series).
Definition store_lines (store : gmap string (gmap string float64)) (typ : string) : list string :=
  sorted_entries store ≫= metric_lines typ.

Definition page_lines (m : Metrics) : list string :=
  store_lines (mt_counters m) "counter" ++ store_lines (mt_gauges m) "gauge".
(** [m.ServeHTTP]: the body of the answer. *)
Definition ServeHTTP (m : Metrics) : string := Join ((λ l, l +:+ String newline "") <$> page_lines m) "".

(** ** Every line of the page is one line *)

(** *** Rendered floats and labels are printable *)

Lemma chars_of_chars l : chars (of_chars l) = l.
Proof. apply String.list_ascii_of_string_of_list_ascii. Qed.

Lemma printable_append s t : printable (chars s) → printable (chars t) → printable (chars (s +:+ t)).
Proof. intros Hs Ht. rewrite chars_append. by apply printable_app. Qed.

Lemma printable_sub (l l' : list ascii) : l' ⊆ l → printable l → printable l'.
Proof. unfold printable. rewrite !Forall_forall. auto. Qed.

Lemma digit_printable n : 32 ≤ byte_val (digit (n `mod` 10)).
Proof. pose proof (Z.mod_pos_bound n 10 ltac:(lia)). rewrite digit_val; lia. Qed.

Lemma dec_go_printable fuel : ∀ n acc, printable (chars acc) → printable (chars (dec_go fuel n acc)).
Proof.
  induction fuel as [|k IH]; intros n acc Ha; [done|]. cbn [dec_go].
  assert (Hc : printable (chars (String (digit (n `mod` 10)) acc))) by (apply printable_cons; split; [apply digit_printable|done]).
  case_match; [exact Hc|by apply IH].
Qed.

Lemma itoa_nat_printable n : printable (chars (itoa_nat n)).
Proof. apply dec_go_printable. constructor. Qed.

Lemma zeros_printable n : printable (chars (zeros n)).
Proof. induction n as [|n IH]; [constructor|]. apply printable_cons. split; [by vm_compute|exact IH]. Qed.

Lemma substring_printable s : ∀ n m, printable (chars s) → printable (chars (String.substring n m s)).
Proof.
  induction s as [|c s IH]; intros n m Hs; [by destruct n, m; constructor|].
  apply printable_cons in Hs as [Hc Hs]. destruct n as [|n], m as [|m]; cbn [String.substring].
  - constructor.
  - apply printable_cons. split; [done|by apply IH].
  - by apply IH.
  - by apply IH.
Qed.

Lemma dropWhile_sub {A} (f : A → bool) (l : list A) : dropWhile f l ⊆ l.
Proof. induction l as [|x l IH]; [done|]. cbn. case_match; [|done]. set_solver. Qed.

Lemma trim_zeros_printable s : printable (chars s) → printable (chars (trim_zeros s)).
Proof.
  intros Hs. unfold trim_zeros, TrimRight. rewrite chars_of_chars.
  eapply printable_sub; [|exact Hs]. intros c Hc. rewrite elem_of_reverse in Hc. apply dropWhile_sub in Hc.
  by rewrite elem_of_reverse in Hc.
Qed.

Lemma two_digits_printable n : printable (chars (two_digits n)).
Proof. unfold two_digits. case_match; [apply printable_append; [by apply printable_dec|]|]; apply itoa_nat_printable. Qed.

Lemma fmt_e_printable ds dp : printable (chars ds) → printable (chars (fmt_e ds dp)).
Proof.
  intros Hs. unfold fmt_e. destruct ds as [|d rest]; [by apply printable_dec|]. apply printable_cons in Hs as [Hd Hr].
  apply printable_append; [|apply printable_append; [by apply printable_dec|apply printable_append]].
  - apply printable_cons. split; [done|]. case_match; [constructor|]. apply printable_append; [by apply printable_dec|done].
  - case_match; by apply printable_dec.
  - apply two_digits_printable.
Qed.

Lemma fmt_f_printable ds dp : printable (chars ds) → printable (chars (fmt_f ds dp)).
Proof.
  intros Hs. unfold fmt_f. repeat case_match; repeat apply printable_append;
    auto using zeros_printable, substring_printable; by apply printable_dec.
Qed.

Lemma FormatG_printable x : printable (chars (FormatG x)).
Proof.
  unfold FormatG. destruct (decimal (Qabs x)) as [ds dp] eqn:E.
  assert (Hs : printable (chars ds)).
  { unfold decimal in E. destruct (shortest _ _ _ _) as [c n]. injection E as <- _. apply trim_zeros_printable, itoa_nat_printable. }
  destruct (Qnum x); [by apply printable_dec|..]; (apply printable_append; [case_match; by apply printable_dec|]);
    case_match; auto using fmt_e_printable, fmt_f_printable.
Qed.

Lemma hex_digits_printable n z : printable (hex_digits n z).
Proof.
  induction n as [|n IH]; [constructor|]. apply printable_cons. split; [|exact IH].
  apply hex_digit_printable, Z.mod_pos_bound. lia.
Qed.

Lemma q_ascii_printable c : printable (q_ascii c).
Proof.
  unfold q_ascii. cbv zeta. destruct (_ || _) eqn:E1.
  { rewrite orb_true_iff, !Z.eqb_eq in E1. rewrite !printable_cons. split_and!; [by vm_compute|lia|constructor]. }
  destruct (_ && _) eqn:E2.
  { rewrite andb_true_iff, Z.leb_le in E2. apply printable_cons. split; [lia|constructor]. }
  repeat (case_match; [by apply printable_dec|]). apply printable_app. split; [by apply printable_dec|apply hex_digits_printable].
Qed.

Lemma q_go_printable isPrint l : ∀ copy drop, printable (take copy l) → printable (q_go isPrint copy drop l).
Proof.
  induction l as [|c l IH]; intros copy drop Hcopy; [constructor|]. cbn [q_go]. destruct copy as [|k].
  - destruct drop as [|k]; [|by apply IH]. case_match eqn:Ec.
    { apply printable_app. split; [apply q_ascii_printable|by apply IH]. }
    destruct (rune_width (c :: l)) as [|k] eqn:Ew.
    { repeat (apply printable_app; split); [by apply printable_dec|apply hex_digits_printable|by apply IH]. }
    cbv zeta. destruct (isPrint _).
    + apply printable_cons. split; [|apply IH; by eapply rune_width_cont].
      unfold in_range in Ec. pose proof (byte_val_range c). rewrite andb_false_iff, !Z.leb_gt in Ec. lia.
    + apply printable_app. split; [|by apply IH].
      case_match; apply printable_app; (split; [by apply printable_dec|apply hex_digits_printable]).
  - cbn [take] in Hcopy. apply printable_cons in Hcopy as [Hc Hk]. apply printable_cons. split; [done|by apply IH].
Qed.

Lemma Quote_printable isPrint s : printable (chars (Quote isPrint s)).
Proof.
  unfold Quote. rewrite chars_of_chars. apply printable_cons. split; [by vm_compute|].
  apply printable_app. split; [apply q_go_printable; constructor|]. apply printable_cons. split; [by vm_compute|constructor].
Qed.

(** Label values are arbitrary: only the label names have to be printable. *)
Lemma labelString_printable isPrint labels :
  map_Forall (λ k _, printable (chars k)) labels → printable (chars (labelString isPrint labels)).
Proof.
  intros Hk. unfold labelString. case_bool_decide; [constructor|].
  repeat apply printable_append; [by apply printable_dec| |by apply printable_dec].
  apply Join_printable; [by apply printable_dec|]. apply Forall_fmap, Forall_forall. intros [k v] Hin%sorted_entries_elem.
  cbn. repeat apply printable_append; [by apply (Hk k v)|by apply printable_dec|apply Quote_printable].
Qed.

(** *** The registry *)

Inductive metric_op :=
| OpAdd (name : string) (labels : gmap string string) (v : float64)
| OpSet (name : string) (labels : gmap string string) (v : float64).

Section Registry.
Context (isPrint : Z → bool).

Definition apply_op (m : Metrics) (op : metric_op) : Metrics :=
  match op with
  | OpAdd name labels v => Add isPrint m name labels v
  | OpSet name labels v => Set_ isPrint m name labels v
  end.

(** Metric and label names are constants of the sources. *)
Definition op_names (op : metric_op) : Prop :=
  match op with
  | OpAdd name labels _ | OpSet name labels _ =>
    printable (chars name) ∧ map_Forall (λ k _, printable (chars k)) labels
  end.

Definition printable_store (store : gmap string (gmap string float64)) : Prop :=
  map_Forall (λ n series, printable (chars n) ∧ map_Forall (λ ls _, printable (chars ls)) series) store.
Definition printable_registry (m : Metrics) : Prop := printable_store (mt_counters m) ∧ printable_store (mt_gauges m).

Lemma printable_store_insert store n ls v :
  printable_store store → printable (chars n) → printable (chars ls) →
  printable_store (<[n := <[ls := v]> (default ∅ (store !! n))]> store).
Proof.
  intros Hs Hn Hl. apply map_Forall_insert_2; [|done]. split; [done|]. apply map_Forall_insert_2; [done|].
  destruct (store !! n) as [series|] eqn:E; [|apply map_Forall_empty]. by apply (Hs n).
Qed.

Lemma apply_op_printable m op : op_names op → printable_registry m → printable_registry (apply_op m op).
Proof.
  intros Hop [Hc Hg]. destruct op as [n labels v|n labels v], Hop as [Hn Hl]; (split; [|]); try done; cbn;
    apply printable_store_insert; auto using labelString_printable.
Qed.

Lemma help_printable n : printable (chars (help_of n)).
Proof.
  unfold help_of. destruct (_ !! n) as [h|] eqn:E; [|constructor]. cbn.
  assert (Hin : map_Forall (λ _ h, forallb (λ c, 32 <=? byte_val c) (chars h) = true) (list_to_map help : gmap string string))
    by (apply (bool_decide_unpack _); vm_compute; exact I).
  by apply printable_dec, (Hin n).
Qed.

Lemma store_lines_printable store typ :
  printable_store store → printable (chars typ) → Forall (λ l, printable (chars l)) (store_lines store typ).
Proof.
  intros Hs Ht. apply Forall_bind, Forall_forall. intros [n series] Hin%sorted_entries_elem. destruct (Hs n series Hin) as [Hn Hser].
  unfold compose. cbn [metric_lines]. rewrite !Forall_app. split_and!.
  - case_bool_decide; [constructor|]. constructor; [|constructor].
    repeat apply printable_append; [by apply printable_dec|done|by apply printable_dec|apply help_printable].
  - constructor; [|constructor]. repeat apply printable_append; try done; by apply printable_dec.
  - apply Forall_fmap, Forall_forall. intros [ls v] Hls%sorted_entries_elem. cbn.
    repeat apply printable_append; [done|by apply (Hser ls v)|by apply printable_dec|apply FormatG_printable].
Qed.

Lemma printable_single_line s : printable (chars s) → ¬ has_byte newline s.
Proof.
  intros Hs Hb. unfold printable in Hs. rewrite Forall_forall in Hs. specialize (Hs _ Hb). by vm_compute in Hs.
Qed.

Lemma ops_printable ops : ∀ m, Forall op_names ops → printable_registry m → printable_registry (foldl apply_op m ops).
Proof.
  induction ops as [|op ops IH]; intros m Hops Hm; [done|]. apply Forall_cons in Hops as [Hop Hops].
  cbn. apply IH; [done|]. by apply apply_op_printable.
Qed.

Lemma store_line store typ n series ls v :
  store !! n = Some series → series !! ls = Some v → n +:+ ls +:+ " " +:+ (FormatG v) ∈ store_lines store typ.
Proof.
  intros Hn Hs. apply list_elem_of_bind. exists (n, series). split; [|by apply sorted_entries_elem]. cbn [metric_lines].
  rewrite !elem_of_app. right; right. apply list_elem_of_fmap. exists (ls, v). split; [done|by apply sorted_entries_elem].
Qed.

(** C27: The metrics page cannot be forged.  Whatever values the broker puts into
    labels (subject keys, scope names, reasons, with any bytes), the page reads
    back line by line as the registry: a HELP and a TYPE line per metric and one
    line per series, in order; and every counter and gauge with its current value
    has its line. *)
Theorem exposition_lines ops m :
  Forall op_names ops → foldl apply_op NewMetrics ops = m →
  Split (ServeHTTP m) newline = page_lines m ++ [""]
  ∧ (∀ n series ls v, mt_counters m !! n = Some series ∨ mt_gauges m !! n = Some series → series !! ls = Some v →
       n +:+ ls +:+ " " +:+ (FormatG v) ∈ page_lines m).
Proof.
  intros Hops <-. destruct (ops_printable ops NewMetrics Hops) as [Hc Hg]; [by split; apply map_Forall_empty|]. split.
  - apply Split_lines. apply Forall_app. split; eapply Forall_impl; try apply store_lines_printable; try done;
      try (by apply printable_dec); intros l; apply printable_single_line.
  - intros n series ls v [Hn|Hn] Hs; apply elem_of_app; [left|right]; by eapply store_line.
Qed.

End Registry.

(** A registry whose label value tries to add a line of its own. *)
Definition forged : string := of_chars (chars "x" ++ [newline] ++ chars "acb_leases_issued_total 99").
Definition sample_ops : list metric_op :=
  [OpAdd "acb_leases_issued_total" {["subject" := forged]} 1%Q; OpSet "acb_up" ∅ 1%Q].

Lemma exposition_lines_witness :
  length (Split (ServeHTTP (foldl (apply_op (λ _, true)) NewMetrics sample_ops)) newline) = 6%nat.
Proof.
  destruct (exposition_lines (λ _, true) sample_ops (foldl (apply_op (λ _, true)) NewMetrics sample_ops)) as [H _].
  - apply Forall_cons. split; [split; [by apply printable_dec|apply map_Forall_singleton; by apply printable_dec]|].
    apply Forall_cons. split; [split; [by apply printable_dec|apply map_Forall_empty]|constructor].
  - reflexivity.
  - rewrite H. vm_compute. reflexivity.
Defined.
