(* ===== verification/Durations.v ===== *)
(** * Durations of the policy file (internal/policy/policy.go, Duration.UnmarshalYAML)

    [time.ParseDuration], which turns the texts of the policy's TTLs and windows
    into 64-bit nanoseconds, with its overflow checks and its floating-point
    fractions. *)

From S2P Require Import Prelude GoStrings GoTime Float64 Encoding Json JsonRound.
From Stdlib Require Import Ascii QArith.
Local Open Scope Z_scope.
Local Open Scope stdpp_scope.

(** ** [time.ParseDuration] *)

(** The digits at the front of the text; [None] is the overflow error. *)
Fixpoint leadingInt (x : Z) (s : list ascii) : option (Z * list ascii) :=
  match s with
  | c :: s' =>
    if is_digit c then
      if 2 ^ 63 `div` 10 <? x then None
      else let x' := x * 10 + (byte_val c - 48) in if 2 ^ 63 <? x' then None else leadingInt x' s'
    else Some (x, s)
  | [] => Some (x, [])
  end.

(** The digits after the point, and the power of ten they are counted in; digits
    that do not fit are dropped. *)
Fixpoint leadingFraction (x : Z) (scale : float64) (overflow : bool) (s : list ascii) : Z * float64 * list ascii :=
  match s with
  | c :: s' =>
    if is_digit c then
      if overflow then leadingFraction x scale true s'
      else if (2 ^ 63 - 1) `div` 10 <? x then leadingFraction x scale true s'
      else let y := x * 10 + (byte_val c - 48) in
        if 2 ^ 63 <? y then leadingFraction x scale true s' else leadingFraction y (fmul scale 10) false s'
    else (x, scale, s)
  | [] => (x, scale, [])
  end.

Definition point : ascii := ".".
Definition number_byte (c : ascii) : bool := bool_decide (c = point) || is_digit c.

(** The two micro signs are U+00B5 and U+03BC. *)
Definition unitMap : gmap string Z :=
  {["ns" := 1; "us" := 10 ^ 3; of_chars [byte_of 194; byte_of 181; "s"%char] := 10 ^ 3;
    of_chars [byte_of 206; byte_of 188; "s"%char] := 10 ^ 3; "ms" := 10 ^ 6; "s" := Second; "m" := Minute; "h" := Hour]}.

(** A number and its unit: its nanoseconds (at most [2^63]) and the text after it. *)
Definition duration_part (s : list ascii) : option (Z * list ascii) :=
  match s with
  | [] => None
  | c :: _ =>
    if negb (number_byte c) then None
    else
      '(v, s1) ← leadingInt 0 s;
      let pre := negb (length s1 =? length s)%nat in
      let '(f, scale, s2, post) :=
        match s1 with
        | c1 :: s1' =>
          if bool_decide (c1 = point) then
            let '(f, scale, s2) := leadingFraction 0 1%Q false s1' in (f, scale, s2, negb (length s2 =? length s1')%nat)
          else (0, 1%Q, s1, false)
        | [] => (0, 1%Q, s1, false)
        end in
      if negb pre && negb post then None
      else
        let '(u, s3) := span (λ c, negb (number_byte c)) s2 in
        match u with
        | [] => None
        | _ =>
          unit ← unitMap !! of_chars u;
          if 2 ^ 63 `div` unit <? v then None
          else if 0 <? f then
            let v := v * unit + f_trunc (fmul (f_of_int f) (fdiv (f_of_int unit) scale)) in
            if 2 ^ 63 <? v then None else Some (v, s3)
          else Some (v * unit, s3)
        end
  end.

(** The sum of the parts, in the 64 bits of [d]; every part has at least one byte. *)
Fixpoint duration_sum (fuel : nat) (d : Z) (s : list ascii) : option Z :=
  match s with
  | [] => Some d
  | _ =>
    match fuel with
    | O => None
    | S k =>
      '(v, s') ← duration_part s;
      let d := wrapu64 (d + v) in
      if 2 ^ 63 <? d then None else duration_sum k d s'
    end
  end.

Definition ParseDuration (s : string) : option Duration :=
  let '(neg, s) :=
    match chars s with
    | c :: s' => if bool_decide (c = "-"%char) then (true, s') else if bool_decide (c = "+"%char) then (false, s') else (false, c :: s')
    | [] => (false, [])
    end in
  if bool_decide (s = chars "0") then Some 0
  else match s with
  | [] => None
  | _ =>
    d ← duration_sum (length s) 0 s;
    if (neg : bool) then Some (wrap64 (- wrap64 d)) else if 2 ^ 63 - 1 <? d then None else Some d
  end.

Example ParseDuration_examples :
  ParseDuration "10m" = Some (10 * Minute) ∧ ParseDuration "1h30m" = Some (90 * Minute) ∧ ParseDuration "1.5h" = Some (90 * Minute)
  ∧ ParseDuration "-.5s" = Some (- (Second `div` 2)) ∧ ParseDuration "0" = Some 0 ∧ ParseDuration "30" = None
  ∧ ParseDuration "" = None ∧ ParseDuration "1d" = None ∧ ParseDuration "." = None ∧ ParseDuration ".s" = None
  ∧ ParseDuration "9223372036854775807ns" = Some int64_max ∧ ParseDuration "9223372036854775808ns" = None
  ∧ ParseDuration "-9223372036854775808ns" = Some int64_min ∧ ParseDuration "3000000h" = None
  ∧ ParseDuration "0.3333333333333333333h" = Some 1200000000000 ∧ ParseDuration "1h " = None.
Proof. by vm_compute. Qed.

(** ** What is accepted fits 64 bits *)

Lemma duration_sum_range fuel : ∀ d s r, 0 ≤ d ≤ 2 ^ 63 → duration_sum fuel d s = Some r → 0 ≤ r ≤ 2 ^ 63.
Proof.
  induction fuel as [|fuel IH]; intros d s r Hd; (destruct s as [|c s]; cbn [duration_sum]; [by intros [= <-]|]); [done|].
  intros ([v s'] & _ & H)%bind_Some. revert H. cbv zeta beta iota. destruct (Z.ltb_spec (2 ^ 63) (wrapu64 (d + v))); [done|].
  apply IH. pose proof (wrapu64_range (d + v)). lia.
Qed.

Lemma ParseDuration_range s d : ParseDuration s = Some d → in_int64 d.
Proof.
  unfold ParseDuration. destruct (match chars s with [] => _ | _ => _ end) as [neg l].
  case_bool_decide; [intros [= <-]; vm_compute; split; discriminate|]. destruct l as [|c l]; [done|].
  intros (r & Hr%duration_sum_range & Hd)%bind_Some; [|lia]. destruct neg; [injection Hd as <-; apply wrap64_range|].
  destruct (Z.ltb_spec (2 ^ 63 - 1) r); [done|]. injection Hd as <-. unfold in_int64, int64_min, int64_max. lia.
Qed.

(** ** Whole numbers of units are read exactly *)

(** The fuel is enough: every part takes at least one byte. *)
Lemma span_split f l : ∀ a b, span f l = (a, b) → l = a ++ b.
Proof.
  induction l as [|c l IH]; cbn [span]; [by intros a b [= <- <-]|]. destruct (f c); [|by intros a b [= <- <-]].
  destruct (span f l) as [a' b'] eqn:E. intros a b [= <- <-]. cbn. f_equal. by apply IH.
Qed.

Lemma span_prefix f a l : Forall (λ c, f c = true) a → match l with [] => True | c :: _ => f c = false end → span f (a ++ l) = (a, l).
Proof.
  intros Ha Hl. induction Ha as [|c a Hc _ IH]; cbn [app span].
  - destruct l as [|c l]; [done|]. cbn [span]. by rewrite Hl.
  - by rewrite Hc, IH.
Qed.

Lemma leadingInt_digits (s : string) (l : list ascii) : ∀ x,
  all_digits s → match l with [] => True | c :: _ => is_digit c = false end → 0 ≤ x → atoi_go x s ≤ 2 ^ 63 - 1 →
  leadingInt x (chars s ++ l) = Some (atoi_go x s, l).
Proof.
  induction s as [|c s IH]; intros x Hs Hl Hx Hv; cbn [atoi_go] in *.
  - change (chars "" ++ l) with l. destruct l as [|c l]; cbn [leadingInt]; [done|]. by rewrite Hl.
  - apply Forall_cons in Hs as [Hc Hs]. change (chars (String c s) ++ l) with (c :: (chars s ++ l)). cbn [leadingInt]. rewrite Hc.
    assert (Hd : 0 ≤ byte_val c - 48 ≤ 9) by (unfold is_digit in Hc; lia).
    assert (Hm : ∀ t y, all_digits t → 0 ≤ y → y ≤ atoi_go y t).
    { clear. induction t as [|c t IH]; intros y Ht Hy; cbn [atoi_go]; [lia|]. apply Forall_cons in Ht as [Hc Ht].
      unfold is_digit in Hc. etrans; [|apply IH; [done|lia]]. lia. }
    pose proof (Hm s _ Hs (ltac:(lia) : 0 ≤ x * 10 + (byte_val c - 48))) as Hle.
    pose proof (Z.mul_div_le (2 ^ 63) 10 ltac:(lia)). cbv zeta.
    assert (Hx' : x ≤ 2 ^ 63 `div` 10) by (apply Z.div_le_lower_bound; lia).
    destruct (Z.ltb_spec (2 ^ 63 `div` 10) x); [lia|]. destruct (Z.ltb_spec (2 ^ 63) (x * 10 + (byte_val c - 48))); [lia|].
    apply IH; [done..|lia|done].
Qed.

Inductive time_unit := Nanoseconds | Microseconds | Milliseconds | Seconds_ | Minutes | Hours.
Definition unit_name (u : time_unit) : string :=
  match u with Nanoseconds => "ns" | Microseconds => "us" | Milliseconds => "ms" | Seconds_ => "s" | Minutes => "m" | Hours => "h" end.
Definition unit_ns (u : time_unit) : Z :=
  match u with
  | Nanoseconds => 1 | Microseconds => 10 ^ 3 | Milliseconds => 10 ^ 6 | Seconds_ => Second | Minutes => Minute | Hours => Hour
  end.

Lemma unitMap_name u : unitMap !! unit_name u = Some (unit_ns u).
Proof. by destruct u; vm_compute. Qed.
Lemma unit_name_plain u : Forall (λ c, negb (number_byte c) = true) (chars (unit_name u)) ∧ chars (unit_name u) ≠ [].
Proof. destruct u; vm_compute; (split; [repeat constructor|discriminate]). Qed.
Lemma unit_name_head u r : match chars (unit_name u) ++ r with [] => True | c :: _ => is_digit c = false ∧ c ≠ point end.
Proof. by destruct u. Qed.
Lemma unit_ns_pos u : 0 < unit_ns u.
Proof. by destruct u. Qed.

(** A text such as [1h30m], and the nanoseconds it stands for. *)
Definition units_text (parts : list (Z * time_unit)) : list ascii :=
  parts ≫= λ p, chars (itoa_nat p.1) ++ chars (unit_name p.2).
Definition units_ns (parts : list (Z * time_unit)) : Z := foldr (λ p acc, p.1 * unit_ns p.2 + acc) 0 parts.

Lemma units_ns_nonneg parts : Forall (λ p, 0 ≤ p.1) parts → 0 ≤ units_ns parts.
Proof. induction 1 as [|[n u] ps Hn _ IH]; [done|]. apply Z.add_nonneg_nonneg; [|exact IH]. apply Z.mul_nonneg_nonneg; [done|].
  apply Z.lt_le_incl, unit_ns_pos. Qed.

Lemma duration_part_exact n u l :
  0 ≤ n → n * unit_ns u ≤ 2 ^ 63 - 1 → match l with [] => True | c :: _ => is_digit c = true end →
  duration_part (chars (itoa_nat n) ++ chars (unit_name u) ++ l) = Some (n * unit_ns u, l).
Proof.
  intros Hn Hv Hl. destruct (itoa_nat_first n Hn) as (c & s & Es & Hc). set (r := chars (unit_name u) ++ l).
  pose proof (unit_ns_pos u) as Hu. unfold duration_part. rewrite Es. cbn [app].
  assert (Hd : is_digit c = true) by (unfold is_digit; lia). unfold number_byte at 1. rewrite Hd, orb_true_r. cbn [negb].
  change (c :: (s ++ r)) with ((c :: s) ++ r). rewrite <-Es.
  assert (Hr : match r with [] => True | d :: _ => is_digit d = false ∧ d ≠ point end) by apply unit_name_head.
  rewrite leadingInt_digits; [|by apply itoa_nat_digits|destruct r; [done|apply Hr]|done|].
  2:{ change (atoi_go 0 (itoa_nat n)) with (atoi (itoa_nat n)). rewrite itoa_nat_value by done. nia. }
  change (atoi_go 0 (itoa_nat n)) with (atoi (itoa_nat n)). rewrite itoa_nat_value by done. cbn [mbind option_bind].
  rewrite length_app, Es. cbn [length].
  replace (length r =? S (length s) + length r)%nat with false by (symmetry; apply Nat.eqb_neq; lia). cbn [negb andb].
  assert (E : (match r with
    | c1 :: s1' => if bool_decide (c1 = point) then
        let '(f, scale, s2) := leadingFraction 0 1%Q false s1' in (f, scale, s2, negb (length s2 =? length s1')%nat)
      else (0, 1%Q, r, false)
    | [] => (0, 1%Q, r, false)
    end) = (0, 1%Q, r, false)).
  { destruct r as [|d r']; [done|]. by rewrite bool_decide_false by apply Hr. }
  rewrite E. cbv beta iota zeta. destruct (unit_name_plain u) as [Hp Hne]. unfold r.
  rewrite span_prefix; [|exact Hp|destruct l as [|d l]; [done|by unfold number_byte; rewrite Hl, orb_true_r]].
  destruct (chars (unit_name u)) as [|d ds] eqn:Ed; [done|]. rewrite <-Ed. rewrite of_chars_chars.
  rewrite unitMap_name. cbn [mbind option_bind].
  assert (Hdiv : n ≤ 2 ^ 63 `div` unit_ns u) by (apply Z.div_le_lower_bound; lia).
  destruct (Z.ltb_spec (2 ^ 63 `div` unit_ns u) n); [lia|done].
Qed.

Lemma units_text_head parts : match units_text parts with [] => True | c :: _ => Forall (λ p, 0 ≤ p.1) parts → is_digit c = true end.
Proof.
  destruct parts as [|[n u] ps]; [done|]. unfold units_text. cbn [mbind list_bind fst snd].
  destruct (chars (itoa_nat n)) as [|c s] eqn:Ec; cbn [app].
  - case_match; [done|]. intros [Hn _]%Forall_cons. destruct (itoa_nat_first n Hn) as (? & ? & E & _). by rewrite Ec in E.
  - intros [Hn _]%Forall_cons. destruct (itoa_nat_first n Hn) as (? & ? & E & Hc). rewrite Ec in E. injection E as -> ->.
    unfold is_digit. lia.
Qed.

Lemma duration_sum_exact parts : ∀ fuel d,
  (length parts ≤ fuel)%nat → Forall (λ p, 0 ≤ p.1) parts → 0 ≤ d → d + units_ns parts ≤ 2 ^ 63 - 1 →
  duration_sum fuel d (units_text parts) = Some (d + units_ns parts).
Proof.
  induction parts as [|[n u] ps IH]; intros fuel d Hf Hp Hd Hs.
  - cbn. destruct fuel; by rewrite Z.add_0_r.
  - destruct fuel as [|fuel]; [cbn in Hf; lia|]. apply Forall_cons in Hp as [Hn Hp]. cbn [fst] in Hn.
    pose proof (units_ns_nonneg ps Hp) as Hps. pose proof (unit_ns_pos u) as Hu.
    change (units_ns ((n, u) :: ps)) with (n * unit_ns u + units_ns ps) in *.
    change (units_text ((n, u) :: ps)) with ((chars (itoa_nat n) ++ chars (unit_name u)) ++ units_text ps).
    rewrite <-app_assoc. destruct (itoa_nat_first n Hn) as (c & s & Es & _).
    destruct (chars (itoa_nat n) ++ chars (unit_name u) ++ units_text ps) as [|c' s'] eqn:E; [by rewrite Es in E|].
    cbn [duration_sum]. rewrite <-E, duration_part_exact; [|done|nia|].
    2:{ pose proof (units_text_head ps) as Hh. destruct (units_text ps); [done|by apply Hh]. }
    cbn [mbind option_bind]. assert (Hnu : 0 ≤ n * unit_ns u) by nia. rewrite wrapu64_id by (unfold uint64_mod; lia).
    destruct (Z.ltb_spec (2 ^ 63) (d + n * unit_ns u)); [lia|]. rewrite IH; [f_equal; lia|cbn in Hf; lia|done|lia|lia].
Qed.

Lemma units_text_length parts : Forall (λ p, 0 ≤ p.1) parts → (2 * length parts ≤ length (units_text parts))%nat.
Proof.
  induction 1 as [|[n u] ps Hn _ IH]; [done|].
  change (units_text ((n, u) :: ps)) with ((chars (itoa_nat n) ++ chars (unit_name u)) ++ units_text ps).
  destruct (itoa_nat_first n Hn) as (c & s & -> & _), (unit_name_plain u) as [_ Hne].
  rewrite !length_app. destruct (chars (unit_name u)); [done|]. cbn [length]. lia.
Qed.

Lemma ParseDuration_exact parts :
  parts ≠ [] → Forall (λ p, 0 ≤ p.1) parts → units_ns parts ≤ int64_max →
  ParseDuration (of_chars (units_text parts)) = Some (units_ns parts).
Proof.
  intros Hne Hp Hs. pose proof (units_text_length parts Hp) as Hlen. pose proof (units_text_head parts) as Hh.
  assert (Hl : (1 ≤ length parts)%nat) by (destruct parts; [done|cbn; lia]).
  unfold ParseDuration. rewrite String.list_ascii_of_string_of_list_ascii.
  destruct (units_text parts) as [|c s] eqn:E; [cbn in Hlen; lia|]. specialize (Hh Hp).
  rewrite !bool_decide_false by (intros ->; discriminate Hh). cbv beta iota zeta.
  rewrite bool_decide_false by (intros Hz; rewrite Hz in Hlen; cbn in Hlen; lia).
  rewrite <-E, duration_sum_exact; [|rewrite E; lia|done|lia|unfold int64_max in Hs; lia]. cbn [mbind option_bind].
  unfold int64_max in Hs. destruct (Z.ltb_spec (2 ^ 63 - 1) (0 + units_ns parts)); [lia|done].
Qed.

(** [d.UnmarshalYAML(node)] on the text of the node. *)
Definition UnmarshalYAML (s : string) : option Duration := ParseDuration s.
