(* ===== verification/Policy.v ===== *)
(** * The grant policy (internal/policy/policy.go)

    The policy's data, its validation ([Parse]) and its queries.  Two
    third-party packages are parameters of the section: the YAML decoder
    ([yaml_Unmarshal]; [PolicyDoc] says how it goes through the [Duration]
    decoder of the file) and the cron expression parser ([cronParse], whose
    schedules are their [Next] function). *)

From S2P Require Import Prelude GoStrings GoTime Encoding Regex Sha256.
From Stdlib Require Import Ascii.
Local Open Scope Z_scope.
Local Open Scope stdpp_scope.

(** ** Patterns *)

Definition az09 (c : ascii) : bool := az c || d09 c.
Definition name_tail (c : ascii) : bool := Ascii.eqb "-" c || az09 c.

(** [^vaults/[a-z0-9]{26}/items/[a-z0-9]{26}$] *)
Definition opRefPattern : re :=
  Cat (lit "vaults/") (Cat (rep 26 (Cls az09)) (Cat (lit "/items/") (rep 26 (Cls az09)))).

(** [^installations/[0-9]+$] *)
Definition ghInstallationRefPattern : re := Cat (lit "installations/") (plus (Cls d09)).

(** [[a-z_]+=(read|write|admin)] *)
Definition ghPermission : re :=
  Cat (plus (Cls (λ c, az c || Ascii.eqb "_" c)))
    (Cat (lit "=") (Alt (lit "read") (Alt (lit "write") (lit "admin")))).
(** [^perm(,perm)*$] *)
Definition ghPermissionsPattern : re := Cat ghPermission (Star (Cat (lit ",") ghPermission)).

(** [^[A-Za-z0-9._-]+(,[A-Za-z0-9._-]+)*$] *)
Definition ghRepo : re :=
  plus (Cls (λ c, AZ c || az c || d09 c || Ascii.eqb "." c || Ascii.eqb "_" c || Ascii.eqb "-" c)).
Definition ghRepositoriesPattern : re := Cat ghRepo (Star (Cat (lit ",") ghRepo)).

(** [[a-z0-9]([-a-z0-9]*[a-z0-9])?], on both sides of a slash. *)
Definition dnsLabel : re := Cat (Cls az09) (opt (Cat (Star (Cls name_tail)) (Cls az09))).
Definition subjectKeyPattern : re := Cat dnsLabel (Cat (lit "/") dnsLabel).

Definition KnownProviders (p : string) : bool :=
  bool_decide (p = "onepassword-connect") || bool_decide (p = "github-app").

(** ** Data *)

Record Scope := mkScope {
  sc_Name : string;
  sc_Provider : string;
  sc_Ref : string;
  sc_Fields : gmap string string;
  sc_Params : gmap string string
}.

(** A [cron.Schedule] is used through its [Next] method only. *)
Definition Schedule : Type := Time → Time.

Record IssueWindow := mkIssueWindow {
  iw_Cron : string;
  iw_Duration : Duration;
  iw_sched : option Schedule (* [None] is the nil interface, before validation *)
}.

Record Grant := mkGrant {
  g_Scope : string;
  g_TTLDefault : Duration;
  g_TTLMax : Duration;
  g_Renewable : bool;
  g_IssueWindows : list IssueWindow
}.

Record SubjectPolicy := mkSubjectPolicy {
  sp_ServiceAccount : string;
  sp_Grants : list Grant;
  sp_ClaimBytesPerDay : Z
}.

(** What the YAML decoder fills in. *)
Record RawPolicy := mkRawPolicy { rp_Scopes : list Scope; rp_Subjects : list SubjectPolicy }.

Record Policy := mkPolicy {
  p_Scopes : list Scope;
  p_Subjects : list SubjectPolicy;
  p_Hash : string;
  p_scopeByName : gmap string Scope;
  p_grantBySubj : gmap string (gmap string Grant)
}.

(** One constructor per error return of [Parse], with what the message names. *)
Inductive ParseErr :=
| EYaml
| EScopeName (i : nat)
| EDupScope (name : string)
| EProvider (name provider : string)
| ENoFields (name : string)
| EOpRef (name : string)
| EGhRef (name : string)
| EGhPermissions (name : string)
| EGhRepositories (name : string)
| EGhField (name : string)
| ESubject (i : nat) (sa : string)
| EDupSubject (sa : string)
| EUnknownScope (sa scope : string)
| EDupGrant (sa scope : string)
| ETTLPositive (sa scope : string)
| ETTLOrder (sa scope : string)
| EWindowCron (sa scope : string) (k : nat)
| EWindowDuration (sa scope : string) (k : nat).

(** ** Windows *)

(** [w.Open(t)]; [None] is the nil dereference of an unvalidated window. *)
Definition Open (w : IssueWindow) (t : Time) : option bool :=
  next ← iw_sched w;
  let fire := next (tAdd t (- iw_Duration w)) in
  Some (negb (After fire t)).

Fixpoint any_open (ws : list IssueWindow) (t : Time) : option bool :=
  match ws with
  | [] => Some false
  | w :: ws' => b ← Open w t; if (b : bool) then Some true else any_open ws' t
  end.

(** [g.WindowOpen(t)] *)
Definition WindowOpen (g : Grant) (t : Time) : option bool :=
  match g_IssueWindows g with
  | [] => Some true
  | ws => any_open ws t
  end.

(** ** Validation *)

Section Parse.
Context (yaml_Unmarshal : string → option RawPolicy) (cronParse : string → option Schedule).

Definition param (s : Scope) (k : string) : string := default "" (sc_Params s !! k).

Definition check_github (s : Scope) : res ParseErr () :=
  _ ← check (MatchString ghInstallationRefPattern (sc_Ref s)) (EGhRef (sc_Name s));
  _ ← check (MatchString ghPermissionsPattern (param s "permissions")) (EGhPermissions (sc_Name s));
  let repos := param s "repositories" in
  _ ← check (bool_decide (repos = "") || MatchString ghRepositoriesPattern repos) (EGhRepositories (sc_Name s));
  check (bool_decide (map_Forall (λ _ key, key = "token") (sc_Fields s))) (EGhField (sc_Name s)).

(** One iteration of the scope loop. *)
Definition parse_scope (i : nat) (s : Scope) (byName : gmap string Scope)
  : res ParseErr (gmap string Scope) :=
  _ ← check (negb (bool_decide (sc_Name s = ""))) (EScopeName i);
  _ ← check (bool_decide (byName !! sc_Name s = None)) (EDupScope (sc_Name s));
  _ ← check (KnownProviders (sc_Provider s)) (EProvider (sc_Name s) (sc_Provider s));
  _ ← check (negb (bool_decide (sc_Fields s = ∅))) (ENoFields (sc_Name s));
  _ ← (if bool_decide (sc_Provider s = "onepassword-connect")
       then check (MatchString opRefPattern (sc_Ref s)) (EOpRef (sc_Name s))
       else if bool_decide (sc_Provider s = "github-app") then check_github s
       else Ok ());
  Ok (<[sc_Name s := s]> byName).

Fixpoint parse_scopes (i : nat) (l : list Scope) (byName : gmap string Scope)
  : res ParseErr (gmap string Scope) :=
  match l with
  | [] => Ok byName
  | s :: l' => m ← parse_scope i s byName; parse_scopes (S i) l' m
  end.

Fixpoint parse_windows (sa scope : string) (k : nat) (ws : list IssueWindow)
  : res ParseErr (list IssueWindow) :=
  match ws with
  | [] => Ok []
  | w :: ws' =>
    match cronParse (iw_Cron w) with
    | None => Err (EWindowCron sa scope k)
    | Some sched =>
      _ ← check (0 <? iw_Duration w) (EWindowDuration sa scope k);
      ws1 ← parse_windows sa scope (S k) ws';
      Ok (mkIssueWindow (iw_Cron w) (iw_Duration w) (Some sched) :: ws1)
    end
  end.

(** One iteration of a subject's grant loop. *)
Definition parse_grant (byName : gmap string Scope) (sa : string) (g : Grant)
    (grants : gmap string Grant) : res ParseErr Grant :=
  _ ← check (bool_decide (is_Some (byName !! g_Scope g))) (EUnknownScope sa (g_Scope g));
  _ ← check (bool_decide (grants !! g_Scope g = None)) (EDupGrant sa (g_Scope g));
  _ ← check (negb ((g_TTLDefault g <=? 0) || (g_TTLMax g <=? 0))) (ETTLPositive sa (g_Scope g));
  _ ← check (g_TTLDefault g <=? g_TTLMax g) (ETTLOrder sa (g_Scope g));
  ws ← parse_windows sa (g_Scope g) 0 (g_IssueWindows g);
  Ok (mkGrant (g_Scope g) (g_TTLDefault g) (g_TTLMax g) (g_Renewable g) ws).

Fixpoint parse_grants (byName : gmap string Scope) (sa : string) (l : list Grant)
    (grants : gmap string Grant) : res ParseErr (list Grant * gmap string Grant) :=
  match l with
  | [] => Ok ([], grants)
  | g :: l' =>
    g1 ← parse_grant byName sa g grants;
    '(l1, m) ← parse_grants byName sa l' (<[g_Scope g := g1]> grants);
    Ok (g1 :: l1, m)
  end.

Fixpoint parse_subjects (byName : gmap string Scope) (i : nat) (l : list SubjectPolicy)
    (bySubj : gmap string (gmap string Grant))
  : res ParseErr (list SubjectPolicy * gmap string (gmap string Grant)) :=
  match l with
  | [] => Ok ([], bySubj)
  | sp :: l' =>
    let sa := sp_ServiceAccount sp in
    _ ← check (MatchString subjectKeyPattern sa) (ESubject i sa);
    _ ← check (bool_decide (bySubj !! sa = None)) (EDupSubject sa);
    '(gs, m) ← parse_grants byName sa (sp_Grants sp) ∅;
    '(l1, bySubj1) ← parse_subjects byName (S i) l' (<[sa := m]> bySubj);
    Ok (mkSubjectPolicy sa gs (sp_ClaimBytesPerDay sp) :: l1, bySubj1)
  end.

Definition Parse (raw : string) : res ParseErr Policy :=
  match yaml_Unmarshal raw with
  | None => Err EYaml
  | Some p =>
    byName ← parse_scopes 0 (rp_Scopes p) ∅;
    '(subjects, bySubj) ← parse_subjects byName 0 (rp_Subjects p) ∅;
    Ok (mkPolicy (rp_Scopes p) subjects ("sha256:" +:+ (hex_encode (Sum256 raw))) byName bySubj)
  end.

End Parse.

(** ** Queries *)

Definition scopeOf (p : Policy) (name : string) : option Scope := p_scopeByName p !! name.

Definition grantOf (p : Policy) (subjectKey scope : string) : option Grant :=
  m ← p_grantBySubj p !! subjectKey; m !! scope.

Fixpoint cap_in (l : list SubjectPolicy) (subjectKey : string) : Z :=
  match l with
  | [] => 0
  | sp :: l' =>
    if bool_decide (sp_ServiceAccount sp = subjectKey) then sp_ClaimBytesPerDay sp
    else cap_in l' subjectKey
  end.
Definition ClaimBytesCap (p : Policy) (subjectKey : string) : Z := cap_in (p_Subjects p) subjectKey.

Definition scope_le (g h : Grant) : Prop := String.le (g_Scope g) (g_Scope h).
#[global] Instance scope_le_dec : RelDecision scope_le.
Proof. intros g h. unfold scope_le. apply _. Defined.

(** The map iterations below are followed by a sort, so [range]'s order is lost. *)
Definition GrantsFor (p : Policy) (subjectKey : string) : list Grant :=
  merge_sort scope_le (map_to_list (default ∅ (p_grantBySubj p !! subjectKey))).*2.

Definition SubjectKeys (p : Policy) : list string :=
  merge_sort String.le (map_to_list (p_grantBySubj p)).*1.

Definition ScopeNames (p : Policy) : list string :=
  merge_sort String.le (map_to_list (p_scopeByName p)).*1.

(** ** What validation means *)

Definition github_valid (s : Scope) : Prop :=
  in_re ghInstallationRefPattern (chars (sc_Ref s))
  ∧ in_re ghPermissionsPattern (chars (param s "permissions"))
  ∧ (param s "repositories" = "" ∨ in_re ghRepositoriesPattern (chars (param s "repositories")))
  ∧ map_Forall (λ _ key, key = "token") (sc_Fields s).

Definition scope_valid (s : Scope) : Prop :=
  sc_Name s ≠ "" ∧ sc_Fields s ≠ ∅
  ∧ ((sc_Provider s = "onepassword-connect" ∧ in_re opRefPattern (chars (sc_Ref s)))
     ∨ (sc_Provider s = "github-app" ∧ github_valid s)).

(** The index [Parse] builds of the scopes. *)
Definition scope_index (l : list Scope) : gmap string Scope := list_to_map ((λ s, (sc_Name s, s)) <$> l).

Lemma KnownProviders_true p :
  KnownProviders p = true ↔ p = "onepassword-connect" ∨ p = "github-app".
Proof. unfold KnownProviders. by rewrite orb_true_iff, !bool_decide_eq_true. Qed.

Lemma check_github_Ok s : check_github s = Ok () ↔ github_valid s.
Proof.
  unfold check_github, github_valid. cbv zeta. autorewrite with acb. by rewrite !MatchString_spec.
Qed.

Lemma parse_scope_Ok i s m m' :
  parse_scope i s m = Ok m' ↔ scope_valid s ∧ m !! sc_Name s = None ∧ m' = <[sc_Name s := s]> m.
Proof.
  unfold parse_scope, scope_valid. autorewrite with acb. rewrite KnownProviders_true.
  destruct (decide (sc_Provider s = "onepassword-connect")) as [E|E].
  - rewrite bool_decide_true, check_bind_Ok, MatchString_spec by done.
    rewrite E. split; [naive_solver|]. intros ((? & ? & [?|[? _]]) & ? & ->); [naive_solver|done].
  - rewrite bool_decide_false by done. destruct (decide (sc_Provider s = "github-app")) as [E'|E'].
    + rewrite bool_decide_true, bind_Ok_inv by done. split.
      * intros (? & ? & _ & ? & [] & ?%check_github_Ok & [= <-]). naive_solver.
      * intros ((? & ? & [[? _]|[_ ?]]) & ? & ->); [done|].
        split_and!; [done|done|by right|done|]. exists (). split; [by apply check_github_Ok|done].
    + naive_solver.
Qed.

Lemma parse_scopes_Ok l : ∀ i m m',
  parse_scopes i l m = Ok m' ↔
  Forall scope_valid l ∧ NoDup (sc_Name <$> l) ∧ Forall (λ s, m !! sc_Name s = None) l
  ∧ m' = scope_index l ∪ m.
Proof.
  induction l as [|s l IH]; intros i m m'; cbn [parse_scopes].
  - unfold scope_index. simpl. rewrite map_empty_union. split; [intros [= <-]; repeat constructor|naive_solver].
  - rewrite bind_Ok_inv, fmap_cons, NoDup_cons, !Forall_cons. setoid_rewrite parse_scope_Ok. setoid_rewrite IH.
    pose proof (fresh_insert sc_Name s s m l) as Hf.
    unfold scope_index. split.
    + intros (a & (Hv & Hn & ->) & Hvs & Hnd & [Hni Hns]%Hf & ->). split_and!; try done.
      by apply (index_cons sc_Name id).
    + intros ([Hv Hvs] & [Hni Hnd] & [Hn Hns] & ->). eexists. split; [done|].
      split_and!; [done..|by apply Hf|]. symmetry. by apply (index_cons sc_Name id).
Qed.

Section Validity.
Context (cronParse : string → option Schedule).

Definition window_valid (w : IssueWindow) : Prop :=
  is_Some (cronParse (iw_Cron w)) ∧ 0 < iw_Duration w.

Definition grant_valid (names : list string) (g : Grant) : Prop :=
  (g_Scope g ∈ names) ∧ 0 < g_TTLDefault g ≤ g_TTLMax g ∧ Forall window_valid (g_IssueWindows g).

Definition subject_valid (names : list string) (sp : SubjectPolicy) : Prop :=
  in_re subjectKeyPattern (chars (sp_ServiceAccount sp))
  ∧ NoDup (g_Scope <$> sp_Grants sp) ∧ Forall (grant_valid names) (sp_Grants sp).

(** The declarative contract of [Parse]. *)
Definition policy_valid (rp : RawPolicy) : Prop :=
  let names := sc_Name <$> rp_Scopes rp in
  Forall scope_valid (rp_Scopes rp) ∧ NoDup names
  ∧ Forall (subject_valid names) (rp_Subjects rp)
  ∧ NoDup (sp_ServiceAccount <$> rp_Subjects rp).

(** Validation attaches the parsed schedules and changes nothing else. *)
Definition resolve_window (w : IssueWindow) : IssueWindow :=
  mkIssueWindow (iw_Cron w) (iw_Duration w) (cronParse (iw_Cron w)).
Definition resolve_grant (g : Grant) : Grant :=
  mkGrant (g_Scope g) (g_TTLDefault g) (g_TTLMax g) (g_Renewable g) (resolve_window <$> g_IssueWindows g).
Definition resolve_subject (sp : SubjectPolicy) : SubjectPolicy :=
  mkSubjectPolicy (sp_ServiceAccount sp) (resolve_grant <$> sp_Grants sp) (sp_ClaimBytesPerDay sp).

(** The index [Parse] builds of the grants. *)
Definition grant_index (l : list Grant) : gmap string Grant :=
  list_to_map ((λ g, (g_Scope g, resolve_grant g)) <$> l).
Definition subject_index (l : list SubjectPolicy) : gmap string (gmap string Grant) :=
  list_to_map ((λ sp, (sp_ServiceAccount sp, grant_index (sp_Grants sp))) <$> l).

Lemma parse_windows_Ok sa sc ws : ∀ k ws',
  parse_windows cronParse sa sc k ws = Ok ws' ↔ Forall window_valid ws ∧ ws' = resolve_window <$> ws.
Proof.
  induction ws as [|w ws IH]; intros k ws'; cbn [parse_windows].
  - split; [intros [= <-]; by repeat constructor|naive_solver].
  - rewrite Forall_cons, fmap_cons. unfold window_valid at 1, resolve_window at 1.
    destruct (cronParse (iw_Cron w)) as [sch|].
    + rewrite check_bind_Ok, bind_Ok_inv. setoid_rewrite IH. rewrite Z.ltb_lt. naive_solver.
    + split; [done|]. intros [[[[? ?] _] _] _]. done.
Qed.

Lemma parse_grant_Ok names byName sa g m g' :
  (∀ n, is_Some (byName !! n) ↔ n ∈ names) →
  parse_grant cronParse byName sa g m = Ok g' ↔
  grant_valid names g ∧ m !! g_Scope g = None ∧ g' = resolve_grant g.
Proof.
  intros Hn. unfold parse_grant, grant_valid, resolve_grant. autorewrite with acb.
  rewrite Hn, bind_Ok_inv. setoid_rewrite parse_windows_Ok. rewrite orb_false_iff, !Z.leb_gt, Z.leb_le.
  split.
  - intros (? & ? & [? ?] & ? & ws & [? ->] & [= <-]). split_and!; done.
  - intros ((? & [? ?] & ?) & ? & ->). split_and!; [done|done|lia|lia|done|]. eexists. done.
Qed.

Lemma parse_grants_Ok names byName sa l : ∀ m r,
  (∀ n, is_Some (byName !! n) ↔ n ∈ names) →
  parse_grants cronParse byName sa l m = Ok r ↔
  Forall (grant_valid names) l ∧ NoDup (g_Scope <$> l) ∧ Forall (λ g, m !! g_Scope g = None) l
  ∧ r = (resolve_grant <$> l, grant_index l ∪ m).
Proof.
  intros m r Hn. revert m r. induction l as [|g l IH]; intros m r; cbn [parse_grants].
  - unfold grant_index. simpl. rewrite map_empty_union. split; [intros [= <-]; repeat constructor|naive_solver].
  - rewrite bind_Ok_inv, !fmap_cons, NoDup_cons, !Forall_cons.
    setoid_rewrite (parse_grant_Ok names); [|done].
    setoid_rewrite bind_Ok_inv. setoid_rewrite IH.
    pose proof (fresh_insert g_Scope g (resolve_grant g) m l) as Hf.
    unfold grant_index. split.
    + intros (g1 & (Hv & Hnone & ->) & [l1 m1] & (Hvs & Hnd & [Hni Hns]%Hf & [= -> ->]) & [= <-]).
      split_and!; try done. f_equal. by apply (index_cons g_Scope resolve_grant).
    + intros ([Hv Hvs] & [Hni Hnd] & [Hnone Hns] & ->). eexists. split; [done|]. eexists (_, _).
      split; [split_and!; [done..|by apply Hf|reflexivity]|].
      do 2 f_equal. by apply (index_cons g_Scope resolve_grant).
Qed.

Lemma parse_subjects_Ok names byName l : ∀ i m r,
  (∀ n, is_Some (byName !! n) ↔ n ∈ names) →
  parse_subjects cronParse byName i l m = Ok r ↔
  Forall (subject_valid names) l ∧ NoDup (sp_ServiceAccount <$> l)
  ∧ Forall (λ sp, m !! sp_ServiceAccount sp = None) l
  ∧ r = (resolve_subject <$> l, subject_index l ∪ m).
Proof.
  intros i m r Hn. revert i m r. induction l as [|sp l IH]; intros i m r; cbn [parse_subjects].
  - unfold subject_index. simpl. rewrite map_empty_union. split; [intros [= <-]; repeat constructor|naive_solver].
  - cbv zeta. autorewrite with acb. rewrite MatchString_spec, bind_Ok_inv, !fmap_cons, NoDup_cons, !Forall_cons.
    setoid_rewrite (parse_grants_Ok names); [|done].
    set (gi := grant_index (sp_Grants sp)).
    pose proof (fresh_insert sp_ServiceAccount sp gi m l) as Hf.
    unfold subject_index. split.
    + intros (Hk & Hnone & [gs mg] & (Hgv & Hgn & _ & [= -> ->]) & Hrest). rewrite map_union_empty in Hrest.
      apply bind_Ok_inv in Hrest as ([l1 m1] & Hr & Hr2). injection Hr2 as <-.
      apply IH in Hr as (Hvs & Hnd & [Hni Hns]%Hf & [= -> ->]).
      split_and!; try done. f_equal.
      by apply (index_cons sp_ServiceAccount (λ sp, grant_index (sp_Grants sp))).
    + intros ([(Hk & Hgn & Hgv) Hvs] & [Hni Hnd] & [Hnone Hns] & ->).
      split; [done|]. split; [done|]. eexists (_, _). split.
      { split_and!; [done..|by apply Forall_true; intros; apply lookup_empty|reflexivity]. }
      rewrite map_union_empty. rewrite bind_Ok_inv. eexists (_, _). split.
      { apply IH. split_and!; [done..|by apply Hf|reflexivity]. }
      do 2 f_equal. by apply (index_cons sp_ServiceAccount (λ sp, grant_index (sp_Grants sp))).
Qed.

End Validity.

(** ** Parsed policies *)

Section Parsed.
Context (yaml_Unmarshal : string → option RawPolicy) (cronParse : string → option Schedule).

Definition parsed (raw : string) (rp : RawPolicy) : Policy :=
  mkPolicy (rp_Scopes rp) (resolve_subject cronParse <$> rp_Subjects rp)
    ("sha256:" +:+ (hex_encode (Sum256 raw)))
    (scope_index (rp_Scopes rp)) (subject_index cronParse (rp_Subjects rp)).

Lemma scope_index_dom l n : NoDup (sc_Name <$> l) → is_Some (scope_index l !! n) ↔ n ∈ sc_Name <$> l.
Proof.
  intros Hnd. unfold is_Some. setoid_rewrite (index_lookup sc_Name id l n); [|done].
  rewrite list_elem_of_fmap. unfold id. naive_solver.
Qed.

Lemma Parse_Ok raw p :
  Parse yaml_Unmarshal cronParse raw = Ok p ↔
  ∃ rp, yaml_Unmarshal raw = Some rp ∧ policy_valid cronParse rp ∧ p = parsed raw rp.
Proof.
  unfold Parse, policy_valid, parsed. destruct (yaml_Unmarshal raw) as [rp|]; [|naive_solver].
  rewrite bind_Ok_inv. setoid_rewrite parse_scopes_Ok. split.
  - intros (m & (Hsv & Hnd & _ & ->) & H). rewrite map_union_empty in H.
    apply bind_Ok_inv in H as ([subs idx] & Hsub & Hr2). injection Hr2 as <-.
    apply (parse_subjects_Ok cronParse (sc_Name <$> rp_Scopes rp)) in Hsub as (Hs1 & Hs2 & _ & [= -> ->]);
      [|intros n; by apply scope_index_dom].
    rewrite !map_union_empty. by exists rp.
  - intros (? & [= <-] & (Hsv & Hnd & Hs1 & Hs2) & ->). eexists. split.
    { split_and!; [done..|by apply Forall_true; intros; apply lookup_empty|reflexivity]. }
    rewrite !map_union_empty, bind_Ok_inv. eexists (_, _). split; [|reflexivity].
    apply (parse_subjects_Ok cronParse (sc_Name <$> rp_Scopes rp)).
    { intros n. by apply scope_index_dom. }
    rewrite map_union_empty. split_and!; [done..|by apply Forall_true; intros; apply lookup_empty|done].
Qed.

Lemma scopeOf_parsed raw rp n s :
  policy_valid cronParse rp →
  scopeOf (parsed raw rp) n = Some s ↔ (s ∈ rp_Scopes rp) ∧ sc_Name s = n.
Proof.
  intros (_ & Hnd & _). unfold scopeOf, parsed, scope_index. cbn [p_scopeByName].
  rewrite (index_lookup sc_Name id) by done. unfold id. naive_solver.
Qed.

Lemma grantOf_parsed raw rp k sc g :
  policy_valid cronParse rp →
  grantOf (parsed raw rp) k sc = Some g ↔
  ∃ sp g0, (sp ∈ rp_Subjects rp) ∧ sp_ServiceAccount sp = k
           ∧ (g0 ∈ sp_Grants sp) ∧ g_Scope g0 = sc ∧ g = resolve_grant cronParse g0.
Proof.
  intros (_ & _ & Hsv & Hnd). unfold grantOf, parsed, subject_index. cbn [p_grantBySubj].
  rewrite bind_Some. setoid_rewrite (index_lookup sp_ServiceAccount); [|done].
  assert (Hgi : ∀ sp, sp ∈ rp_Subjects rp → grant_index cronParse (sp_Grants sp) !! sc = Some g ↔
    ∃ g0, g0 ∈ sp_Grants sp ∧ g_Scope g0 = sc ∧ resolve_grant cronParse g0 = g).
  { intros sp Hsp. rewrite Forall_forall in Hsv. destruct (Hsv sp Hsp) as (_ & Hg & _).
    by apply (index_lookup g_Scope (resolve_grant cronParse)). }
  split.
  - intros (m & (sp & Hsp & Hk & <-) & Hg). apply Hgi in Hg as (g0 & ? & ? & ?); naive_solver.
  - intros (sp & g0 & Hsp & Hk & Hg0 & Hsc & ->). eexists. split; [by exists sp|].
    apply Hgi; [done|]. by exists g0.
Qed.

(** What the rest of the broker relies on. *)
Record policy_wf (p : Policy) : Prop := {
  pw_scopes : ∀ n s, scopeOf p n = Some s → sc_Name s = n ∧ scope_valid s;
  pw_grant : ∀ k sc g, grantOf p k sc = Some g →
    is_Some (scopeOf p sc) ∧ in_re subjectKeyPattern (chars k) ∧ 0 < g_TTLDefault g ≤ g_TTLMax g
    ∧ Forall (λ w, is_Some (iw_sched w) ∧ 0 < iw_Duration w) (g_IssueWindows g)
}.

Lemma Parse_wf raw p : Parse yaml_Unmarshal cronParse raw = Ok p → policy_wf p.
Proof.
  intros (rp & _ & Hv & ->)%Parse_Ok. split.
  - intros n s (Hin & <-)%scopeOf_parsed; [|done]. split; [done|].
    destruct Hv as (Hs & _). rewrite Forall_forall in Hs. auto.
  - intros k sc g (sp & g0 & Hsp & <- & Hg0 & <- & ->)%grantOf_parsed; [|done].
    pose proof Hv as (_ & Hnd & Hsub & _). rewrite Forall_forall in Hsub.
    destruct (Hsub sp Hsp) as (Hk & _ & Hgs). rewrite Forall_forall in Hgs.
    destruct (Hgs g0 Hg0) as (Hn & [Ht1 Ht2] & Hw). split_and!; [|done|exact Ht1|exact Ht2|].
    + unfold scopeOf, parsed. cbn. by apply scope_index_dom.
    + unfold resolve_grant. cbn. apply Forall_fmap. eapply Forall_impl; [exact Hw|].
      intros w [H1 H2]. done.
Qed.

End Parsed.

Lemma any_open_total ws t :
  Forall (λ w, is_Some (iw_sched w) ∧ 0 < iw_Duration w) ws → is_Some (any_open ws t).
Proof.
  induction 1 as [|w ws [[next Hn] _] _ IH]; simpl; [eauto|]. unfold Open. rewrite Hn. simpl.
  destruct (negb _); eauto.
Qed.

Lemma WindowOpen_total p k sc g t :
  policy_wf p → grantOf p k sc = Some g → is_Some (WindowOpen g t).
Proof.
  intros Hwf Hg. destruct (pw_grant p Hwf k sc g Hg) as (_ & _ & _ & Hw).
  unfold WindowOpen. pose proof (any_open_total _ t Hw). destruct (g_IssueWindows g); eauto.
Qed.

(** A subject key accepted by validation has exactly one slash. *)
Lemma subjectKey_split k :
  in_re subjectKeyPattern (chars k) →
  ∃ ns sa, k = ns +:+ "/" +:+ sa ∧ ns ≠ "" ∧ sa ≠ "" ∧ ¬ has_byte "/" ns ∧ ¬ has_byte "/" sa.
Proof.
  unfold subjectKeyPattern. rewrite in_Cat_iff. intros (u & r & E & Hu & Hr).
  apply in_Cat_iff in Hr as (m & v & -> & Hm%in_lit & Hv). subst m.
  assert (Hlab : ∀ w, in_re dnsLabel w → w ≠ [] ∧ ("/" ∉ w)%char).
  { intros w Hw. split.
    - unfold dnsLabel in Hw. apply in_Cat_iff in Hw as (a & b & -> & (c & -> & _)%in_Cls_iff & _). done.
    - intros Hin. pose proof (in_re_bytes _ _ Hw) as Hb. rewrite Forall_forall in Hb.
      specialize (Hb _ Hin). vm_compute in Hb. naive_solver. }
  destruct (Hlab u Hu) as [Hu1 Hu2], (Hlab v Hv) as [Hv1 Hv2].
  assert (Hoc : ∀ w, chars (of_chars w) = w) by apply String.list_ascii_of_string_of_list_ascii.
  exists (of_chars u), (of_chars v). split_and!.
  - apply chars_inj. rewrite E, !chars_append, !Hoc. done.
  - destruct u; done.
  - destruct v; done.
  - unfold has_byte. by rewrite Hoc.
  - unfold has_byte. by rewrite Hoc.
Qed.

(** ** Properties of validation and of the queries *)

(** C7: [Parse] accepts a document exactly when it decodes to a policy that
    satisfies the declarative contract [policy_valid] (scope names present and
    unique, known providers with well-formed references and parameters, fields
    present, subjects well-formed and unique, grants of existing scopes, at most
    one per scope, with [0 < ttlDefault <= ttlMax], windows with a parsable cron
    and a positive duration), and then returns that document with its schedules
    attached, its hash and the two indexes, nothing else changed. *)
Theorem parse_iff_valid yaml_Unmarshal cronParse raw p :
  Parse yaml_Unmarshal cronParse raw = Ok p ↔
  ∃ rp, yaml_Unmarshal raw = Some rp ∧ policy_valid cronParse rp ∧ p = parsed cronParse raw rp.
Proof. apply Parse_Ok. Qed.

(** C8: deny by default, at the level of the document: in a policy that [Parse]
    returned, a lookup finds a grant exactly when some subject entry of that very
    name lists a grant for that very scope; the grant found carries that entry's
    TTLs, renewability and windows, and its scope is defined. *)
Theorem grant_lookup_exact yaml_Unmarshal cronParse raw p k sc g :
  Parse yaml_Unmarshal cronParse raw = Ok p →
  (grantOf p k sc = Some g ↔
   ∃ rp sp g0, yaml_Unmarshal raw = Some rp ∧ (sp ∈ rp_Subjects rp) ∧ sp_ServiceAccount sp = k
     ∧ (g0 ∈ sp_Grants sp) ∧ g_Scope g0 = sc ∧ g = resolve_grant cronParse g0)
  ∧ (is_Some (grantOf p k sc) → ∃ s, scopeOf p sc = Some s ∧ sc_Name s = sc ∧ scope_valid s).
Proof.
  intros Hp. pose proof (Parse_wf _ _ _ _ Hp) as Hwf. apply Parse_Ok in Hp as (rp & Hy & Hv & ->). split.
  - rewrite grantOf_parsed by done. naive_solver.
  - intros [g' Hg]. destruct (pw_grant _ Hwf _ _ _ Hg) as ([s Hs] & _).
    exists s. split; [done|]. by apply (pw_scopes _ Hwf).
Qed.

(** *** Issue windows *)

(** What [cron.Schedule] documents of [Next]: the next activation time after
    the argument, or the zero time when none can be found. *)
Definition next_documented (fires : Time → Prop) (next : Schedule) : Prop :=
  ∀ t, (next t = zeroTime) ∨ (t < next t ∧ fires (next t) ∧ ∀ f, t < f < next t → ¬ fires f).

Lemma Open_iff w next fires t :
  iw_sched w = Some next → next_documented fires next → 0 < iw_Duration w → 0 ≤ t →
  Open w t = Some true ↔
  (∃ f, t - iw_Duration w < f ≤ t ∧ fires f) ∨ next (t - iw_Duration w) = zeroTime.
Proof.
  intros Hs Hn Hd Ht. unfold Open. rewrite Hs. simpl. unfold tAdd, After, zeroTime in *.
  replace (t + - iw_Duration w) with (t - iw_Duration w) by lia.
  specialize (Hn (t - iw_Duration w)). unfold zeroTime in Hn. set (x := next _) in *.
  assert (Heq : Some (negb (t <? x)) = Some true ↔ x ≤ t).
  { destruct (Z.ltb_spec t x); split; intros; try done; lia. }
  rewrite Heq. destruct Hn as [Hz|(Hlt & Hf & Hmin)].
  - rewrite Hz. split; [by right|lia].
  - split.
    + intros Hx. left. exists x. split; [lia|done].
    + intros [(f & Hr & Hff)|Hz]; [|lia]. destruct (decide (f < x)); [|lia].
      exfalso. apply (Hmin f); [lia|done].
Qed.

(** C24: a window is open at [t] exactly when a fire time [f] exists with
    [t - duration < f <= t], or when the schedule reports no further fire time at
    all (its [Next] is then the zero time, which is not after [t]). *)
Theorem window_open_iff_fire w next fires t :
  iw_sched w = Some next → next_documented fires next → 0 < iw_Duration w → 0 ≤ t →
  Open w t = Some true ↔
  (∃ f, t - iw_Duration w < f ≤ t ∧ fires f) ∨ next (t - iw_Duration w) = zeroTime.
Proof. apply Open_iff. Qed.

(** The schedule that fires at every midnight UTC, and its [Next]. *)
Definition daily_fires (f : Time) : Prop := f `mod` (24 * Hour) = 0.
Definition daily : Schedule := λ t, (day_of t + 1) * (24 * Hour).

Lemma daily_documented : next_documented daily_fires daily.
Proof.
  intros t. right. unfold daily_fires, daily, day_of.
  assert (Hh : 0 < 24 * Hour) by (by compute). set (D := 24 * Hour) in *. clearbody D.
  pose proof (Z.div_mod t D). pose proof (Z.mod_pos_bound t D). split_and!; [nia|by apply Z_mod_mult|].
  intros f Hf Hm. assert (Ef : f = D * (f `div` D)) by (pose proof (Z.div_mod f D); lia).
  assert (t `div` D < f `div` D) by nia. nia.
Qed.

(** A window of one hour from midnight, ten minutes after a midnight. *)
Lemma window_open_iff_fire_witness :
  Open (mkIssueWindow "0 0 * * *" Hour (Some daily)) (24 * Hour * 738000 + 10 * Minute) = Some true.
Proof.
  apply (window_open_iff_fire _ daily daily_fires).
  - reflexivity.
  - exact daily_documented.
  - reflexivity.
  - vm_compute. discriminate.
  - left. exists (24 * Hour * 738000). split; [vm_compute; split; [reflexivity|discriminate]|].
    vm_compute. reflexivity.
Defined.

(** a window whose schedule never fires is open at every instant, although
    no fire time lies in [(t - duration, t]]: a grant restricted to it is not
    restricted at all. *)
Lemma never_firing_window_open w next t :
  iw_sched w = Some next → next_documented (λ _, False) next → 0 < iw_Duration w → 0 ≤ t →
  Open w t = Some true.
Proof.
  intros Hs Hn Hd Ht. apply (Open_iff w next (λ _, False)); [done..|]. right.
  by destruct (Hn (t - iw_Duration w)) as [|(_ & [] & _)].
Qed.

(** February 30th at midnight. *)
(** *** The sorted listings *)

#[global] Instance scope_le_trans : Transitive scope_le.
Proof. intros a b c. unfold scope_le. apply transitivity. Qed.
#[global] Instance scope_le_total : Total scope_le.
Proof. intros a b. apply String.le_total. Qed.

(** Every entry of a parsed grant table sits under its own scope name. *)
Lemma grantOf_scope yaml cron raw p k sc g :
  Parse yaml cron raw = Ok p → grantOf p k sc = Some g → g_Scope g = sc.
Proof.
  intros (rp & _ & Hv & ->)%Parse_Ok Hg.
  by apply grantOf_parsed in Hg as (sp & g0 & _ & _ & _ & Hs & ->).
Qed.

Lemma GrantsFor_spec yaml cron raw p k :
  Parse yaml cron raw = Ok p →
  StronglySorted scope_le (GrantsFor p k) ∧ NoDup (GrantsFor p k)
  ∧ ∀ g, g ∈ GrantsFor p k ↔ grantOf p k (g_Scope g) = Some g.
Proof.
  intros Hp. split; [apply (StronglySorted_merge_sort _)|].
  pose proof (λ sc g, grantOf_scope _ _ _ _ k sc g Hp) as Hsc. clear Hp. unfold grantOf, GrantsFor in *.
  setoid_rewrite merge_sort_Permutation. set (m := default ∅ (p_grantBySubj p !! k)).
  assert (Hm : ∀ sc, p_grantBySubj p !! k ≫= (!!) sc = m !! sc).
  { intros sc. unfold m. by destruct (p_grantBySubj p !! k). }
  setoid_rewrite Hm in Hsc. setoid_rewrite Hm. clearbody m. split.
  - apply (NoDup_fmap_1 g_Scope). rewrite <-list_fmap_compose.
    erewrite (list_fmap_ext _ fst); [apply NoDup_fst_map_to_list|].
    intros i [sc g] Hi. simpl. apply Hsc. apply elem_of_map_to_list. by eapply list_elem_of_lookup_2.
  - intros g. rewrite list_elem_of_fmap. split.
    + intros ([sc g'] & -> & Hin). simpl. apply elem_of_map_to_list in Hin. by rewrite (Hsc _ _ Hin).
    + intros Hg. exists (g_Scope g, g). split; [done|]. by apply elem_of_map_to_list.
Qed.

(** [GrantsFor] lists exactly the grants of the subject, each once, in
    increasing order of scope name; [SubjectKeys] and [ScopeNames] list exactly
    the keys of the two tables, each once and in increasing order, whatever order
    the map iteration took. *)
Lemma listings_sorted_complete yaml cron raw p k :
  Parse yaml cron raw = Ok p →
  (StronglySorted scope_le (GrantsFor p k) ∧ NoDup (GrantsFor p k)
   ∧ ∀ g, g ∈ GrantsFor p k ↔ grantOf p k (g_Scope g) = Some g)
  ∧ (StronglySorted String.le (SubjectKeys p) ∧ NoDup (SubjectKeys p)
     ∧ ∀ s, s ∈ SubjectKeys p ↔ is_Some (p_grantBySubj p !! s))
  ∧ (StronglySorted String.le (ScopeNames p) ∧ NoDup (ScopeNames p)
     ∧ ∀ s, s ∈ ScopeNames p ↔ is_Some (scopeOf p s)).
Proof.
  intros Hp. split; [by eapply GrantsFor_spec|]. split; apply sorted_keys.
Qed.

(** *** A concrete policy: one 1Password scope and one GitHub scope *)

Module Sample.

Definition op_ref : string := "vaults/abcdefghijklmnopqrstuvwxyz/items/0123456789abcdefghijklmnop".

Definition scopes : list Scope := [
  mkScope "db" "onepassword-connect" op_ref {["password" := "credential"]} ∅;
  mkScope "repo" "github-app" "installations/42" {["token" := "token"]}
    {["permissions" := "contents=read,pull_requests=write"]}
].

Definition grants : list Grant := [
  mkGrant "db" (10 * Minute) Hour true [];
  mkGrant "repo" Minute (5 * Minute) false [mkIssueWindow "0 0 * * *" Hour None]
].

Definition doc : RawPolicy := mkRawPolicy scopes [mkSubjectPolicy "agents/builder" grants 4096].

(** The two packages, instantiated: every text decodes to [doc], every cron
    expression to the midnight schedule. *)
Definition yaml (_ : string) : option RawPolicy := Some doc.
Definition cron (_ : string) : option Schedule := Some daily.

Definition policy : Policy :=
  match Parse yaml cron "policy" with Ok p => p | Err _ => mkPolicy [] [] "" ∅ ∅ end.

Lemma policy_parsed : Parse yaml cron "policy" = Ok policy.
Proof.
  assert (H : match Parse yaml cron "policy" with Ok _ => true | Err _ => false end = true)
    by (vm_compute; reflexivity).
  unfold policy. by destruct (Parse _ _ _).
Qed.

End Sample.

Lemma grant_lookup_exact_witness :
  (∃ s, scopeOf Sample.policy "db" = Some s ∧ sc_Name s = "db" ∧ scope_valid s)
  ∧ grantOf Sample.policy "agents/builder" "db" = Some (mkGrant "db" (10 * Minute) Hour true []).
Proof.
  split.
  - apply (grant_lookup_exact Sample.yaml Sample.cron "policy" Sample.policy "agents/builder" "db"
             (mkGrant "db" (10 * Minute) Hour true []) Sample.policy_parsed).
    exists (mkGrant "db" (10 * Minute) Hour true []). vm_compute. reflexivity.
  - apply (grant_lookup_exact Sample.yaml Sample.cron "policy" Sample.policy "agents/builder" "db"
             (mkGrant "db" (10 * Minute) Hour true []) Sample.policy_parsed).
    exists Sample.doc, (mkSubjectPolicy "agents/builder" Sample.grants 4096), (mkGrant "db" (10 * Minute) Hour true []).
    split_and!; [reflexivity|by left|reflexivity|by left|reflexivity|reflexivity].
Defined.

