(* ===== verification/PolicyDoc.v ===== *)
(** * The policy file's document (internal/policy/policy.go)

    The YAML document behind a policy, with its durations still as text: what the
    YAML library hands to [Duration.UnmarshalYAML].  The TTLs and windows of a
    policy in force are exactly what those texts say, and fit 64 bits. *)

From S2P Require Import Prelude GoStrings GoTime Encoding Regex Json Durations Policy.
Local Open Scope Z_scope.
Local Open Scope stdpp_scope.

(** A duration key is absent (or null), or has a text. *)
Record WindowDoc := mkWindowDoc { wd_cron : string; wd_duration : option string }.
Record GrantDoc := mkGrantDoc {
  gd_scope : string;
  gd_ttlDefault : option string;
  gd_ttlMax : option string;
  gd_renewable : bool;
  gd_issueWindows : list WindowDoc
}.
Record SubjectDoc := mkSubjectDoc { sd_serviceAccount : string; sd_grants : list GrantDoc; sd_claimBytesPerDay : Z }.
Record PolicyDoc := mkPolicyDoc { pd_scopes : list Scope; pd_subjects : list SubjectDoc }.

(** ** Decoding the typed fields *)

(** A key that is not there leaves the zero value. *)
Definition dec_duration (o : option string) : option Duration :=
  match o with None => Some 0 | Some s => UnmarshalYAML s end.
Definition dec_window (w : WindowDoc) : option IssueWindow :=
  d ← dec_duration (wd_duration w);
  Some (mkIssueWindow (wd_cron w) d None).
Definition dec_grant (g : GrantDoc) : option Grant :=
  def ← dec_duration (gd_ttlDefault g);
  max ← dec_duration (gd_ttlMax g);
  ws ← mapM dec_window (gd_issueWindows g);
  Some (mkGrant (gd_scope g) def max (gd_renewable g) ws).
Definition dec_subject (s : SubjectDoc) : option SubjectPolicy :=
  gs ← mapM dec_grant (sd_grants s);
  Some (mkSubjectPolicy (sd_serviceAccount s) gs (sd_claimBytesPerDay s)).
Definition dec_policy (p : PolicyDoc) : option RawPolicy :=
  subs ← mapM dec_subject (pd_subjects p);
  Some (mkRawPolicy (pd_scopes p) subs).

(** [yaml.Unmarshal(raw, &p)], given the library's reading of the document. *)
Definition unmarshal_policy (yaml_Decode : string → option PolicyDoc) (raw : string) : option RawPolicy :=
  yaml_Decode raw ≫= dec_policy.

(** ** Properties *)

Lemma mapM_elem {A B} (f : A → option B) l k b :
  mapM f l = Some k → b ∈ k → ∃ a, (a ∈ l) ∧ f a = Some b.
Proof.
  intros Hm%mapM_Some. induction Hm as [|x y l k Hxy _ IH]; [by intros ?%not_elem_of_nil|].
  intros [->|Hin]%elem_of_cons; [exists x; split; [left|done]|].
  destruct (IH Hin) as (a & Ha & E). exists a. split; [by right|done].
Qed.

Lemma dec_duration_range o d : dec_duration o = Some d → in_int64 d.
Proof.
  destruct o as [s|]; cbn; [apply ParseDuration_range|]. intros [= <-]. vm_compute. split; discriminate.
Qed.

(** A grant of the document against a grant of the policy. *)
Record grant_says (gd : GrantDoc) (g : Grant) : Prop := {
  gs_default : ∃ s, gd_ttlDefault gd = Some s ∧ ParseDuration s = Some (g_TTLDefault g);
  gs_max : ∃ s, gd_ttlMax gd = Some s ∧ ParseDuration s = Some (g_TTLMax g);
  gs_order : 0 < g_TTLDefault g ≤ g_TTLMax g ∧ g_TTLMax g ≤ int64_max;
  gs_windows : Forall2 (λ wd w, iw_Cron w = wd_cron wd ∧ 0 < iw_Duration w ≤ int64_max
                 ∧ ∃ s, wd_duration wd = Some s ∧ ParseDuration s = Some (iw_Duration w))
                 (gd_issueWindows gd) (g_IssueWindows g)
}.

Lemma dec_duration_pos o d : dec_duration o = Some d → 0 < d → d ≤ int64_max ∧ ∃ s, o = Some s ∧ ParseDuration s = Some d.
Proof.
  intros Hd Hp. pose proof (dec_duration_range _ _ Hd) as [_ Hm]. split; [done|].
  destruct o as [s|]; [by exists s|]. cbn in Hd. injection Hd as <-. lia.
Qed.

Lemma dec_grant_says cronParse names gd g :
  dec_grant gd = Some g → grant_valid cronParse names g → grant_says gd (resolve_grant cronParse g).
Proof.
  intros (def & Hdef & (max & Hmax & (ws & Hws & [= <-])%bind_Some)%bind_Some)%bind_Some (_ & [Ht1 Ht2] & Hw).
  cbn [g_TTLDefault g_TTLMax g_IssueWindows] in *.
  destruct (dec_duration_pos _ _ Hdef) as [_ Hd]; [lia|]. destruct (dec_duration_pos _ _ Hmax) as [Hm Hx]; [lia|].
  split; [done..|by split|]. cbn [resolve_grant g_IssueWindows]. apply mapM_Some in Hws. clear -Hws Hw.
  induction Hws as [|wd w wds ws Hd _ IH]; cbn; [constructor|]. apply Forall_cons in Hw as [[_ Hpos] Hw].
  constructor; [|by apply IH]. apply bind_Some in Hd as (d & Hd & [= <-]). cbn in *.
  destruct (dec_duration_pos _ _ Hd Hpos) as [Hm Hs]. split_and!; [done|exact Hpos|exact Hm|exact Hs].
Qed.

(** C22: The time limits of a policy in force are the document's: a grant found
    in a parsed policy comes from an entry of the document for that very subject
    and scope, whose [ttlDefault], [ttlMax] and window durations are all present
    and read, by [time.ParseDuration], as exactly the grant's nanoseconds, with
    [0 < ttlDefault <= ttlMax] and every one of them a positive 64-bit integer. *)
Theorem policy_durations_exact yaml_Decode cronParse raw p k sc g :
  Parse (unmarshal_policy yaml_Decode) cronParse raw = Ok p → grantOf p k sc = Some g →
  ∃ doc sd gd, yaml_Decode raw = Some doc ∧ (sd ∈ pd_subjects doc) ∧ sd_serviceAccount sd = k
    ∧ (gd ∈ sd_grants sd) ∧ gd_scope gd = sc ∧ gd_renewable gd = g_Renewable g ∧ grant_says gd g.
Proof.
  intros (rp & Hy & Hv & ->)%Parse_Ok Hg. apply (grantOf_parsed (unmarshal_policy yaml_Decode) cronParse raw rp) in Hg as (sp & g0 & Hsp & <- & Hg0 & <- & ->); [|done].
  apply bind_Some in Hy as (doc & Hd & (subs & Hsubs & [= <-])%bind_Some).
  destruct (mapM_elem _ _ _ _ Hsubs Hsp) as (sd & Hsd & (gs & Hgs & [= <-])%bind_Some).
  destruct (mapM_elem _ _ _ _ Hgs Hg0) as (gd & Hgd & Hg).
  assert (Hval : grant_valid cronParse (sc_Name <$> pd_scopes doc) g0).
  { destruct Hv as (_ & _ & Hs & _). rewrite Forall_forall in Hs. destruct (Hs _ Hsp) as (_ & _ & Hs').
    rewrite Forall_forall in Hs'. by apply Hs'. }
  exists doc, sd, gd. pose proof (dec_grant_says _ _ _ _ Hg Hval) as Hsays.
  apply bind_Some in Hg as (? & _ & (? & _ & (? & _ & [= <-])%bind_Some)%bind_Some). done.
Qed.

(** The document of the sample policy. *)
Definition sample_doc : PolicyDoc :=
  mkPolicyDoc Sample.scopes [mkSubjectDoc "agents/builder"
    [mkGrantDoc "db" (Some "10m") (Some "1h") true [];
     mkGrantDoc "repo" (Some "60s") (Some "5m") false [mkWindowDoc "0 0 * * *" (Some "1h")]] 4096].

Lemma policy_durations_exact_witness :
  ∃ p g, Parse (unmarshal_policy (λ _, Some sample_doc)) Sample.cron "policy" = Ok p
    ∧ grantOf p "agents/builder" "db" = Some g ∧ g_TTLMax g ≤ int64_max.
Proof.
  assert (E : unmarshal_policy (λ _, Some sample_doc) "policy" = Sample.yaml "policy") by (vm_compute; reflexivity).
  assert (Ep : Parse (unmarshal_policy (λ _, Some sample_doc)) Sample.cron "policy" = Ok Sample.policy).
  { rewrite <-Sample.policy_parsed. unfold Parse. by rewrite E. }
  exists Sample.policy. eexists. split; [exact Ep|]. split; [vm_compute; reflexivity|].
  match goal with |- g_TTLMax ?g ≤ _ =>
    destruct (policy_durations_exact (λ _, Some sample_doc) Sample.cron "policy" Sample.policy "agents/builder" "db" g Ep)
      as (doc & sd & gd & _ & _ & _ & _ & _ & _ & Hs)
  end; [vm_compute; reflexivity|]. apply (gs_order _ _ Hs).
Defined.
