(* ===== verification/NotifyPolicy.v ===== *)
(** * The notify proxy's policy (internal/notify/policy.go)

    Grants of notification kinds to callers, their validation and the two
    lookups the handlers use.  The YAML decoder is a parameter. *)

From S2P Require Import Prelude GoStrings Encoding Regex Sha256 Policy.
From Stdlib Require Import Ascii.
Local Open Scope stdpp_scope.

Definition KindPush : string := "push".
Definition KindPersistentCreate : string := "persistent_create".
Definition KindPersistentDismiss : string := "persistent_dismiss".

Definition knownKinds (k : string) : bool :=
  bool_decide (k = KindPush) || bool_decide (k = KindPersistentCreate) || bool_decide (k = KindPersistentDismiss).

Definition subjectKeyPattern : re := Cat dnsLabel (Cat (lit "/") dnsLabel).

(** [^[a-z0-9_]+$] *)
Definition haTargetPattern : re := plus (Cls (λ c, az09 c || Ascii.eqb "_" c)).

Record Grant := mkGrant { ng_Kind : string; ng_Targets : list string; ng_IDPrefix : string }.
Record SubjectPolicy := mkSubjectPolicy { ns_ServiceAccount : string; ns_Grants : list Grant }.
Record Policy := mkPolicy {
  np_Subjects : list SubjectPolicy;
  np_Hash : string;
  np_byKey : gmap string (gmap string Grant)
}.

#[global] Instance Grant_eq_dec : EqDecision Grant.
Proof. solve_decision. Defined.

(** One constructor per error return of [Parse]. *)
Inductive ParseErr :=
| NEYaml
| NESubject (i : nat) (sa : string)
| NEDupSubject (sa : string)
| NEKind (sa kind : string)
| NEDupKind (sa kind : string)
| NENoTarget (sa : string)
| NETarget (sa target : string)
| NENoPrefix (sa kind : string).

Section Parse.
Context (yaml_Unmarshal : string → option (list SubjectPolicy)).

Fixpoint check_targets (sa : string) (ts : list string) : res ParseErr () :=
  match ts with
  | [] => Ok ()
  | t :: ts' => _ ← check (MatchString haTargetPattern t) (NETarget sa t); check_targets sa ts'
  end.

(** The switch on the kind. *)
Definition check_constraint (sa : string) (g : Grant) : res ParseErr () :=
  if bool_decide (ng_Kind g = KindPush) then
    _ ← check (negb (bool_decide (ng_Targets g = []))) (NENoTarget sa);
    check_targets sa (ng_Targets g)
  else check (negb (bool_decide (ng_IDPrefix g = ""))) (NENoPrefix sa (ng_Kind g)).

Fixpoint parse_grants (sa : string) (l : list Grant) (grants : gmap string Grant) : res ParseErr (gmap string Grant) :=
  match l with
  | [] => Ok grants
  | g :: l' =>
    _ ← check (knownKinds (ng_Kind g)) (NEKind sa (ng_Kind g));
    _ ← check (bool_decide (grants !! ng_Kind g = None)) (NEDupKind sa (ng_Kind g));
    _ ← check_constraint sa g;
    parse_grants sa l' (<[ng_Kind g := g]> grants)
  end.

Fixpoint parse_subjects (i : nat) (l : list SubjectPolicy) (byKey : gmap string (gmap string Grant))
  : res ParseErr (gmap string (gmap string Grant)) :=
  match l with
  | [] => Ok byKey
  | sp :: l' =>
    let sa := ns_ServiceAccount sp in
    _ ← check (MatchString subjectKeyPattern sa) (NESubject i sa);
    _ ← check (bool_decide (byKey !! sa = None)) (NEDupSubject sa);
    grants ← parse_grants sa (ns_Grants sp) ∅;
    parse_subjects (S i) l' (<[sa := grants]> byKey)
  end.

Definition Parse (raw : string) : res ParseErr Policy :=
  match yaml_Unmarshal raw with
  | None => Err NEYaml
  | Some subjects =>
    byKey ← parse_subjects 0 subjects ∅;
    Ok (mkPolicy subjects ("sha256:" +:+ (hex_encode (Sum256 raw))) byKey)
  end.

End Parse.

(** ** Lookups *)

Definition grantOf (p : Policy) (subjectKey kind : string) : option Grant :=
  m ← np_byKey p !! subjectKey; m !! kind.

Definition PushTarget (p : Policy) (subjectKey : string) : string :=
  match grantOf p subjectKey KindPush with
  | Some g => default "" (head (ng_Targets g))
  | None => ""
  end.

(** ** What validation means *)

Definition target_valid (t : string) : Prop := in_re haTargetPattern (chars t).
Definition grant_valid (g : Grant) : Prop :=
  ng_Kind g = KindPush ∧ ng_Targets g ≠ [] ∧ Forall target_valid (ng_Targets g)
  ∨ (ng_Kind g = KindPersistentCreate ∨ ng_Kind g = KindPersistentDismiss) ∧ ng_IDPrefix g ≠ "".
Definition subject_valid (sp : SubjectPolicy) : Prop :=
  in_re subjectKeyPattern (chars (ns_ServiceAccount sp))
  ∧ NoDup (ng_Kind <$> ns_Grants sp) ∧ Forall grant_valid (ns_Grants sp).
Definition policy_valid (l : list SubjectPolicy) : Prop :=
  Forall subject_valid l ∧ NoDup (ns_ServiceAccount <$> l).

Definition grant_index (l : list Grant) : gmap string Grant := list_to_map ((λ g, (ng_Kind g, g)) <$> l).
Definition subject_index (l : list SubjectPolicy) : gmap string (gmap string Grant) :=
  list_to_map ((λ sp, (ns_ServiceAccount sp, grant_index (ns_Grants sp))) <$> l).

Lemma check_targets_Ok sa ts : check_targets sa ts = Ok () ↔ Forall target_valid ts.
Proof.
  induction ts as [|t ts IH]; cbn [check_targets]; [done|].
  rewrite check_bind_Ok, Forall_cons, MatchString_spec, IH. done.
Qed.

Lemma knownKinds_true k : knownKinds k = true ↔ k = KindPush ∨ k = KindPersistentCreate ∨ k = KindPersistentDismiss.
Proof. unfold knownKinds. rewrite !orb_true_iff, !bool_decide_eq_true. tauto. Qed.

Lemma grant_checks_Ok sa g :
  knownKinds (ng_Kind g) = true ∧ check_constraint sa g = Ok () ↔ grant_valid g.
Proof.
  rewrite knownKinds_true. unfold check_constraint, grant_valid. case_bool_decide as E.
  - rewrite E. rewrite check_bind_Ok, check_targets_Ok, negb_true_iff, bool_decide_eq_false. split; [naive_solver|].
    intros [?|[[?|?] _]]; [tauto|done..].
  - rewrite check_Ok, negb_true_iff, bool_decide_eq_false. naive_solver.
Qed.

Lemma notify_parse_grants_Ok sa l : ∀ m m',
  parse_grants sa l m = Ok m' ↔
  Forall grant_valid l ∧ NoDup (ng_Kind <$> l) ∧ Forall (λ g, m !! ng_Kind g = None) l ∧ m' = grant_index l ∪ m.
Proof.
  induction l as [|g l IH]; intros m m'; cbn [parse_grants].
  - unfold grant_index. cbn. rewrite map_empty_union. split; [intros [= <-]; repeat constructor|naive_solver].
  - rewrite !check_bind_Ok, bind_Ok_inv, fmap_cons, NoDup_cons, !Forall_cons, <-(grant_checks_Ok sa), bool_decide_eq_true.
    setoid_rewrite IH.
    pose proof (fresh_insert ng_Kind g g m l) as Hf.
    unfold grant_index. split.
    + intros (Hk & Hn & [] & Hc & Hvs & Hnd & [Hni Hns]%Hf & ->). split_and!; try done. by apply (index_cons ng_Kind id).
    + intros ([[Hk Hc] Hvs] & [Hni Hnd] & [Hn Hns] & ->). split; [done|]. split; [done|]. exists (). split; [done|].
      split_and!; [done..|by apply Hf|]. symmetry. by apply (index_cons ng_Kind id).
Qed.

Lemma notify_parse_subjects_Ok l : ∀ i m m',
  parse_subjects i l m = Ok m' ↔
  Forall subject_valid l ∧ NoDup (ns_ServiceAccount <$> l) ∧ Forall (λ sp, m !! ns_ServiceAccount sp = None) l
  ∧ m' = subject_index l ∪ m.
Proof.
  induction l as [|sp l IH]; intros i m m'; cbn [parse_subjects].
  - unfold subject_index. cbn. rewrite map_empty_union. split; [intros [= <-]; repeat constructor|naive_solver].
  - cbv zeta. rewrite !check_bind_Ok, bind_Ok_inv, fmap_cons, NoDup_cons, !Forall_cons, MatchString_spec, bool_decide_eq_true.
    setoid_rewrite notify_parse_grants_Ok. setoid_rewrite IH.
    pose proof (fresh_insert ns_ServiceAccount sp (grant_index (ns_Grants sp)) m l) as Hf.
    unfold subject_index. split.
    + intros (Hk & Hn & gm & (Hgv & Hgn & _ & Hgm) & Hvs & Hnd & Hrest). rewrite map_union_empty in Hgm. subst gm.
      destruct Hrest as [[Hni Hns]%Hf ->]. split_and!; try done.
      by apply (index_cons ns_ServiceAccount (λ sp, grant_index (ns_Grants sp))).
    + intros ([(Hk & Hgn & Hgv) Hvs] & [Hni Hnd] & [Hn Hns] & ->). split; [done|]. split; [done|]. exists (grant_index (ns_Grants sp)). split.
      { rewrite map_union_empty. split_and!; [done..|by apply Forall_true; intros; apply lookup_empty|reflexivity]. }
      split_and!; [done..|by apply Hf|].
      symmetry. by apply (index_cons ns_ServiceAccount (λ sp, grant_index (ns_Grants sp))).
Qed.

Section Parsed.
Context (yaml_Unmarshal : string → option (list SubjectPolicy)).

Lemma notify_Parse_Ok raw p :
  Parse yaml_Unmarshal raw = Ok p ↔
  ∃ l, yaml_Unmarshal raw = Some l ∧ policy_valid l
    ∧ p = mkPolicy l ("sha256:" +:+ (hex_encode (Sum256 raw))) (subject_index l).
Proof.
  unfold Parse, policy_valid. destruct (yaml_Unmarshal raw) as [l|]; [|naive_solver].
  rewrite bind_Ok_inv. setoid_rewrite notify_parse_subjects_Ok. split.
  - intros (m & (Hv & Hn & _ & ->) & [= <-]). rewrite map_union_empty. by exists l.
  - intros (? & [= <-] & [Hv Hn] & ->). eexists. split; [|done].
    rewrite map_union_empty. split_and!; [done..|by apply Forall_true; intros; apply lookup_empty|done].
Qed.

(** In a parsed policy a lookup finds exactly the entries of the document. *)
Lemma notify_grantOf_parsed raw p k kind g :
  Parse yaml_Unmarshal raw = Ok p →
  grantOf p k kind = Some g ↔
  ∃ sp, (sp ∈ np_Subjects p) ∧ ns_ServiceAccount sp = k ∧ (g ∈ ns_Grants sp) ∧ ng_Kind g = kind ∧ subject_valid sp.
Proof.
  intros (l & _ & [Hv Hn] & ->)%notify_Parse_Ok. unfold grantOf, subject_index. cbn [np_byKey np_Subjects]. rewrite Forall_forall in Hv.
  rewrite bind_Some. setoid_rewrite (index_lookup ns_ServiceAccount); [|done]. split.
  - intros (m & (sp & Hsp & <- & <-) & Hg). unfold grant_index in Hg.
    apply (index_lookup ng_Kind id) in Hg as (g' & ? & ? & <-); [|apply (Hv sp Hsp)]. unfold id. eauto 10.
  - intros (sp & Hsp & <- & Hg & Hk & _). eexists. split; [by exists sp|]. unfold grant_index.
    apply (index_lookup ng_Kind id); [apply (Hv sp Hsp)|]. by exists g.
Qed.

(** A pinned target is one segment of letters, digits and underscores. *)
Lemma PushTarget_valid raw p k :
  Parse yaml_Unmarshal raw = Ok p → PushTarget p k ≠ "" → target_valid (PushTarget p k).
Proof.
  intros Hp. unfold PushTarget. destruct (grantOf p k KindPush) as [g|] eqn:E; [|done].
  apply (notify_grantOf_parsed raw) in E as (sp & _ & _ & Hg & Hk & _ & _ & Hv); [|done]. rewrite Forall_forall in Hv.
  destruct (Hv g Hg) as [(_ & _ & Ht)|[[Hx|Hx] _]]; [|by rewrite Hk in Hx..].
  destruct (ng_Targets g) as [|t ts]; [done|]. by apply Forall_cons in Ht as [? _].
Qed.

End Parsed.

(** ** Properties *)

Section Props.
Context (yaml_Unmarshal : string → option (list SubjectPolicy)).

(** C36: The notify policy is exactly its document.  [Parse] accepts a document if
    and only if every subject key has the form namespace/name, no subject and no
    kind of a subject is repeated, every kind is one of the three compiled ones,
    every push grant has targets of letters, digits and underscores only and
    every persistent grant a non-empty prefix; and then a subject holds a grant
    if and only if the document lists it, and a push target is the first one the
    document lists for that subject. *)
Theorem notify_policy_exact raw subjects :
  yaml_Unmarshal raw = Some subjects →
  (is_Ok (Parse yaml_Unmarshal raw) ↔ policy_valid subjects)
  ∧ ∀ p, Parse yaml_Unmarshal raw = Ok p →
      (∀ k kind g, grantOf p k kind = Some g ↔
         ∃ sp, sp ∈ subjects ∧ ns_ServiceAccount sp = k ∧ g ∈ ns_Grants sp ∧ ng_Kind g = kind)
      ∧ (∀ k t, t ≠ "" → PushTarget p k = t ↔
         ∃ sp g ts, sp ∈ subjects ∧ ns_ServiceAccount sp = k ∧ g ∈ ns_Grants sp ∧ ng_Kind g = KindPush
           ∧ ng_Targets g = t :: ts).
Proof.
  intros Hy. split.
  - unfold is_Ok. setoid_rewrite notify_Parse_Ok. rewrite Hy. naive_solver.
  - intros p Hp. assert (Hs : np_Subjects p = subjects ∧ policy_valid subjects).
    { apply notify_Parse_Ok in Hp as (l & Hl & Hv & ->). rewrite Hy in Hl. by injection Hl as <-. }
    destruct Hs as [Hs [Hv _]]. rewrite Forall_forall in Hv.
    assert (Hg : ∀ k kind g, grantOf p k kind = Some g ↔
         ∃ sp, sp ∈ subjects ∧ ns_ServiceAccount sp = k ∧ g ∈ ns_Grants sp ∧ ng_Kind g = kind).
    { intros k kind g. rewrite (notify_grantOf_parsed yaml_Unmarshal raw) by done. rewrite Hs. naive_solver. }
    split; [exact Hg|]. intros k t Ht. unfold PushTarget. split.
    + destruct (grantOf p k KindPush) as [g|] eqn:E; [|done]. apply Hg in E as (sp & H1 & H2 & H3 & H4).
      destruct (ng_Targets g) as [|t' ts] eqn:Et; intros <-; [done|]. by exists sp, g, ts.
    + intros (sp & g & ts & H1 & H2 & H3 & H4 & H5). rewrite (proj2 (Hg k KindPush g)) by eauto. by rewrite H5.
Qed.

End Props.

(** A document with one caller. *)
Module NotifySample.
Definition doc : list SubjectPolicy :=
  [mkSubjectPolicy "agents/builder"
     [mkGrant KindPush ["mobile_app_phone"; "mobile_app_tablet"] ""; mkGrant KindPersistentCreate [] "builder_"]].
Definition yaml (raw : string) : option (list SubjectPolicy) := if bool_decide (raw = "doc") then Some doc else None.
Definition policy : Policy := mkPolicy doc ("sha256:" +:+ (hex_encode (Sum256 "doc"))) (subject_index doc).

Lemma notify_policy_parsed : Parse yaml "doc" = Ok policy.
Proof. vm_compute. reflexivity. Qed.
End NotifySample.

Lemma notify_policy_exact_witness :
  PushTarget NotifySample.policy "agents/builder" = "mobile_app_phone" ∧ policy_valid NotifySample.doc.
Proof.
  destruct (notify_policy_exact NotifySample.yaml "doc" NotifySample.doc eq_refl) as [Hv Hp]. split.
  - apply (Hp NotifySample.policy NotifySample.notify_policy_parsed); [discriminate|].
    eexists _, _, ["mobile_app_tablet"]. split; [left|]. split; [reflexivity|]. split; [left|]. split; reflexivity.
  - apply Hv. eexists. exact NotifySample.notify_policy_parsed.
Defined.
