(* ===== verification/World.v ===== *)
(** * The broker's shared state and the atomic actions on it

    Everything the request handlers, the sweeper and the policy watcher share,
    and the effects they have on it or on the outside.  Each action is atomic in
    the sources (it runs under its component's mutex, or is one system call); a
    handler is a program of actions ([prog]).  [run] executes a program alone,
    with an oracle for what the outside answers; [runs] executes it while other
    goroutines take any number of actions of their own between two of its own. *)

From S2P Require Import Prelude GoStrings GoTime Float64 RateLimit LeaseStore Json AuditStream Metrics Policy.
Local Open Scope Z_scope.
Local Open Scope stdpp_scope.

(** ** Code outside the repository *)

Class Externals := {
  ed25519_Public : string → string;
  ed25519_Sign : string → string → string;
  jcs_Transform : string → option string;
  isPrint : Z → bool;
  yaml_Unmarshal : string → option RawPolicy;
  cronParse : string → option Schedule;
  rsa_SignPKCS1v15 : string → string → option string
}.

(** ** State *)

Record world := mkWorld {
  w_policy : Policy;
  w_lastSum : string;
  w_leases : LeaseStore.Store;
  w_leaseLimiter : Limiter;
  w_claimLimiter : Limiter;
  w_authFailLimiter : Limiter;
  w_rlAudit : Limiter;
  w_claimBudget : ByteBudget;
  w_emitter : Emitter;
  w_metrics : Metrics
}.

Definition set_policy (p : Policy) (sum : string) (w : world) : world :=
  mkWorld p sum (w_leases w) (w_leaseLimiter w) (w_claimLimiter w) (w_authFailLimiter w) (w_rlAudit w)
    (w_claimBudget w) (w_emitter w) (w_metrics w).
Definition set_leases (st : LeaseStore.Store) (w : world) : world :=
  mkWorld (w_policy w) (w_lastSum w) st (w_leaseLimiter w) (w_claimLimiter w) (w_authFailLimiter w)
    (w_rlAudit w) (w_claimBudget w) (w_emitter w) (w_metrics w).
Definition set_budget (b : ByteBudget) (w : world) : world :=
  mkWorld (w_policy w) (w_lastSum w) (w_leases w) (w_leaseLimiter w) (w_claimLimiter w)
    (w_authFailLimiter w) (w_rlAudit w) b (w_emitter w) (w_metrics w).
Definition set_emitter (e : Emitter) (w : world) : world :=
  mkWorld (w_policy w) (w_lastSum w) (w_leases w) (w_leaseLimiter w) (w_claimLimiter w)
    (w_authFailLimiter w) (w_rlAudit w) (w_claimBudget w) e (w_metrics w).
Definition set_metrics (m : Metrics) (w : world) : world :=
  mkWorld (w_policy w) (w_lastSum w) (w_leases w) (w_leaseLimiter w) (w_claimLimiter w)
    (w_authFailLimiter w) (w_rlAudit w) (w_claimBudget w) (w_emitter w) m.

(** The four limiters of the server. *)
Inductive limiter_id := LimLease | LimClaim | LimAuthFail | LimAudit.

Definition get_limiter (i : limiter_id) (w : world) : Limiter :=
  match i with
  | LimLease => w_leaseLimiter w
  | LimClaim => w_claimLimiter w
  | LimAuthFail => w_authFailLimiter w
  | LimAudit => w_rlAudit w
  end.
Definition set_limiter (i : limiter_id) (l : Limiter) (w : world) : world :=
  mkWorld (w_policy w) (w_lastSum w) (w_leases w)
    (match i with LimLease => l | _ => w_leaseLimiter w end)
    (match i with LimClaim => l | _ => w_claimLimiter w end)
    (match i with LimAuthFail => l | _ => w_authFailLimiter w end)
    (match i with LimAudit => l | _ => w_rlAudit w end)
    (w_claimBudget w) (w_emitter w) (w_metrics w).

(** ** Actions *)

Record HttpRequest := mkHttpRequest {
  hq_Method : string;
  hq_URL : string;
  hq_Header : list (string * string);
  hq_Body : string
}.
Record HttpResponse := mkHttpResponse { hr_StatusCode : Z; hr_Body : string }.

Inductive action : Type → Type :=
| Now : action Time
| Rand (n : nat) : action string
| LimiterAllow (i : limiter_id) (key : string) : action bool
| BudgetSpend (key : string) (n limit : Z) : action bool
| CurrentPolicy : action Policy
| SwapPolicy (p : Policy) (sum : string) : action Policy (* returns the policy replaced *)
| LastSum : action string
| SetLastSum (sum : string) : action ()
| LeaseCreate (subjectKey scope semantics : string) (ttl : Duration) (renewable : bool) : action Lease
| LeaseGet (id : string) : action (option Lease)
| LeaseRenew (id : string) (ttl : Duration) : action (option Lease * string)
| LeaseSurrender (id : string) : action (option Lease * string)
| LeaseRemove (id : string) : action ()
| LeaseSweep (retain : Duration) : action (list Lease)
| EmitEvent (ev : Event) : action (res EmitErr ())
| MetricAdd (name : string) (labels : gmap string string) (v : float64) : action ()
| MetricSet (name : string) (labels : gmap string string) (v : float64) : action ()
| MetricsRead : action Metrics
| HttpDo (req : HttpRequest) : action (option HttpResponse)
| ReadFile (path : string) : action (option string).

(** What the outside contributes to one action: clock readings, random bytes,
    the order of a map iteration, the fate of a write, upstream answers, files. *)
Record ext := mkExt {
  x_now : Time;
  x_now2 : Time;
  x_rand : string;
  x_order : list string;
  x_write : write_res;
  x_http : HttpRequest → option HttpResponse;
  x_file : string → option string
}.

(** The counter the emitter's callback bumps for every committed event. *)
Definition auditCounter : string := "acb_audit_events_total".

Section Perform.
Context {X : Externals}.

Definition perform (x : ext) (w : world) {A : Type} (a : action A) : A * world :=
  match a in action T return T * world with
  | Now => (x_now x, w)
  | Rand _ => (x_rand x, w)
  | LimiterAllow i key =>
    let '(ok, l) := Allow (get_limiter i w) (x_now x) key in (ok, set_limiter i l w)
  | BudgetSpend key n limit =>
    let '(ok, b) := Spend (w_claimBudget w) (x_now x) key n limit in (ok, set_budget b w)
  | CurrentPolicy => (w_policy w, w)
  | SwapPolicy p sum => (w_policy w, set_policy p sum w)
  | LastSum => (w_lastSum w, w)
  | SetLastSum sum => ((), set_policy (w_policy w) sum w)
  | LeaseCreate sk sc sem ttl ren =>
    let '(l, st) := Create (w_leases w) (x_now x) (x_rand x) sk sc sem ttl ren in (l, set_leases st w)
  | LeaseGet id => (Get (w_leases w) id, w)
  | LeaseRenew id ttl =>
    let '(l, out, st) := Renew (w_leases w) (x_now x) (x_now2 x) id ttl in ((l, out), set_leases st w)
  | LeaseSurrender id =>
    let '(l, out, st) := Surrender (w_leases w) id in ((l, out), set_leases st w)
  | LeaseRemove id => ((), set_leases (Remove (w_leases w) id) w)
  | LeaseSweep retain =>
    let '(ls, st) := SweepExpired (w_leases w) (x_now x) retain (x_order x) in (ls, set_leases st w)
  | EmitEvent ev =>
    let '(r, e) := Emit ed25519_Sign jcs_Transform (w_emitter w) (x_now x) (x_write x) ev in
    let w1 := set_emitter e w in
    (r, match r with
        | Ok _ => set_metrics (Inc isPrint (w_metrics w1) auditCounter {["type" := ev_Type ev]}) w1
        | Err _ => w1
        end)
  | MetricAdd name labels v => ((), set_metrics (Add isPrint (w_metrics w) name labels v) w)
  | MetricSet name labels v => ((), set_metrics (Set_ isPrint (w_metrics w) name labels v) w)
  | MetricsRead => (w_metrics w, w)
  | HttpDo req => (x_http x req, w)
  | ReadFile path => (x_file x path, w)
  end.

(** What the environment guarantees of its contribution: [rand.Read] fills its
    buffer, an identifier in use is not drawn again, [range] visits every key
    once. *)
Definition ext_ok (x : ext) (w : world) {A : Type} (a : action A) : Prop :=
  match a with
  | Rand n => String.length (x_rand x) = n
  | LeaseCreate _ _ _ _ _ => String.length (x_rand x) = 13%nat ∧ w_leases w !! NewID "lease" (x_rand x) = None
  | LeaseSweep _ => range_order (w_leases w) (x_order x)
  | _ => True
  end.

End Perform.

(** ** Programs *)

Inductive prog (A : Type) : Type :=
| Ret (a : A)
| Act {T : Type} (a : action T) (k : T → prog A).
Arguments Ret {A} a.
Arguments Act {A T} a k.

#[global] Instance prog_ret : MRet prog := λ A a, Ret a.
Fixpoint prog_bind_go {A B} (f : A → prog B) (p : prog A) : prog B :=
  match p with
  | Ret a => f a
  | Act a k => Act a (λ t, prog_bind_go f (k t))
  end.
#[global] Instance prog_bind : MBind prog := @prog_bind_go.

Definition act {T} (a : action T) : prog T := Act a Ret.

(** ** What a run of a program may do, whatever the outside answers *)

Fixpoint all_actions (P : ∀ T, action T → Prop) {A} (p : prog A) : Prop :=
  match p with
  | Ret _ => True
  | Act a k => P _ a ∧ ∀ t, all_actions P (k t)
  end.

Lemma all_actions_act (P : ∀ T, action T → Prop) {T A} (a : action T) (f : T → prog A) :
  P T a → (∀ t, all_actions P (f t)) → all_actions P (act a ≫= f).
Proof. intros Ha Hf. by split. Qed.

Lemma all_actions_bind (P : ∀ T, action T → Prop) {A B} (p : prog A) (f : A → prog B) :
  all_actions P p → (∀ a, all_actions P (f a)) → all_actions P (p ≫= f).
Proof.
  induction p as [a|T a k IH]; intros Hp Hf; [apply Hf|].
  destruct Hp as [Ha Hk]. split; [done|]. intros t. by apply IH.
Qed.

(** The loop of a ticker: its body on every tick until the process is told to
    stop, after [n] of them. *)
Fixpoint ticks (n : nat) (body : prog ()) : prog () :=
  match n with
  | O => Ret ()
  | S m => _ ← body; ticks m body
  end.

Lemma all_actions_ticks (P : ∀ T, action T → Prop) n body : all_actions P body → all_actions P (ticks n body).
Proof. intros Hb. induction n as [|n IH]; cbn [ticks]; [done|]. by apply all_actions_bind. Qed.

(** Walks through a program, one action or one case at a time, leaving what has
    to be shown of each action. *)
Ltac walk :=
  repeat (cbv beta zeta;
    lazymatch goal with
    | |- all_actions _ (mbind _ (act _)) => apply all_actions_act; [|intros ?]
    | |- all_actions _ (match ?e with _ => _ end) => destruct e eqn:?
    | |- all_actions _ (Ret _) => exact I
    end).

Section Run.
Context {X : Externals}.

(** A program alone; the oracle's [n]-th answer serves its [n]-th action. *)
Fixpoint run {A} (o : nat → ext) (n : nat) (w : world) (p : prog A) : A * nat * world :=
  match p with
  | Ret a => (a, n, w)
  | Act a k => let '(t, w1) := perform (o n) w a in run o (S n) w1 (k t)
  end.

(** A policy that validation accepted. *)
Definition validated (p : Policy) : Prop := ∃ raw, Parse yaml_Unmarshal cronParse raw = Ok p.

(** What every goroutine of the broker guarantees the others of its actions,
    and of a whole program: it installs validated policies only, and leaves the
    audit counter to the emitter. *)
Definition guarantee {T} (a : action T) : Prop :=
  match a with
  | SwapPolicy p _ => validated p
  | MetricAdd name _ _ => name ≠ auditCounter
  | _ => True
  end.
Fixpoint guarantees {A} (p : prog A) : Prop :=
  match p with
  | Ret _ => True
  | Act a k => guarantee a ∧ ∀ t, guarantees (k t)
  end.

(** One action of some goroutine, and any number of them. *)
Definition any_action (w w' : world) : Prop :=
  ∃ (T : Type) (a : action T) x, guarantee a ∧ ext_ok x w a ∧ (perform x w a).2 = w'.
Definition interference : world → world → Prop := rtc any_action.

(** A program among others. *)
Fixpoint runs {A} (p : prog A) (w : world) (r : A) (w' : world) : Prop :=
  match p with
  | Ret a => r = a ∧ interference w w'
  | Act a k =>
    ∃ w1 x, interference w w1 ∧ ext_ok x w1 a ∧ runs (k (perform x w1 a).1) (perform x w1 a).2 r w'
  end.

Lemma runs_prefix {A} (p : prog A) w w1 r w' : interference w w1 → runs p w1 r w' → runs p w r w'.
Proof.
  intros Hi. destruct p as [a|T a k]; cbn.
  - intros [-> H]. split; [done|]. by etrans.
  - intros (w2 & x & H1 & H2 & H3). exists w2, x. split; [by etrans|done].
Qed.

Lemma runs_bind {A B} (p : prog A) (f : A → prog B) w r w' :
  runs (p ≫= f) w r w' ↔ ∃ a w1, runs p w a w1 ∧ runs (f a) w1 r w'.
Proof.
  revert w. induction p as [a|T a k IH]; intros w.
  - change (Ret a ≫= f) with (f a). split.
    + intros H. exists a, w. split; [|done]. split; [done|apply rtc_refl].
    + intros (a' & w1 & [-> Hi] & H). by eapply runs_prefix.
  - change (Act a k ≫= f) with (Act a (λ t, k t ≫= f)). cbn. split.
    + intros (w1 & x & Hi & Hx & (a' & w2 & H1 & H2)%IH). exists a', w2. split; [|done]. by exists w1, x.
    + intros (a' & w2 & (w1 & x & Hi & Hx & H1) & H2). exists w1, x. split_and!; [done..|]. apply IH. by exists a', w2.
Qed.

Lemma runs_act {A B} (a : action A) (f : A → prog B) w r w' :
  runs (act a ≫= f) w r w' ↔
  ∃ w1 x, interference w w1 ∧ ext_ok x w1 a ∧ runs (f (perform x w1 a).1) (perform x w1 a).2 r w'.
Proof. done. Qed.

(** A program while no other goroutine acts. *)
Fixpoint alone {A} (p : prog A) (w : world) (r : A) (w' : world) : Prop :=
  match p with
  | Ret a => r = a ∧ w' = w
  | Act a k => ∃ x, ext_ok x w a ∧ alone (k (perform x w a).1) (perform x w a).2 r w'
  end.

Lemma alone_act {A B} (a : action A) (f : A → prog B) w r w' :
  alone (act a ≫= f) w r w' ↔ ∃ x, ext_ok x w a ∧ alone (f (perform x w a).1) (perform x w a).2 r w'.
Proof. done. Qed.

Lemma alone_bind {A B} (p : prog A) (f : A → prog B) w r w' :
  alone (p ≫= f) w r w' ↔ ∃ a w1, alone p w a w1 ∧ alone (f a) w1 r w'.
Proof.
  revert w. induction p as [a|T a k IH]; intros w.
  - change (Ret a ≫= f) with (f a). cbn [alone]. naive_solver.
  - change (Act a k ≫= f) with (Act a (λ t, k t ≫= f)). cbn. setoid_rewrite IH. naive_solver.
Qed.

Lemma alone_runs {A} (p : prog A) : ∀ w r w', alone p w r w' → runs p w r w'.
Proof.
  induction p as [a|T a k IH]; intros w r w'; cbn.
  - intros [-> ->]. split; [done|apply rtc_refl].
  - intros (x & Hx & H). exists w, x. split; [apply rtc_refl|]. split; [done|by apply IH].
Qed.

(** A lone run is a run without interference. *)
Fixpoint oracle_ok {A} (o : nat → ext) (n : nat) (w : world) (p : prog A) : Prop :=
  match p with
  | Ret _ => True
  | Act a k => ext_ok (o n) w a ∧ oracle_ok o (S n) (perform (o n) w a).2 (k (perform (o n) w a).1)
  end.

Lemma run_runs {A} (p : prog A) : ∀ o n w r m w',
  oracle_ok o n w p → run o n w p = (r, m, w') → runs p w r w'.
Proof.
  induction p as [a|T a k IH]; intros o n w r m w'; cbn.
  - intros _ [= <- _ <-]. split; [done|apply rtc_refl].
  - intros [Hx Ho] E. destruct (perform (o n) w a) as [t w1] eqn:Ep. cbn in Ho.
    exists w, (o n). split; [apply rtc_refl|]. split; [done|]. rewrite Ep. cbn. by eapply IH.
Qed.

Lemma run_alone {A} (p : prog A) : ∀ o n w, oracle_ok o n w p → alone p w (run o n w p).1.1 (run o n w p).2.
Proof.
  induction p as [a|T a k IH]; intros o n w; cbn; [done|]. intros [Hx Ho]. exists (o n). split; [done|].
  destruct (perform (o n) w a) as [t w1]. by apply IH.
Qed.

Lemma run_runs_final {A} (p : prog A) o n w :
  oracle_ok o n w p → runs p w (run o n w p).1.1 (run o n w p).2.
Proof. intros H. destruct (run o n w p) as [[r m] w'] eqn:E. by eapply run_runs. Qed.

Lemma guarantees_bind {A B} (p : prog A) (f : A → prog B) :
  guarantees p → (∀ a, guarantees (f a)) → guarantees (p ≫= f).
Proof.
  induction p as [a|T a k IH]; intros Hp Hf; [apply Hf|].
  destruct Hp as [Ha Hk]. split; [done|]. intros t. by apply IH.
Qed.

(** A program's own actions are actions of some goroutine. *)
Lemma interference_perform w0 w1 x {T} (a : action T) :
  interference w0 w1 → guarantee a → ext_ok x w1 a → interference w0 (perform x w1 a).2.
Proof. intros Hi Hg Hx. etrans; [exact Hi|]. apply rtc_once. by exists T, a, x. Qed.

Lemma runs_interference {A} (p : prog A) : ∀ w r w', guarantees p → runs p w r w' → interference w w'.
Proof.
  induction p as [a|T a k IH]; intros w r w' Hg; cbn; [by intros [_ ?]|].
  destruct Hg as [Ha Hk]. intros (w1 & x & Hi & Hx & Hr). etrans; [by eapply interference_perform|]. by eapply IH.
Qed.

Lemma guarantees_act {T B} (a : action T) (f : T → prog B) :
  guarantee a → (∀ t, guarantees (f t)) → guarantees (act a ≫= f).
Proof. intros Ha Hf. by split. Qed.

(** ** Runs with their history *)

(** One action a program took: the state it met and what the outside contributed. *)
Inductive step :=
| Step {T : Type} (a : action T) (w : world) (x : ext).

(** A run and its history; [R] is what happens between two actions of the program. *)
Fixpoint exec (R : relation world) {A} (p : prog A) (w : world) (h : list step) (r : A) (w' : world) : Prop :=
  match p with
  | Ret a => h = [] ∧ r = a ∧ R w w'
  | Act a k =>
    ∃ w1 x h', h = Step a w1 x :: h' ∧ R w w1 ∧ ext_ok x w1 a
      ∧ exec R (k (perform x w1 a).1) (perform x w1 a).2 h' r w'
  end.

Lemma exec_act R {A B} (a : action A) (f : A → prog B) w h r w' :
  exec R (act a ≫= f) w h r w' ↔
  ∃ w1 x h', h = Step a w1 x :: h' ∧ R w w1 ∧ ext_ok x w1 a
    ∧ exec R (f (perform x w1 a).1) (perform x w1 a).2 h' r w'.
Proof. done. Qed.

Lemma exec_prefix R `{!Transitive R} {A} (p : prog A) w w1 h r w' :
  R w w1 → exec R p w1 h r w' → exec R p w h r w'.
Proof.
  intros Hi. destruct p as [a|T a k]; cbn.
  - intros (-> & -> & H). split_and!; [done..|by etrans].
  - intros (w2 & x & h' & -> & H1 & H2). exists w2, x, h'. split; [done|]. split; [by etrans|done].
Qed.

Lemma exec_bind R `{!PreOrder R} {A B} (p : prog A) (f : A → prog B) : ∀ w h r w',
  exec R (p ≫= f) w h r w' ↔ ∃ a w1 h1 h2, h = h1 ++ h2 ∧ exec R p w h1 a w1 ∧ exec R (f a) w1 h2 r w'.
Proof.
  induction p as [a|T a k IH]; intros w h r w'.
  - change (Ret a ≫= f) with (f a). split.
    + intros H. by exists a, w, [], h.
    + intros (a' & w1 & h1 & h2 & -> & (-> & -> & Hi) & H). by eapply exec_prefix; [apply _|..].
  - change (Act a k ≫= f) with (Act a (λ t, k t ≫= f)). cbn. setoid_rewrite IH. split.
    + intros (w1 & x & h' & -> & Hi & Hx & a' & w2 & h1 & h2 & -> & H1 & H2).
      exists a', w2, (Step a w1 x :: h1), h2. split_and!; [done| |done]. by exists w1, x, h1.
    + intros (a' & w2 & h1 & h2 & -> & (w1 & x & h' & -> & Hi & Hx & H1) & H2).
      exists w1, x, (h' ++ h2). split_and!; [done..|]. by exists a', w2, h', h2.
Qed.

Lemma exec_runs {A} (p : prog A) : ∀ w h r w', exec interference p w h r w' → runs p w r w'.
Proof.
  induction p as [a|T a k IH]; intros w h r w'; cbn.
  - by intros (_ & -> & ?).
  - intros (w1 & x & h' & _ & Hi & Hx & H%IH). by exists w1, x.
Qed.

Lemma runs_exec {A} (p : prog A) : ∀ w r w', runs p w r w' → ∃ h, exec interference p w h r w'.
Proof.
  induction p as [a|T a k IH]; intros w r w'; cbn.
  - intros [-> ?]. by exists [].
  - intros (w1 & x & Hi & Hx & [h H]%IH). by exists (Step a w1 x :: h), w1, x, h.
Qed.

Lemma exec_alone {A} (p : prog A) : ∀ w h r w', exec eq p w h r w' → alone p w r w'.
Proof.
  induction p as [a|T a k IH]; intros w h r w'; cbn.
  - by intros (_ & -> & <-).
  - intros (w1 & x & h' & _ & <- & Hx & H%IH). by exists x.
Qed.

(** A lone run has a history, under any reflexive [R]. *)
Fixpoint run_history {A} (o : nat → ext) (n : nat) (w : world) (p : prog A) : list step :=
  match p with
  | Ret _ => []
  | Act a k => Step a w (o n) :: run_history o (S n) (perform (o n) w a).2 (k (perform (o n) w a).1)
  end.

Lemma run_history_act {A B} (a : action A) (f : A → prog B) o n w :
  run_history o n w (act a ≫= f)
  = Step a w (o n) :: run_history o (S n) (perform (o n) w a).2 (f (perform (o n) w a).1).
Proof. done. Qed.

Lemma Step_inj {T} (a : action T) w w' x x' h h' : Step a w x :: h = Step a w' x' :: h' → x = x'.
Proof. by intros [= _ ->]. Qed.

(** Actions that put no condition on the environment. *)
Definition unconditional (T : Type) (a : action T) : Prop :=
  match a with Rand _ | LeaseCreate _ _ _ _ _ | LeaseSweep _ => False | _ => True end.

Lemma oracle_unconditional {A} (p : prog A) : ∀ o n w, all_actions unconditional p → oracle_ok o n w p.
Proof.
  induction p as [a|T a k IH]; intros o n w; cbn; [done|]. intros [Ha Hk]. split; [by destruct a|]. apply IH, Hk.
Qed.

Lemma run_exec R `{!Reflexive R} {A} (p : prog A) : ∀ o n w,
  oracle_ok o n w p → exec R p w (run_history o n w p) (run o n w p).1.1 (run o n w p).2.
Proof.
  induction p as [a|T a k IH]; intros o n w; cbn; [done|].
  intros [Hx Ho]. specialize (IH _ _ _ _ Ho). destruct (perform (o n) w a) as [t w1] eqn:Ep. cbn in *.
  eexists w, (o n), _. rewrite Ep. done.
Qed.

End Run.

(** Membership in a history that is known as far as the action. *)
Ltac in_history :=
  repeat first [assumption | apply list_elem_of_here | apply list_elem_of_further | apply elem_of_app; right].

(** Symbolic execution of a [runs] hypothesis, one action or one case at a time.
    [runs_step] forgets the interference before the action. *)
Ltac runs_step H :=
  cbv beta zeta in H;
  match type of H with
  | runs (mbind _ (act _)) _ _ _ =>
    rewrite runs_act in H; destruct H as (? & ? & _ & _ & H); cbn [perform fst snd] in H
  | runs (match ?e with _ => _ end) _ _ _ => destruct e eqn:?
  | runs (Ret _) _ _ _ => destruct H as [H _]
  end.

(** ** What interference preserves *)

Section Stable.
Context {X : Externals}.

Abbreviation log w := (em_log (w_emitter w)).

(** The committed log: numbered from one, signed, all by one instance and key. *)
Record emitter_wf (e : Emitter) : Prop := {
  ew_seq : ((λ ev, bi_Seq (ev_Broker ev)) <$> em_log e) = seqs_from 0 (length (em_log e));
  ew_next : em_seq e = wrapu64 (Z.of_nat (length (em_log e)));
  ew_signed : Forall (λ ev, signed_by ed25519_Sign jcs_Transform (em_signer e) ev
                ∧ bi_Instance (ev_Broker ev) = em_instance e ∧ bi_KID (ev_Broker ev) = sg_kid (em_signer e)) (em_log e)
}.

Lemma seqs_from_app base n : seqs_from base (S n) = seqs_from base n ++ [wrapu64 (base + 1 + Z.of_nat n)].
Proof. unfold seqs_from. by rewrite seq_S, fmap_app. Qed.

Lemma Emit_wf e now wr ev : emitter_wf e → emitter_wf (Emit ed25519_Sign jcs_Transform e now wr ev).2.
Proof.
  intros [H1 H2 H3]. destruct (Emit_cases ed25519_Sign jcs_Transform e now wr ev) as [(sig & Hs & _ & ->)|(err & out & -> & _)].
  - split; cbn [snd em_log em_seq em_signer em_instance].
    + rewrite fmap_app, H1, length_app, Nat.add_1_r, seqs_from_app. cbn. rewrite H2, wrapu64_add_l.
      do 2 f_equal. f_equal. lia.
    + rewrite H2, wrapu64_add_l, length_app. f_equal. cbn. lia.
    + apply Forall_app. split; [done|]. constructor; [|constructor]. split; [exact Hs|done].
  - by split.
Qed.

(** What an action does to the emitter: nothing, or one [Emit]. *)
Lemma perform_emitter x w {T} (a : action T) :
  w_emitter (perform x w a).2 = w_emitter w
  ∨ ∃ ev, w_emitter (perform x w a).2
          = (Emit ed25519_Sign jcs_Transform (w_emitter w) (x_now x) (x_write x) ev).2.
Proof.
  destruct a; cbn [perform]; try (by left).
  - left. by destruct (Allow _ _ _).
  - left. by destruct (Spend _ _ _ _ _).
  - left. by destruct (Renew _ _ _ _ _) as [[? ?] ?].
  - left. by destruct (Surrender _ _) as [[? ?] ?].
  - left. by destruct (SweepExpired _ _ _ _).
  - right. exists ev. by destruct (Emit _ _ _ _ _ _) as [[|] e].
Qed.

Lemma perform_log x w {T} (a : action T) :
  ∃ new, log (perform x w a).2 = log w ++ new ∧ em_signer (w_emitter (perform x w a).2) = em_signer (w_emitter w)
    ∧ em_instance (w_emitter (perform x w a).2) = em_instance (w_emitter w).
Proof.
  destruct (perform_emitter x w a) as [->|[ev ->]].
  - exists []. by rewrite app_nil_r.
  - destruct (Emit_cases ed25519_Sign jcs_Transform (w_emitter w) (x_now x) (x_write x) ev)
      as [(sig & Hs & _ & ->)|(err & out & -> & _)]; cbn; [by eexists|]. exists []. by rewrite app_nil_r.
Qed.

Lemma any_action_log w w' : any_action w w' → log w `prefix_of` log w' ∧ em_signer (w_emitter w') = em_signer (w_emitter w).
Proof. intros (T & a & x & _ & _ & <-). destruct (perform_log x w a) as (new & -> & -> & _). split; [by exists new|done]. Qed.

(** The log only grows. *)
Lemma interference_log w w' :
  interference w w' → log w `prefix_of` log w' ∧ em_signer (w_emitter w') = em_signer (w_emitter w).
Proof.
  induction 1 as [w|w w1 w' Hs _ [IH1 IH2]]; [done|].
  destruct (any_action_log _ _ Hs) as [H1 H2]. split; [by etrans|congruence].
Qed.

Lemma runs_log {A} (p : prog A) : ∀ w r w', runs p w r w' →
  log w `prefix_of` log w' ∧ em_signer (w_emitter w') = em_signer (w_emitter w).
Proof.
  induction p as [a|T a k IH]; intros w r w'; cbn.
  - intros [_ H]. by apply interference_log.
  - intros (w1 & x & Hi & _ & Hr). apply IH in Hr as [H1 H2]. apply interference_log in Hi as [H3 H4].
    destruct (perform_log x w1 a) as (new & Hn & Hs & _). split; [|congruence].
    etrans; [exact H3|]. etrans; [|exact H1]. rewrite Hn. by exists new.
Qed.

(** The signing identity never changes. *)
Lemma interference_identity w w' :
  interference w w' →
  em_signer (w_emitter w') = em_signer (w_emitter w) ∧ em_instance (w_emitter w') = em_instance (w_emitter w).
Proof.
  induction 1 as [w|w w1 w' (T & a & x & _ & _ & <-) _ [IH1 IH2]]; [done|].
  destruct (perform_log x w a) as (_ & _ & H1 & H2). split; congruence.
Qed.

(** The state invariant: a validated policy and a well-formed audit log. *)
Record world_wf (w : world) : Prop := {
  ww_policy : validated (w_policy w);
  ww_emitter : emitter_wf (w_emitter w);
  ww_ids : map_Forall (λ id l, l_ID l = id) (w_leases w)
}.

Lemma perform_policy x w {T} (a : action T) :
  guarantee a → validated (w_policy w) → validated (w_policy (perform x w a).2).
Proof.
  intros Hg Hp. destruct a; cbn [perform]; try done.
  - by destruct (Allow _ _ _).
  - by destruct (Spend _ _ _ _ _).
  - by destruct (Renew _ _ _ _ _) as [[? ?] ?].
  - by destruct (Surrender _ _) as [[? ?] ?].
  - by destruct (SweepExpired _ _ _ _).
  - by destruct (Emit _ _ _ _ _ _) as [[|] e].
Qed.

Lemma perform_ids x w {T} (a : action T) :
  ext_ok x w a → map_Forall (λ id l, l_ID l = id) (w_leases w) →
  map_Forall (λ id l, l_ID l = id) (w_leases (perform x w a).2).
Proof.
  intros Hx Hi. destruct a; cbn [perform]; try done.
  - by destruct (Allow _ _ _).
  - by destruct (Spend _ _ _ _ _).
  - cbn. by apply map_Forall_insert_2.
  - pose proof (Renew_store (w_leases w) (x_now x) (x_now2 x) id ttl) as Hr.
    pose proof (Renew_Some (w_leases w) (x_now x) (x_now2 x) id ttl) as Hs.
    destruct (Renew _ _ _ _ _) as [[[l|] o] st]; cbn in *; subst st; [|done].
    destruct (Hs l o eq_refl) as (l0 & Hl0 & -> & _). apply map_Forall_insert_2; [|done]. exact (Hi _ _ Hl0).
  - pose proof (Surrender_store (w_leases w) id) as Hr. destruct (Surrender _ _) as [[l o] st]. cbn in *. subst st.
    destruct (w_leases w !! id) as [l0|] eqn:E; [|done]. apply map_Forall_insert_2; [|done]. exact (Hi _ _ E).
  - cbn. by apply map_Forall_delete.
  - pose proof (λ k, SweepExpired_lookup (w_leases w) (x_now x) retain (x_order x) k Hx) as Hs.
    destruct (SweepExpired _ _ _ _) as [ls st]. cbn in *. intros k l. rewrite Hs.
    intros (l0 & Hl0 & Hsw)%bind_Some. unfold swept in Hsw. case_match; [done|]. injection Hsw as <-.
    specialize (Hi _ _ Hl0). by case_match.
  - by destruct (Emit _ _ _ _ _ _) as [[|] e].
Qed.

Lemma perform_wf x w {T} (a : action T) : guarantee a → ext_ok x w a → world_wf w → world_wf (perform x w a).2.
Proof.
  intros Hg Hx [Hp He Hi]. split; [by apply perform_policy| |by apply perform_ids].
  destruct (perform_emitter x w a) as [->|[ev ->]]; [done|]. by apply Emit_wf.
Qed.

Lemma interference_wf w w' : interference w w' → world_wf w → world_wf w'.
Proof.
  induction 1 as [w|w w1 w' (T & a & x & Hg & Hx & <-) _ IH]; [done|]. intros Hw. by apply IH, perform_wf.
Qed.

(** A program that keeps the guarantee keeps the invariant, whatever runs beside it. *)
Lemma runs_wf {A} (p : prog A) : ∀ w r w', guarantees p → runs p w r w' → world_wf w → world_wf w'.
Proof.
  induction p as [a|T a k IH]; intros w r w' Hg; cbn.
  - intros [_ Hi] Hw. by eapply interference_wf.
  - intros (w1 & x & Hi & Hx & Hr) Hw. destruct Hg as [Ha Hk].
    eapply IH; [apply Hk|exact Hr|]. apply perform_wf; [done..|]. by eapply interference_wf.
Qed.

(** *** Actions that leave the lease table alone *)

Definition no_lease_write (T : Type) (a : action T) : Prop :=
  match a with
  | LeaseCreate _ _ _ _ _ | LeaseRenew _ _ | LeaseSurrender _ | LeaseRemove _ | LeaseSweep _ => False
  | _ => True
  end.

Lemma perform_no_lease_write x w {T} (a : action T) :
  no_lease_write T a → w_leases (perform x w a).2 = w_leases w.
Proof.
  intros Ha. destruct a; try done; cbn [perform].
  - by destruct (Allow _ _ _).
  - by destruct (Spend _ _ _ _ _).
  - by destruct (Emit _ _ _ _ _ _) as [[|] e].
Qed.

Lemma alone_no_lease_write {A} (p : prog A) : ∀ w r w',
  all_actions no_lease_write p → alone p w r w' → w_leases w' = w_leases w.
Proof.
  induction p as [a|T a k IH]; intros w r w' Hp; cbn; [by intros [_ ->]|].
  intros (x & _ & H). destruct Hp as [Ha Hk]. rewrite (IH _ _ _ _ (Hk _) H). by apply perform_no_lease_write.
Qed.

End Stable.

