(* ===== verification/Trace.v ===== *)
(** * Traces of programs

    The actions a program took with the answers it got, whatever the state and
    the other goroutines: every run has a trace ([runs_traced]); and programs
    that take a bounded number of actions ([within]). *)

From S2P Require Import Prelude Json AuditStream World.
Local Open Scope stdpp_scope.

(** One action with its answer. *)
Inductive obs :=
| Obs {T : Type} (a : action T) (t : T).

Fixpoint traced {A} (p : prog A) (l : list obs) (r : A) : Prop :=
  match p with
  | Ret a => l = [] ∧ r = a
  | Act a k => ∃ t l', l = Obs a t :: l' ∧ traced (k t) l' r
  end.

Lemma traced_act {A B} (a : action A) (f : A → prog B) l r :
  traced (act a ≫= f) l r ↔ ∃ t l', l = Obs a t :: l' ∧ traced (f t) l' r.
Proof. done. Qed.

Lemma traced_bind {A B} (p : prog A) (f : A → prog B) : ∀ l r,
  traced (p ≫= f) l r ↔ ∃ a l1 l2, l = l1 ++ l2 ∧ traced p l1 a ∧ traced (f a) l2 r.
Proof.
  induction p as [a|T a k IH]; intros l r.
  - change (Ret a ≫= f) with (f a). cbn [traced]. split.
    + intros H. by exists a, [], l.
    + by intros (a' & l1 & l2 & -> & [-> ->] & H).
  - change (Act a k ≫= f) with (Act a (λ t, k t ≫= f)). cbn [traced]. setoid_rewrite IH. split.
    + intros (t & l' & -> & a' & l1 & l2 & -> & H1 & H2). exists a', (Obs a t :: l1), l2. naive_solver.
    + intros (a' & l1 & l2 & -> & (t & l' & -> & H1) & H2). exists t, (l' ++ l2). naive_solver.
Qed.

(** What [all_actions] says holds of every action of a trace. *)
Lemma all_actions_traced (P : ∀ T, action T → Prop) {A} (p : prog A) : ∀ l r,
  all_actions P p → traced p l r → Forall (λ o, match o with @Obs T a _ => P T a end) l.
Proof.
  induction p as [a|T a k IH]; intros l r Hp; cbn.
  - intros [-> _]. constructor.
  - destruct Hp as [Ha Hk]. intros (t & l' & -> & H). constructor; [done|]. by eapply IH.
Qed.

Lemma runs_traced `{X : Externals} {A} (p : prog A) : ∀ w r w', runs p w r w' → ∃ l, traced p l r.
Proof.
  induction p as [a|T a k IH]; intros w r w'; cbn.
  - intros [-> _]. by exists [].
  - intros (w1 & x & _ & _ & H). destruct (IH _ _ _ _ H) as [l Hl]. eauto.
Qed.

(** The trace of a history. *)
Definition observed `{X : Externals} (s : step) : obs :=
  match s with Step a w x => Obs a (perform x w a).1 end.

Lemma exec_traced `{X : Externals} R {A} (p : prog A) : ∀ w h r w',
  exec R p w h r w' → traced p (observed <$> h) r.
Proof.
  induction p as [a|T a k IH]; intros w h r w'; cbn [exec traced].
  - intros (-> & -> & _). done.
  - intros (w1 & x & h' & -> & _ & _ & H%IH). eauto.
Qed.

(** The files read and the requests sent, with their answers, and the events emitted. *)
Definition reads (l : list obs) : list (string * option string) :=
  omap (λ o, match o with Obs (ReadFile path) t => Some (path, t) | _ => None end) l.
Definition https (l : list obs) : list (HttpRequest * option HttpResponse) :=
  omap (λ o, match o with Obs (HttpDo req) t => Some (req, t) | _ => None end) l.
Definition emits (l : list obs) : list Event :=
  omap (λ o, match o with Obs (EmitEvent ev) _ => Some ev | _ => None end) l.

Lemma reads_app l1 l2 : reads (l1 ++ l2) = reads l1 ++ reads l2.
Proof. apply omap_app. Qed.
Lemma https_app l1 l2 : https (l1 ++ l2) = https l1 ++ https l2.
Proof. apply omap_app. Qed.
Lemma emits_app l1 l2 : emits (l1 ++ l2) = emits l1 ++ emits l2.
Proof. apply omap_app. Qed.

(** The trace of a lone run. *)
Fixpoint run_trace `{X : Externals} {A} (o : nat → ext) (n : nat) (w : world) (p : prog A) : A * list obs :=
  match p with
  | Ret a => (a, [])
  | Act a k =>
    let '(t, w1) := perform (o n) w a in
    let '(r, l) := run_trace o (S n) w1 (k t) in
    (r, Obs a t :: l)
  end.

Lemma run_trace_traced `{X : Externals} {A} (p : prog A) : ∀ o n w,
  traced p (run_trace o n w p).2 (run_trace o n w p).1.
Proof.
  induction p as [a|T a k IH]; intros o n w; cbn; [done|].
  destruct (perform (o n) w a) as [t w1]. specialize (IH t o (S n) w1). destruct (run_trace _ _ _ _) as [r l]. eauto.
Qed.

(** An outside that always answers the same way. *)
Lemma run_trace_outside `{X : Externals} {A} (f : HttpRequest → option HttpResponse) (g : string → option string) (p : prog A) : ∀ o n w,
  (∀ k, x_http (o k) = f) → (∀ k, x_file (o k) = g) →
  Forall (λ q, q.2 = f q.1) (https (run_trace o n w p).2) ∧ Forall (λ q, q.2 = g q.1) (reads (run_trace o n w p).2).
Proof.
  induction p as [a|T a k IH]; intros o n w Hf Hg; cbn [run_trace]; [by split|].
  destruct (perform (o n) w a) as [t w1] eqn:E. specialize (IH t o (S n) w1 Hf Hg). destruct (run_trace _ _ _ _) as [r l].
  cbn [snd] in *. destruct IH as [Hh Hr]. destruct a; try (by split); cbn in E; injection E as <- <-.
  - split; [|done]. constructor; [by rewrite Hf|done].
  - split; [done|]. constructor; [by rewrite Hg|done].
Qed.

(** ** Programs that take a bounded number of actions *)

Fixpoint within {A} (n : nat) (p : prog A) {struct p} : Prop :=
  match p with
  | Ret _ => True
  | Act a k => match n with O => False | S m => ∀ t, within m (k t) end
  end.

Lemma within_mono {A} (p : prog A) : ∀ n m, (n ≤ m)%nat → within n p → within m p.
Proof.
  induction p as [a|T a k IH]; intros [|n] [|m] Hle; cbn; try done; [lia|]. intros H t. apply (IH t n m); [lia|apply H].
Qed.

Lemma within_act {A B} (a : action A) (f : A → prog B) n : (∀ t, within n (f t)) → within (S n) (act a ≫= f).
Proof. done. Qed.

Lemma within_bind {A B} (p : prog A) (f : A → prog B) n k :
  (n ≤ k)%nat → within n p → (∀ a, within (k - n) (f a)) → within k (p ≫= f).
Proof.
  revert n k. induction p as [a|T a g IH]; intros n k Hle Hp Hf.
  - eapply within_mono; [|apply Hf]. lia.
  - destruct n as [|n]; [done|]. destruct k as [|k]; [lia|]. intros t. apply (IH t n k); [lia|apply Hp|exact Hf].
Qed.

Lemma within_traced {A} (p : prog A) : ∀ n l r, within n p → traced p l r → (length l ≤ n)%nat.
Proof.
  induction p as [a|T a k IH]; intros n l r Hp; cbn.
  - intros [-> _]. cbn. lia.
  - destruct n as [|n]; [done|]. intros (t & l' & -> & H). cbn. apply le_n_S. by eapply IH.
Qed.

(** Counts the actions of a program, one at a time. *)
Ltac walk_within :=
  repeat (cbv beta zeta;
    lazymatch goal with
    | |- within _ (mbind _ (act _)) => apply within_act; intros ?
    | |- within _ (match ?e with _ => _ end) => destruct e eqn:?
    | |- within _ (Ret _) => exact I
    end).
