(* ===== verification/Counters.v ===== *)
(** * The audit counter

    [acb_audit_events_total] is bumped by the emitter's callback (cmd/broker/main.go,
    [SetCounter]) and by nothing else, so that the metrics page counts the
    committed events of every type exactly, as long as a float64 can. *)

From S2P Require Import Prelude GoStrings GoTime Float64 RateLimit LeaseStore Json AuditStream Metrics Policy World.
From Stdlib Require Import QArith.
Local Open Scope Z_scope.
Local Open Scope stdpp_scope.

Definition counter_value (m : Metrics) (name series : string) : Q :=
  default 0%Q (default ∅ (mt_counters m !! name) !! series).

Section Counters.
Context {X : Externals}.

(** The series of an event type on the page. *)
Definition type_series (t : string) : string := labelString isPrint {["type" := t]}.

Definition committed_as (series : string) (log : list Event) : Z :=
  Z.of_nat (length (filter (λ ev, type_series (ev_Type ev) = series) log)).

(** The counter of every series is the number of its committed events, while
    they are fewer than [2^53]. *)
Definition counted (w : world) : Prop :=
  Z.of_nat (length (em_log (w_emitter w))) < 2 ^ 53 →
  ∀ s, (counter_value (w_metrics w) auditCounter s == inject_Z (committed_as s (em_log (w_emitter w))))%Q.

Lemma counter_value_Add m name labels v n s :
  counter_value (Add isPrint m name labels v) n s
  = if decide (name = n ∧ labelString isPrint labels = s) then fadd (counter_value m n s) v else counter_value m n s.
Proof.
  unfold counter_value, Add. cbn [mt_counters]. destruct (decide (name = n)) as [<-|Hn].
  - rewrite lookup_insert_eq. cbn [default from_option id]. destruct (decide (labelString isPrint labels = s)) as [<-|Hs].
    + rewrite decide_True by done. by rewrite lookup_insert_eq.
    + rewrite decide_False by naive_solver. by rewrite lookup_insert_ne.
  - rewrite lookup_insert_ne by done. by rewrite decide_False by naive_solver.
Qed.

Lemma committed_as_app s log ev :
  committed_as s (log ++ [ev]) = committed_as s log + (if decide (type_series (ev_Type ev) = s) then 1 else 0).
Proof.
  unfold committed_as. rewrite filter_app, length_app, filter_cons, filter_nil. case_decide; cbn [length]; lia.
Qed.

Lemma committed_as_bounds s log : 0 ≤ committed_as s log ≤ Z.of_nat (length log).
Proof. unfold committed_as. pose proof (length_filter (λ ev, type_series (ev_Type ev) = s) log). lia. Qed.

Lemma Inc_exact m s log ev :
  Z.of_nat (length (log ++ [ev])) < 2 ^ 53 →
  (counter_value m auditCounter s == inject_Z (committed_as s log))%Q →
  (counter_value (Inc isPrint m auditCounter {["type" := ev_Type ev]}) auditCounter s == inject_Z (committed_as s (log ++ [ev])))%Q.
Proof.
  intros Hl Hc. unfold Inc. rewrite counter_value_Add, committed_as_app. fold (type_series (ev_Type ev)).
  rewrite length_app in Hl. cbn [length] in Hl. pose proof (committed_as_bounds s log).
  destruct (decide (type_series (ev_Type ev) = s)).
  - rewrite decide_True by done. unfold fadd. apply round64_int_of; [|lia]. rewrite Hc, inject_Z_plus. reflexivity.
  - rewrite decide_False by naive_solver. by rewrite Z.add_0_r.
Qed.

Lemma perform_counted x w {T} (a : action T) : guarantee a → counted w → counted (perform x w a).2.
Proof.
  intros Hg Hc. destruct a; cbn [perform]; try exact Hc.
  - by destruct (Allow _ _ _), i.
  - by destruct (Spend _ _ _ _ _).
  - by destruct (Renew _ _ _ _ _) as [[? ?] ?].
  - by destruct (Surrender _ _) as [[? ?] ?].
  - by destruct (SweepExpired _ _ _ _).
  - destruct (Emit_cases ed25519_Sign jcs_Transform (w_emitter w) (x_now x) (x_write x) ev)
      as [(sig & _ & _ & ->)|(err & out & -> & _)]; [|exact Hc].
    unfold counted in *. cbn [snd w_emitter w_metrics set_emitter set_metrics em_log]. intros Hl s.
    assert (Hl' : Z.of_nat (length (em_log (w_emitter w))) < 2 ^ 53) by (rewrite length_app in Hl; lia).
    apply (Inc_exact (w_metrics w) s _ (with_sig (envelope (w_emitter w) (x_now x) ev) sig) Hl), (Hc Hl').
  - unfold counted in *. cbn [snd w_emitter w_metrics set_metrics]. intros Hl s. rewrite counter_value_Add.
    rewrite decide_False by naive_solver. by apply Hc.
Qed.

Lemma interference_counted w w' : interference w w' → counted w → counted w'.
Proof.
  induction 1 as [w|w w1 w' (T & a & x & Hg & _ & <-) _ IH]; [done|]. intros Hw. by apply IH, perform_counted.
Qed.

End Counters.
