(* ===== verification/Provider.v ===== *)
(** * Secret providers (internal/provider)

    The [Provider] interface and its two implementations: 1Password Connect
    (provider/onepassword.go) and GitHub App installation tokens
    (provider/github.go).  Requests to the upstream and reads of the token file
    are actions; RSA signing is a parameter. *)

From S2P Require Import Prelude GoStrings GoTime Encoding Regex Sha256 Json Policy World.
From Stdlib Require Import Ascii.
Local Open Scope Z_scope.
Local Open Scope stdpp_scope.

(** ** Interface (provider/provider.go) *)

Definition SemanticsStaticDisclosure : string := "static-disclosure".
Definition SemanticsRevocable : string := "revocable".

Record Request := mkRequest {
  q_Ref : string;
  q_Fields : gmap string string;
  q_Params : gmap string string;
  q_TTL : Duration
}.

Record Result := mkResult { rs_Secret : gmap string string; rs_ExpiresAt : Time }.

(** One constructor per error return of the implementations. *)
Inductive FetchErr :=
| FInvalidRef
| FToken
| FRequest
| FStatus (code : Z)
| FDecode
| FField
| FNoPermissions
| FSign
| FIncomplete.

Record Provider := mkProvider {
  pv_Name : string;
  pv_Semantics : string;
  pv_Fetch : Request → prog (res FetchErr Result)
}.

(** ** Filling the lease fields *)

(** The loop over [req.Fields]: every field or none. *)
Fixpoint fill (look : string → option string) (l : list (string * string)) (out : gmap string string)
  : option (gmap string string) :=
  match l with
  | [] => Some out
  | (leaseField, key) :: l' => v ← look key; fill look l' (<[leaseField := v]> out)
  end.
Definition fill_fields (look : string → option string) (fields : gmap string string) : option (gmap string string) :=
  fill look (map_to_list fields) ∅.

(** [json.NewDecoder(resp.Body).Decode], the body being read without a limit. *)
Definition decode_body (body : string) : dres jv := decode_stream (slen body) body.

(** ** 1Password Connect (provider/onepassword.go) *)

(** [opRef.FindStringSubmatch]: the two groups of 26 bytes. *)
Definition op_submatch (ref : string) : option (string * string) :=
  if MatchString opRefPattern ref then Some (String.substring 7 26 ref, String.substring 40 26 ref) else None.

(** [url.PathEscape] *)
Definition path_safe (c : ascii) : bool :=
  az c || AZ c || d09 c || bool_decide (c ∈ chars "-_.~$&+=:@").
Definition upper_hex (z : Z) : ascii := if z <? 10 then byte_of (48 + z) else byte_of (55 + z).
Definition escape_byte (c : ascii) : list ascii :=
  if path_safe c then [c]
  else ["%"%char; upper_hex (byte_val c `div` 16); upper_hex (byte_val c `mod` 16)].
Definition PathEscape (s : string) : string := of_chars (mbind escape_byte (chars s)).

Record opField := mkOpField { of_ID : string; of_Label : string; of_Value : string }.

Definition dec_opField : jv → opField → option opField :=
  dec_struct ["id"; "label"; "value"] (λ n v f,
    if bool_decide (n = "id") then s ← dec_string v (of_ID f); Some (mkOpField s (of_Label f) (of_Value f))
    else if bool_decide (n = "label") then s ← dec_string v (of_Label f); Some (mkOpField (of_ID f) s (of_Value f))
    else s ← dec_string v (of_Value f); Some (mkOpField (of_ID f) (of_Label f) s)).

(** [opItem] has the one field [fields]. *)
Definition dec_opItem (v : jv) : option (list opField) :=
  elems <$> dec_struct ["fields"] (λ _, dec_slice dec_opField (mkOpField "" "" "")) v nil_slice.

(** Later fields of the same label win. *)
Definition byLabel (l : list opField) : gmap string string :=
  foldl (λ m f, <[of_Label f := of_Value f]> m) ∅ l.

(** A present, non-empty value. *)
Definition label_value (m : gmap string string) (label : string) : option string :=
  v ← m !! label; if bool_decide (v = "") then None else Some v.

Record OnePassword := mkOnePassword { op_base : string; op_tokenFile : string }.

(** [NewOnePassword(baseURL, tokenFn)], with the [tokenFn] of main: the trimmed
    contents of a file. *)
Definition NewOnePassword (baseURL tokenFile : string) : OnePassword := mkOnePassword (TrimRight baseURL "/") tokenFile.

Definition bearer (token : string) : string * string := ("Authorization", "Bearer " +:+ token).

Definition op_url (o : OnePassword) (vault item : string) : string :=
  (op_base o) +:+ "/v1/vaults/" +:+ (PathEscape vault) +:+ "/items/" +:+ (PathEscape item).

Definition op_Fetch (o : OnePassword) (req : Request) : prog (res FetchErr Result) :=
  match op_submatch (q_Ref req) with
  | None => Ret (Err FInvalidRef)
  | Some (vault, item) =>
    tok ← act (ReadFile (op_tokenFile o));
    match TrimSpace <$> tok with
    | None => Ret (Err FToken)
    | Some token =>
      resp ← act (HttpDo (mkHttpRequest "GET" (op_url o vault item) [bearer token] ""));
      match resp with
      | None => Ret (Err FRequest)
      | Some resp =>
        if negb (hr_StatusCode resp =? 200) then Ret (Err (FStatus (hr_StatusCode resp)))
        else match dbind (decode_body (hr_Body resp)) dec_opItem with
        | DOk fields =>
          match fill_fields (label_value (byLabel fields)) (q_Fields req) with
          | Some out => Ret (Ok (mkResult out zeroTime))
          | None => Ret (Err FField)
          end
        | _ => Ret (Err FDecode)
        end
      end
    end
  end.

Definition OnePassword_provider (o : OnePassword) : Provider :=
  mkProvider "onepassword-connect" SemanticsStaticDisclosure (op_Fetch o).

(** *** The cached readiness probe *)

Inductive HealthErr := HToken | HUnreachable | HStatus (code : Z).

(** [healthAt], [healthErr]; the probe runs with the mutex held. *)
Record health := mkHealth { h_at : Time; h_err : option HealthErr }.
Definition health_init : health := mkHealth zeroTime None.
Definition healthTTL : Duration := 60 * Second.

Definition probeAuthenticated (o : OnePassword) : prog (option HealthErr) :=
  tok ← act (ReadFile (op_tokenFile o));
  match TrimSpace <$> tok with
  | None => Ret (Some HToken)
  | Some token =>
    resp ← act (HttpDo (mkHttpRequest "GET" ((op_base o) +:+ "/v1/vaults") [bearer token] ""));
    match resp with
    | None => Ret (Some HUnreachable)
    | Some resp => Ret (if hr_StatusCode resp =? 200 then None else Some (HStatus (hr_StatusCode resp)))
    end
  end.

Definition Healthy (o : OnePassword) (h : health) : prog (option HealthErr * health) :=
  now ← act Now;
  if tSub now (h_at h) <? healthTTL then Ret (h_err h, h)
  else
    err ← probeAuthenticated o;
    now2 ← act Now;
    Ret (err, mkHealth now2 err).

(** ** GitHub App (provider/github.go) *)

Record GitHubApp := mkGitHubApp { gh_base : string; gh_appID : string; gh_key : string }.

Definition NewGitHubApp (baseURL appID key : string) : GitHubApp :=
  let b := if bool_decide (baseURL = "") then "https://api.github.com" else baseURL in
  mkGitHubApp (TrimRight b "/") appID key.

(** [ghInstallationRef.FindStringSubmatch]: the digits after the prefix. *)
Definition gh_submatch (ref : string) : option string :=
  if MatchString ghInstallationRefPattern ref then CutPrefix ref "installations/" else None.

(** One entry of [parsePermissions]. *)
Definition parsePermission (part : string) : option (string * string) :=
  let part := TrimSpace part in
  if bool_decide (part = "") then None
  else
    let '(k, v, ok) := Cut part "=" in
    let k := TrimSpace k in
    let v := TrimSpace v in
    if negb ok || bool_decide (k = "") || bool_decide (v = "") then None else Some (k, v).

Definition parsePermissions (s : string) : gmap string string :=
  foldl (λ out part, match parsePermission part with Some (k, v) => <[k := v]> out | None => out end)
    ∅ (Split s ",").

Definition parseList (s : string) : list string :=
  filter (λ p, p ≠ "") (TrimSpace <$> Split s ",").

(** The token request, with the policy-pinned permissions and repositories. *)
Definition gh_payload (perms : gmap string string) (repos : list string) : jv :=
  JObj ([("permissions", JMap JStr perms)]
        ++ match repos with [] => [] | _ => [("repositories", JArr (JStr <$> repos))] end).

Record ghTokenResponse := mkGhToken { gt_Token : string; gt_ExpiresAt : Time }.

(** [time.Time] decodes from an RFC 3339 string; [null] leaves it alone. *)
Definition dec_time (v : jv) (old : Time) : option Time :=
  match v with JStr s => ParseRFC3339 s | JNull => Some old | _ => None end.

Definition dec_ghToken (v : jv) : option ghTokenResponse :=
  dec_struct ["token"; "expires_at"] (λ n v t,
    if bool_decide (n = "token") then s ← dec_string v (gt_Token t); Some (mkGhToken s (gt_ExpiresAt t))
    else e ← dec_time v (gt_ExpiresAt t); Some (mkGhToken (gt_Token t) e)) v (mkGhToken "" zeroTime).

Section GitHub.
Context {X : Externals}.

(** [appJWT]; both JSON texts are maps, hence in key order. *)
Definition jwt_claims (g : GitHubApp) (now : Time) : jv :=
  JObj [("exp", JInt (Unix (tAdd now (9 * Minute)))); ("iat", JInt (Unix (tAdd now (- (30 * Second)))));
        ("iss", JStr (gh_appID g))].
Definition appJWT (g : GitHubApp) (now : Time) : option string :=
  let header := JObj [("alg", JStr "RS256"); ("typ", JStr "JWT")] in
  let signingInput := (RawURLEncodeToString (render header)) +:+ "." +:+ (RawURLEncodeToString (render (jwt_claims g now))) in
  sig ← rsa_SignPKCS1v15 (gh_key g) (Sum256 signingInput);
  Some (signingInput +:+ "." +:+ (RawURLEncodeToString sig)).

Definition gh_request (g : GitHubApp) (installationID jwt payload : string) : HttpRequest :=
  mkHttpRequest "POST" ((gh_base g) +:+ "/app/installations/" +:+ installationID +:+ "/access_tokens")
    [bearer jwt; ("Accept", "application/vnd.github+json"); ("X-GitHub-Api-Version", "2022-11-28");
     ("Content-Type", "application/json")] payload.

Definition token_field (token key : string) : option string :=
  if bool_decide (key = "token") then Some token else None.

Definition gh_Fetch (g : GitHubApp) (req : Request) : prog (res FetchErr Result) :=
  match gh_submatch (q_Ref req) with
  | None => Ret (Err FInvalidRef)
  | Some installationID =>
    let perms := parsePermissions (default "" (q_Params req !! "permissions")) in
    if bool_decide (perms = ∅) then Ret (Err FNoPermissions)
    else
      let payload := render (gh_payload perms (parseList (default "" (q_Params req !! "repositories")))) in
      now ← act Now;
      match appJWT g now with
      | None => Ret (Err FSign)
      | Some jwt =>
        resp ← act (HttpDo (gh_request g installationID jwt payload));
        match resp with
        | None => Ret (Err FRequest)
        | Some resp =>
          if negb (hr_StatusCode resp =? 201) then Ret (Err (FStatus (hr_StatusCode resp)))
          else match dbind (decode_body (hr_Body resp)) dec_ghToken with
          | DOk tok =>
            if bool_decide (gt_Token tok = "") || IsZero (gt_ExpiresAt tok) then Ret (Err FIncomplete)
            else match fill_fields (token_field (gt_Token tok)) (q_Fields req) with
            | Some out => Ret (Ok (mkResult out (gt_ExpiresAt tok)))
            | None => Ret (Err FField)
            end
          | _ => Ret (Err FDecode)
          end
        end
      end
  end.

Definition GitHubApp_provider (g : GitHubApp) : Provider :=
  mkProvider "github-app" SemanticsRevocable (gh_Fetch g).

End GitHub.

(** ** The effects of a provider *)

(** Actions on the outside only. *)
Definition outside (T : Type) (a : action T) : Prop :=
  match a with Now | Rand _ | HttpDo _ | ReadFile _ => True | _ => False end.

(** Every request sent satisfies [P]. *)
Definition sends (P : HttpRequest → Prop) (T : Type) (a : action T) : Prop :=
  match a with HttpDo req => P req | _ => True end.

(** ** The contract of the interface *)

Class ProviderLaws {X : Externals} (p : Provider) : Prop := {
  (* Fetching touches none of the broker's state. *)
  fetch_outside : ∀ req, all_actions outside (pv_Fetch p req);
  (* No partial secret: every requested field has a value, and no other. *)
  fetch_complete : ∀ req w w' r, runs (pv_Fetch p req) w (Ok r) w' →
    dom (rs_Secret r) = dom (q_Fields req) ∧ map_Forall (λ _ v, v ≠ "") (rs_Secret r);
  (* An upstream expiry exactly for revocable material. *)
  fetch_expiry : ∀ req w w' r, runs (pv_Fetch p req) w (Ok r) w' →
    (pv_Semantics p = SemanticsStaticDisclosure ∧ rs_ExpiresAt r = zeroTime)
    ∨ (pv_Semantics p = SemanticsRevocable ∧ rs_ExpiresAt r ≠ zeroTime)
}.

Lemma fill_lookup look l : ∀ out out', NoDup l.*1 → fill look l out = Some out' →
  ∀ k, out' !! k = match (list_to_map l : gmap string string) !! k with
                   | Some key => look key | None => out !! k end
       ∧ ((list_to_map l : gmap string string) !! k ≫= look = None → (list_to_map l : gmap string string) !! k = None).
Proof.
  induction l as [|[f key] l IH]; intros out out' Hnd E k; simpl in E.
  - injection E as <-. done.
  - apply bind_Some in E as (v & Hv & E). simpl in Hnd. apply NoDup_cons in Hnd as [Hni Hnd].
    destruct (IH _ _ Hnd E k) as [H1 H2]. simpl. destruct (decide (f = k)) as [->|Hne].
    + rewrite lookup_insert_eq. simpl. rewrite Hv. split; [|done]. rewrite H1.
      rewrite (not_elem_of_list_to_map_1 l k Hni). by rewrite lookup_insert_eq.
    + rewrite lookup_insert_ne by done. split; [|done]. rewrite H1. case_match; [done|]. by rewrite lookup_insert_ne.
Qed.

Lemma fill_fields_spec look fields out :
  fill_fields look fields = Some out →
  ∀ k, out !! k = fields !! k ≫= look ∧ (is_Some (out !! k) ↔ is_Some (fields !! k)).
Proof.
  intros E k. unfold fill_fields in E.
  destruct (fill_lookup _ _ _ _ (NoDup_fst_map_to_list fields) E k) as [H1 H2].
  rewrite list_to_map_to_list in H1, H2. rewrite lookup_empty in H1. rewrite H1.
  destruct (fields !! k) as [key|]; simpl in *; [|done]. split; [done|].
  destruct (look key); [|by specialize (H2 eq_refl)]. done.
Qed.

(** All or nothing, for values that are not empty. *)
Lemma fill_fields_complete look fields out :
  (∀ key v, look key = Some v → v ≠ "") → fill_fields look fields = Some out →
  dom out = dom fields ∧ map_Forall (λ _ v, v ≠ "") out.
Proof.
  intros Hl E. pose proof (fill_fields_spec _ _ _ E) as Hs. split.
  - apply set_eq. intros k. rewrite !elem_of_dom. apply Hs.
  - intros k v Hv. destruct (Hs k) as [Hk _]. rewrite Hv in Hk. symmetry in Hk.
    apply bind_Some in Hk as (key & _ & Hk). by eapply Hl.
Qed.

Section Laws.
Context {X : Externals}.

#[global] Instance OnePassword_laws (o : OnePassword) : ProviderLaws (OnePassword_provider o).
Proof.
  split; cbn [pv_Fetch pv_Semantics OnePassword_provider].
  - intros req. unfold op_Fetch. walk; exact I.
  - intros req w w' r H. unfold op_Fetch in H. repeat runs_step H; try discriminate.
    injection H as ->. cbn. eapply fill_fields_complete; [|eassumption].
    intros key v. unfold label_value. intros (v' & _ & Hv)%bind_Some. case_bool_decide; congruence.
  - intros req w w' r H. left. split; [done|]. unfold op_Fetch in H. repeat runs_step H; try discriminate.
    by injection H as ->.
Qed.

#[global] Instance GitHubApp_laws (g : GitHubApp) : ProviderLaws (GitHubApp_provider g).
Proof.
  split; cbn [pv_Fetch pv_Semantics GitHubApp_provider].
  - intros req. unfold gh_Fetch. walk; exact I.
  - intros req w w' r H. unfold gh_Fetch in H. repeat runs_step H; try discriminate.
    injection H as ->. cbn. eapply fill_fields_complete; [|eassumption].
    intros key v. unfold token_field. destruct (bool_decide (key = _)); [|done]. intros [= <-].
    match goal with E : (_ || _) = false |- _ => apply orb_false_iff in E as [E _]; by apply bool_decide_eq_false in E end.
  - intros req w w' r H. right. split; [done|]. unfold gh_Fetch in H. repeat runs_step H; try discriminate.
    injection H as ->. cbn.
    match goal with E : (_ || _) = false |- _ => apply orb_false_iff in E as [_ E] end.
    unfold IsZero in *. lia.
Qed.

End Laws.

(** ** Where the requests go *)

Lemma substring_chars s : ∀ n m, chars (String.substring n m s) = take m (drop n (chars s)).
Proof.
  induction s as [|c s IH]; intros n m; [by destruct n, m|].
  destruct n as [|n], m as [|m]; cbn; rewrite ?IH; done.
Qed.

(** A 26-byte identifier of lower-case letters and digits. *)
Definition op_id (s : string) : Prop := String.length s = 26%nat ∧ Forall (λ c, az09 c = true) (chars s).

Lemma op_submatch_spec ref v i :
  op_submatch ref = Some (v, i) → ref = "vaults/" +:+ v +:+ "/items/" +:+ i ∧ op_id v ∧ op_id i.
Proof.
  unfold op_submatch. destruct (MatchString opRefPattern ref) eqn:E; [|done]. intros [= <- <-].
  apply MatchString_spec in E. unfold opRefPattern in E. autorewrite with regex in E.
  destruct E as (u1 & u2 & E & E1 & E2). apply in_lit in E1 as ->.
  apply in_Cat_iff in E2 as (cv & u3 & -> & [Hlv Hv]%in_rep_Cls & E3).
  apply in_Cat_iff in E3 as (u4 & ci & -> & ->%in_lit & [Hli Hi]%in_rep_Cls).
  assert (Ev : chars (String.substring 7 26 ref) = cv).
  { rewrite substring_chars, E. simpl. by rewrite <-Hlv, drop_0, take_app_length. }
  assert (Ei : chars (String.substring 40 26 ref) = ci).
  { rewrite substring_chars, E.
    replace 40%nat with (length (chars "vaults/" ++ cv ++ chars "/items/")) by (rewrite !length_app; cbn; lia).
    rewrite !app_assoc, <-(app_assoc (chars "vaults/")), drop_app_length. rewrite <-Hli. apply take_ge. lia. }
  unfold op_id. rewrite <-!length_chars, Ev, Ei. split; [|done].
  apply chars_inj. rewrite !chars_append, Ev, Ei. exact E.
Qed.

Lemma PathEscape_id s : Forall (λ c, az09 c = true) (chars s) → PathEscape s = s.
Proof.
  intros Hs. unfold PathEscape. apply chars_inj. rewrite String.list_ascii_of_string_of_list_ascii.
  induction Hs as [|c l Hc _ IH]; [done|]. cbn. rewrite IH. unfold escape_byte, path_safe.
  unfold az09 in Hc. destruct (az c); [done|]. simpl in Hc. rewrite Hc. by rewrite orb_true_r.
Qed.

Lemma gh_submatch_spec ref i :
  gh_submatch ref = Some i → ref = "installations/" +:+ i ∧ i ≠ "" ∧ Forall (λ c, d09 c = true) (chars i).
Proof.
  unfold gh_submatch. destruct (MatchString ghInstallationRefPattern ref) eqn:E; [|done].
  intros ->%CutPrefix_Some. split; [done|]. apply MatchString_spec in E.
  unfold ghInstallationRefPattern in E. apply in_Cat_iff in E as (u & v & E & ->%in_lit & [Hne Hd]%in_plus_Cls).
  rewrite chars_append in E. apply app_inv_head in E as <-. split; [|done]. by destruct i.
Qed.

(** What a scope's parameters pin, read off their texts: an entry [k=v] of the
    comma-separated permissions gives [k] the level [v], blanks around the parts
    aside, and the last entry for [k] counts; the repositories are the entries of
    the other list that are not blank. *)
Definition entry_says (part k v : string) : Prop :=
  ∃ k0 v0, TrimSpace part = k0 +:+ "=" +:+ v0 ∧ ¬ has_byte "=" k0 ∧ TrimSpace k0 = k ∧ TrimSpace v0 = v ∧ k ≠ "" ∧ v ≠ "".
Definition permission_pinned (text k v : string) : Prop :=
  ∃ before part after, Split text "," = before ++ part :: after ∧ entry_says part k v
    ∧ ∀ p v', p ∈ after → ¬ entry_says p k v'.
Definition repository_pinned (text r : string) : Prop := r ≠ "" ∧ ∃ part, part ∈ Split text "," ∧ TrimSpace part = r.

Lemma parsePermission_spec part k v : parsePermission part = Some (k, v) ↔ entry_says part k v.
Proof.
  unfold parsePermission, entry_says. cbv zeta. generalize (TrimSpace part). intros s. split.
  - case_bool_decide; [done|]. destruct (Cut s "=") as [[k0 v0] ok] eqn:E. destruct ok; [|done]. cbn [negb orb].
    apply Cut_found in E as [-> Hn]. do 2 (case_bool_decide; [done|]). cbn [orb]. intros [= <- <-]. by exists k0, v0.
  - intros (k0 & v0 & -> & Hn & <- & <- & Hk & Hv).
    rewrite bool_decide_false by (intros E; apply (f_equal chars) in E; rewrite !chars_append in E; by destruct (chars k0)).
    change ("=" +:+ v0) with (String "=" v0). rewrite Cut_append by done. cbn [negb orb]. by rewrite !bool_decide_false by done.
Qed.

Lemma parsePermissions_spec text k v : parsePermissions text !! k = Some v ↔ permission_pinned text k v.
Proof.
  unfold parsePermissions, permission_pinned. generalize (Split text ","). intros parts.
  induction parts as [|p parts IH] using rev_ind.
  { split; [done|]. intros (before & part & after & E & _). by destruct before. }
  rewrite foldl_app. cbn [foldl]. split.
  - destruct (parsePermission p) as [[k1 v1]|] eqn:Ep.
    + rewrite lookup_insert_Some. intros [[-> ->]|[Hne H]].
      * exists parts, p, []. split; [done|]. split; [by apply parsePermission_spec|]. by intros ? ? ?%not_elem_of_nil.
      * apply IH in H as (before & part & after & -> & Hs & Ha). exists before, part, (after ++ [p]).
        split; [by rewrite <-app_assoc|]. split; [done|]. intros q v' [Hq|Hq%list_elem_of_singleton]%elem_of_app; [by apply Ha|].
        subst q. rewrite <-parsePermission_spec, Ep. naive_solver.
    + intros (before & part & after & -> & Hs & Ha)%IH. exists before, part, (after ++ [p]).
      split; [by rewrite <-app_assoc|]. split; [done|]. intros q v' [Hq|Hq%list_elem_of_singleton]%elem_of_app; [by apply Ha|].
      subst q. by rewrite <-parsePermission_spec, Ep.
  - intros (before & part & after & E & Hs & Ha). destruct after as [|q after _] using rev_ind.
    + apply app_inj_tail in E as [-> ->]. apply parsePermission_spec in Hs as ->. apply lookup_insert_eq.
    + rewrite app_comm_cons, app_assoc in E. apply app_inj_tail in E as [-> ->].
      apply proj2 in IH. specialize (IH ltac:(exists before, part, after; split_and!; [done..|]; intros p v' Hp; apply Ha, elem_of_app; by left)).
      destruct (parsePermission q) as [[k1 v1]|] eqn:Eq; [|done]. rewrite lookup_insert_ne; [done|]. intros ->.
      apply parsePermission_spec in Eq. eapply (Ha q v1); [rewrite elem_of_app; right; by left|done].
Qed.

Lemma parseList_spec text r : r ∈ parseList text ↔ repository_pinned text r.
Proof.
  unfold parseList, repository_pinned. rewrite list_elem_of_filter, list_elem_of_fmap. naive_solver.
Qed.

(** The body of a token request: an object whose [permissions] are the pinned
    ones, each once, and at least one of them; and whose [repositories], there
    only when some are pinned, are the pinned ones. *)
Definition asks_for_pinned (params : gmap string string) (body : string) : Prop :=
  ∃ perms repos,
    body = render (JObj (("permissions", JObj ((λ kv, (kv.1, JStr kv.2)) <$> perms))
                         :: match repos with [] => [] | _ => [("repositories", JArr (JStr <$> repos))] end))
    ∧ perms ≠ [] ∧ NoDup perms.*1
    ∧ (∀ k v, (k, v) ∈ perms ↔ permission_pinned (default "" (params !! "permissions")) k v)
    ∧ (∀ r, r ∈ repos ↔ repository_pinned (default "" (params !! "repositories")) r).

Lemma gh_payload_pinned params (perms := parsePermissions (default "" (params !! "permissions"))) :
  perms ≠ ∅ → asks_for_pinned params (render (gh_payload perms (parseList (default "" (params !! "repositories"))))).
Proof.
  intros Hne. exists (sorted_entries perms), (parseList (default "" (params !! "repositories"))). split; [done|]. split_and!.
  - intros E. apply Hne, map_empty. intros k. destruct (perms !! k) as [v|] eqn:Ek; [|done].
    apply sorted_entries_elem in Ek. rewrite E in Ek. by apply elem_of_nil in Ek.
  - apply sorted_entries_NoDup.
  - intros k v. rewrite sorted_entries_elem. apply parsePermissions_spec.
  - intros r. apply parseList_spec.
Qed.

Section Upstream.
Context {X : Externals}.

(** C17: Whatever the reference, the parameters and the answers, every request
    the 1Password provider sends while fetching is a GET of
    [base/v1/vaults/V/items/I] where [vaults/V/items/I] is the reference and [V]
    and [I] are 26 lower-case letters or digits; every request the GitHub
    provider sends is a POST to [base/app/installations/N/access_tokens] where
    [installations/N] is the reference and [N] is digits, and its body is the JSON
    of an object that asks for exactly the permissions the scope's parameters
    spell out ([k=v] entries, the last one for a name counting), at least one, and
    for exactly the repositories they list, when they list any. *)
Theorem upstream_requests_confined o g req :
  all_actions (sends (λ r, hq_Method r = "GET" ∧ ∃ v i, q_Ref req = "vaults/" +:+ v +:+ "/items/" +:+ i
      ∧ op_id v ∧ op_id i ∧ hq_URL r = (op_base o) +:+ "/v1/vaults/" +:+ v +:+ "/items/" +:+ i))
    (pv_Fetch (OnePassword_provider o) req)
  ∧ all_actions (sends (λ r, hq_Method r = "POST" ∧ ∃ n, q_Ref req = "installations/" +:+ n
      ∧ n ≠ "" ∧ Forall (λ c, d09 c = true) (chars n)
      ∧ hq_URL r = (gh_base g) +:+ "/app/installations/" +:+ n +:+ "/access_tokens"
      ∧ asks_for_pinned (q_Params req) (hq_Body r)))
    (pv_Fetch (GitHubApp_provider g) req).
Proof.
  split; cbn [pv_Fetch OnePassword_provider GitHubApp_provider].
  - unfold op_Fetch. destruct (op_submatch (q_Ref req)) as [[v i]|] eqn:E; [|exact I].
    apply op_submatch_spec in E as (Hr & [Hlv Hv] & [Hli Hi]). walk; try exact I.
    split; [done|]. exists v, i. unfold op_url. cbn. by rewrite !PathEscape_id.
  - unfold gh_Fetch. destruct (gh_submatch (q_Ref req)) as [n|] eqn:E; [|exact I].
    apply gh_submatch_spec in E as (Hr & Hn & Hd). cbv zeta.
    destruct (bool_decide _) eqn:Ep; [exact I|]. apply bool_decide_eq_false in Ep.
    walk; try exact I. split; [done|]. exists n. split_and!; try done. by apply gh_payload_pinned.
Qed.

(** The texts of a scope's parameters and what they pin. *)
Example pinned_example :
  sorted_entries (parsePermissions " contents=read, issues = write,contents=write,bad") = [("contents", "write"); ("issues", "write")]
  ∧ parseList "web, ,api" = ["web"; "api"].
Proof. by vm_compute. Qed.

(** C18: No partial secrets, for both providers, whatever the upstream answers and
    whatever runs concurrently: a fetch that succeeds gives a non-empty value to
    exactly the requested lease fields; for the static provider the result has no
    expiry, for the GitHub provider it has one. *)
Theorem fetch_all_or_nothing o g req w w' r p :
  (p = OnePassword_provider o ∨ p = GitHubApp_provider g) →
  runs (pv_Fetch p req) w (Ok r) w' →
  dom (rs_Secret r) = dom (q_Fields req) ∧ map_Forall (λ _ v, v ≠ "") (rs_Secret r)
  ∧ (rs_ExpiresAt r = zeroTime ↔ p = OnePassword_provider o).
Proof.
  intros Hp H. assert (Hl : ProviderLaws p) by (destruct Hp as [-> | ->]; apply _).
  destruct (fetch_complete req w w' r H) as [H1 H2]. split_and!; [done..|].
  destruct (fetch_expiry req w w' r H) as [[Hs He]|[Hs He]]; destruct Hp as [-> | ->]; try discriminate Hs; done.
Qed.

End Upstream.
