(* ===== verification/Server.v ===== *)
(** * The HTTP API (internal/server: server.go, handlers.go, problem.go)

    The configuration, the responses with their JSON bodies, the middleware and
    every handler of the [/v1] API, as programs over the shared state of
    [World].  A request body is the text the client sent; decoding follows
    package encoding/json under the body limit.  [Panic] is a nil dereference. *)

From S2P Require Import Prelude GoStrings GoTime Float64 Encoding RateLimit LeaseStore Json AuditStream Metrics Policy World Provider.
From Stdlib Require Import Ascii QArith.
Local Open Scope Z_scope.
Local Open Scope stdpp_scope.

(** ** Configuration (server.go) *)

Record Config := mkConfig {
  LeaseRatePerMinute : float64;
  LeaseBurst : Z;
  ClaimRatePerMinute : float64;
  ClaimBurst : Z;
  MaxBodyBytes : Z;
  MaxContextBytes : Z;
  MaxClaimBytes : Z;
  MaxClaimsPerReq : Z
}.

Definition or_default (z d : Z) : Z := if z =? 0 then d else z.
Definition or_defaultf (q d : float64) : float64 := if Qeq_bool q 0 then d else q.

Definition applyDefaults (c : Config) : Config :=
  mkConfig (or_defaultf (LeaseRatePerMinute c) 10%Q) (or_default (LeaseBurst c) 10)
    (or_defaultf (ClaimRatePerMinute c) 60%Q) (or_default (ClaimBurst c) 60)
    (or_default (MaxBodyBytes c) (Z.shiftl 128 10)) (or_default (MaxContextBytes c) (Z.shiftl 4 10))
    (or_default (MaxClaimBytes c) (Z.shiftl 2 10)) (or_default (MaxClaimsPerReq c) 50).

(** The immutable part of a [Server]; the rest is the [world]. *)
Record Server := mkServer {
  sv_cfg : Config;
  sv_authn : string → prog (option Subject);
  sv_providers : gmap string Provider
}.

(** [New(cfg, ...)]: the server and the initial shared state. *)
Definition New (cfg : Config) (authn : string → prog (option Subject)) (providers : gmap string Provider)
    (policy : Policy) (sum : string) (emitter : Emitter) (metrics : Metrics) : Server * world :=
  let cfg := applyDefaults cfg in
  (mkServer cfg authn providers,
   mkWorld policy sum NewStore (NewLimiter (LeaseRatePerMinute cfg) (LeaseBurst cfg))
     (NewLimiter (ClaimRatePerMinute cfg) (ClaimBurst cfg)) (NewLimiter 1%Q 1) (NewLimiter 1%Q 1)
     NewByteBudget emitter metrics).

(** ** Responses (problem.go and the response types of handlers.go) *)

Definition errBase : string := "https://agent-cred-broker.dev/errors/".
Definition ProblemUnauthenticated : string := errBase +:+ "unauthenticated".
Definition ProblemGrantDenied : string := errBase +:+ "grant-denied".
Definition ProblemOutsideWindow : string := errBase +:+ "outside-issue-window".
Definition ProblemLeaseNotFound : string := errBase +:+ "lease-not-found".
Definition ProblemLeaseForbidden : string := errBase +:+ "lease-forbidden".
Definition ProblemLeaseConflict : string := errBase +:+ "lease-conflict".
Definition ProblemBadRequest : string := errBase +:+ "bad-request".
Definition ProblemRateLimited : string := errBase +:+ "rate-limited".
Definition ProblemProviderFailure : string := errBase +:+ "provider-failure".
Definition ProblemAuditUnavailable : string := errBase +:+ "audit-unavailable".

Record problem := mkProblem {
  pb_Type : string;
  pb_Title : string;
  pb_Status : Z;
  pb_Detail : string;
  pb_RequestID : string
}.

Record leaseResponse := mkLeaseResponse {
  lr_LeaseID : string;
  lr_Scope : string;
  lr_IssuedAt : string;
  lr_ExpiresAt : string;
  lr_UpstreamExpiresAt : string;
  lr_Renewable : bool;
  lr_Semantics : string;
  lr_Secret : gmap string string
}.

Record windowOut := mkWindowOut { wo_Cron : string; wo_Duration : string }.
Record grantOut := mkGrantOut {
  go_Scope : string;
  go_TTLDefaultSeconds : Z;
  go_TTLMaxSeconds : Z;
  go_Renewable : bool;
  go_IssueWindows : list windowOut
}.

Inductive Body :=
| BProblem (p : problem)
| BLease (l : leaseResponse)
| BClaimIDs (ids : list string)
| BWhoami (s : Subject) (gs : list grantOut)
| BKeys (kid public_key : string)
| BEmpty.

Record Response := mkResponse { rp_Status : Z; rp_NoStore : bool; rp_Body : Body }.

Inductive outcome := Reply (r : Response) | Panic.

(** Views of an outcome. *)
Definition status_of (o : outcome) : Z := match o with Reply r => rp_Status r | Panic => -1 end.
Definition secret_of (o : outcome) : gmap string string :=
  match o with Reply (mkResponse _ _ (BLease l)) => lr_Secret l | _ => ∅ end.
Lemma secret_body r : secret_of (Reply r) ≠ ∅ → ∃ l, rp_Body r = BLease l ∧ lr_Secret l ≠ ∅.
Proof. destruct r as [st ns [p|l|ids|s gs|k pk|]]; cbn; try done. eauto. Qed.

Definition reply_of (o : outcome) : Response :=
  match o with Reply r => r | Panic => mkResponse 0 false BEmpty end.

Definition writeProblem (status : Z) (typ title detail requestID : string) : outcome :=
  Reply (mkResponse status false (BProblem (mkProblem typ title status detail requestID))).
Definition writeJSON (status : Z) (b : Body) : outcome := Reply (mkResponse status false b).
Definition writeHeader (status : Z) : outcome := Reply (mkResponse status false BEmpty).

Definition problem_json (p : problem) : jv :=
  JObj ([("type", JStr (pb_Type p)); ("title", JStr (pb_Title p)); ("status", JInt (pb_Status p))]
        ++ omitempty "detail" (pb_Detail p) ++ omitempty "request_id" (pb_RequestID p)).

Definition lease_json (l : leaseResponse) : jv :=
  JObj ([("lease_id", JStr (lr_LeaseID l)); ("scope", JStr (lr_Scope l));
         ("issued_at", JStr (lr_IssuedAt l)); ("expires_at", JStr (lr_ExpiresAt l))]
        ++ omitempty "upstream_expires_at" (lr_UpstreamExpiresAt l)
        ++ [("renewable", JBool (lr_Renewable l)); ("semantics", JStr (lr_Semantics l))]
        ++ map_field "secret" JStr (lr_Secret l)).

Definition window_json (x : windowOut) : jv :=
  JObj [("cron", JStr (wo_Cron x)); ("duration", JStr (wo_Duration x))].
Definition grant_json (g : grantOut) : jv :=
  JObj ([("scope", JStr (go_Scope g)); ("ttl_default_seconds", JInt (go_TTLDefaultSeconds g));
         ("ttl_max_seconds", JInt (go_TTLMaxSeconds g)); ("renewable", JBool (go_Renewable g))]
        ++ match go_IssueWindows g with [] => [] | ws => [("issue_windows", JArr (window_json <$> ws))] end).

(** The response body; a map literal is written in key order. *)
Definition body_json (b : Body) : option jv :=
  match b with
  | BProblem p => Some (problem_json p)
  | BLease l => Some (lease_json l)
  | BClaimIDs ids => Some (JObj [("claim_ids", JArr (JStr <$> ids))])
  | BWhoami s gs => Some (JObj [("grants", JArr (grant_json <$> gs)); ("subject", subject_json s)])
  | BKeys kid pk =>
    Some (JObj [("keys", JArr [JObj [("alg", JStr "Ed25519"); ("kid", JStr kid); ("public_key", JStr pk)]])])
  | BEmpty => None
  end.

(** ** Requests *)

Record leaseRequest := mkLeaseRequest {
  rq_Scope : string;
  rq_TTLSeconds : Z;
  rq_Context : option (gmap string string)
}.

Definition dec_leaseRequest (v : jv) : option leaseRequest :=
  dec_struct ["scope"; "ttl_seconds"; "context"] (λ n v r,
    if bool_decide (n = "scope") then s ← dec_string v (rq_Scope r); Some (mkLeaseRequest s (rq_TTLSeconds r) (rq_Context r))
    else if bool_decide (n = "ttl_seconds") then z ← dec_int64 v (rq_TTLSeconds r); Some (mkLeaseRequest (rq_Scope r) z (rq_Context r))
    else m ← dec_strmap v (rq_Context r); Some (mkLeaseRequest (rq_Scope r) (rq_TTLSeconds r) m))
    v (mkLeaseRequest "" 0 None).

Definition dec_renewRequest (v : jv) : option Z :=
  dec_struct ["ttl_seconds"] (λ _ v z, dec_int64 v z) v 0.

Record claimsRequest := mkClaimsRequest {
  cr_LeaseID : string;
  cr_Claims : slice (option (gmap string string))
}.

Definition dec_claimsRequest (v : jv) : option claimsRequest :=
  dec_struct ["lease_id"; "claims"] (λ n v r,
    if bool_decide (n = "lease_id") then s ← dec_string v (cr_LeaseID r); Some (mkClaimsRequest s (cr_Claims r))
    else l ← dec_slice dec_strmap None v (cr_Claims r); Some (mkClaimsRequest (cr_LeaseID r) l))
    v (mkClaimsRequest "" nil_slice).

(** What the middleware puts in the request context, with the body. *)
Record Ctx := mkCtx { cx_sub : Subject; cx_reqID : string; cx_src : Source; cx_body : string }.

Definition sub_key (c : Ctx) : string := Key (cx_sub c).

(** [len(json.Marshal(m))] *)
Definition marshal_len (m : option (gmap string string)) : Z := slen (render (JStrMap m)).

(** ** Handlers *)

Definition leaseMeta (l : Lease) : leaseResponse :=
  mkLeaseResponse (l_ID l) (l_Scope l) (FormatRFC3339 (l_IssuedAt l)) (FormatRFC3339 (l_ExpiresAt l)) ""
    (l_Renewable l) (l_Semantics l) ∅.

(** The clamp is done on integer seconds; the product is an [int64]. *)
Definition clampTTL (requested : Z) (g : Grant) : option Duration :=
  if requested <? 0 then None
  else if requested =? 0 then Some (g_TTLDefault g)
  else
    let maxSeconds := dur_div (g_TTLMax g) Second in
    let r := if maxSeconds <? requested then maxSeconds else requested in
    Some (dur_mul r Second).

(** [s.metrics.Inc(name, labels)] *)
Definition inc (name : string) (labels : gmap string string) : prog () := act (MetricAdd name labels 1%Q).

Definition auditFailClosed (reqID : string) : prog outcome :=
  _ ← inc "acb_audit_write_errors_total" ∅;
  Ret (writeProblem 500 ProblemAuditUnavailable "audit event could not be written; request failed closed" "" reqID).

Definition rateLimited (c : Ctx) (endpoint title : string) : prog outcome :=
  _ ← inc "acb_rate_limited_total" {["subject" := sub_key c]};
  ok ← act (LimiterAllow LimAudit (sub_key c));
  _ ← (if (ok : bool) then
         pol ← act CurrentPolicy;
         _ ← act (EmitEvent (newEvent TypeLeaseDenied (cx_reqID c) (Some (cx_sub c)) (Some (cx_src c))
              {["reason" := AStr "rate-limited"; "decision" := AStr "denied"; "aggregated" := ABool true;
                "endpoint" := AStr endpoint; "policy_hash" := AStr (p_Hash pol)]} None));
         Ret ()
       else Ret ());
  Ret (writeProblem 429 ProblemRateLimited title "" (cx_reqID c)).

(** The [deny] closure of [handleLeaseCreate]. *)
Definition deny (c : Ctx) (pol : Policy) (req : leaseRequest) (scope : option Scope)
    (status : Z) (problemType title auditReason : string) : prog outcome :=
  let scopeLabel := match scope with Some s => sc_Name s | None => "<unknown>" end in
  let attested : gmap string aval :=
    {["requested_scope" := AStr (rq_Scope req); "decision" := AStr "denied";
      "reason" := AStr auditReason; "policy_hash" := AStr (p_Hash pol)]} in
  let attested := match scope with Some s => <["scope" := AStr (sc_Name s)]> attested | None => attested end in
  _ ← inc "acb_leases_denied_total" {["subject" := sub_key c; "scope" := scopeLabel; "reason" := auditReason]};
  _ ← act (EmitEvent (newEvent TypeLeaseDenied (cx_reqID c) (Some (cx_sub c)) (Some (cx_src c)) attested (rq_Context req)));
  Ret (writeProblem status problemType title "" (cx_reqID c)).

Definition bad_request (c : Ctx) (title : string) : prog outcome :=
  Ret (writeProblem 400 ProblemBadRequest title "" (cx_reqID c)).

(** The provider's own expiry, as text; empty for static material. *)
Definition upstream_text (result : Result) : string :=
  if IsZero (rs_ExpiresAt result) then "" else FormatRFC3339 (rs_ExpiresAt result).

(** The attested facts of a [lease.issued] event. *)
Definition issued_attested (pol : Policy) (l : Lease) (ttl : Duration) (upstreamExpiry : string) : gmap string aval :=
  let attested : gmap string aval :=
    {["scope" := AStr (l_Scope l); "lease_id" := AStr (l_ID l); "ttl_seconds" := AInt (f_trunc (Seconds ttl));
      "expires_at" := AStr (FormatRFC3339 (l_ExpiresAt l)); "decision" := AStr "issued";
      "semantics" := AStr (l_Semantics l); "policy_hash" := AStr (p_Hash pol)]} in
  if bool_decide (upstreamExpiry = "") then attested
  else <["upstream_expires_at" := AStr upstreamExpiry]> attested.

Definition issued_event (c : Ctx) (pol : Policy) (req : leaseRequest) (l : Lease) (ttl : Duration)
    (upstreamExpiry : string) : Event :=
  newEvent TypeLeaseIssued (cx_reqID c) (Some (cx_sub c)) (Some (cx_src c))
    (issued_attested pol l ttl upstreamExpiry) (rq_Context req).

(** [leaseMeta] with the upstream expiry and the secret set. *)
Definition issued_response (l : Lease) (upstreamExpiry : string) (secret : gmap string string) : leaseResponse :=
  let m := leaseMeta l in
  mkLeaseResponse (lr_LeaseID m) (lr_Scope m) (lr_IssuedAt m) (lr_ExpiresAt m) upstreamExpiry
    (lr_Renewable m) (lr_Semantics m) secret.

(** The lease is capped by the upstream expiry, when that lies ahead. *)
Definition cap_ttl (ttl : Duration) (result : Result) : prog Duration :=
  if IsZero (rs_ExpiresAt result) then Ret ttl
  else
    now ← act Now;
    let capped := tSub (rs_ExpiresAt result) now in
    Ret (if (0 <? capped) && (capped <? ttl) then capped else ttl).

(** The issuance itself, once the provider has answered. *)
Definition issue (c : Ctx) (pol : Policy) (req : leaseRequest) (grant : Grant) (prov : Provider)
    (ttl : Duration) (result : Result) : prog outcome :=
  let upstreamExpiry := upstream_text result in
  ttl ← cap_ttl ttl result;
  l ← act (LeaseCreate (sub_key c) (rq_Scope req) (pv_Semantics prov) ttl (g_Renewable grant));
  r ← act (EmitEvent (issued_event c pol req l ttl upstreamExpiry));
  match r with
  | Err _ =>
    _ ← act (LeaseRemove (l_ID l));
    auditFailClosed (cx_reqID c)
  | Ok _ =>
    _ ← inc "acb_leases_issued_total" {["subject" := sub_key c; "scope" := l_Scope l]};
    Ret (Reply (mkResponse 201 true (BLease (issued_response l upstreamExpiry (rs_Secret result)))))
  end.

Definition handleLeaseCreate (sv : Server) (c : Ctx) : prog outcome :=
  pol ← act CurrentPolicy;
  ok ← act (LimiterAllow LimLease (sub_key c));
  if negb ok then rateLimited c "leases" "lease rate limit exceeded"
  else match dbind (decode_stream (MaxBodyBytes (sv_cfg sv)) (cx_body c)) dec_leaseRequest with
  | DOk req =>
    if bool_decide (rq_Scope req = "") then bad_request c "invalid request body"
    else if MaxContextBytes (sv_cfg sv) <? marshal_len (rq_Context req) then bad_request c "context exceeds size limit"
    else
      let scope := scopeOf pol (rq_Scope req) in
      match grantOf pol (sub_key c) (rq_Scope req) with
      | None =>
        deny c pol req scope 403 ProblemGrantDenied "no grant for scope"
          (match scope with Some _ => "no-grant" | None => "unknown-scope" end)
      | Some grant =>
        now ← act Now;
        match WindowOpen grant now with
        | None => Ret Panic
        | Some false => deny c pol req scope 403 ProblemOutsideWindow "outside issuance window" "outside-window"
        | Some true =>
          match clampTTL (rq_TTLSeconds req) grant with
          | None => bad_request c "ttl_seconds must be non-negative"
          | Some ttl =>
            match scope with
            | None => Ret Panic
            | Some s =>
              match sv_providers sv !! sc_Provider s with
              | None => deny c pol req scope 502 ProblemProviderFailure "secret provider unavailable" "provider-unconfigured"
              | Some prov =>
                fetchStart ← act Now;
                result ← pv_Fetch prov (mkRequest (sc_Ref s) (sc_Fields s) (sc_Params s) ttl);
                fetchEnd ← act Now;
                _ ← act (MetricAdd "acb_provider_duration_seconds_sum" {["provider" := sc_Provider s]}
                           (Seconds (tSub fetchEnd fetchStart)));
                _ ← inc "acb_provider_duration_seconds_count" {["provider" := sc_Provider s]};
                match result with
                | Err _ =>
                  _ ← inc "acb_provider_errors_total" {["provider" := sc_Provider s]};
                  deny c pol req scope 502 ProblemProviderFailure "secret provider failure" "provider-error"
                | Ok result => issue c pol req grant prov ttl result
                end
              end
            end
          end
        end
      end
  | _ => bad_request c "invalid request body"
  end.

Definition not_found (c : Ctx) : prog outcome :=
  Ret (writeProblem 404 ProblemLeaseNotFound "no such lease" "" (cx_reqID c)).
Definition not_yours (c : Ctx) : prog outcome :=
  Ret (writeProblem 403 ProblemLeaseForbidden "not your lease" "" (cx_reqID c)).
Definition conflict (c : Ctx) (title : string) : prog outcome :=
  Ret (writeProblem 409 ProblemLeaseConflict title "" (cx_reqID c)).

(** The [ttl_seconds] of a renewal: an empty body means zero. *)
Definition renew_ttl (sv : Server) (c : Ctx) : option Z :=
  match dbind (decode_stream (MaxBodyBytes (sv_cfg sv)) (cx_body c)) dec_renewRequest with
  | DOk z => Some z
  | DEOF => Some 0
  | DErr => None
  end.

Definition renewed_event (c : Ctx) (pol : Policy) (l : Lease) : Event :=
  newEvent TypeLeaseRenewed (cx_reqID c) (Some (cx_sub c)) (Some (cx_src c))
    {["scope" := AStr (l_Scope l); "lease_id" := AStr (l_ID l);
      "expires_at" := AStr (FormatRFC3339 (l_ExpiresAt l)); "policy_hash" := AStr (p_Hash pol)]} None.

Definition handleLeaseRenew (sv : Server) (c : Ctx) (id : string) : prog outcome :=
  ok ← act (LimiterAllow LimLease (sub_key c));
  if negb ok then rateLimited c "leases" "lease rate limit exceeded"
  else
    existing ← act (LeaseGet id);
    match existing with
    | None => not_found c
    | Some existing =>
      if negb (bool_decide (l_SubjectKey existing = sub_key c)) then not_yours c
      else
        pol ← act CurrentPolicy;
        match grantOf pol (sub_key c) (l_Scope existing) with
        | None => conflict c "lease not renewable"
        | Some grant =>
          if negb (g_Renewable grant) then conflict c "lease not renewable"
          else match renew_ttl sv c with
          | None => bad_request c "invalid request body"
          | Some seconds =>
            match clampTTL seconds grant with
            | None => bad_request c "ttl_seconds must be non-negative"
            | Some ttl =>
              '(l, out) ← act (LeaseRenew id ttl);
              if negb (bool_decide (out = "")) then conflict c ("lease " +:+ out)
              else match l with
              | None => Ret Panic
              | Some l =>
                r ← act (EmitEvent (renewed_event c pol l));
                match r with
                | Err _ => _ ← act (LeaseSurrender id); auditFailClosed (cx_reqID c)
                | Ok _ => Ret (writeJSON 200 (BLease (leaseMeta l)))
                end
              end
            end
          end
        end
    end.

Definition handleLeaseSurrender (sv : Server) (c : Ctx) (id : string) : prog outcome :=
  ok ← act (LimiterAllow LimLease (sub_key c));
  if negb ok then rateLimited c "leases" "lease rate limit exceeded"
  else
    existing ← act (LeaseGet id);
    match existing with
    | None => not_found c
    | Some existing =>
      if negb (bool_decide (l_SubjectKey existing = sub_key c)) then not_yours c
      else if l_Surrendered existing then Ret (writeHeader 204)
      else
        pol ← act CurrentPolicy;
        r ← act (EmitEvent (newEvent TypeLeaseSurrendered (cx_reqID c) (Some (cx_sub c)) (Some (cx_src c))
              {["scope" := AStr (l_Scope existing); "lease_id" := AStr (l_ID existing);
                "policy_hash" := AStr (p_Hash pol)]} None));
        match r with
        | Err _ => auditFailClosed (cx_reqID c)
        | Ok _ => _ ← act (LeaseSurrender id); Ret (writeHeader 204)
        end
    end.

Definition handleLeaseGet (c : Ctx) (id : string) : prog outcome :=
  l ← act (LeaseGet id);
  match l with
  | None => not_found c
  | Some l =>
    if negb (bool_decide (l_SubjectKey l = sub_key c)) then not_yours c
    else Ret (writeJSON 200 (BLease (leaseMeta l)))
  end.

(** The size loop: the total, or an entry over the limit. *)
Fixpoint claim_bytes (limit : Z) (claims : list (option (gmap string string))) (total : Z) : option Z :=
  match claims with
  | [] => Some total
  | m :: claims' =>
    if limit <? marshal_len m then None else claim_bytes limit claims' (wrap64 (total + marshal_len m))
  end.

Definition claim_event (c : Ctx) (leaseID id : string) (m : option (gmap string string)) : Event :=
  let attested : gmap string aval := {["claim_id" := AStr id]} in
  let attested := if bool_decide (leaseID = "") then attested else <["lease_id" := AStr leaseID]> attested in
  newEvent TypeClaimRecorded (cx_reqID c) (Some (cx_sub c)) (Some (cx_src c)) attested m.

(** The recording loop, [ids] the identifiers so far. *)
Fixpoint record_claims (c : Ctx) (leaseID : string) (claims : list (option (gmap string string)))
    (ids : list string) : prog outcome :=
  match claims with
  | [] =>
    _ ← inc "acb_claims_recorded_total" {["subject" := sub_key c]};
    Ret (writeJSON 202 (BClaimIDs ids))
  | m :: claims' =>
    b ← act (Rand 13);
    let id := NewID "claim" b in
    r ← act (EmitEvent (claim_event c leaseID id m));
    match r with
    | Err _ => auditFailClosed (cx_reqID c)
    | Ok _ => record_claims c leaseID claims' (ids ++ [id])
    end
  end.

Definition handleClaims (sv : Server) (c : Ctx) : prog outcome :=
  ok ← act (LimiterAllow LimClaim (sub_key c));
  if negb ok then rateLimited c "claims" "claim rate limit exceeded"
  else match dbind (decode_stream (MaxBodyBytes (sv_cfg sv)) (cx_body c)) dec_claimsRequest with
  | DOk req =>
    let claims := elems (cr_Claims req) in
    let n := Z.of_nat (length claims) in
    if (n =? 0) || (MaxClaimsPerReq (sv_cfg sv) <? n)
    then bad_request c ("claims must contain 1-" +:+ (itoa (MaxClaimsPerReq (sv_cfg sv))) +:+ " entries")
    else match claim_bytes (MaxClaimBytes (sv_cfg sv)) claims 0 with
    | None => bad_request c "claim entry exceeds size limit"
    | Some totalBytes =>
      held ← (if bool_decide (cr_LeaseID req = "") then Ret true
              else l ← act (LeaseGet (cr_LeaseID req));
                   Ret (match l with Some l => bool_decide (l_SubjectKey l = sub_key c) | None => false end));
      if negb held
      then Ret (writeProblem 403 ProblemLeaseForbidden "lease not held by caller" "" (cx_reqID c))
      else
        pol ← act CurrentPolicy;
        ok ← act (BudgetSpend (sub_key c) totalBytes (ClaimBytesCap pol (sub_key c)));
        if negb ok then
          _ ← inc "acb_rate_limited_total" {["subject" := sub_key c]};
          Ret (writeProblem 429 ProblemRateLimited "daily claim-bytes cap exceeded" "" (cx_reqID c))
        else record_claims c (cr_LeaseID req) claims []
    end
  | _ => bad_request c "invalid request body"
  end.

Definition grant_out (g : Grant) : grantOut :=
  mkGrantOut (g_Scope g) (f_trunc (Seconds (g_TTLDefault g))) (f_trunc (Seconds (g_TTLMax g))) (g_Renewable g)
    ((λ iw, mkWindowOut (iw_Cron iw) (dur_String (iw_Duration iw))) <$> g_IssueWindows g).

Definition handleWhoami (c : Ctx) : prog outcome :=
  pol ← act CurrentPolicy;
  Ret (writeJSON 200 (BWhoami (cx_sub c) (grant_out <$> GrantsFor pol (sub_key c)))).

Definition handleVerifyKey (signer : Signer) : prog outcome :=
  Ret (writeJSON 200 (BKeys (sg_kid signer) (PublicBase64 signer))).

(** One event per lease the sweep reports; failures to write are ignored. *)
Fixpoint emit_expired (polHash : string) (ls : list Lease) : prog () :=
  match ls with
  | [] => Ret ()
  | l :: ls' =>
    let '(ns, sa, _) := Cut (l_SubjectKey l) "/"%char in
    _ ← act (EmitEvent (newEvent TypeLeaseExpired "" (Some (mkSubject ns sa "" "")) None
          {["scope" := AStr (l_Scope l); "lease_id" := AStr (l_ID l);
            "expired_at" := AStr (FormatRFC3339 (l_ExpiresAt l)); "policy_hash" := AStr polHash]} None));
    emit_expired polHash ls'
  end.

Definition SweepExpiredLeases (retain : Duration) : prog () :=
  pol ← act CurrentPolicy;
  ls ← act (LeaseSweep retain);
  emit_expired (p_Hash pol) ls.

(** ** Middleware (server.go) *)

(** The parts of a request the middleware looks at. *)
Record HttpIn := mkHttpIn {
  hi_Method : string;
  hi_Path : list string; (* the segments of the cleaned path, decoded *)
  hi_RemoteAddr : string;
  hi_UserAgent : string;
  hi_Authorization : string;
  hi_Body : string
}.

Definition recordAuthFailure (src : Source) (reqID reason : string) : prog () :=
  _ ← inc "acb_auth_failures_total" ∅;
  ok ← act (LimiterAllow LimAuthFail (src_IP src));
  if negb ok then Ret ()
  else
    _ ← act (EmitEvent (newEvent TypeAuthFailed reqID None (Some src)
          {["reason" := AStr reason; "aggregated" := ABool true]} None));
    Ret ().

Definition withAuth (sv : Server) (next : Ctx → prog outcome) (src : Source) (reqID : string) (r : HttpIn)
  : prog outcome :=
  match CutPrefix (hi_Authorization r) "Bearer " with
  | None | Some "" =>
    _ ← recordAuthFailure src reqID "missing-bearer";
    Ret (writeProblem 401 ProblemUnauthenticated "missing or malformed Authorization header" "" reqID)
  | Some token =>
    sub ← sv_authn sv token;
    match sub with
    | None =>
      _ ← recordAuthFailure src reqID "token-rejected";
      Ret (writeProblem 401 ProblemUnauthenticated "token rejected" "" reqID)
    | Some sub => next (mkCtx sub reqID src (hi_Body r))
    end
  end.

(** [net.SplitHostPort]: the host part. *)
Definition has_b (b : Ascii.ascii) (s : string) : bool := bool_decide (b ∈ chars s).
Definition SplitHostPort (s : string) : option string :=
  match s with
  | String "[" rest =>
    match Cut rest "]"%char with
    | (host, String ":" port as after, true) =>
      if has_b ":" port || has_b "[" rest || has_b "]" after then None else Some host
    | _ => None
    end
  | _ =>
    let '(host, port, ok) := Cut s ":"%char in
    if negb ok || has_b ":" port || has_b "[" s || has_b "]" s then None else Some host
  end.

Definition withRequestID (next : Source → string → HttpIn → prog outcome) (r : HttpIn) : prog outcome :=
  b ← act (Rand 8);
  let id := "req_" +:+ (hex_encode b) in
  let ip := default (hi_RemoteAddr r) (SplitHostPort (hi_RemoteAddr r)) in
  next (mkSource ip (hi_UserAgent r)) id r.

(** The routes of [Handler]; the mux answers anything else itself. *)
Inductive route := RCreate | RRenew (id : string) | RSurrender (id : string) | RGet (id : string) | RClaims | RWhoami.

Definition route_of (method : string) (path : list string) : option route :=
  match path with
  | ["v1"; "leases"] => if bool_decide (method = "POST") then Some RCreate else None
  | ["v1"; "leases"; id; "renew"] => if bool_decide (method = "POST") then Some (RRenew id) else None
  | ["v1"; "leases"; id] =>
    if bool_decide (method = "DELETE") then Some (RSurrender id)
    else if bool_decide (method = "GET") || bool_decide (method = "HEAD") then Some (RGet id) else None
  | ["v1"; "claims"] => if bool_decide (method = "POST") then Some RClaims else None
  | ["v1"; "whoami"] => if bool_decide (method = "GET") || bool_decide (method = "HEAD") then Some RWhoami else None
  | _ => None
  end.

Definition dispatch (sv : Server) (rt : route) (c : Ctx) : prog outcome :=
  match rt with
  | RCreate => handleLeaseCreate sv c
  | RRenew id => handleLeaseRenew sv c id
  | RSurrender id => handleLeaseSurrender sv c id
  | RGet id => handleLeaseGet c id
  | RClaims => handleClaims sv c
  | RWhoami => handleWhoami c
  end.

(** The mux's own answer: the path exists for another method, or not at all. *)
Definition mux_miss (path : list string) : Z :=
  if existsb (λ m, match route_of m path with Some _ => true | None => false end) ["POST"; "DELETE"; "GET"]
  then 405 else 404.

(** [s.Handler()] *)
Definition Handler (sv : Server) (r : HttpIn) : prog outcome :=
  withRequestID (λ src id r,
    withAuth sv (λ c,
      match route_of (hi_Method r) (hi_Path r) with
      | Some rt => dispatch sv rt c
      | None => Ret (writeHeader (mux_miss (hi_Path r)))
      end) src id r) r.
