(* ===== verification/NotifyServer.v ===== *)
(** * The Home Assistant notify proxy (internal/notify: server.go, ha.go, lease.go, problem.go)

    The proxy's three notification routes as programs over the same actions as
    the broker's handlers: it leases the Home Assistant token from the broker,
    makes one call and forgets the token.  Of the shared state a proxy process
    uses its limiters, its emitter and its metrics; its policy is fixed at start.
    The order in which Go's [range] visits a map is the argument [range_keys]. *)

From S2P Require Import Prelude GoStrings GoTime Float64 Encoding RateLimit Regex Json AuditStream Metrics World Provider Server.
From S2P Require Import NotifyPolicy.
From Stdlib Require Import Ascii QArith.
Local Open Scope Z_scope.
Local Open Scope stdpp_scope.

(** ** Responses (problem.go) *)

Definition errBase : string := "https://agent-cred-broker.dev/errors/".
Definition ProblemUnauthenticated : string := errBase +:+ "unauthenticated".
Definition ProblemGrantDenied : string := errBase +:+ "grant-denied".
Definition ProblemBadRequest : string := errBase +:+ "bad-request".
Definition ProblemRateLimited : string := errBase +:+ "rate-limited".
Definition ProblemUpstreamFailure : string := errBase +:+ "upstream-failure".

Record problem := mkProblem {
  nb_Type : string; nb_Title : string; nb_Status : Z; nb_Detail : string; nb_RequestID : string }.

Inductive Body :=
| NProblem (p : problem)
| NDelivered (request_id : string)
| NEmpty.

Record Response := mkResponse { nr_Status : Z; nr_NoStore : bool; nr_Body : Body }.

Definition writeProblem (status : Z) (typ title detail requestID : string) : Response :=
  mkResponse status false (NProblem (mkProblem typ title status detail requestID)).

(** The JSON of a response body. *)
Definition body_json (b : Body) : option jv :=
  match b with
  | NProblem p =>
    Some (JObj ([("type", JStr (nb_Type p)); ("title", JStr (nb_Title p)); ("status", JInt (nb_Status p))]
                ++ omitempty "detail" (nb_Detail p) ++ omitempty "request_id" (nb_RequestID p)))
  | NDelivered id => Some (JObj [("delivered", JBool true); ("request_id", JStr id)])
  | NEmpty => None
  end.

(** ** Home Assistant (ha.go) *)

(** [^[a-z0-9_]+$] *)
Definition haServiceNameRe : re := plus (Cls (λ c, Policy.az09 c || Ascii.eqb "_" c)).

Definition haAllowed (domain service : string) : bool :=
  if bool_decide (domain = "notify") then MatchString haServiceNameRe service
  else if bool_decide (domain = "persistent_notification")
  then bool_decide (service = "create") || bool_decide (service = "dismiss")
  else false.

Record HAClient := mkHAClient { ha_base : string }.
Definition NewHAClient (baseURL : string) : HAClient := mkHAClient (TrimRight baseURL "/").

Definition ha_request (h : HAClient) (token domain service : string) (body : jv) : HttpRequest :=
  mkHttpRequest "POST" ((ha_base h) +:+ "/api/services/" +:+ (PathEscape domain) +:+ "/" +:+ (PathEscape service))
    [bearer token; ("Content-Type", "application/json")] (render body).

(** The status, and whether there was an error; the body is never read. *)
Definition Call (h : HAClient) (token domain service : string) (body : jv) : prog (Z * bool) :=
  if negb (haAllowed domain service) then Ret (0, true)
  else
    resp ← act (HttpDo (ha_request h token domain service body));
    Ret (match resp with None => (0, true) | Some r => (hr_StatusCode r, false) end).

(** ** Leasing the token (lease.go) *)

Record LeaseClient := mkLeaseClient { lc_brokerURL : string; lc_scope : string; lc_roots : option string; lc_tokenFile : string }.

Inductive NewLeaseClientErr := NLReadCA | NLNoCerts.

Definition NewLeaseClient (AppendCertsFromPEM : string → bool) (readFile : string → option string)
    (brokerURL caFile scope tokenFile : string) : res NewLeaseClientErr LeaseClient :=
  let lc roots := mkLeaseClient (TrimRight brokerURL "/") scope roots tokenFile in
  if bool_decide (caFile = "") then Ok (lc None)
  else match readFile caFile with
  | None => Err NLReadCA
  | Some ca => if AppendCertsFromPEM ca then Ok (lc (Some ca)) else Err NLNoCerts
  end.

Record Lease := mkLease { le_Token : string; le_LeaseID : string }.

Definition leaseReq_json (scope : string) (context : gmap string string) : jv :=
  JObj ([("scope", JStr scope)] ++ map_field "context" JStr context).

Record leaseResp := mkLeaseResp { lp_LeaseID : string; lp_Secret : option (gmap string string) }.
Definition dec_leaseResp (v : jv) : option leaseResp :=
  dec_struct ["lease_id"; "secret"] (λ n v r,
    if bool_decide (n = "lease_id") then s ← dec_string v (lp_LeaseID r); Some (mkLeaseResp s (lp_Secret r))
    else m ← dec_strmap v (lp_Secret r); Some (mkLeaseResp (lp_LeaseID r) m)) v (mkLeaseResp "" None).

Definition lease_request (lc : LeaseClient) (own : string) (context : gmap string string) : HttpRequest :=
  mkHttpRequest "POST" ((lc_brokerURL lc) +:+ "/v1/leases")
    [bearer own; ("Content-Type", "application/json")] (render (leaseReq_json (lc_scope lc) context)).

(** The token and the lease id of the broker's answer. *)
Definition read_lease (resp : option HttpResponse) : option Lease :=
  match resp with
  | None => None
  | Some resp =>
    if negb (hr_StatusCode resp =? 201) then None
    else match dbind (decode_body (hr_Body resp)) dec_leaseResp with
    | DOk lr =>
      let tokenVal := default "" (default ∅ (lp_Secret lr) !! "token") in
      if bool_decide (tokenVal = "") || bool_decide (lp_LeaseID lr = "") then None
      else Some (mkLease tokenVal (lp_LeaseID lr))
    | _ => None
    end
  end.

(** [l.Lease(ctx, context)]; the caller does not tell its errors apart. *)
Definition leaseToken (lc : LeaseClient) (context : gmap string string) : prog (option Lease) :=
  tok ← act (ReadFile (lc_tokenFile lc));
  match TrimSpace <$> tok with
  | None => Ret None
  | Some own => resp ← act (HttpDo (lease_request lc own context)); Ret (read_lease resp)
  end.

(** ** The server (server.go) *)

Definition TypeNotifyForwarded : string := "notify.forwarded".
Definition TypeNotifyDenied : string := "notify.denied".
Definition TypeProxyStarted : string := "proxy.started".

Definition allowedPushDataKeys (k : string) : bool :=
  bool_decide (k = "group") || bool_decide (k = "tag") || bool_decide (k = "url").

Record Config := mkConfig { RatePerMinute : float64; Burst : Z; MaxBodyBytes : Z }.
Definition applyDefaults (c : Config) : Config :=
  mkConfig (or_defaultf (RatePerMinute c) 12%Q) (or_default (Burst c) 6) (or_default (MaxBodyBytes c) (Z.shiftl 16 10)).

(** The immutable part of a proxy; the rest is the [world]. *)
Record Server := mkServer {
  nv_cfg : Config;
  nv_policy : Policy;
  nv_authn : string → prog (option Subject);
  nv_ha : HAClient;
  nv_lease : LeaseClient;
  nv_signer : Signer
}.

(** The proxy's per-caller limiter has the place of the broker's lease limiter. *)
Abbreviation LimNotify := LimLease.

(** [New(cfg, ...)]: the server and the initial state of the process; a proxy has
    no leases, no claim budget and no broker policy. *)
Definition New (cfg : Config) (policy : Policy) (authn : string → prog (option Subject)) (ha : HAClient)
    (lease : LeaseClient) (emitter : Emitter) (signer : Signer) (metrics : Metrics) : Server * world :=
  let cfg := applyDefaults cfg in
  (mkServer cfg policy authn ha lease signer,
   mkWorld (Policy.mkPolicy [] [] "" ∅ ∅) "" ∅ (NewLimiter (RatePerMinute cfg) (Burst cfg))
     (NewLimiter 1%Q 1) (NewLimiter 1%Q 1) (NewLimiter 1%Q 1) NewByteBudget emitter metrics).

Definition recordAuthFailure (src : Source) (reqID reason : string) : prog () :=
  _ ← inc "acb_auth_failures_total" ∅;
  ok ← act (LimiterAllow LimAuthFail (src_IP src));
  if negb ok then Ret ()
  else
    _ ← act (EmitEvent (newEvent TypeAuthFailed reqID None (Some src)
          {["reason" := AStr reason; "aggregated" := ABool true]} None));
    Ret ().

(** *** Audit events *)

Definition forwarded_event (sv : Server) (c : Ctx) (kind domain service : string) (status : Z) (delivered : bool)
    (leaseID errClass : string) : Event :=
  let att : gmap string aval :=
    {["kind" := AStr kind; "ha_domain" := AStr domain; "ha_service" := AStr service; "ha_status" := AInt status;
      "delivered" := ABool delivered; "policy_hash" := AStr (np_Hash (nv_policy sv))]} in
  let att := if bool_decide (leaseID = "") then att else <["lease_id" := AStr leaseID]> att in
  let att := if bool_decide (errClass = "") then att else <["error" := AStr errClass]> att in
  newEvent TypeNotifyForwarded (cx_reqID c) (Some (cx_sub c)) (Some (cx_src c)) att None.

Definition denied_event (sv : Server) (c : Ctx) (kind reason : string) (asserted : option (gmap string string)) : Event :=
  newEvent TypeNotifyDenied (cx_reqID c) (Some (cx_sub c)) (Some (cx_src c))
    {["kind" := AStr kind; "reason" := AStr reason; "decision" := AStr "denied";
      "policy_hash" := AStr (np_Hash (nv_policy sv))]} asserted.

Definition throttled_event (sv : Server) (c : Ctx) : Event :=
  newEvent TypeNotifyDenied (cx_reqID c) (Some (cx_sub c)) (Some (cx_src c))
    {["reason" := AStr "rate-limited"; "decision" := AStr "denied"; "aggregated" := ABool true;
      "policy_hash" := AStr (np_Hash (nv_policy sv))]} None.

Definition EmitStarted (sv : Server) : prog () :=
  _ ← act (EmitEvent (newEvent TypeProxyStarted "" None None
        {["policy_hash" := AStr (np_Hash (nv_policy sv)); "kid" := AStr (sg_kid (nv_signer sv));
          "public_key" := AStr (PublicBase64 (nv_signer sv))]} None));
  Ret ().

(** *** Steps of the handlers *)

Definition deny (sv : Server) (c : Ctx) (kind reason : string) (status : Z) (ptype title : string)
    (asserted : option (gmap string string)) : prog Response :=
  _ ← inc "acb_notify_denied_total" {["kind" := kind; "reason" := reason]};
  _ ← act (EmitEvent (denied_event sv c kind reason asserted));
  Ret (writeProblem status ptype title "" (cx_reqID c)).

(** [rateOK], with the handler's continuation. *)
Definition rateOK (sv : Server) (c : Ctx) (next : prog Response) : prog Response :=
  ok ← act (LimiterAllow LimNotify (sub_key c));
  if (ok : bool) then next
  else
    _ ← inc "acb_notify_rate_limited_total" {["subject" := sub_key c]};
    audited ← act (LimiterAllow LimAudit (sub_key c));
    _ ← (if (audited : bool) then _ ← act (EmitEvent (throttled_event sv c)); Ret () else Ret ());
    Ret (writeProblem 429 ProblemRateLimited "notify rate limit exceeded" "" (cx_reqID c)).

Definition lease_context (c : Ctx) (kind domain service : string) : gmap string string :=
  let m : gmap string string :=
    {["originating_agent" := sub_key c; "action" := kind; "ha_service" := domain +:+ "/" +:+ service]} in
  if bool_decide (s_Pod (cx_sub c) = "") then m else <["originating_pod" := s_Pod (cx_sub c)]> m.

Definition forward (sv : Server) (c : Ctx) (kind domain service : string) (haBody : jv) : prog Response :=
  lease ← leaseToken (nv_lease sv) (lease_context c kind domain service);
  match lease with
  | None =>
    _ ← inc "acb_notify_lease_errors_total" ∅;
    _ ← act (EmitEvent (forwarded_event sv c kind domain service 0 false "" "lease-failed"));
    Ret (writeProblem 502 ProblemUpstreamFailure "could not obtain notify credential" "" (cx_reqID c))
  | Some lease =>
    '(status, callErr) ← Call (nv_ha sv) (le_Token lease) domain service haBody;
    let delivered := negb callErr && (200 <=? status) && (status <? 300) in
    let errClass := if (callErr : bool) then "ha-unreachable" else if delivered then "" else "ha-status" in
    _ ← act (EmitEvent (forwarded_event sv c kind domain service status delivered (le_LeaseID lease) errClass));
    if negb delivered then
      _ ← inc "acb_notify_ha_errors_total" {["kind" := kind]};
      Ret (writeProblem 502 ProblemUpstreamFailure "notification not delivered" "" (cx_reqID c))
    else
      _ ← inc "acb_notify_forwarded_total" {["kind" := kind]};
      Ret (mkResponse 201 true (NDelivered (cx_reqID c)))
  end.

(** [idAllowed] *)
Definition idAllowed (sv : Server) (c : Ctx) (kind id : string) : bool :=
  match grantOf (nv_policy sv) (sub_key c) kind with
  | Some g => negb (bool_decide (id = "")) && HasPrefix id (ng_IDPrefix g)
  | None => false
  end.

(** *** Requests *)

Record pushReq := mkPushReq { pr_Title : string; pr_Message : string; pr_Data : option (gmap string string) }.
Definition dec_pushReq (v : jv) : option pushReq :=
  dec_struct ["title"; "message"; "data"] (λ n v r,
    if bool_decide (n = "title") then s ← dec_string v (pr_Title r); Some (mkPushReq s (pr_Message r) (pr_Data r))
    else if bool_decide (n = "message") then s ← dec_string v (pr_Message r); Some (mkPushReq (pr_Title r) s (pr_Data r))
    else m ← dec_strmap v (pr_Data r); Some (mkPushReq (pr_Title r) (pr_Message r) m)) v (mkPushReq "" "" None).

Record persistReq := mkPersistReq { ps_NotificationID : string; ps_Title : string; ps_Message : string }.
Definition dec_persistReq (v : jv) : option persistReq :=
  dec_struct ["notification_id"; "title"; "message"] (λ n v r,
    if bool_decide (n = "notification_id") then s ← dec_string v (ps_NotificationID r); Some (mkPersistReq s (ps_Title r) (ps_Message r))
    else if bool_decide (n = "title") then s ← dec_string v (ps_Title r); Some (mkPersistReq (ps_NotificationID r) s (ps_Message r))
    else s ← dec_string v (ps_Message r); Some (mkPersistReq (ps_NotificationID r) (ps_Title r) s)) v (mkPersistReq "" "" "").

Definition dec_dismissReq (v : jv) : option string :=
  dec_struct ["notification_id"] (λ _ v s, dec_string v s) v "".

(** *** Handlers *)

Section Handlers.
Context (range_keys : gmap string string → list string).

(** The first key outside the allowlist, in the order [range] visits them. *)
Definition bad_key (data : gmap string string) : option string :=
  head (filter (λ k, allowedPushDataKeys k = false) (range_keys data)).

(** [map[string]any], marshalled in key order. *)
Definition push_body (req : pushReq) : jv :=
  JObj (map_field "data" JStr (default ∅ (pr_Data req))
        ++ [("message", JStr (pr_Message req)); ("title", JStr (pr_Title req))]).

Definition decode_request {A} (sv : Server) (c : Ctx) (dec : jv → option A) : option A :=
  match dbind (decode_stream (MaxBodyBytes (nv_cfg sv)) (cx_body c)) dec with DOk r => Some r | _ => None end.

Definition handlePush (sv : Server) (c : Ctx) : prog Response :=
  rateOK sv c (
    match decode_request sv c dec_pushReq with
    | None => deny sv c KindPush "bad-body" 400 ProblemBadRequest "invalid request body" None
    | Some req =>
      let target := PushTarget (nv_policy sv) (sub_key c) in
      if bool_decide (target = "") then deny sv c KindPush "no-grant" 403 ProblemGrantDenied "not permitted" None
      else match bad_key (default ∅ (pr_Data req)) with
      | Some k => deny sv c KindPush "bad-data-key" 400 ProblemBadRequest "unsupported data key" (Some {["data_key" := k]})
      | None => forward sv c KindPush "notify" target (push_body req)
      end
    end).

Definition persist_body (req : persistReq) : jv :=
  JObj [("message", JStr (ps_Message req)); ("notification_id", JStr (ps_NotificationID req)); ("title", JStr (ps_Title req))].

Definition handlePersistentCreate (sv : Server) (c : Ctx) : prog Response :=
  rateOK sv c (
    match decode_request sv c dec_persistReq with
    | None => deny sv c KindPersistentCreate "bad-body" 400 ProblemBadRequest "invalid request body" None
    | Some req =>
      if negb (idAllowed sv c KindPersistentCreate (ps_NotificationID req))
      then deny sv c KindPersistentCreate "no-grant-or-prefix" 403 ProblemGrantDenied "not permitted"
             (Some {["requested_notification_id" := ps_NotificationID req]})
      else forward sv c KindPersistentCreate "persistent_notification" "create" (persist_body req)
    end).

Definition handlePersistentDismiss (sv : Server) (c : Ctx) : prog Response :=
  rateOK sv c (
    match decode_request sv c dec_dismissReq with
    | None => deny sv c KindPersistentDismiss "bad-body" 400 ProblemBadRequest "invalid request body" None
    | Some id =>
      if negb (idAllowed sv c KindPersistentDismiss id)
      then deny sv c KindPersistentDismiss "no-grant-or-prefix" 403 ProblemGrantDenied "not permitted"
             (Some {["requested_notification_id" := id]})
      else forward sv c KindPersistentDismiss "persistent_notification" "dismiss" (JObj [("notification_id", JStr id)])
    end).

(** *** Routes and middleware *)

Inductive route := RPush | RCreate | RDismiss.

Definition route_of (method : string) (path : list string) : option route :=
  if negb (bool_decide (method = "POST")) then None
  else match path with
  | ["v1"; "notify"; "push"] => Some RPush
  | ["v1"; "notify"; "persistent"] => Some RCreate
  | ["v1"; "notify"; "persistent"; "dismiss"] => Some RDismiss
  | _ => None
  end.

Definition dispatch (sv : Server) (rt : route) (c : Ctx) : prog Response :=
  match rt with
  | RPush => handlePush sv c
  | RCreate => handlePersistentCreate sv c
  | RDismiss => handlePersistentDismiss sv c
  end.

Definition withAuth (sv : Server) (next : Ctx → prog Response) (src : Source) (reqID : string) (r : HttpIn)
  : prog Response :=
  match CutPrefix (hi_Authorization r) "Bearer " with
  | None | Some "" =>
    _ ← recordAuthFailure src reqID "missing-bearer";
    Ret (writeProblem 401 ProblemUnauthenticated "missing or malformed Authorization header" "" reqID)
  | Some token =>
    sub ← nv_authn sv token;
    match sub with
    | None =>
      _ ← recordAuthFailure src reqID "token-rejected";
      Ret (writeProblem 401 ProblemUnauthenticated "token rejected" "" reqID)
    | Some sub => next (mkCtx sub reqID src (hi_Body r))
    end
  end.

Definition withRequestID (next : Source → string → HttpIn → prog Response) (r : HttpIn) : prog Response :=
  b ← act (Rand 8);
  let id := "req_" +:+ (hex_encode b) in
  let ip := default (hi_RemoteAddr r) (SplitHostPort (hi_RemoteAddr r)) in
  next (mkSource ip (hi_UserAgent r)) id r.

Definition Handler (sv : Server) (r : HttpIn) : prog Response :=
  withRequestID (λ src id r,
    withAuth sv (λ c,
      match route_of (hi_Method r) (hi_Path r) with
      | Some rt => dispatch sv rt c
      | None =>
        Ret (mkResponse (match route_of "POST" (hi_Path r) with Some _ => 405 | None => 404 end) false NEmpty)
      end) src id r) r.

End Handlers.
