(* ===== verification/Samples.v ===== *)
(** * A concrete broker

    One configured broker with the policy [Policy.Sample], used to run the
    handlers on concrete requests: a 1Password upstream that answers with one
    item, a writer that accepts every line, a clock that advances one second per
    action. *)

From S2P Require Import Prelude GoStrings GoTime Encoding RateLimit LeaseStore Json AuditStream Metrics Policy World Provider Server.
From Stdlib Require Import QArith.
Local Open Scope Z_scope.
Local Open Scope stdpp_scope.

(** The packages outside the repository: signing returns the message, the
    canonical form is the text itself. *)
Definition sample_ext : Externals := {|
  ed25519_Public := λ k, k;
  ed25519_Sign := λ _ m, m;
  jcs_Transform := Some;
  isPrint := λ _, true;
  yaml_Unmarshal := Sample.yaml;
  cronParse := Sample.cron;
  rsa_SignPKCS1v15 := λ _ d, Some d
|}.

Definition sample_subject : Subject := mkSubject "agents" "builder" "builder-0" "uid-0".

(** One accepted token. *)
Definition sample_authn (token : string) : prog (option Subject) :=
  Ret (if bool_decide (token = "good") then Some sample_subject else None).

Definition sample_providers : gmap string Provider :=
  {["onepassword-connect" := OnePassword_provider (NewOnePassword "http://connect/" "/token")]}.

Definition sample_broker : Server * world :=
  New (mkConfig 0%Q 0 0%Q 0 0 0 0 0) sample_authn sample_providers Sample.policy "sum"
    (NewEmitter (mkSigner "priv" "pub" "k00000000") "broker-0") NewMetrics.
Definition sample_server : Server := sample_broker.1.
Definition sample_world : world := sample_broker.2.

Definition sample_ctx (body : string) : Ctx := mkCtx sample_subject "req_1" (mkSource "10.0.0.1" "curl") body.

Definition sample_now : Time := (1783080002 + unix_epoch) * Second.

(** An item with the label the policy maps. *)
Definition sample_item : string :=
  render (JObj [("fields", JArr [JObj [("id", JStr "f1"); ("label", JStr "credential"); ("value", JStr "hunter2")]])]).

(** Every answer of the outside, the fate of the writes being [wr]. *)
Definition sample_oracle (wr : write_res) (n : nat) : ext :=
  mkExt (sample_now + Z.of_nat n * Second) (sample_now + Z.of_nat n * Second) "0123456789abc" [] wr
    (λ _, Some (mkHttpResponse 200 sample_item)) (λ _, Some (String newline "token")).

Definition create_body (scope : string) (ttl : Z) : string :=
  render (JObj [("scope", JStr scope); ("ttl_seconds", JInt ttl)]).

(** One request to one route, alone. *)
Definition sample_run (wr : write_res) (rt : route) (body : string) (w : world) : outcome * nat * world :=
  @run sample_ext outcome (sample_oracle wr) 0 w (dispatch sample_server rt (sample_ctx body)).

(** A lease of [db] for a minute. *)
Definition issued_run : outcome * nat * world := sample_run Written RCreate (create_body "db" 60) sample_world.
Definition issued_reply : Response := reply_of issued_run.1.1.
Definition issued_world : world := issued_run.2.

Example sample_issued :
  rp_Status issued_reply = 201 ∧ secret_of (Reply issued_reply) = {["password" := "hunter2"]}
  ∧ length (em_log (w_emitter issued_world)) = 1%nat.
Proof. vm_compute. done. Qed.

(** A failed write: no secret, no lease. *)
Example sample_fail_closed :
  let '(o, _, w) := sample_run (Failed 3) RCreate (create_body "db" 60) sample_world in
  status_of o = 500 ∧ secret_of o = ∅ ∧ w_leases w = ∅.
Proof. vm_compute. done. Qed.

Lemma issued_exec :
  ∃ h, @exec sample_ext (@interference sample_ext) _ (dispatch sample_server RCreate (sample_ctx (create_body "db" 60))) sample_world
    h (Reply issued_reply) issued_world.
Proof.
  assert (E : issued_run.1.1 = Reply issued_reply) by (vm_compute; reflexivity).
  rewrite <-E. eexists. apply (@run_exec sample_ext); [apply _|]. vm_compute. repeat split.
Qed.

Lemma issued_runs :
  @runs sample_ext _ (dispatch sample_server RCreate (sample_ctx (create_body "db" 60))) sample_world
    (Reply issued_reply) issued_world.
Proof. destruct issued_exec as [h H]. by eapply exec_runs. Qed.

Lemma issued_body : ∃ l, rp_Body issued_reply = BLease l ∧ lr_Secret l ≠ ∅.
Proof. apply secret_body. vm_compute. discriminate. Qed.

(** A batch of two claims by the same subject, on the state after the issuance. *)
Definition claims_body : string :=
  render (JObj [("claims", JArr [JObj [("act", JStr "deploy")]; JObj [("act", JStr "rollback")]])]).
Definition claims_run : outcome * nat * world := sample_run Written RClaims claims_body issued_world.
Definition claims_reply : Response := reply_of claims_run.1.1.

Lemma claims_sample :
  ∃ h, @exec sample_ext (@interference sample_ext) _ (handleClaims sample_server (sample_ctx claims_body)) issued_world
    h (Reply claims_reply) claims_run.2.
Proof.
  assert (E : claims_run.1.1 = Reply claims_reply) by (vm_compute; reflexivity).
  rewrite <-E. eexists. apply (@run_exec sample_ext); [apply _|]. vm_compute. repeat split.
Qed.

(** The 1Password provider on the sample upstream. *)
Definition sample_op : OnePassword := NewOnePassword "http://connect/" "/token".
Definition sample_req : Request := mkRequest Sample.op_ref {["password" := "credential"]} ∅ Minute.
Definition fetch_run : res FetchErr Result * nat * world :=
  @run sample_ext _ (sample_oracle Written) 0 sample_world (pv_Fetch (OnePassword_provider sample_op) sample_req).

Lemma fetch_all_or_nothing_witness :
  ∃ r, fetch_run.1.1 = Ok r ∧ dom (rs_Secret r) = {["password"]}.
Proof.
  exists (mkResult {["password" := "hunter2"]} zeroTime).
  assert (E : fetch_run.1.1 = Ok (mkResult {["password" := "hunter2"]} zeroTime)) by (vm_compute; reflexivity).
  split; [exact E|].
  apply (@fetch_all_or_nothing sample_ext sample_op (mkGitHubApp "" "" "") sample_req sample_world fetch_run.2
           (mkResult {["password" := "hunter2"]} zeroTime) (OnePassword_provider sample_op)).
  - left. reflexivity.
  - rewrite <-E. apply (@run_runs_final sample_ext). vm_compute. repeat split.
Defined.
