(* ===== verification/NotifyProps.v ===== *)
(** * What the notify proxy guarantees

    Properties of every trace of the proxy's handlers, hence of every run of
    them, whatever the upstreams answer and whatever runs beside them. *)

From S2P Require Import Prelude GoStrings GoTime Encoding Regex Json AuditStream Metrics World Trace Provider Server Samples.
From S2P Require Import NotifyPolicy NotifyServer.
From Stdlib Require Import Ascii QArith.
Local Open Scope Z_scope.
Local Open Scope stdpp_scope.

(** ** What a request may ask for *)

(** The grant behind a persistent notification id. *)
Definition id_granted (sv : Server) (c : Ctx) (kind id : string) : Prop :=
  ∃ g rest, grantOf (nv_policy sv) (sub_key c) kind = Some g ∧ id ≠ "" ∧ id = (ng_IDPrefix g) +:+ rest.

(** The call a request is entitled to: its kind, service and body. *)
Definition entitled (sv : Server) (c : Ctx) (rt : route) (kind domain service : string) (body : jv) : Prop :=
  match rt with
  | RPush => kind = KindPush ∧ domain = "notify" ∧ service = PushTarget (nv_policy sv) (sub_key c) ∧ service ≠ ""
    ∧ ∃ req, decode_request sv c dec_pushReq = Some req ∧ body = push_body req
        ∧ map_Forall (λ k _, allowedPushDataKeys k = true) (default ∅ (pr_Data req))
  | RCreate => kind = KindPersistentCreate ∧ domain = "persistent_notification" ∧ service = "create"
    ∧ ∃ req, decode_request sv c dec_persistReq = Some req ∧ body = persist_body req
        ∧ id_granted sv c kind (ps_NotificationID req)
  | RDismiss => kind = KindPersistentDismiss ∧ domain = "persistent_notification" ∧ service = "dismiss"
    ∧ ∃ id, decode_request sv c dec_dismissReq = Some id ∧ body = JObj [("notification_id", JStr id)]
        ∧ id_granted sv c kind id
  end.

(** The status of the call, 0 when there was no answer, and whether it succeeded. *)
Definition ha_status (r : option HttpResponse) : Z := match r with Some r => hr_StatusCode r | None => 0 end.
Definition ha_delivered (r : option HttpResponse) : bool :=
  match r with Some r => (200 <=? hr_StatusCode r) && (hr_StatusCode r <? 300) | None => false end.
Definition ha_error (r : option HttpResponse) : string :=
  match r with None => "ha-unreachable" | Some _ => if ha_delivered r then "" else "ha-status" end.

(** A request that was let through: the token could not be leased, or exactly one
    call was made with a token leased for it in this very request. *)
Definition forwarded (sv : Server) (c : Ctx) (kind domain service : string) (body : jv) (l : list obs) (o : Response) : Prop :=
  (emits l = [forwarded_event sv c kind domain service 0 false "" "lease-failed"]
   ∧ o = writeProblem 502 ProblemUpstreamFailure "could not obtain notify credential" "" (cx_reqID c)
   ∧ (https l = []
      ∨ ∃ own r, https l = [(lease_request (nv_lease sv) own (lease_context c kind domain service), r)] ∧ read_lease r = None))
  ∨ (∃ own r1 lease r2,
      https l = [(lease_request (nv_lease sv) own (lease_context c kind domain service), r1);
                 (ha_request (nv_ha sv) (le_Token lease) domain service body, r2)]
      ∧ read_lease r1 = Some lease
      ∧ emits l = [forwarded_event sv c kind domain service (ha_status r2) (ha_delivered r2) (le_LeaseID lease) (ha_error r2)]
      ∧ o = if ha_delivered r2 then mkResponse 201 true (NDelivered (cx_reqID c))
            else writeProblem 502 ProblemUpstreamFailure "notification not delivered" "" (cx_reqID c)).

(** A request that was turned away: nothing sent, one signed record. *)
Definition denied (sv : Server) (c : Ctx) (l : list obs) (o : Response) : Prop :=
  ∃ kind reason status ptype title asserted,
    (status = 400 ∨ status = 403) ∧ o = writeProblem status ptype title "" (cx_reqID c)
    ∧ https l = [] ∧ emits l = [denied_event sv c kind reason asserted].

Definition throttled (sv : Server) (c : Ctx) (l : list obs) (o : Response) : Prop :=
  o = writeProblem 429 ProblemRateLimited "notify rate limit exceeded" "" (cx_reqID c)
  ∧ https l = [] ∧ (emits l = [] ∨ emits l = [throttled_event sv c]).

(** ** Symbolic execution of a trace *)

Ltac trace_step H :=
  cbv beta zeta in H;
  lazymatch type of H with
  | traced (mbind _ (act _)) _ _ =>
    let t := fresh "t" in let l := fresh "l" in rewrite traced_act in H; destruct H as (t & l & -> & H)
  | traced (mbind _ (inc _ _)) _ _ =>
    let u := fresh "u" in let l := fresh "l" in
    unfold inc in H; rewrite traced_act in H; destruct H as (u & l & -> & H)
  | traced (Ret _) _ _ => destruct H as [-> H]
  end.

Lemma leaseToken_traced lc context l r :
  traced (leaseToken lc context) l r →
  emits l = [] ∧ (r = None ∧ https l = [] ∨ ∃ own resp, https l = [(lease_request lc own context, resp)] ∧ r = read_lease resp).
Proof.
  unfold leaseToken. intros H. trace_step H. destruct (TrimSpace <$> t) as [own|].
  - trace_step H. trace_step H. subst r. split; [done|]. right. by exists own, t0.
  - trace_step H. subst r. split; [done|]. by left.
Qed.

Lemma Call_traced h token domain service body l r :
  haAllowed domain service = true → traced (Call h token domain service body) l r →
  ∃ resp, https l = [(ha_request h token domain service body, resp)] ∧ emits l = []
    ∧ r = match resp with None => (0, true) | Some r => (hr_StatusCode r, false) end.
Proof. intros Ha H. unfold Call in H. rewrite Ha in H. cbn [negb] in H. trace_step H. trace_step H. by exists t. Qed.

Lemma forward_traced sv c kind domain service body l o :
  haAllowed domain service = true → traced (forward sv c kind domain service body) l o →
  forwarded sv c kind domain service body l o.
Proof.
  intros Ha H. unfold forward in H. rewrite traced_bind in H. destruct H as (lease & l1 & l2 & -> & H1 & H).
  apply leaseToken_traced in H1 as [He1 Hl1]. unfold forwarded. rewrite !https_app, !emits_app, He1.
  destruct lease as [lease|].
  - destruct Hl1 as [[? _]|(own & r1 & Hh & Hr)]; [done|]. right. rewrite Hh.
    rewrite traced_bind in H. destruct H as ([status callErr] & l3 & l4 & -> & H2 & H).
    apply Call_traced in H2 as (r2 & Hh2 & He2 & Hs); [|done]. rewrite !https_app, !emits_app, Hh2, He2.
    exists own, r1, lease, r2. unfold ha_status, ha_delivered, ha_error.
    destruct r2 as [resp|]; injection Hs as -> ->; cbn [negb andb] in H; trace_step H.
    + destruct (_ && _) eqn:Ed; cbn [negb] in H; trace_step H; trace_step H; subst o;
        unfold ha_delivered; rewrite ?Ed; split_and!; try done.
    + trace_step H. trace_step H. subst o. split_and!; done.
  - left. trace_step H. trace_step H. trace_step H. subst o. split; [done|]. split; [done|].
    destruct Hl1 as [[_ ->]|(own & r & -> & Hr)]; [by left|]. right. by exists own, r.
Qed.

Lemma deny_traced sv c kind reason status ptype title asserted l o :
  status = 400 ∨ status = 403 → traced (deny sv c kind reason status ptype title asserted) l o → denied sv c l o.
Proof.
  intros Hs H. unfold deny in H. trace_step H. trace_step H. trace_step H. subst o.
  by exists kind, reason, status, ptype, title, asserted.
Qed.

Lemma rateOK_traced sv c next l o :
  traced (rateOK sv c next) l o →
  throttled sv c l o ∨ ∃ l', https l = https l' ∧ emits l = emits l' ∧ traced next l' o.
Proof.
  unfold rateOK. intros H. trace_step H. destruct t; [right; by exists l0|].
  trace_step H. trace_step H. left. rewrite traced_bind in H. destruct H as (? & l3 & l4 & -> & H1 & H). trace_step H.
  subst o. rewrite app_nil_r. destruct t.
  - trace_step H1. trace_step H1. split; [done|]. split; [done|]. by right.
  - trace_step H1. split; [done|]. split; [done|]. by left.
Qed.

(** ** The compiled ceiling *)

(** A service segment the compiled pattern lets through. *)
Definition ha_segment (t : string) : Prop := t ≠ "" ∧ Forall (λ c, Policy.az09 c || Ascii.eqb "_" c = true) (chars t).

Lemma haAllowed_notify t : haAllowed "notify" t = true → ha_segment t.
Proof.
  unfold haAllowed. rewrite bool_decide_true by done. rewrite MatchString_spec. unfold haServiceNameRe. rewrite in_plus_Cls.
  intros [Hne H]. split; [by intros ->|done].
Qed.

(** A segment of letters, digits and underscores needs no escaping. *)
Lemma PathEscape_segment t : ha_segment t → PathEscape t = t.
Proof.
  intros [_ H]. unfold PathEscape.
  rewrite <-(String.string_of_list_ascii_of_string t) at 2. f_equal.
  induction H as [|c l Hc Hl IH]; [done|]. cbn. rewrite IH. unfold escape_byte.
  assert (path_safe c = true) as ->; [|done]. unfold path_safe. unfold Policy.az09 in Hc.
  rewrite !orb_true_iff in Hc. destruct Hc as [[->| ->]|Hc%Ascii.eqb_eq]; [done|by rewrite !orb_true_r|by subst c].
Qed.

(** What a request of caller [key] on route [rt] may send, whatever the policy:
    a lease request for the configured scope; or a call of the notify service
    that the policy names for it, and then only a plain segment; or the one call
    of its own on persistent notifications. *)
Definition ceiling (sv : Server) (key : string) (rt : route) (req : HttpRequest) : Prop :=
  hq_Method req = "POST"
  ∧ ((∃ context, hq_URL req = (lc_brokerURL (nv_lease sv)) +:+ "/v1/leases"
        ∧ hq_Body req = render (leaseReq_json (lc_scope (nv_lease sv)) context))
     ∨ ∃ service, hq_URL req = (ha_base (nv_ha sv)) +:+ "/api/services/" +:+ service
        ∧ (rt = RPush ∧ (∃ target, service = "notify/" +:+ target ∧ target = PushTarget (nv_policy sv) key ∧ ha_segment target)
           ∨ rt = RCreate ∧ service = "persistent_notification/create"
           ∨ rt = RDismiss ∧ service = "persistent_notification/dismiss")).

Lemma sends_https (P : HttpRequest → Prop) {A} (p : prog A) l r req resp :
  all_actions (sends P) p → traced p l r → (req, resp) ∈ https l → P req.
Proof.
  intros Hp H Hin. apply (all_actions_traced _ _ _ _ Hp) in H. induction H as [|o l Ho _ IH]; [by apply elem_of_nil in Hin|].
  destruct o as [T a t]. destruct a; try (by apply IH). apply elem_of_cons in Hin as [[= -> _]|Hin]; [exact Ho|by apply IH].
Qed.

(** Every call of Home Assistant has passed the guard. *)
Lemma forward_sends P sv c kind domain service body :
  (∀ own context, P (lease_request (nv_lease sv) own context)) →
  (haAllowed domain service = true → ∀ token, P (ha_request (nv_ha sv) token domain service body)) →
  all_actions (sends P) (forward sv c kind domain service body).
Proof.
  intros Hl Hh. unfold forward. apply all_actions_bind; [unfold leaseToken; walk; by try apply Hl|]. intros [lease|]; [|unfold inc; by walk].
  apply all_actions_bind; [|intros [status callErr]; unfold inc; by walk].
  unfold Call. destruct (haAllowed domain service) eqn:E; cbn [negb]; [|done]. walk. by apply Hh.
Qed.

Lemma dispatch_ceiling range_keys sv rt c : all_actions (sends (ceiling sv (sub_key c) rt)) (dispatch range_keys sv rt c).
Proof.
  assert (Hrate : ∀ next, all_actions (sends (ceiling sv (sub_key c) rt)) next → all_actions (sends (ceiling sv (sub_key c) rt)) (rateOK sv c next)).
  { intros next Hn. unfold rateOK, inc. walk; try done. by apply all_actions_bind; [walk|]. }
  assert (Hdeny : ∀ kind reason status ptype title asserted,
    all_actions (sends (ceiling sv (sub_key c) rt)) (deny sv c kind reason status ptype title asserted)) by (intros; unfold deny, inc; by walk).
  assert (Hlease : ∀ own context, ceiling sv (sub_key c) rt (lease_request (nv_lease sv) own context)) by (intros; split; [done|]; left; by eexists).
  destruct rt; cbn [dispatch]; unfold handlePush, handlePersistentCreate, handlePersistentDismiss; apply Hrate; cbv zeta;
    repeat first [apply Hdeny|apply forward_sends; [exact Hlease|intros Ha token; split; [done|]; right; eexists; split; [reflexivity|]]|case_match];
    [left|right; left|right; right]; (split; [done|]); try done.
  apply haAllowed_notify in Ha. eexists. split; [|done]. by rewrite (PathEscape_segment _ Ha).
Qed.

(** ** Every request is accounted for *)

Section Requests.
Context (range_keys : gmap string string → list string).
Hypothesis range_all : ∀ m k, k ∈ range_keys m ↔ is_Some (m !! k).

Lemma bad_key_None data : bad_key range_keys data = None → map_Forall (λ k _, allowedPushDataKeys k = true) data.
Proof.
  unfold bad_key. intros H k v Hk. destruct (allowedPushDataKeys k) eqn:E; [done|].
  assert (k ∈ filter (λ k, allowedPushDataKeys k = false) (range_keys data)) as Hin.
  { apply list_elem_of_filter. split; [done|]. apply range_all. eauto. }
  destruct (filter _ _); [|done]. by apply elem_of_nil in Hin.
Qed.

Lemma idAllowed_granted sv c kind id : idAllowed sv c kind id = true → id_granted sv c kind id.
Proof.
  unfold idAllowed, id_granted. destruct (grantOf _ _ _) as [g|]; [|done].
  rewrite andb_true_iff, negb_true_iff, bool_decide_eq_false, HasPrefix_spec. intros [H1 [rest H2]]. by exists g, rest.
Qed.

Section Proxy.
Context (yaml_Unmarshal : string → option (list SubjectPolicy)) (raw : string) (sv : Server).
Hypothesis policy_parsed : Parse yaml_Unmarshal raw = Ok (nv_policy sv).

Lemma entitled_allowed c rt kind domain service body :
  entitled sv c rt kind domain service body → haAllowed domain service = true.
Proof.
  destruct rt; cbn [entitled]; intros (_ & -> & Hs & H); [|by rewrite Hs..].
  destruct H as [Hne _]. subst service. unfold haAllowed. cbn [bool_decide].
  change (MatchString haServiceNameRe (PushTarget (nv_policy sv) (sub_key c)) = true).
  apply MatchString_spec. by eapply PushTarget_valid.
Qed.

(** Whatever the broker and Home Assistant answer, an authenticated request is
    throttled, denied, or entitled to its call and forwarded. *)
Lemma dispatch_traced rt c l o :
  traced (dispatch range_keys sv rt c) l o →
  throttled sv c l o ∨ denied sv c l o
  ∨ ∃ kind domain service body, entitled sv c rt kind domain service body ∧ forwarded sv c kind domain service body l o.
Proof.
  assert (Hf : ∀ l' kind domain service body, entitled sv c rt kind domain service body →
    https l = https l' → emits l = emits l' → traced (forward sv c kind domain service body) l' o →
    ∃ kind domain service body, entitled sv c rt kind domain service body ∧ forwarded sv c kind domain service body l o).
  { intros l' kind domain service body He Hh Hm H. exists kind, domain, service, body. split; [done|].
    apply forward_traced in H; [|by eapply entitled_allowed]. unfold forwarded in *. by rewrite Hh, Hm. }
  assert (Hd : ∀ l' kind reason status ptype title asserted, status = 400 ∨ status = 403 →
    https l = https l' → emits l = emits l' → traced (deny sv c kind reason status ptype title asserted) l' o → denied sv c l o).
  { intros l' kind reason status ptype title asserted Hs Hh Hm H. apply deny_traced in H; [|done].
    unfold denied in *. by rewrite Hh, Hm. }
  destruct rt; intros [Ht|(l' & Hh & Hm & H)]%rateOK_traced; try (by left); right.
  - destruct (decode_request _ _ _) as [req|] eqn:Er; [|left; refine (Hd l' _ _ _ _ _ _ _ Hh Hm H); auto]. cbv zeta in H.
    case_bool_decide as Et; [left; refine (Hd l' _ _ _ _ _ _ _ Hh Hm H); auto|].
    destruct (bad_key _ _) as [k|] eqn:Eb; [left; refine (Hd l' _ _ _ _ _ _ _ Hh Hm H); auto|].
    right. eapply Hf; [|done..|exact H]. split_and!; [done..|]. exists req. split_and!; [done..|]. by apply bad_key_None.
  - destruct (decode_request _ _ _) as [req|] eqn:Er; [|left; refine (Hd l' _ _ _ _ _ _ _ Hh Hm H); auto].
    destruct (idAllowed _ _ _ _) eqn:Ei; cbn [negb] in H; [|left; refine (Hd l' _ _ _ _ _ _ _ Hh Hm H); auto].
    right. eapply Hf; [|done..|exact H]. split_and!; [done..|]. exists req. split_and!; [done..|]. by apply idAllowed_granted.
  - destruct (decode_request _ _ _) as [id|] eqn:Er; [|left; refine (Hd l' _ _ _ _ _ _ _ Hh Hm H); auto].
    destruct (idAllowed _ _ _ _) eqn:Ei; cbn [negb] in H; [|left; refine (Hd l' _ _ _ _ _ _ _ Hh Hm H); auto].
    right. eapply Hf; [|done..|exact H]. split_and!; [done..|]. exists id. split_and!; [done..|]. by apply idAllowed_granted.
Qed.

End Proxy.
End Requests.

(** ** A proxy at work *)

Module ProxySample.
Definition range_keys (m : gmap string string) : list string := (map_to_list m).*1.
Lemma range_all m k : k ∈ range_keys m ↔ is_Some (m !! k).
Proof. apply map_keys_elem. Qed.

Definition proxy : Server * world :=
  New (mkConfig 0%Q 0 0) NotifySample.policy (λ _, Ret None) (NewHAClient "http://ha/")
    (mkLeaseClient "https://broker" "ha-notify-token" None "/token")
    (NewEmitter (mkSigner "priv" "pub" "k00000000") "proxy-0") (mkSigner "priv" "pub" "k00000000") NewMetrics.
Definition ctx : Ctx :=
  mkCtx (mkSubject "agents" "builder" "" "") "req_1" (mkSource "10.0.0.1" "")
    (render (JObj [("title", JStr "hi"); ("data", JObj [("tag", JStr "ci")])])).

(** The broker leases, Home Assistant accepts. *)
Definition upstream (req : HttpRequest) : option HttpResponse :=
  if bool_decide (hq_URL req = "https://broker/v1/leases")
  then Some (mkHttpResponse 201 (render (JObj [("lease_id", JStr "lease_1"); ("secret", JObj [("token", JStr "llat")])])))
  else Some (mkHttpResponse 200 "").
Definition oracle (n : nat) : ext :=
  mkExt (sample_now + Z.of_nat n) (sample_now + Z.of_nat n) "" [] Written upstream (λ _, Some "own").

Definition push : Response * list obs := @run_trace sample_ext _ oracle 0 proxy.2 (dispatch range_keys proxy.1 RPush ctx).
End ProxySample.
