(* ===== verification/Watcher.v ===== *)
(** * Policy hot reload (internal/policy/watcher.go, cmd/broker/main.go)

    The initial load, the reload step the watcher runs on every tick, and the
    two callbacks main installs on it, which put every reload and every failed
    reload in the audit stream. *)

From S2P Require Import Prelude GoStrings GoTime Encoding Sha256 Json AuditStream Policy World Trace Provider Server Samples.
Local Open Scope Z_scope.
Local Open Scope stdpp_scope.

(** [diffSorted(old, next)] of main: what is added and what is removed. *)
Definition diffSorted (old next : list string) : list string * list string :=
  (filter (λ v, v ∉ old) next, filter (λ v, v ∉ next) old).

(** Why a load or a reload failed. *)
Inductive WatchErr := WRead | WParse (e : ParseErr).

Section Watcher.
Context {X : Externals}.
(** The text of an error. *)
Context (err_text : WatchErr → string).

(** [NewStore(path, interval)] given the file's contents: the initial policy and
    the sum of its text. *)
Definition NewStore (file : option string) : res WatchErr (Policy * string) :=
  match file with
  | None => Err WRead
  | Some raw =>
    match Parse yaml_Unmarshal cronParse raw with
    | Err e => Err (WParse e)
    | Ok p => Ok (p, Sum256 raw)
    end
  end.

(** The callbacks of main. *)
Definition reloaded_event (old next : Policy) : Event :=
  let '(subAdded, subRemoved) := diffSorted (SubjectKeys old) (SubjectKeys next) in
  let '(scAdded, scRemoved) := diffSorted (ScopeNames old) (ScopeNames next) in
  newEvent TypePolicyReloaded "" None None
    {["old_policy_hash" := AStr (p_Hash old); "new_policy_hash" := AStr (p_Hash next);
      "subjects_added" := AStrs subAdded; "subjects_removed" := AStrs subRemoved;
      "scopes_added" := AStrs scAdded; "scopes_removed" := AStrs scRemoved]} None.
Definition failed_event (old : Policy) (err : WatchErr) : Event :=
  newEvent TypePolicyReloadFailed "" None None
    {["retained_policy_hash" := AStr (p_Hash old); "error" := AStr (err_text err)]} None.

Definition OnReload (old next : Policy) : prog () := _ ← act (EmitEvent (reloaded_event old next)); Ret ().
Definition OnError (old : Policy) (err : WatchErr) : prog () := _ ← act (EmitEvent (failed_event old err)); Ret ().

Definition reloadIfChanged (path : string) : prog () :=
  file ← act (ReadFile path);
  match file with
  | None =>
    cur ← act CurrentPolicy;
    OnError cur WRead
  | Some raw =>
    let sum := Sum256 raw in
    last ← act LastSum;
    if bool_decide (sum = last) then Ret ()
    else match Parse yaml_Unmarshal cronParse raw with
    | Err e =>
      _ ← act (SetLastSum sum);
      cur ← act CurrentPolicy;
      OnError cur (WParse e)
    | Ok next =>
      old ← act (SwapPolicy next sum);
      OnReload old next
    end
  end.

(** [s.Watch(ctx)], stopped after [n] ticks. *)
Definition Watch (path : string) (n : nat) : prog () := ticks n (reloadIfChanged path).

Lemma reloadIfChanged_guarantees path : guarantees (reloadIfChanged path).
Proof.
  unfold reloadIfChanged. apply guarantees_act; [done|]. intros [raw|].
  - cbv zeta. apply guarantees_act; [done|]. intros last. case_match; [done|].
    destruct (Parse _ _ raw) as [next|e] eqn:E.
    + apply guarantees_act; [by exists raw|]. intros old. by split.
    + apply guarantees_act; [done|]. intros []. apply guarantees_act; [done|]. intros cur. by split.
  - apply guarantees_act; [done|]. intros cur. by split.
Qed.

(** ** Properties *)

Lemma perform_emit_policy x w tpl :
  w_policy (perform x w (EmitEvent tpl)).2 = w_policy w ∧ w_lastSum (perform x w (EmitEvent tpl)).2 = w_lastSum w.
Proof. cbn [perform]. by destruct (Emit _ _ _ _ _ _) as [[|] e]. Qed.

(** The end of a tick: one report. *)
Ltac emitted H :=
  unfold OnReload, OnError in H; rewrite exec_act in H; destruct H as (? & ? & ? & -> & <- & _ & H);
  destruct H as (-> & _ & <-);
  lazymatch goal with
  | |- context [perform ?x ?w (EmitEvent ?tpl)] => destruct (perform_emit_policy x w tpl) as [-> ->]
  end; split; reflexivity.

(** The policy, the sum and the reports of a tick that met the contents [file]. *)
Definition reload_result (pol : Policy) (sum : string) (file : option string) : Policy * string * list Event :=
  match file with
  | None => (pol, sum, [failed_event pol WRead])
  | Some raw =>
    if decide (Sum256 raw = sum) then (pol, sum, [])
    else match Parse yaml_Unmarshal cronParse raw with
    | Ok next => (next, Sum256 raw, [reloaded_event pol next])
    | Err e => (pol, Sum256 raw, [failed_event pol (WParse e)])
    end
  end.

Lemma reload_tick path w h w' :
  exec eq (reloadIfChanged path) w h () w' →
  ∃ file, reads (observed <$> h) = [(path, file)]
    ∧ (w_policy w', w_lastSum w', emits (observed <$> h)) = reload_result (w_policy w) (w_lastSum w) file.
Proof.
  intros H. unfold reloadIfChanged in H. rewrite exec_act in H. destruct H as (w1 & x & h' & -> & <- & _ & H).
  cbn [perform fst snd] in H. exists (x_file x path). unfold reload_result.
  destruct (x_file x path) as [raw|] eqn:Ex; cbn [fmap list_fmap observed perform fst reads omap list_omap]; rewrite Ex.
  - cbv zeta in H. rewrite exec_act in H. destruct H as (? & x2 & h2 & -> & <- & _ & H). cbn [perform fst snd] in H.
    case_bool_decide as Eb; [rewrite decide_True by done; by destruct H as (-> & _ & <-)|]. rewrite decide_False by done.
    destruct (Parse _ _ raw) as [p|e] eqn:Ep.
    + rewrite exec_act in H. destruct H as (? & x3 & h3 & -> & <- & _ & H). cbn [perform fst snd] in H. emitted H.
    + rewrite exec_act in H. destruct H as (? & x3 & h3 & -> & <- & _ & H). cbn [perform fst snd] in H.
      rewrite exec_act in H. destruct H as (? & x4 & h4 & -> & <- & _ & H). cbn [perform fst snd] in H. emitted H.
  - rewrite exec_act in H. destruct H as (? & x3 & h3 & -> & <- & _ & H). cbn [perform fst snd] in H. emitted H.
Qed.

(** The same of a sequence of ticks. *)
Fixpoint watched (pol : Policy) (sum : string) (files : list (option string)) : Policy * string * list Event :=
  match files with
  | [] => (pol, sum, [])
  | file :: rest =>
    let '(pol1, sum1, evs1) := reload_result pol sum file in
    let '(pol2, sum2, evs2) := watched pol1 sum1 rest in
    (pol2, sum2, evs1 ++ evs2)
  end.

(** C16: The watcher, as the one that changes the policy, reads the policy file
    once per tick, and the policy in force and the events it reports are a
    function of what it read: an unreadable file retains the policy and reports
    the failure; contents with the sum last seen change nothing; contents that
    pass validation replace the policy and are reported; rejected contents
    retain the policy, are reported, and are remembered, so that the next tick
    does not report them again. *)
Theorem watch_exact path n w h w' :
  exec eq (Watch path n) w h () w' →
  ∃ files, length files = n ∧ reads (observed <$> h) = (path,.) <$> files
    ∧ (w_policy w', w_lastSum w', emits (observed <$> h)) = watched (w_policy w) (w_lastSum w) files.
Proof.
  unfold Watch. revert w h. induction n as [|n IH]; intros w h H; cbn [ticks] in H.
  - destruct H as (-> & _ & <-). by exists [].
  - apply exec_bind in H as ([] & w1 & h1 & h2 & -> & H1 & H2); [|apply _].
    destruct (reload_tick _ _ _ _ H1) as (file & Hr & He), (IH _ _ H2) as (files & Hn & Hrs & Hes).
    exists (file :: files). rewrite fmap_app, reads_app, emits_app, Hr, Hrs. split_and!; [by cbn; rewrite Hn|done|].
    cbn [watched]. rewrite <-He, <-Hes. done.
Qed.

(** The [policy.reloaded] event lists as added exactly the subjects and
    scopes of the new policy that the old one lacked, and as removed exactly
    those of the old one that the new one lacks. *)
Lemma reload_event_diff old next :
  ∃ sa sr ca cr,
    ev_Attested (reloaded_event old next) !! "subjects_added" = Some (AStrs sa)
    ∧ ev_Attested (reloaded_event old next) !! "subjects_removed" = Some (AStrs sr)
    ∧ ev_Attested (reloaded_event old next) !! "scopes_added" = Some (AStrs ca)
    ∧ ev_Attested (reloaded_event old next) !! "scopes_removed" = Some (AStrs cr)
    ∧ (∀ k, k ∈ sa ↔ is_Some (p_grantBySubj next !! k) ∧ p_grantBySubj old !! k = None)
    ∧ (∀ k, k ∈ sr ↔ is_Some (p_grantBySubj old !! k) ∧ p_grantBySubj next !! k = None)
    ∧ (∀ n, n ∈ ca ↔ is_Some (scopeOf next n) ∧ scopeOf old n = None)
    ∧ (∀ n, n ∈ cr ↔ is_Some (scopeOf old n) ∧ scopeOf next n = None).
Proof.
  exists (diffSorted (SubjectKeys old) (SubjectKeys next)).1, (diffSorted (SubjectKeys old) (SubjectKeys next)).2,
    (diffSorted (ScopeNames old) (ScopeNames next)).1, (diffSorted (ScopeNames old) (ScopeNames next)).2.
  assert (Hd : ∀ {V} (m1 m2 : gmap string V) k,
    k ∈ filter (λ v, v ∉ merge_sort String.le (map_to_list m2).*1) (merge_sort String.le (map_to_list m1).*1)
    ↔ is_Some (m1 !! k) ∧ m2 !! k = None).
  { intros V m1 m2 k. rewrite list_elem_of_filter.
    destruct (sorted_keys m1) as (_ & _ & H1), (sorted_keys m2) as (_ & _ & H2).
    rewrite H1, H2, eq_None_not_Some. tauto. }
  split_and!; [reflexivity..|intros k; apply Hd|intros k; apply Hd|intros n; apply Hd|intros n; apply Hd].
Qed.

End Watcher.

(** A lone watcher over the contents its ticks meet. *)
Definition tick_oracle (raw : string) (n : nat) : ext :=
  mkExt sample_now sample_now "" [] Written (λ _, None) (λ _, match n with O => None | S _ => Some raw end).
Definition watcher : prog () := @Watch sample_ext (λ _, "error") "/policy.yaml" 2.
Definition watcher_run (raw : string) (w : world) : () * nat * world := @run sample_ext () (tick_oracle raw) 0 w watcher.

Lemma watcher_exec raw w :
  @exec sample_ext eq () watcher w (@run_history sample_ext _ (tick_oracle raw) 0 w watcher) () (watcher_run raw w).2.
Proof.
  pose proof (@run_exec sample_ext eq _ _ watcher (tick_oracle raw) 0 w) as Hr.
  unfold watcher_run. destruct (run _ _ _ _) as [[[] n] w'] eqn:E. apply Hr, oracle_unconditional.
  unfold watcher, Watch. apply all_actions_ticks. unfold reloadIfChanged, OnReload, OnError. walk; exact I.
Qed.

Lemma watch_exact_witness :
  w_lastSum (watcher_run "policy" sample_world).2 = Sum256 "policy"
  ∧ length (emits (@observed sample_ext <$> @run_history sample_ext _ (tick_oracle "policy") 0 sample_world watcher)) = 2%nat.
Proof.
  assert (Hr : reads (@observed sample_ext <$> @run_history sample_ext _ (tick_oracle "policy") 0 sample_world watcher)
    = (("/policy.yaml",.) <$> [None; Some "policy"])) by (vm_compute; reflexivity).
  assert (Hne : Sum256 "policy" ≠ w_lastSum sample_world) by (vm_compute; discriminate). revert Hr Hne.
  generalize sample_world, "policy". intros w raw Hr Hne.
  destruct (@watch_exact sample_ext (λ _, "error") "/policy.yaml" 2 w _ _ (watcher_exec raw w)) as (files & _ & E & H).
  rewrite Hr in E. apply (list_fmap_eq_inj _) in E as <-; [|by intros ? ? [= ->]].
  cbn [watched reload_result] in H. rewrite decide_False in H by exact Hne.
  split.
  - apply (f_equal (λ t, t.1.2)) in H. cbn [fst snd] in H. rewrite H. by destruct (Parse _ _ _).
  - apply (f_equal (λ t, length t.2)) in H. cbn [fst snd] in H. rewrite H. by destruct (Parse _ _ _).
Defined.
