(* ===== verification/ServerProps.v ===== *)
(** * What the API guarantees

    Properties of the handlers of [Server].  Unless a theorem says otherwise, a
    handler runs among any other goroutines of the broker ([exec interference],
    or [runs] when its history does not matter): between two of its actions the
    shared state may change by any actions of theirs.  What a theorem says of the
    policy, the clock or the upstream answers is said of what the run met: a
    [Step] of its history. *)

From S2P Require Import Prelude GoStrings GoTime Float64 Encoding RateLimit LeaseStore Json AuditStream Metrics Policy World Provider Server Samples.
From Stdlib Require Import QArith.
Local Open Scope Z_scope.
Local Open Scope stdpp_scope.

Abbreviation log w := (em_log (w_emitter w)).

(** ** Results that do not depend on the answers *)

(** Whatever its actions answer, the program's result satisfies [P]. *)
Fixpoint returns {A} (P : A → Prop) (p : prog A) : Prop :=
  match p with
  | Ret a => P a
  | Act a k => ∀ t, returns P (k t)
  end.

Lemma returns_act {T A} (P : A → Prop) (a : action T) (f : T → prog A) :
  (∀ t, returns P (f t)) → returns P (act a ≫= f).
Proof. done. Qed.

Lemma returns_bind {A B} (Q : A → Prop) (P : B → Prop) (p : prog A) (f : A → prog B) :
  returns Q p → (∀ a, Q a → returns P (f a)) → returns P (p ≫= f).
Proof.
  induction p as [a|T a k IH]; intros Hp Hf; [by apply Hf|]. intros t. apply IH; [apply Hp|done].
Qed.

(** Walks through a program looking at its results only. *)
Ltac walk_returns :=
  repeat (cbv beta zeta; unfold inc;
    lazymatch goal with
    | |- returns _ (mbind _ (act _)) => apply returns_act; intros ?
    | |- returns _ (match ?e with _ => _ end) => destruct e eqn:?
    | |- returns _ (Ret _) => cbn [returns]
    end).

#[global] Instance route_eq_dec : EqDecision route.
Proof. solve_decision. Defined.

Section Props.
Context {X : Externals}.

Lemma returns_runs {A} (P : A → Prop) (p : prog A) : ∀ w r w', returns P p → runs p w r w' → P r.
Proof.
  induction p as [a|T a k IH]; intros w r w' Hp; cbn.
  - by intros [-> _].
  - intros (w1 & x & _ & _ & Hr). eapply IH; [apply Hp|exact Hr].
Qed.

Lemma auditFailClosed_returns reqID :
  returns (eq (writeProblem 500 ProblemAuditUnavailable "audit event could not be written; request failed closed" "" reqID))
    (auditFailClosed reqID).
Proof. unfold auditFailClosed. by walk_returns. Qed.

Lemma rateLimited_returns c endpoint title :
  returns (eq (writeProblem 429 ProblemRateLimited title "" (cx_reqID c))) (rateLimited c endpoint title).
Proof.
  unfold rateLimited, inc. apply returns_act; intros _. apply returns_act; intros [|]; walk_returns; done.
Qed.

Lemma deny_returns c pol req scope status typ title reason :
  returns (eq (writeProblem status typ title "" (cx_reqID c))) (deny c pol req scope status typ title reason).
Proof. unfold deny. by walk_returns. Qed.

(** ** One emission *)

(** [ev] is the committed form of the event a handler composed. *)
Definition records (tpl ev : Event) : Prop :=
  ev_Type ev = ev_Type tpl ∧ ev_RequestID ev = ev_RequestID tpl ∧ ev_Subject ev = ev_Subject tpl
  ∧ ev_Source ev = ev_Source tpl ∧ ev_Attested ev = ev_Attested tpl ∧ ev_Asserted ev = ev_Asserted tpl.

Lemma perform_emit x w tpl :
  (∃ ev, (perform x w (EmitEvent tpl)).1 = Ok () ∧ log (perform x w (EmitEvent tpl)).2 = log w ++ [ev]
         ∧ records tpl ev ∧ signed_by ed25519_Sign jcs_Transform (em_signer (w_emitter w)) ev)
  ∨ (∃ err, (perform x w (EmitEvent tpl)).1 = Err err) ∧ log (perform x w (EmitEvent tpl)).2 = log w.
Proof.
  cbn [perform]. destruct (Emit_cases ed25519_Sign jcs_Transform (w_emitter w) (x_now x) (x_write x) tpl)
    as [(sig & Hs & _ & ->)|(err & out & -> & _)].
  - left. eexists. split_and!; [done|done|done|exact Hs].
  - right. split; [by exists err|done].
Qed.

(** An event recorded during a run stays in the log. *)
Definition logged_since (w w' : world) (tpl : Event) : Prop :=
  ∃ new ev, log w' = log w ++ new ∧ (ev ∈ new) ∧ records tpl ev
    ∧ signed_by ed25519_Sign jcs_Transform (em_signer (w_emitter w)) ev.

Lemma logged_since_emit w w1 x tpl w' :
  log w `prefix_of` log w1 ∧ em_signer (w_emitter w1) = em_signer (w_emitter w) →
  (perform x w1 (EmitEvent tpl)).1 = Ok () →
  log (perform x w1 (EmitEvent tpl)).2 `prefix_of` log w' →
  logged_since w w' tpl.
Proof.
  intros [[n1 H1] Hsg] Hok [n2 H2]. destruct (perform_emit x w1 tpl) as [(ev & _ & Hl & Hr & Hs)|([err He] & _)]; [|congruence].
  exists (n1 ++ [ev] ++ n2), ev. split_and!; [|set_solver|done|by rewrite <-Hsg].
  rewrite H2, Hl, H1. by rewrite !app_assoc.
Qed.

(** ** Issuance *)

(** The TTL after the upstream expiry cut it down, by a clock reading of the run. *)
Definition cut_down (h : list step) (result : Result) (ttl capped : Duration) : Prop :=
  capped = ttl
  ∨ (rs_ExpiresAt result ≠ zeroTime ∧ 0 < capped < ttl
     ∧ ∃ w x, Step Now w x ∈ h ∧ capped = tSub (rs_ExpiresAt result) (x_now x)).

Lemma cap_ttl_exec ttl result w h r w' : exec interference (cap_ttl ttl result) w h r w' → cut_down h result ttl r.
Proof.
  unfold cap_ttl. intros H. destruct (IsZero _) eqn:Ez; [left; by destruct H as (_ & -> & _)|].
  rewrite exec_act in H. destruct H as (w1 & x & h' & -> & _ & _ & H). cbn [perform fst snd] in H. destruct H as (-> & -> & _).
  destruct (_ && _) eqn:E; [|by left]. right.
  apply andb_true_iff in E as [E1%Z.ltb_lt E2%Z.ltb_lt]. unfold IsZero in Ez. split_and!; [lia..|].
  exists w1, x. split; [in_history|done].
Qed.

Lemma cut_down_mono h1 h2 result ttl capped : h1 ⊆ h2 → cut_down h1 result ttl capped → cut_down h2 result ttl capped.
Proof.
  intros Hh [->|(H1 & H2 & w & x & Hin & ->)]; [by left|]. right. split; [done|]. split; [done|].
  exists w, x. split; [by apply Hh|done].
Qed.

(** The lease that [Create] makes, whatever the table holds. *)
Definition new_lease (now : Time) (rand sk sc sem : string) (ttl : Duration) (ren : bool) : Lease :=
  (Create ∅ now rand sk sc sem ttl ren).1.

Lemma issue_exec c pol req g prov ttl result w h o w' :
  exec interference (issue c pol req g prov ttl result) w h o w' →
  (∃ title, o = writeProblem 500 ProblemAuditUnavailable title "" (cx_reqID c)) ∨
  ∃ ttl' w1 x1, let l := new_lease (x_now x1) (x_rand x1) (sub_key c) (rq_Scope req) (pv_Semantics prov) ttl' (g_Renewable g) in
    cut_down h result ttl ttl'
    ∧ Step (LeaseCreate (sub_key c) (rq_Scope req) (pv_Semantics prov) ttl' (g_Renewable g)) w1 x1 ∈ h
    ∧ o = Reply (mkResponse 201 true (BLease (issued_response l (upstream_text result) (rs_Secret result))))
    ∧ logged_since w w' (issued_event c pol req l ttl' (upstream_text result)).
Proof.
  unfold issue. cbv zeta. rewrite exec_bind by apply _. intros (ttl' & w1 & h1 & h2 & -> & Hcap & H).
  pose proof (runs_log _ _ _ _ (exec_runs _ _ _ _ _ Hcap)) as [Hp1 Hs1]. apply cap_ttl_exec in Hcap.
  rewrite exec_act in H. destruct H as (w2 & x2 & h3 & -> & Hi2 & Hx2 & H). apply interference_log in Hi2 as [Hp2 Hs2].
  set (l := (perform x2 w2 (LeaseCreate _ _ _ _ _)).1) in H.
  assert (El : l = new_lease (x_now x2) (x_rand x2) (sub_key c) (rq_Scope req) (pv_Semantics prov) ttl' (g_Renewable g)) by done.
  clearbody l. rewrite exec_act in H. destruct H as (w3 & x3 & h4 & _ & Hi3 & Hx3 & H).
  apply interference_log in Hi3 as [Hp3 Hs3]. apply exec_runs in H. set (ev := issued_event _ _ _ _ _ _) in *.
  destruct (perform x3 w3 (EmitEvent ev)).1 as [[]|err] eqn:Ee.
  - right. exists ttl', w2, x2. cbv zeta. rewrite <-El. split.
    { eapply cut_down_mono; [|exact Hcap]. intros s Hs. apply elem_of_app. by left. }
    split; [in_history|].
    pose proof (runs_log _ _ _ _ H) as [Hp4 _]. unfold inc in H. rewrite runs_act in H. destruct H as (? & ? & _ & _ & -> & _).
    split; [done|]. eapply logged_since_emit; [|exact Ee|exact Hp4].
    split; [|cbn in Hs3; congruence]. etrans; [exact Hp1|]. etrans; [exact Hp2|]. exact Hp3.
  - left. rewrite runs_act in H. destruct H as (? & ? & _ & _ & H).
    apply (returns_runs _ _ _ _ _ (auditFailClosed_returns _)) in H as <-. eauto.
Qed.

(** [w'] is a later state: its log extends that of [w], under the same key. *)
Definition ahead (w w' : world) : Prop :=
  log w `prefix_of` log w' ∧ em_signer (w_emitter w') = em_signer (w_emitter w).

#[global] Instance ahead_preorder : PreOrder ahead.
Proof. split; [done|]. intros w1 w2 w3 [H1 H2] [H3 H4]. split; [by etrans|congruence]. Qed.

Lemma ahead_perform w w0 w1 x {T} (a : action T) :
  ahead w w0 → interference w0 w1 → ahead w (perform x w1 a).2.
Proof.
  intros Ha Hi%interference_log. etrans; [exact Ha|]. etrans; [exact Hi|].
  destruct (perform_log x w1 a) as (new & Hn & Hs & _). split; [|done]. rewrite Hn. by exists new.
Qed.

Lemma logged_since_ahead w w1 w' tpl : ahead w w1 → logged_since w1 w' tpl → logged_since w w' tpl.
Proof.
  intros [[n1 H1] Hs] (new & ev & Hl & Hin & Hr & Hsg). exists (n1 ++ new), ev.
  split_and!; [rewrite Hl, H1; by rewrite app_assoc|set_solver|done|by rewrite <-Hs].
Qed.

(** One action of a program whose past is tracked by [Ha : ahead w _]. *)
Ltac runs_next H Ha w1 x :=
  let Hi := fresh "Hi" in let Hx := fresh "Hx" in
  rewrite runs_act in H; destruct H as (w1 & x & Hi & Hx & H);
  lazymatch type of H with
  | runs _ (snd (perform x w1 ?a)) _ _ => apply (λ h, ahead_perform _ _ w1 x a h Hi) in Ha
  end.

(** The same with the history [h] of the run. *)
Ltac exec_next H Ha w1 x h :=
  let Hi := fresh "Hi" in let Hx := fresh "Hx" in let E := fresh in
  rewrite exec_act in H; destruct H as (w1 & x & h & E & Hi & Hx & H);
  lazymatch type of E with ?h0 = _ => subst h0 end;
  lazymatch type of H with
  | exec _ _ (snd (perform x w1 ?a)) _ _ _ => apply (λ h, ahead_perform _ _ w1 x a h Hi) in Ha
  end.

(** Everything that stands behind an issued lease. *)
Record grounds := mkGrounds {
  is_req : leaseRequest;
  is_pol : Policy;
  is_grant : Grant;
  is_scope : Scope;
  is_prov : Provider;
  is_result : Result;
  is_ttl : Duration;    (* after clamping *)
  is_capped : Duration; (* after capping by the upstream expiry *)
  is_lease : Lease
}.

Record issuance (sv : Server) (c : Ctx) (w : world) (h : list step) (w' : world) (o : outcome) (d : grounds) : Prop := mkIssuance {
  is_decoded : dbind (decode_stream (MaxBodyBytes (sv_cfg sv)) (cx_body c)) dec_leaseRequest = DOk (is_req d);
  is_current : ∃ w1 x, Step CurrentPolicy w1 x ∈ h ∧ interference w w1 ∧ w_policy w1 = is_pol d;
  is_granted : grantOf (is_pol d) (sub_key c) (rq_Scope (is_req d)) = Some (is_grant d);
  is_scoped : scopeOf (is_pol d) (rq_Scope (is_req d)) = Some (is_scope d);
  is_open : ∃ w1 x, Step Now w1 x ∈ h ∧ WindowOpen (is_grant d) (x_now x) = Some true;
  is_clamped : clampTTL (rq_TTLSeconds (is_req d)) (is_grant d) = Some (is_ttl d);
  is_configured : sv_providers sv !! sc_Provider (is_scope d) = Some (is_prov d);
  is_fetched : ∃ w1 w2 h1 hf h2, h = h1 ++ hf ++ h2
    ∧ exec interference (pv_Fetch (is_prov d)
        (mkRequest (sc_Ref (is_scope d)) (sc_Fields (is_scope d)) (sc_Params (is_scope d)) (is_ttl d)))
        w1 hf (Ok (is_result d)) w2;
  is_cap : cut_down h (is_result d) (is_ttl d) (is_capped d);
  is_created : ∃ w1 x,
    Step (LeaseCreate (sub_key c) (rq_Scope (is_req d)) (pv_Semantics (is_prov d)) (is_capped d) (g_Renewable (is_grant d))) w1 x ∈ h
    ∧ is_lease d = new_lease (x_now x) (x_rand x) (sub_key c) (rq_Scope (is_req d)) (pv_Semantics (is_prov d))
                     (is_capped d) (g_Renewable (is_grant d));
  is_reply : o = Reply (mkResponse 201 true
               (BLease (issued_response (is_lease d) (upstream_text (is_result d)) (rs_Secret (is_result d)))));
  is_logged : logged_since w w'
    (issued_event c (is_pol d) (is_req d) (is_lease d) (is_capped d) (upstream_text (is_result d)))
}.

(** A problem response other than an issuance. *)
Definition refused (c : Ctx) (o : outcome) : Prop :=
  ∃ status typ title, status ≠ 201 ∧ o = writeProblem status typ title "" (cx_reqID c).

Lemma refused_runs c o p status typ title w1 w2 :
  runs p w1 o w2 → returns (eq (writeProblem status typ title "" (cx_reqID c))) p → status ≠ 201 → refused c o.
Proof. intros Hr Hp Hne. apply (returns_runs _ _ _ _ _ Hp) in Hr as <-. unfold refused. eauto. Qed.

Lemma bad_request_returns c title :
  returns (eq (writeProblem 400 ProblemBadRequest title "" (cx_reqID c))) (bad_request c title).
Proof. done. Qed.

Ltac refuse H :=
  left;
  try apply exec_runs in H;
  lazymatch type of H with
  | runs (rateLimited _ _ _) _ _ _ => eapply (refused_runs _ _ _ _ _ _ _ _ H); [apply rateLimited_returns|done]
  | runs (deny _ _ _ _ _ _ _ _) _ _ _ => eapply (refused_runs _ _ _ _ _ _ _ _ H); [apply deny_returns|done]
  | runs (bad_request _ _) _ _ _ => eapply (refused_runs _ _ _ _ _ _ _ _ H); [apply bad_request_returns|done]
  end.

(** A lease request ends in a problem response, in an issuance, or in a nil
    dereference that only an unvalidated policy can cause. *)
Lemma create_exec sv c w h o w' :
  exec interference (handleLeaseCreate sv c) w h o w' →
  refused c o
  ∨ (o = Panic ∧ ∃ w1 k sc g t, interference w w1 ∧ grantOf (w_policy w1) k sc = Some g
       ∧ (WindowOpen g t = None ∨ scopeOf (w_policy w1) sc = None))
  ∨ ∃ d, issuance sv c w h w' o d.
Proof.
  intros H. assert (Ha : ahead w w) by done. unfold handleLeaseCreate in H.
  exec_next H Ha w1 x1 h1. rename Hi into Hi1. cbn [perform fst snd] in H.
  set (pol := w_policy w1) in *.
  exec_next H Ha w2 x2 h2. destruct (perform x2 w2 _).1; cbn [negb] in H; [|refuse H].
  destruct (dbind _ _) as [req| |] eqn:Ed; [|refuse H..].
  destruct (bool_decide (rq_Scope req = _)); [refuse H|]. destruct (_ <? _); [refuse H|]. cbv zeta in H.
  destruct (grantOf pol (sub_key c) (rq_Scope req)) as [g|] eqn:Eg; [|refuse H].
  exec_next H Ha w3 x3 h3. destruct (WindowOpen g _) as [[|]|] eqn:Ew; [|refuse H|].
  2:{ right; left. destruct H as (_ & -> & _). split; [done|]. exists w1, (sub_key c), (rq_Scope req), g. eauto. }
  destruct (clampTTL _ _) as [ttl|] eqn:Et; [|refuse H].
  destruct (scopeOf pol (rq_Scope req)) as [s|] eqn:Es.
  2:{ right; left. destruct H as (_ & -> & _). split; [done|]. exists w1, (sub_key c), (rq_Scope req), g, 0. eauto. }
  destruct (sv_providers sv !! sc_Provider s) as [prov|] eqn:Epr; [|refuse H].
  exec_next H Ha w4 x4 h4. rewrite exec_bind in H by apply _. destruct H as (result & w5 & hf & h5 & -> & Hf & H).
  assert (Ha5 : ahead w w5) by (etrans; [exact Ha|by eapply runs_log, exec_runs]).
  exec_next H Ha5 w6 x6 h6. exec_next H Ha5 w7 x7 h7. unfold inc in H. exec_next H Ha5 w8 x8 h8.
  destruct result as [result|err]; [|exec_next H Ha5 w9 x9 h9; refuse H].
  apply issue_exec in H as [[title ->]|(ttl' & w9 & x9 & Hcap & Hcr & Ho & Hlog)]; [left; by exists 500, ProblemAuditUnavailable, title|].
  right; right. eexists (mkGrounds req pol g s prov result ttl ttl' _). split; cbn [is_req is_pol is_grant is_scope is_prov
    is_result is_ttl is_capped is_lease]; try done.
  - exists w1, x1. split; [in_history|done].
  - exists w3, x3. split; [in_history|done].
  - by eexists _, w5, [_; _; _; _], hf, _.
  - eapply cut_down_mono; [|exact Hcap]. intros s' Hs. in_history.
  - exists w9, x9. split; [in_history|reflexivity].
  - eapply logged_since_ahead; [exact Ha5|exact Hlog].
Qed.

(** ** Renewal among other goroutines *)

Lemma renew_exec sv c id w h o w' :
  exec interference (handleLeaseRenew sv c id) w h o w' →
  (∃ status typ title, status ≠ 200 ∧ o = writeProblem status typ title "" (cx_reqID c))
  ∨ ∃ w1 x1 w2 x2 w3 x3 existing g sec ttl l,
      [Step (LeaseGet id) w1 x1; Step CurrentPolicy w2 x2; Step (LeaseRenew id ttl) w3 x3] `sublist_of` h
      ∧ w_leases w1 !! id = Some existing ∧ l_SubjectKey existing = sub_key c
      ∧ grantOf (w_policy w2) (sub_key c) (l_Scope existing) = Some g ∧ g_Renewable g = true
      ∧ renew_ttl sv c = Some sec ∧ clampTTL sec g = Some ttl
      ∧ (Renew (w_leases w3) (x_now x3) (x_now2 x3) id ttl).1 = (Some l, "")
      ∧ o = writeJSON 200 (BLease (leaseMeta l)) ∧ logged_since w w' (renewed_event c (w_policy w2) l).
Proof.
  intros H. assert (Ha : ahead w w) by done. unfold handleLeaseRenew in H.
  exec_next H Ha w0 x0 h0. destruct (perform x0 w0 _).1; cbn [negb] in H.
  2:{ left. apply exec_runs, (returns_runs _ _ _ _ _ (rateLimited_returns _ _ _)) in H as <-. by eexists 429, _, _. }
  exec_next H Ha w1 x1 h1. cbn [perform fst snd] in H, Ha. unfold Get in H.
  destruct (w_leases w1 !! id) as [ex|] eqn:El; [|left; destruct H as (_ & -> & _); by eexists 404, _, _].
  destruct (bool_decide (l_SubjectKey ex = sub_key c)) eqn:Ek; cbn [negb] in H; [|left; destruct H as (_ & -> & _); by eexists 403, _, _].
  apply bool_decide_eq_true in Ek. exec_next H Ha w2 x2 h2. cbn [perform fst snd] in H, Ha.
  destruct (grantOf _ _ _) as [g|] eqn:Eg; [|left; destruct H as (_ & -> & _); by eexists 409, _, _].
  destruct (g_Renewable g) eqn:Er; cbn [negb] in H; [|left; destruct H as (_ & -> & _); by eexists 409, _, _].
  destruct (renew_ttl sv c) as [sec|] eqn:Es; [|left; destruct H as (_ & -> & _); by eexists 400, _, _].
  destruct (clampTTL sec g) as [ttl|] eqn:Et; [|left; destruct H as (_ & -> & _); by eexists 400, _, _].
  exec_next H Ha w3 x3 h3. cbn [perform] in H, Ha.
  pose proof (Renew_outcome (w_leases w3) (x_now x3) (x_now2 x3) id ttl) as Ho.
  destruct (Renew (w_leases w3) (x_now x3) (x_now2 x3) id ttl) as [[l out] st] eqn:ER. cbn [fst snd] in *.
  specialize (Ho _ _ eq_refl). destruct (bool_decide (out = "")) eqn:Eo; cbn [negb] in H.
  2:{ left; destruct H as (_ & -> & _); by eexists 409, _, _. }
  apply bool_decide_eq_true in Eo. destruct l as [l|]; [|by destruct (proj1 Ho eq_refl)].
  apply exec_runs in H. rewrite runs_act in H. destruct H as (w4 & x4 & Hi4 & _ & H).
  destruct (perform x4 w4 _).1 as [[]|err] eqn:Ee.
  - right. exists w1, x1, w2, x2, w3, x3, ex, g, sec, ttl, l. destruct H as [-> Hi5]. rewrite ER. subst out.
    split_and!; try done; [apply sublist_cons; do 3 apply sublist_skip; apply sublist_nil_l|].
    eapply logged_since_emit; [|exact Ee|by apply interference_log in Hi5 as [? _]].
    change (ahead w w4). etrans; [exact Ha|]. by apply interference_log.
  - left. rewrite runs_act in H. destruct H as (? & ? & _ & _ & H).
    apply (returns_runs _ _ _ _ _ (auditFailClosed_returns _)) in H as <-. by eexists 500, _, _.
Qed.

(** ** Recording claims *)

(** The events of the claims [ms] under the identifiers [ids], in order among
    those committed since [w]. *)
Definition claims_logged (c : Ctx) (leaseID : string) (w w' : world) (ids : list string)
    (ms : list (option (gmap string string))) : Prop :=
  ∃ new evs, log w' = log w ++ new ∧ evs `sublist_of` new ∧ length ids = length ms
    ∧ Forall2 (λ im ev, records (claim_event c leaseID im.1 im.2) ev
               ∧ signed_by ed25519_Sign jcs_Transform (em_signer (w_emitter w)) ev) (zip ids ms) evs.

Lemma record_claims_runs c leaseID ms : ∀ ids0 w o w',
  runs (record_claims c leaseID ms ids0) w o w' →
  (∃ title, o = writeProblem 500 ProblemAuditUnavailable title "" (cx_reqID c))
  ∨ ∃ ids, o = writeJSON 202 (BClaimIDs (ids0 ++ ids)) ∧ claims_logged c leaseID w w' ids ms.
Proof.
  induction ms as [|m ms IH]; intros ids0 w o w' H; cbn [record_claims] in H; pose proof (runs_log _ _ _ _ H) as [[new0 Hn0] _].
  - right. unfold inc in H. rewrite runs_act in H. destruct H as (? & ? & _ & _ & -> & _).
    exists []. rewrite app_nil_r. split; [done|]. exists new0, []. split_and!; [done|apply sublist_nil_l|done|constructor].
  - assert (Ha : ahead w w) by done. runs_next H Ha w1 x1. cbn [perform fst snd] in H, Ha.
    set (id := NewID "claim" (x_rand x1)) in *.
    rewrite runs_act in H. destruct H as (w2 & x2 & Hi2 & _ & H).
    assert (Ha2 : ahead w w2) by (etrans; [exact Ha|by apply interference_log]).
    destruct (perform_emit x2 w2 (claim_event c leaseID id m)) as [(ev & He & Hl & Hr & Hs)|([err He] & _)]; rewrite He in H.
    + apply IH in H as [Hbad|(ids & -> & new & evs & Hl2 & Hsub & Hlen & Hall)]; [by left|]. right.
      exists (id :: ids). rewrite <-app_assoc. split; [done|]. destruct Ha2 as [[n1 Hn1] Hsg].
      assert (Hsg' : em_signer (w_emitter (perform x2 w2 (EmitEvent (claim_event c leaseID id m))).2) = em_signer (w_emitter w)).
      { destruct (perform_log x2 w2 (EmitEvent (claim_event c leaseID id m))) as (_ & _ & -> & _). done. }
      exists (n1 ++ [ev] ++ new), (ev :: evs). split_and!.
      * rewrite Hl2, Hl, Hn1. by rewrite !app_assoc.
      * apply sublist_inserts_l. cbn. by apply sublist_skip.
      * cbn. by rewrite Hlen.
      * cbn. constructor; [split; [done|by rewrite <-Hsg]|]. rewrite Hsg' in Hall. exact Hall.
    + left. apply (returns_runs _ _ _ _ _ (auditFailClosed_returns _)) in H as <-. eauto.
Qed.

Lemma claims_logged_ahead c leaseID w w1 w' ids ms :
  ahead w w1 → claims_logged c leaseID w1 w' ids ms → claims_logged c leaseID w w' ids ms.
Proof.
  intros [[n1 H1] Hs] (new & evs & Hl & Hsub & Hlen & Hall). exists (n1 ++ new), evs.
  split_and!; [by rewrite Hl, H1, app_assoc|by apply sublist_inserts_l|done|by rewrite <-Hs].
Qed.

Lemma claims_exec sv c w h o w' :
  exec interference (handleClaims sv c) w h o w' →
  (∃ status typ title, status ≠ 202 ∧ o = writeProblem status typ title "" (cx_reqID c))
  ∨ ∃ req total ids w1 x1 w2 x2,
      dbind (decode_stream (MaxBodyBytes (sv_cfg sv)) (cx_body c)) dec_claimsRequest = DOk req
      ∧ 1 ≤ Z.of_nat (length (elems (cr_Claims req))) ≤ MaxClaimsPerReq (sv_cfg sv)
      ∧ claim_bytes (MaxClaimBytes (sv_cfg sv)) (elems (cr_Claims req)) 0 = Some total
      ∧ [Step CurrentPolicy w1 x1; Step (BudgetSpend (sub_key c) total (ClaimBytesCap (w_policy w1) (sub_key c))) w2 x2]
          `sublist_of` h
      ∧ (Spend (w_claimBudget w2) (x_now x2) (sub_key c) total (ClaimBytesCap (w_policy w1) (sub_key c))).1 = true
      ∧ o = writeJSON 202 (BClaimIDs ids) ∧ claims_logged c (cr_LeaseID req) w w' ids (elems (cr_Claims req)).
Proof.
  intros H. assert (Ha : ahead w w) by done. unfold handleClaims in H.
  exec_next H Ha w0 x0 h0. destruct (perform x0 w0 _).1; cbn [negb] in H.
  2:{ left. apply exec_runs, (returns_runs _ _ _ _ _ (rateLimited_returns _ _ _)) in H as <-. by eexists 429, _, _. }
  destruct (dbind _ _) as [req| |] eqn:Ed; [|left; destruct H as (_ & -> & _); by eexists 400, _, _..].
  cbv zeta in H. set (ms := elems (cr_Claims req)) in *.
  destruct (_ || _) eqn:En; [left; destruct H as (_ & -> & _); by eexists 400, _, _|].
  apply orb_false_iff in En as [En1%Z.eqb_neq En2%Z.ltb_ge].
  destruct (claim_bytes _ _ _) as [total|] eqn:Et; [|left; destruct H as (_ & -> & _); by eexists 400, _, _].
  rewrite exec_bind in H by apply _. destruct H as (held & wb & h1 & h2 & -> & Hh & H).
  assert (Hab : ahead w wb) by (etrans; [exact Ha|by eapply runs_log, exec_runs]).
  destruct held; cbn [negb] in H; [|left; destruct H as (_ & -> & _); by eexists 403, _, _].
  exec_next H Hab w1 x1 h3. cbn [perform fst snd] in H, Hab.
  exec_next H Hab w2 x2 h4. cbn [perform] in H, Hab.
  destruct (Spend (w_claimBudget w2) _ _ _ _) as [ok b] eqn:Es. cbn [fst snd] in H, Hab. apply exec_runs in H.
  destruct ok; cbn [negb] in H.
  2:{ left. unfold inc in H. rewrite runs_act in H. destruct H as (? & ? & _ & _ & -> & _). by eexists 429, _, _. }
  apply record_claims_runs in H as [[title ->]|(ids & -> & Hl)]; [left; by eexists 500, _, _|].
  right. exists req, total, ids, w1, x1, w2, x2. rewrite Es. split_and!; try done.
  - fold ms. lia.
  - apply sublist_cons, sublist_inserts_l. do 2 apply sublist_skip. apply sublist_nil_l.
  - by eapply claims_logged_ahead.
Qed.

(** ** No other endpoint discloses *)

Definition no_secret (o : outcome) : Prop :=
  match o with
  | Reply (mkResponse _ _ (BLease l)) => lr_Secret l = ∅
  | _ => True
  end.

Lemma returns_mono {A} (P Q : A → Prop) (p : prog A) : returns P p → (∀ a, P a → Q a) → returns Q p.
Proof. induction p as [a|T a k IH]; cbn; [auto|]. intros H HPQ t. by apply IH. Qed.

Ltac walk_handler :=
  walk_returns;
  try (lazymatch goal with
    | |- returns _ (rateLimited _ _ _) => eapply returns_mono; [apply rateLimited_returns|intros ? <-; exact I]
    | |- returns _ (auditFailClosed _) => eapply returns_mono; [apply auditFailClosed_returns|intros ? <-; exact I]
    | |- returns _ (bad_request _ _) => exact I
    | |- returns _ (not_found _) => exact I
    | |- returns _ (not_yours _) => exact I
    | |- returns _ (conflict _ _) => exact I
    | |- no_secret _ => first [exact I|reflexivity]
    end).

Lemma record_claims_no_secret c leaseID claims : ∀ ids, returns no_secret (record_claims c leaseID claims ids).
Proof. induction claims as [|m claims IH]; intros ids; cbn [record_claims]; walk_handler. apply IH. Qed.

Lemma other_routes_no_secret sv rt c : rt ≠ RCreate → returns no_secret (dispatch sv rt c).
Proof.
  intros Hne. destruct rt as [|id|id|id| |]; cbn [dispatch]; [done|..].
  - unfold handleLeaseRenew. walk_handler.
  - unfold handleLeaseSurrender. walk_handler.
  - unfold handleLeaseGet. walk_handler.
  - unfold handleClaims. walk_handler. apply (returns_bind (λ _, True)); [walk_returns; done|].
    intros held _. walk_handler. apply record_claims_no_secret.
  - unfold handleWhoami. walk_handler.
Qed.

(** ** Disclosure *)

Lemma disclosure_issuance sv c rt w h w' r l :
  exec interference (dispatch sv rt c) w h (Reply r) w' → rp_Body r = BLease l → lr_Secret l ≠ ∅ →
  rt = RCreate ∧ ∃ d, issuance sv c w h w' (Reply r) d.
Proof.
  intros H Hb Hs. assert (Hn : ¬ no_secret (Reply r)) by (destruct r as [st ns b]; cbn in Hb; subst b; exact Hs).
  destruct (decide (rt = RCreate)) as [->|Hne].
  - split; [done|]. apply create_exec in H as [(st & ty & ti & _ & E)|[[E _]|Hd]]; [|done|done].
    injection E as ->. done.
  - destruct Hn. by apply exec_runs, (returns_runs _ _ _ _ _ (other_routes_no_secret sv rt c Hne)) in H.
Qed.

(** C2: No secret leaves the broker unrecorded, on any endpoint and whatever runs
    concurrently: a response that carries secret material is the 201 of a lease
    request, marked [no-store], and by then the audit stream holds a committed,
    signed [lease.issued] event, written during this request, that names the
    caller, the request, and the lease id, scope and expiry the response shows. *)
Theorem disclosure_is_audited sv c rt w w' r l :
  runs (dispatch sv rt c) w (Reply r) w' → rp_Body r = BLease l → lr_Secret l ≠ ∅ →
  rt = RCreate ∧ rp_Status r = 201 ∧ rp_NoStore r = true
  ∧ ∃ new ev, log w' = log w ++ new ∧ (ev ∈ new)
      ∧ signed_by ed25519_Sign jcs_Transform (em_signer (w_emitter w)) ev
      ∧ ev_Type ev = TypeLeaseIssued ∧ ev_Subject ev = Some (cx_sub c) ∧ ev_RequestID ev = cx_reqID c
      ∧ ev_Attested ev !! "lease_id" = Some (AStr (lr_LeaseID l))
      ∧ ev_Attested ev !! "scope" = Some (AStr (lr_Scope l))
      ∧ ev_Attested ev !! "expires_at" = Some (AStr (lr_ExpiresAt l)).
Proof.
  intros [h H]%runs_exec Hb Hs. destruct (disclosure_issuance _ _ _ _ _ _ _ _ H Hb Hs) as (-> & d & Hd).
  pose proof (is_reply _ _ _ _ _ _ _ Hd) as E. injection E as ->. injection Hb as <-.
  destruct (is_logged _ _ _ _ _ _ _ Hd) as (new & ev & Hl & Hin & (H1 & H2 & H3 & _ & H5 & _) & Hsg).
  split_and!; [done..|]. exists new, ev. rewrite H1, H2, H3, H5. split_and!; try done.
  all: cbn [issued_event newEvent ev_Attested]; unfold issued_attested; case_match; reflexivity.
Qed.

(** C3: Deny by default: a response carries secret material only if the policy
    that the request read from the store grants that scope to the caller, with an
    issue window open at the time the request read off the clock, the scope's
    provider is configured, and the material is what that provider, called in the
    course of the request, returned for the scope's own reference, fields and
    parameters; the scope in the response is the one the request body named, and
    the expiry shown is a clock reading of the request plus at most the clamped
    TTL. *)
Theorem disclosure_is_authorised sv c rt w h w' r l :
  exec interference (dispatch sv rt c) w h (Reply r) w' → rp_Body r = BLease l → lr_Secret l ≠ ∅ →
  ∃ req w1 x1 w2 x2 g s prov ttl result h1 hf h2 wa wb w3 x3 capped,
    dbind (decode_stream (MaxBodyBytes (sv_cfg sv)) (cx_body c)) dec_leaseRequest = DOk req
    ∧ lr_Scope l = rq_Scope req
    ∧ Step CurrentPolicy w1 x1 ∈ h
    ∧ grantOf (w_policy w1) (Key (cx_sub c)) (rq_Scope req) = Some g
    ∧ scopeOf (w_policy w1) (rq_Scope req) = Some s
    ∧ Step Now w2 x2 ∈ h ∧ WindowOpen g (x_now x2) = Some true
    ∧ sv_providers sv !! sc_Provider s = Some prov
    ∧ clampTTL (rq_TTLSeconds req) g = Some ttl
    ∧ h = h1 ++ hf ++ h2
    ∧ exec interference (pv_Fetch prov (mkRequest (sc_Ref s) (sc_Fields s) (sc_Params s) ttl)) wa hf (Ok result) wb
    ∧ lr_Secret l = rs_Secret result ∧ lr_Semantics l = pv_Semantics prov
    ∧ Step (LeaseCreate (Key (cx_sub c)) (rq_Scope req) (pv_Semantics prov) capped (g_Renewable g)) w3 x3 ∈ h
    ∧ capped ≤ ttl ∧ lr_ExpiresAt l = FormatRFC3339 (tAdd (x_now x3) capped).
Proof.
  intros H Hb Hs. destruct (disclosure_issuance _ _ _ _ _ _ _ _ H Hb Hs) as (-> & d & [Hdec Hcur Hgr Hsc Hop Hcl Hcf Hfe Hcap Hcr Hr _]).
  injection Hr as ->. injection Hb as <-.
  destruct Hcur as (w1 & x1 & Hin1 & _ & Hp), Hop as (w2 & x2 & Hin2 & Ht), Hfe as (wa & wb & h1 & hf & h2 & Hh & Hf), Hcr as (w3 & x3 & Hin3 & El).
  exists (is_req d), w1, x1, w2, x2, (is_grant d), (is_scope d), (is_prov d), (is_ttl d), (is_result d), h1, hf, h2, wa, wb, w3, x3, (is_capped d).
  rewrite Hp. split_and!; try done; cbn [issued_response leaseMeta lr_Scope lr_Semantics lr_ExpiresAt]; try by rewrite El.
  destruct Hcap as [->|(_ & Hlt & _)]; lia.
Qed.

End Props.

Lemma disclosure_is_audited_witness :
  ∃ l new ev, rp_Body issued_reply = BLease l ∧ log issued_world = log sample_world ++ new ∧ (ev ∈ new)
    ∧ ev_Attested ev !! "lease_id" = Some (AStr (lr_LeaseID l)).
Proof.
  destruct issued_body as (l & E & Hs).
  destruct (@disclosure_is_audited sample_ext sample_server (sample_ctx (create_body "db" 60)) RCreate sample_world issued_world
              issued_reply l issued_runs E Hs) as (_ & _ & _ & new & ev & H1 & H2 & _ & _ & _ & _ & H3 & _).
  exists l, new, ev. split_and!; [exact E|exact H1|exact H2|exact H3].
Defined.

Lemma disclosure_is_authorised_witness :
  ∃ l (h : list step) w1 x1 g, rp_Body issued_reply = BLease l ∧ Step CurrentPolicy w1 x1 ∈ h
    ∧ grantOf (w_policy w1) "agents/builder" (lr_Scope l) = Some g.
Proof.
  destruct issued_body as (l & E & Hs). destruct issued_exec as [h Hh].
  destruct (@disclosure_is_authorised sample_ext sample_server (sample_ctx (create_body "db" 60)) RCreate sample_world h issued_world
              issued_reply l Hh E Hs) as (req & w1 & x1 & w2 & x2 & g & Hr).
  destruct Hr as (s & prov & ttl & result & h1 & hf & h2 & wa & wb & w3 & x3 & capped & _ & H1 & H2 & H3 & _).
  exists l, h, w1, x1, g. rewrite H1. split_and!; [exact E|exact H2|exact H3].
Defined.
