(* ===== verification/ServerEffects.v ===== *)
(** * What each request does to the lease table

    Effects of the handlers of [Server] on the lease table when no other
    goroutine acts during the request ([alone]); the providers are used through
    their interface ([ProviderLaws]) only. *)

From S2P Require Import Prelude GoStrings GoTime Float64 Encoding RateLimit LeaseStore Json AuditStream Metrics Policy World Provider Server Samples ServerProps.
From Stdlib Require Import QArith.
Local Open Scope Z_scope.
Local Open Scope stdpp_scope.

Lemma all_actions_mono (P Q : ∀ T, action T → Prop) {A} (p : prog A) :
  (∀ T (a : action T), P T a → Q T a) → all_actions P p → all_actions Q p.
Proof. intros HPQ. induction p as [a|T a k IH]; cbn; [done|]. intros [Ha Hk]. split; [by apply HPQ|]. auto. Qed.

Section Effects.
Context {X : Externals}.

Abbreviation quiet := (all_actions no_lease_write).

Lemma fetch_quiet prov req : ProviderLaws prov → quiet (pv_Fetch prov req).
Proof. intros Hp. eapply all_actions_mono; [|apply fetch_outside]. intros T a. by destruct a. Qed.

Lemma auditFailClosed_quiet reqID : quiet (auditFailClosed reqID).
Proof. unfold auditFailClosed, inc. walk; exact I. Qed.

Lemma rateLimited_quiet c endpoint title : quiet (rateLimited c endpoint title).
Proof.
  unfold rateLimited, inc. apply all_actions_act; [done|intros _]. apply all_actions_act; [done|intros ok].
  apply all_actions_bind; [walk; exact I|done].
Qed.

Lemma deny_quiet c pol req scope status typ title reason : quiet (deny c pol req scope status typ title reason).
Proof. unfold deny, inc. walk; exact I. Qed.

Lemma cap_ttl_quiet ttl result : quiet (cap_ttl ttl result).
Proof. unfold cap_ttl. walk; exact I. Qed.

Lemma record_claims_quiet c leaseID claims : ∀ ids, quiet (record_claims c leaseID claims ids).
Proof.
  induction claims as [|m claims IH]; intros ids; cbn [record_claims]; unfold inc; walk; try exact I.
  - apply IH.
  - apply auditFailClosed_quiet.
Qed.

Lemma perform_remove x w id : w_leases (perform x w (LeaseRemove id)).2 = delete id (w_leases w).
Proof. done. Qed.

Lemma perform_surrender x w id :
  w_leases (perform x w (LeaseSurrender id)).2
  = match w_leases w !! id with Some l => <[id := set_Surrendered l]> (w_leases w) | None => w_leases w end.
Proof.
  pose proof (Surrender_store (w_leases w) id) as E. cbn [perform].
  destruct (Surrender _ _) as [[l o] st]. cbn in *. exact E.
Qed.

(** One action that leaves the table alone, [Hl] relating the current table to
    the one at the start. *)
Ltac alone_next H Hl x :=
  rewrite alone_act in H; destruct H as (x & ? & H);
  lazymatch type of H with
  | alone _ (snd (perform x ?w1 ?a)) _ _ =>
    let E := fresh "E" in
    pose proof (eq_trans (perform_no_lease_write x w1 a I) Hl) as E; clear Hl; rename E into Hl
  end.

(** What issuing does: the lease enters the table, or nothing does. *)
Lemma issue_alone c pol req g prov ttl result w o w' :
  alone (issue c pol req g prov ttl result) w o w' →
  (refused c o ∧ w_leases w' = w_leases w)
  ∨ ∃ l secret up, l_SubjectKey l = sub_key c ∧ l_Scope l = rq_Scope req ∧ w_leases w !! l_ID l = None
      ∧ w_leases w' = <[l_ID l := l]> (w_leases w)
      ∧ o = Reply (mkResponse 201 true (BLease (issued_response l up secret))).
Proof.
  intros H. unfold issue in H. cbv zeta in H. rewrite alone_bind in H. destruct H as (ttl' & w1 & Hcap & H).
  pose proof (alone_no_lease_write _ _ _ _ (cap_ttl_quiet _ _) Hcap) as Hl.
  rewrite alone_act in H. destruct H as (x1 & [_ Hfresh] & H).
  destruct (perform x1 w1 (LeaseCreate _ _ _ _ _)) as [l w2] eqn:Ec. cbn [fst snd] in H.
  cbn in Ec. injection Ec as El Ew2. assert (Hl2 : w_leases w2 = <[l_ID l := l]> (w_leases w)) by (by subst; rewrite <-Hl).
  assert (Hf : w_leases w !! l_ID l = None) by (by subst l; rewrite <-Hl).
  assert (Hk : l_SubjectKey l = sub_key c ∧ l_Scope l = rq_Scope req) by (by subst l). clear El Ew2 Hfresh.
  rewrite alone_act in H. destruct H as (x2 & _ & H). 
  pose proof (perform_no_lease_write x2 w2 (EmitEvent (issued_event c pol req l ttl' (upstream_text result))) I) as Hl3.
  rewrite Hl2 in Hl3. destruct (perform x2 w2 _).1 as [[]|err].
  - right. unfold inc in H. alone_next H Hl3 x3. destruct H as [-> ->]. eexists l, _, _. naive_solver.
  - left. rewrite alone_act in H. destruct H as (x3 & _ & H). split.
    + apply alone_runs in H. apply (returns_runs _ _ _ _ _ (auditFailClosed_returns _)) in H as <-. by eexists 500, _, _.
    + apply (alone_no_lease_write _ _ _ _ (auditFailClosed_quiet _)) in H.
      rewrite H, perform_remove, Hl3. by rewrite delete_insert_id.
Qed.

(** A request that ends here is refused and leaves the table as it was. *)
Ltac refuse_quiet H Hl :=
  left; split;
  [ let R := fresh in pose proof (alone_runs _ _ _ _ H) as R;
    lazymatch type of H with
    | alone (rateLimited _ _ _) _ _ _ => eapply (refused_runs _ _ _ _ _ _ _ _ R); [apply rateLimited_returns|done]
    | alone (deny _ _ _ _ _ _ _ _) _ _ _ => eapply (refused_runs _ _ _ _ _ _ _ _ R); [apply deny_returns|done]
    | alone (bad_request _ _) _ _ _ => eapply (refused_runs _ _ _ _ _ _ _ _ R); [apply bad_request_returns|done]
    end
  | eapply eq_trans; [eapply alone_no_lease_write; [|exact H]|exact Hl];
    lazymatch type of H with
    | alone (rateLimited _ _ _) _ _ _ => apply rateLimited_quiet
    | alone (deny _ _ _ _ _ _ _ _) _ _ _ => apply deny_quiet
    | alone (bad_request _ _) _ _ _ => exact I
    end ].

Lemma create_alone sv c w o w' :
  map_Forall (λ _ p, ProviderLaws p) (sv_providers sv) →
  alone (handleLeaseCreate sv c) w o w' →
  ((refused c o ∨ o = Panic) ∧ w_leases w' = w_leases w)
  ∨ ∃ req l secret up, dbind (decode_stream (MaxBodyBytes (sv_cfg sv)) (cx_body c)) dec_leaseRequest = DOk req
      ∧ l_SubjectKey l = sub_key c ∧ l_Scope l = rq_Scope req ∧ w_leases w !! l_ID l = None
      ∧ w_leases w' = <[l_ID l := l]> (w_leases w)
      ∧ o = Reply (mkResponse 201 true (BLease (issued_response l up secret))).
Proof.
  intros Hlaws H. assert (Hl : w_leases w = w_leases w) by done.
  assert (Hx : ∀ P : Prop, (refused c o ∧ w_leases w' = w_leases w) ∨ P → ((refused c o ∨ o = Panic) ∧ w_leases w' = w_leases w) ∨ P) by tauto.
  unfold handleLeaseCreate in H.
  alone_next H Hl x1. cbn [perform fst snd] in H, Hl. set (pol := w_policy w) in *.
  alone_next H Hl x2. destruct (perform x2 w _).1; cbn [negb] in H; [|apply Hx; refuse_quiet H Hl].
  destruct (dbind _ _) as [req| |] eqn:Ed; [|apply Hx; refuse_quiet H Hl..].
  destruct (bool_decide (rq_Scope req = _)); [apply Hx; refuse_quiet H Hl|].
  destruct (_ <? _); [apply Hx; refuse_quiet H Hl|]. cbv zeta in H.
  destruct (grantOf pol (sub_key c) (rq_Scope req)) as [g|]; [|apply Hx; refuse_quiet H Hl].
  alone_next H Hl x3. destruct (WindowOpen g _) as [[|]|]; [|apply Hx; refuse_quiet H Hl|left; destruct H as [-> ->]; tauto].
  destruct (clampTTL _ _) as [ttl|]; [|apply Hx; refuse_quiet H Hl].
  destruct (scopeOf pol (rq_Scope req)) as [s|]; [|left; destruct H as [-> ->]; tauto].
  destruct (sv_providers sv !! sc_Provider s) as [prov|] eqn:Epr; [|apply Hx; refuse_quiet H Hl].
  specialize (Hlaws _ _ Epr). cbn in Hlaws. alone_next H Hl x4. rewrite alone_bind in H. destruct H as (result & w5 & Hf & H).
  apply (alone_no_lease_write _ _ _ _ (fetch_quiet _ _ Hlaws)) in Hf. rewrite Hl in Hf. clear Hl. rename Hf into Hl.
  alone_next H Hl x6. alone_next H Hl x7. unfold inc in H. alone_next H Hl x8.
  destruct result as [result|err]; [|alone_next H Hl x9; apply Hx; refuse_quiet H Hl].
  apply issue_alone in H as [[Hr Ew]|(l & sec & up & Hk & Hsc & Hnone & Hins & Ho)]; rewrite Hl in *.
  - left. tauto.
  - right. exists req, l, sec, up. tauto.
Qed.

(** A renewal that went through: by the owner, under a grant that still allows
    it, of a live and renewable lease. *)
Record renewed (sv : Server) (c : Ctx) (w : world) (id : string) (l l' : Lease) : Prop := {
  rn_held : w_leases w !! id = Some l;
  rn_owner : l_SubjectKey l = sub_key c;
  rn_grant : ∃ g seconds ttl now, grantOf (w_policy w) (sub_key c) (l_Scope l) = Some g ∧ g_Renewable g = true
      ∧ renew_ttl sv c = Some seconds ∧ clampTTL seconds g = Some ttl ∧ l' = set_ExpiresAt (tAdd now ttl) l;
  rn_live : l_Surrendered l = false ∧ l_Renewable l = true ∧ ∃ now, now ≤ l_ExpiresAt l
}.

Ltac quiet_problem H Hl :=
  left; first [destruct H as [-> ->]; split; [exact Hl|done]
              |split; [eapply eq_trans; [eapply alone_no_lease_write; [apply rateLimited_quiet|exact H]|exact Hl]
                      |apply alone_runs in H; apply (returns_runs _ _ _ _ _ (rateLimited_returns _ _ _)) in H as <-; done]].

Lemma renew_alone sv c id w o w' :
  alone (handleLeaseRenew sv c id) w o w' →
  (w_leases w' = w_leases w ∧ status_of o ≠ 200 ∧ o ≠ Panic)
  ∨ ∃ l l', renewed sv c w id l l'
      ∧ ((o = writeJSON 200 (BLease (leaseMeta l')) ∧ w_leases w' = <[id := l']> (w_leases w))
         ∨ (status_of o = 500 ∧ w_leases w' = <[id := set_Surrendered l']> (w_leases w))).
Proof.
  intros H. assert (Hl : w_leases w = w_leases w) by done. unfold handleLeaseRenew in H.
  alone_next H Hl x1. destruct (perform x1 w _) as [ok w1] eqn:E1. cbn [fst snd] in H, Hl.
  assert (Hp : w_policy w1 = w_policy w) by (cbn in E1; destruct (Allow _ _ _); by injection E1 as _ <-). clear E1.
  destruct ok; cbn [negb] in H; [|quiet_problem H Hl].
  rewrite alone_act in H. destruct H as (x2 & _ & H). cbn [perform fst snd] in H. unfold Get in H. rewrite Hl in H.
  destruct (w_leases w !! id) as [l|] eqn:El; [|quiet_problem H Hl].
  destruct (bool_decide (l_SubjectKey l = sub_key c)) eqn:Ek; cbn [negb] in H; [|quiet_problem H Hl].
  apply bool_decide_eq_true in Ek. rewrite alone_act in H. destruct H as (x3 & _ & H). cbn [perform fst snd] in H. rewrite Hp in H.
  destruct (grantOf _ _ _) as [g|] eqn:Eg; [|quiet_problem H Hl].
  destruct (g_Renewable g) eqn:Er; cbn [negb] in H; [|quiet_problem H Hl].
  destruct (renew_ttl sv c) as [sec|] eqn:Es; [|quiet_problem H Hl].
  destruct (clampTTL sec g) as [ttl|] eqn:Et; [|quiet_problem H Hl].
  rewrite alone_act in H. destruct H as (x4 & _ & H). cbn [perform] in H. rewrite Hl in H.
  pose proof (Renew_store (w_leases w) (x_now x4) (x_now2 x4) id ttl) as Hst.
  pose proof (Renew_outcome (w_leases w) (x_now x4) (x_now2 x4) id ttl) as Ho.
  pose proof (Renew_Some (w_leases w) (x_now x4) (x_now2 x4) id ttl) as HS.
  destruct (Renew _ _ _ _ _) as [[l0 out] st]. cbn [fst snd] in *. specialize (Ho _ _ eq_refl).
  destruct (bool_decide (out = "")) eqn:Eo; cbn [negb] in H.
  2:{ apply bool_decide_eq_false in Eo. assert (l0 = None) as -> by tauto. subst st. destruct H as [-> ->]. left. done. }
  apply bool_decide_eq_true in Eo. destruct l0 as [l'|]; [|by destruct (proj1 Ho eq_refl)].
  destruct (HS l' out eq_refl) as (l1 & Hl1 & -> & _ & Hsur & Hexp & Hren). rewrite El in Hl1. injection Hl1 as <-.
  right. exists l, (set_ExpiresAt (tAdd (x_now2 x4) ttl) l). split.
  { split; [done|done| |eauto]. exists g, sec, ttl, (x_now2 x4). done. }
  assert (Hl4 : w_leases (set_leases st w1) = <[id := set_ExpiresAt (tAdd (x_now2 x4) ttl) l]> (w_leases w)) by done.
  alone_next H Hl4 x5. destruct (perform x5 _ _).1 as [[]|err].
  - left. destruct H as [-> ->]. done.
  - right. rewrite alone_act in H. destruct H as (x6 & _ & H).
    pose proof (alone_runs _ _ _ _ H) as R. apply (returns_runs _ _ _ _ _ (auditFailClosed_returns _)) in R as <-. split; [done|].
    apply (alone_no_lease_write _ _ _ _ (auditFailClosed_quiet _)) in H. rewrite H, perform_surrender, Hl4.
    by rewrite lookup_insert_eq, insert_insert_eq.
Qed.

Lemma surrender_alone sv c id w o w' :
  alone (handleLeaseSurrender sv c id) w o w' →
  w_leases w' = w_leases w
  ∨ ∃ l, w_leases w !! id = Some l ∧ l_SubjectKey l = sub_key c ∧ o = writeHeader 204
      ∧ w_leases w' = <[id := set_Surrendered l]> (w_leases w).
Proof.
  intros H. assert (Hl : w_leases w = w_leases w) by done. unfold handleLeaseSurrender in H.
  alone_next H Hl x1. destruct (perform x1 w _) as [ok w1]. cbn [fst snd] in H, Hl.
  destruct ok; cbn [negb] in H;
    [|left; eapply eq_trans; [eapply alone_no_lease_write; [apply rateLimited_quiet|exact H]|exact Hl]].
  rewrite alone_act in H. destruct H as (x2 & _ & H). cbn [perform fst snd] in H. unfold Get in H. rewrite Hl in H.
  destruct (w_leases w !! id) as [l|] eqn:El; [|left; by destruct H as [_ ->]].
  destruct (bool_decide (l_SubjectKey l = sub_key c)) eqn:Ek; cbn [negb] in H; [|left; by destruct H as [_ ->]].
  apply bool_decide_eq_true in Ek. destruct (l_Surrendered l); [left; by destruct H as [_ ->]|].
  alone_next H Hl x3. alone_next H Hl x4. destruct (perform x4 _ _).1 as [[]|err].
  - right. rewrite alone_act in H. destruct H as (x5 & _ & -> & ->). exists l. split_and!; [done..|].
    by rewrite perform_surrender, Hl, El.
  - left. apply (alone_no_lease_write _ _ _ _ (auditFailClosed_quiet _)) in H. by rewrite H.
Qed.

(** The handlers that never write to the table. *)
Lemma quiet_routes sv rt c :
  match rt with RGet _ | RClaims | RWhoami => True | _ => False end → quiet (dispatch sv rt c).
Proof.
  destruct rt as [|id|id|id| |]; intros Hrt; try contradiction; cbn [dispatch].
  - unfold handleLeaseGet. walk; exact I.
  - unfold handleClaims. walk; try exact I; [apply rateLimited_quiet|]. apply all_actions_bind; [walk; exact I|].
    intros held. unfold inc. walk; try exact I. apply record_claims_quiet.
  - unfold handleWhoami. walk; exact I.
Qed.

(** ** Properties *)

(** C5: A lease request alone, failing closed: either the response is not a 201
    and the lease table is exactly what it was (also when the provider answered
    and only the audit write failed), or the response is the 201 of one new
    lease, owned by the caller and for the scope requested, under an identifier
    not in the table before, and the table gains that lease and nothing else. *)
Theorem lease_request_effect sv c w o w' :
  map_Forall (λ _ p, ProviderLaws p) (sv_providers sv) →
  alone (handleLeaseCreate sv c) w o w' →
  (status_of o ≠ 201 ∧ secret_of o = ∅ ∧ w_leases w' = w_leases w)
  ∨ ∃ req l secret up, dbind (decode_stream (MaxBodyBytes (sv_cfg sv)) (cx_body c)) dec_leaseRequest = DOk req
      ∧ l_SubjectKey l = Key (cx_sub c) ∧ l_Scope l = rq_Scope req ∧ w_leases w !! l_ID l = None
      ∧ w_leases w' = <[l_ID l := l]> (w_leases w)
      ∧ o = Reply (mkResponse 201 true (BLease (issued_response l up secret))).
Proof.
  intros Hlaws H. apply create_alone in H as [[Hr Hw]|Hi]; [left|by right|done].
  destruct Hr as [(st & ty & ti & Hne & ->)| ->]; done.
Qed.

(** C6: Isolation: whatever a subject requests, on whatever route and with
    whatever outcome, a lease held by another subject stays in the table exactly
    as it was. *)
Theorem foreign_leases_untouched sv rt c w o w' id l :
  map_Forall (λ _ p, ProviderLaws p) (sv_providers sv) →
  alone (dispatch sv rt c) w o w' →
  w_leases w !! id = Some l → l_SubjectKey l ≠ Key (cx_sub c) →
  w_leases w' !! id = Some l.
Proof.
  intros Hlaws H Hid Hk.
  assert (Hins : ∀ id' l0 l1, w_leases w !! id' = Some l0 → l_SubjectKey l0 = sub_key c →
            w_leases w' = <[id' := l1]> (w_leases w) → w_leases w' !! id = Some l).
  { intros id' l0 l1 H0 H1 ->. rewrite lookup_insert_ne; [done|]. intros ->. rewrite Hid in H0. by injection H0 as ->. }
  assert (Hq : match rt with RGet _ | RClaims | RWhoami => True | _ => False end → w_leases w' !! id = Some l).
  { intros Hrt. by rewrite (alone_no_lease_write _ _ _ _ (quiet_routes sv rt c Hrt) H). }
  destruct rt as [|id'|id'|id'| |]; cbn [dispatch] in H; try exact (Hq I).
  - apply create_alone in H as [[_ ->]|(req & l1 & sec & up & _ & _ & _ & Hn & -> & _)]; [done| |done].
    rewrite lookup_insert_ne; [done|]. intros E. rewrite E in Hn. congruence.
  - apply renew_alone in H as [(-> & _)|(l0 & l1 & [H0 H1 _ _] & [[_ Hw]|[_ Hw]])]; [done|exact (Hins _ _ _ H0 H1 Hw)..].
  - apply surrender_alone in H as [->|(l0 & H0 & H1 & _ & Hw)]; [done|exact (Hins _ _ _ H0 H1 Hw)].
Qed.


End Effects.

(** The sample broker's providers keep the contract. *)
Lemma sample_laws : map_Forall (λ _ p, @ProviderLaws sample_ext p) (sv_providers sample_server).
Proof. apply map_Forall_singleton. apply _. Qed.

Lemma issued_alone :
  @alone sample_ext _ (handleLeaseCreate sample_server (sample_ctx (create_body "db" 60))) sample_world
    (Reply issued_reply) issued_world.
Proof.
  assert (E : issued_run.1.1 = Reply issued_reply) by (vm_compute; reflexivity).
  rewrite <-E. apply (@run_alone sample_ext). vm_compute. repeat split.
Qed.

Lemma lease_request_effect_witness :
  ∃ l, w_leases issued_world = <[l_ID l := l]> (w_leases sample_world).
Proof.
  destruct (@lease_request_effect sample_ext sample_server (sample_ctx (create_body "db" 60)) sample_world
              (Reply issued_reply) issued_world sample_laws issued_alone)
    as [(Hs & _)|(req & l & sec & up & _ & _ & _ & _ & Hw & _)].
  - exfalso. apply Hs. vm_compute. reflexivity.
  - exists l. exact Hw.
Defined.

(** A lease of another subject, and an attempt to surrender it. *)
Definition foreign_lease : Lease :=
  mkLease "lease_x" "agents/other" "db" "static-disclosure" sample_now (sample_now + Hour) true false false.
Definition foreign_world : world := set_leases {["lease_x" := foreign_lease]} sample_world.
Definition foreign_run : outcome * nat * world := sample_run Written (RSurrender "lease_x") "" foreign_world.

Lemma foreign_leases_untouched_witness :
  status_of foreign_run.1.1 = 403 ∧ w_leases foreign_run.2 !! "lease_x" = Some foreign_lease.
Proof.
  split; [vm_compute; reflexivity|].
  apply (@foreign_leases_untouched sample_ext sample_server (RSurrender "lease_x") (sample_ctx "") foreign_world
           foreign_run.1.1 foreign_run.2 "lease_x" foreign_lease sample_laws).
  - apply (@run_alone sample_ext). vm_compute. repeat split.
  - vm_compute. reflexivity.
  - vm_compute. discriminate.
Defined.

(** The renewal of the lease issued above. *)
Definition issued_id : string := NewID "lease" "0123456789abc".
Definition renew_run : outcome * nat * world := sample_run Written (RRenew issued_id) "" issued_world.

