(* ===== verification/ServerApi.v ===== *)
(** * Totality, denials, receipts and authentication of the API

    Further properties of the handlers of [Server], among other goroutines
    ([runs]) unless stated otherwise. *)

From S2P Require Import Prelude GoStrings GoTime Float64 Encoding RateLimit LeaseStore Regex Json AuditStream Metrics Policy World Provider Server Samples ServerProps ServerEffects.
From Stdlib Require Import Ascii QArith.
Local Open Scope Z_scope.
Local Open Scope stdpp_scope.

(** ** TTLs *)

(** The effective TTL never exceeds the grant's [ttlMax], for any 64-bit
    request: negative requests are refused, zero selects [ttlDefault], and any
    other request yields that many whole seconds, or the whole seconds of
    [ttlMax] when it asks for more; no request overflows the duration. *)
Lemma clamp_ttl_bound g requested :
  0 < g_TTLDefault g ≤ g_TTLMax g → in_int64 (g_TTLMax g) → in_int64 requested →
  (clampTTL requested g = None ↔ requested < 0)
  ∧ ∀ ttl, clampTTL requested g = Some ttl →
      0 ≤ ttl ≤ g_TTLMax g
      ∧ (requested = 0 → ttl = g_TTLDefault g)
      ∧ (0 < requested → ttl = Z.min requested (g_TTLMax g `div` Second) * Second).
Proof.
  intros Hd Hm Hr. unfold clampTTL, dur_div, in_int64, int64_min, int64_max in *.
  assert (Hs : Second = 10 ^ 9) by done.
  rewrite Z.quot_div_nonneg by lia.
  assert (Hq : 0 ≤ g_TTLMax g `div` Second ∧ g_TTLMax g `div` Second * Second ≤ g_TTLMax g).
  { rewrite Hs. split; [apply Z.div_pos; lia|]. pose proof (Z.mul_div_le (g_TTLMax g) (10 ^ 9)). lia. }
  destruct (Z.ltb_spec requested 0); [split; [tauto|done]|].
  destruct (Z.eqb_spec requested 0).
  { split; [split; [done|lia]|]. intros ttl [= <-]. split_and!; lia. }
  split; [split; [done|lia]|]. intros ttl [= <-].
  assert (Hmin : (if g_TTLMax g `div` Second <? requested then g_TTLMax g `div` Second else requested)
                 = Z.min requested (g_TTLMax g `div` Second)) by (destruct (Z.ltb_spec (g_TTLMax g `div` Second) requested); lia).
  rewrite Hmin, dur_mul_exact by (unfold in_int64, int64_min, int64_max; nia).
  split_and!; nia.
Qed.

Lemma clamp_ttl_bound_witness :
  ∃ ttl, clampTTL int64_max (mkGrant "db" (10 * Minute) Hour true []) = Some ttl ∧ ttl ≤ Hour.
Proof.
  exists Hour. split; [vm_compute; reflexivity|].
  apply (clamp_ttl_bound (mkGrant "db" (10 * Minute) Hour true []) int64_max).
  - vm_compute. split; [reflexivity|discriminate].
  - vm_compute. split; discriminate.
  - vm_compute. split; discriminate.
  - vm_compute. reflexivity.
Defined.

(** ** Identity *)

(** A policy key names one identity: two callers with the same lookup key,
    when the policy grants that key anything, have the same namespace and the
    same service account (no name can be split differently around the slash). *)
Lemma subject_key_unambiguous yaml cron raw p s1 s2 sc g :
  Parse yaml cron raw = Ok p → grantOf p (Key s1) sc = Some g → Key s1 = Key s2 →
  s_Namespace s1 = s_Namespace s2 ∧ s_ServiceAccount s1 = s_ServiceAccount s2.
Proof.
  intros Hp Hg Hk. destruct (pw_grant _ (Parse_wf _ _ _ _ Hp) _ _ _ Hg) as (_ & Hre & _).
  destruct (subjectKey_split _ Hre) as (ns & sa & E & _ & _ & Hn & Hs).
  assert (Hu : ∀ s, Key s = Key s1 → s_Namespace s = ns ∧ s_ServiceAccount s = sa).
  { intros s Es. rewrite E in Es. unfold Key in Es.
    assert (Hsl : ∀ t, "/" +:+ t = String "/" t) by done. rewrite !Hsl in Es.
    destruct (decide (has_byte "/" (s_Namespace s))) as [Hb|Hb].
    - exfalso. apply (f_equal (λ t, count_byte "/" t)) in Es. revert Es.
      rewrite !count_byte_app. cbn. rewrite (count_byte_none _ ns), (count_byte_none _ sa) by done.
      pose proof (count_byte_pos _ _ Hb). lia.
    - pose proof (Cut_append (s_Namespace s) "/" (s_ServiceAccount s) Hb) as C1.
      pose proof (Cut_append ns "/" sa Hn) as C2. rewrite Es, C2 in C1. by injection C1 as -> ->. }
  destruct (Hu s1 eq_refl), (Hu s2 (eq_sym Hk)). split; congruence.
Qed.

Section Api.
Context {X : Externals}.

(** ** No panic *)

Definition not_panic (o : outcome) : Prop := o ≠ Panic.

Ltac walk_total :=
  walk_returns;
  try (lazymatch goal with
    | |- returns _ (rateLimited _ _ _) => eapply returns_mono; [apply rateLimited_returns|intros ? <-; discriminate]
    | |- returns _ (auditFailClosed _) => eapply returns_mono; [apply auditFailClosed_returns|intros ? <-; discriminate]
    | |- returns _ (bad_request _ _) => discriminate
    | |- returns _ (not_found _) => discriminate
    | |- returns _ (not_yours _) => discriminate
    | |- returns _ (conflict _ _) => discriminate
    | |- not_panic _ => discriminate
    end).

Lemma record_claims_total c leaseID claims : ∀ ids, returns not_panic (record_claims c leaseID claims ids).
Proof. induction claims as [|m claims IH]; intros ids; cbn [record_claims]; walk_total. apply IH. Qed.

Lemma validated_no_panic p k sc g t :
  validated p → grantOf p k sc = Some g → is_Some (WindowOpen g t) ∧ is_Some (scopeOf p sc).
Proof.
  intros [raw Hp] Hg. pose proof (Parse_wf _ _ _ _ Hp) as Hwf. split; [by eapply WindowOpen_total|].
  apply (pw_grant _ Hwf _ _ _ Hg).
Qed.

(** C13: No handler dereferences nil: while every policy in force was accepted by
    validation, no request on any route ends in a panic, whatever the body, the
    answers of the outside and the other goroutines (including policy reloads in
    the middle of the request). *)
Theorem handlers_never_panic sv rt c w o w' :
  world_wf w → runs (dispatch sv rt c) w o w' → o ≠ Panic.
Proof.
  intros Hw H. destruct rt as [|id|id|id| |]; cbn [dispatch] in H.
  - apply runs_exec in H as [h H]. apply create_exec in H as [(st & ty & ti & _ & ->)|[(_ & w1 & k & sc & g & t & Hi & Hg & Hbad)|[d Hd]]]; [done| |].
    + exfalso. apply interference_wf in Hi as [Hp _ _]; [|done].
      destruct (validated_no_panic _ _ _ _ t Hp Hg) as [[? ?] [? ?]]. destruct Hbad; congruence.
    + rewrite (is_reply _ _ _ _ _ _ _ Hd). done.
  - apply runs_exec in H as [h H]. apply renew_exec in H as [(st & ty & ti & _ & ->)|
      (w1 & x1 & w2 & x2 & w3 & x3 & ex & g & sec & ttl & l & _ & _ & _ & _ & _ & _ & _ & _ & -> & _)]; done.
  - eapply (returns_runs not_panic); [|exact H]. unfold handleLeaseSurrender. walk_total.
  - eapply (returns_runs not_panic); [|exact H]. unfold handleLeaseGet. walk_total.
  - eapply (returns_runs not_panic); [|exact H]. unfold handleClaims. walk_total.
    apply (returns_bind (λ _, True)); [walk_returns; done|]. intros held _. walk_total. apply record_claims_total.
  - eapply (returns_runs not_panic); [|exact H]. unfold handleWhoami. walk_total.
Qed.

(** C10: A renewal that answers 200, whatever runs concurrently, looked up in
    this order: the lease, which belonged to the caller; the policy in force,
    whose grant for the lease's scope is renewable; and renewed, by the clamped
    TTL, a lease not surrendered, not past its expiry and renewable at that
    moment; and a signed [lease.renewed] event with the lease id and the new
    expiry was committed before the response, which shows the new expiry. *)
Theorem renewal_is_authorised_and_audited sv c id w h r w' :
  exec interference (handleLeaseRenew sv c id) w h (Reply r) w' → rp_Status r = 200 →
  ∃ w1 x1 w2 x2 w3 x3 existing g sec ttl l0 l,
    [Step (LeaseGet id) w1 x1; Step CurrentPolicy w2 x2; Step (LeaseRenew id ttl) w3 x3] `sublist_of` h
    ∧ w_leases w1 !! id = Some existing ∧ l_SubjectKey existing = Key (cx_sub c)
    ∧ grantOf (w_policy w2) (Key (cx_sub c)) (l_Scope existing) = Some g ∧ g_Renewable g = true
    ∧ renew_ttl sv c = Some sec ∧ clampTTL sec g = Some ttl
    ∧ w_leases w3 !! id = Some l0 ∧ l_Surrendered l0 = false ∧ l_Renewable l0 = true ∧ x_now x3 ≤ l_ExpiresAt l0
    ∧ l = set_ExpiresAt (tAdd (x_now2 x3) ttl) l0 ∧ rp_Body r = BLease (leaseMeta l)
    ∧ logged_since w w' (renewed_event c (w_policy w2) l).
Proof.
  intros H Hs. apply renew_exec in H as [(st & ty & ti & Hne & E)
    |(w1 & x1 & w2 & x2 & w3 & x3 & ex & g & sec & ttl & l & H1 & H2 & H3 & H5 & H6 & H7 & H8 & HR & E & Hlog)].
  { injection E as ->. done. }
  injection E as ->. apply Renew_Some in HR as (l0 & Hl0 & Hl & _ & Hsur & Hexp & Hren).
  exists w1, x1, w2, x2, w3, x3, ex, g, sec, ttl, l0, l. split_and!; done.
Qed.

(** ** Denials *)

Definition denied_reason (pol : Policy) (scope : string) : string :=
  match scopeOf pol scope with Some _ => "no-grant" | None => "unknown-scope" end.

(** C12: No enumeration oracle: a well-formed request for a scope the caller is
    not granted gets the same response, down to every field, whether the scope
    exists or not (or the rate-limit response, which does not look at the scope
    either); only the audit event tells the two apart. *)
Theorem denial_is_uniform sv c w o w' req :
  alone (handleLeaseCreate sv c) w o w' →
  dbind (decode_stream (MaxBodyBytes (sv_cfg sv)) (cx_body c)) dec_leaseRequest = DOk req →
  rq_Scope req ≠ "" → marshal_len (rq_Context req) ≤ MaxContextBytes (sv_cfg sv) →
  grantOf (w_policy w) (Key (cx_sub c)) (rq_Scope req) = None →
  o = writeProblem 429 ProblemRateLimited "lease rate limit exceeded" "" (cx_reqID c)
  ∨ (o = writeProblem 403 ProblemGrantDenied "no grant for scope" "" (cx_reqID c)
     ∧ ∃ new, log w' = log w ++ new
         ∧ Forall (λ ev, ev_Type ev = TypeLeaseDenied
                         ∧ ev_Attested ev !! "reason" = Some (AStr (denied_reason (w_policy w) (rq_Scope req)))) new).
Proof.
  intros H Hd Hne Hlen Hg. unfold handleLeaseCreate in H. rewrite alone_act in H. destruct H as (x1 & _ & H).
  cbn [perform fst snd] in H. rewrite alone_act in H. destruct H as (x2 & _ & H).
  assert (Hw2 : w_emitter (perform x2 w (LimiterAllow LimLease (sub_key c))).2 = w_emitter w).
  { cbn [perform]. by destruct (Allow _ _ _). }
  set (w2 := (perform x2 w _).2) in *. destruct (perform x2 w _).1; cbn [negb] in H.
  2:{ left. apply alone_runs in H. by apply (returns_runs _ _ _ _ _ (rateLimited_returns _ _ _)) in H as <-. }
  right. rewrite Hd in H. rewrite bool_decide_false in H by done.
  destruct (Z.ltb_spec (MaxContextBytes (sv_cfg sv)) (marshal_len (rq_Context req))); [lia|]. cbv zeta in H. unfold sub_key in H at 1.
  rewrite Hg in H. unfold deny, inc in H. cbv zeta in H. rewrite alone_act in H. destruct H as (x3 & _ & H).
  rewrite alone_act in H. destruct H as (x4 & _ & -> & ->). split; [done|].
  set (tpl := newEvent TypeLeaseDenied _ _ _ _ _). set (w3 := (perform x3 w2 _).2).
  assert (Hw3 : log w3 = log w) by (cbn; by rewrite Hw2).
  destruct (perform_emit x4 w3 tpl) as [(ev & _ & Hl & (H1 & _ & _ & _ & H5 & _) & _)|(_ & Hl)]; rewrite Hw3 in Hl.
  - exists [ev]. split; [exact Hl|]. constructor; [|constructor]. rewrite H1, H5. split; [done|].
    unfold tpl, denied_reason. cbn [newEvent ev_Attested]. by destruct (scopeOf _ _).
  - exists []. rewrite app_nil_r. done.
Qed.

(** ** Receipts *)


(** ** Authentication *)

Lemma recordAuthFailure_any src reqID reason : returns (λ _, True) (recordAuthFailure src reqID reason).
Proof. unfold recordAuthFailure. walk_returns; done. Qed.

(** What is left of a request once it is authenticated. *)
Definition route_request (sv : Server) (r : HttpIn) (c : Ctx) : prog outcome :=
  match route_of (hi_Method r) (hi_Path r) with
  | Some rt => dispatch sv rt c
  | None => Ret (writeHeader (mux_miss (hi_Path r)))
  end.

(** A request draws its identifier, then is turned away with a 401, or is shown
    to the authenticator and handled in the name of the subject it returned. *)
Lemma Handler_exec sv r w h o w' :
  exec interference (Handler sv r) w h o w' →
  (∃ title reqID, o = writeProblem 401 ProblemUnauthenticated title "" reqID)
  ∨ ∃ token sub src reqID w0 x0 w1 w2 h1 h2,
    hi_Authorization r = "Bearer " +:+ token ∧ token ≠ ""
    ∧ h = Step (Rand 8) w0 x0 :: h1 ++ h2
    ∧ interference w w1 ∧ exec interference (sv_authn sv token) w1 h1 (Some sub) w2
    ∧ reqID = "req_" +:+ (hex_encode (x_rand x0))
    ∧ src = mkSource (default (hi_RemoteAddr r) (SplitHostPort (hi_RemoteAddr r))) (hi_UserAgent r)
    ∧ exec interference (route_request sv r (mkCtx sub reqID src (hi_Body r))) w2 h2 o w'.
Proof.
  intros H. unfold Handler, withRequestID in H. rewrite exec_act in H. destruct H as (w1 & x & h' & -> & Hi & _ & H).
  cbv beta zeta in H. cbn [perform snd] in H. unfold withAuth in H.
  assert (Hfail : ∀ src id reason title w1 h,
    exec interference (recordAuthFailure src id reason ≫= λ _, Ret (writeProblem 401 ProblemUnauthenticated title "" id)) w1 h o w' →
    ∃ title reqID, o = writeProblem 401 ProblemUnauthenticated title "" reqID).
  { intros src id reason title w2 h Hr%exec_runs. exists title, id.
    eapply (returns_runs (λ o, o = writeProblem 401 ProblemUnauthenticated title "" id)); [|exact Hr].
    apply (returns_bind (λ _, True)); [apply recordAuthFailure_any|done]. }
  destruct (CutPrefix _ _) as [[|b token]|] eqn:Ec; [left; by apply Hfail in H| |left; by apply Hfail in H].
  apply CutPrefix_Some in Ec. rewrite exec_bind in H by apply _.
  destruct H as ([sub|] & w2 & h1 & h2 & -> & Ha & H); [|left; by apply Hfail in H].
  right. eexists (String b token), sub, _, _, w1, x, w1, w2, h1, h2. split_and!; [exact Ec|done|done|exact Hi|exact Ha|done|done|exact H].
Qed.

End Api.

(** ** Instances on the sample broker *)

Lemma sample_wf : @world_wf sample_ext sample_world.
Proof.
  split; [exists "policy"; exact Sample.policy_parsed|split; done|apply map_Forall_empty].
Qed.

Lemma handlers_never_panic_witness : Reply issued_reply ≠ Panic.
Proof.
  apply (@handlers_never_panic sample_ext sample_server RCreate (sample_ctx (create_body "db" 60)) sample_world
           (Reply issued_reply) issued_world).
  - exact sample_wf.
  - exact issued_runs.
Defined.

Definition renewed_reply : Response := reply_of renew_run.1.1.

Lemma renewal_is_authorised_and_audited_witness :
  ∃ w2 l, @logged_since sample_ext issued_world renew_run.2 (renewed_event (sample_ctx "") (w_policy w2) l).
Proof.
  assert (E : renew_run.1.1 = Reply renewed_reply) by (vm_compute; reflexivity).
  assert (Hex : ∃ h, @exec sample_ext (@interference sample_ext) _ (handleLeaseRenew sample_server (sample_ctx "") issued_id)
                      issued_world h renew_run.1.1 renew_run.2).
  { eexists. apply (@run_exec sample_ext); [apply _|]. vm_compute. repeat split. }
  destruct Hex as [h Hh]. rewrite E in Hh.
  destruct (@renewal_is_authorised_and_audited sample_ext sample_server (sample_ctx "") issued_id issued_world h renewed_reply renew_run.2)
    as (w1 & x1 & w2 & x2 & w3 & x3 & ex & g & sec & ttl & l0 & l & Hr).
  - exact Hh.
  - vm_compute. reflexivity.
  - exists w2, l. apply Hr.
Defined.


(** A request without a token is refused, one with an accepted token reaches its handler. *)
Definition sample_http : HttpIn :=
  mkHttpIn "POST" ["v1"; "leases"] "10.0.0.1:40000" "curl" "Bearer good" (create_body "db" 60).
(** The request id takes eight random bytes, the lease id thirteen. *)
Definition http_oracle (n : nat) : ext :=
  if bool_decide (n = 0%nat) then mkExt sample_now sample_now "01234567" [] Written (λ _, None) (λ _, None)
  else sample_oracle Written n.
Definition http_run : outcome * nat * world := @run sample_ext _ http_oracle 0 sample_world (Handler sample_server sample_http).

(** A scope that exists nowhere. *)
Definition unknown_run : outcome * nat * world := sample_run Written RCreate (create_body "nowhere" 60) sample_world.

Lemma denial_is_uniform_witness :
  unknown_run.1.1 = writeProblem 403 ProblemGrantDenied "no grant for scope" "" "req_1".
Proof.
  destruct (@denial_is_uniform sample_ext sample_server (sample_ctx (create_body "nowhere" 60)) sample_world unknown_run.1.1 unknown_run.2
    (mkLeaseRequest "nowhere" 60 None)) as [Hbad|[Ho _]].
  - apply (@run_alone sample_ext). vm_compute. repeat split.
  - vm_compute. reflexivity.
  - discriminate.
  - vm_compute. discriminate.
  - vm_compute. reflexivity.
  - exfalso. vm_compute in Hbad. discriminate.
  - exact Ho.
Defined.
