(* ===== verification/Authn.v ===== *)
(** * Authentication by TokenReview (internal/authn/tokenreview.go)

    The reviewer's configuration and [Review] as a program: one read of the
    broker's own token, one request to the API server, the verdict taken from
    the decoded answer.  Building a certificate pool from PEM (package
    crypto/x509) is a parameter of [NewReviewer]. *)

From S2P Require Import Prelude GoStrings GoTime Json AuditStream Policy World Trace Provider Server Samples ServerProps ServerApi.
From Stdlib Require Import Ascii.
Local Open Scope Z_scope.
Local Open Scope stdpp_scope.

Definition saPrefix : string := "system:serviceaccount:".
Definition podNameExtra : string := "authentication.kubernetes.io/pod-name".
Definition podUIDExtra : string := "authentication.kubernetes.io/pod-uid".

(** ** Configuration *)

Record AuthnConfig := mkAuthnConfig { ac_APIBase : string; ac_TokenFile : string; ac_CAFile : string; ac_Audience : string }.

(** The parts of a [Reviewer]: the PEM text its client trusts ([None]: the
    system roots), and what its token function reads. *)
Record Reviewer := mkReviewer { rv_roots : option string; rv_apiBase : string; rv_audience : string; rv_tokenFile : string }.

Definition InClusterConfig (getenv : string → string) (audience : string) : option AuthnConfig :=
  let host := getenv "KUBERNETES_SERVICE_HOST" in
  let port := getenv "KUBERNETES_SERVICE_PORT" in
  if bool_decide (host = "") || bool_decide (port = "") then None
  else Some (mkAuthnConfig ("https://" +:+ host +:+ ":" +:+ port)
               "/var/run/secrets/kubernetes.io/serviceaccount/token"
               "/var/run/secrets/kubernetes.io/serviceaccount/ca.crt" audience).

Inductive NewReviewerErr := NRReadCA | NRNoCerts.

(** [New(cfg)], reading the CA file once. *)
Definition NewReviewer (AppendCertsFromPEM : string → bool) (readFile : string → option string) (cfg : AuthnConfig)
  : res NewReviewerErr Reviewer :=
  let rv roots := mkReviewer roots (TrimRight (ac_APIBase cfg) "/") (ac_Audience cfg) (ac_TokenFile cfg) in
  if bool_decide (ac_CAFile cfg = "") then Ok (rv None)
  else match readFile (ac_CAFile cfg) with
  | None => Err NRReadCA
  | Some ca => if AppendCertsFromPEM ca then Ok (rv (Some ca)) else Err NRNoCerts
  end.

(** ** The TokenReview object *)

Record tokenReviewUser := mkUser { us_Username : string; us_Extra : gmap string (list string) }.
Record tokenReviewStatus := mkStatus {
  st_Authenticated : bool;
  st_Audiences : slice string;
  st_Error : string;
  st_User : tokenReviewUser
}.
Definition zeroStatus : tokenReviewStatus := mkStatus false nil_slice "" (mkUser "" ∅).

(** What is posted; the status is the zero value of its struct. *)
Definition review_json (token audience : string) : jv :=
  JObj [("apiVersion", JStr "authentication.k8s.io/v1"); ("kind", JStr "TokenReview");
        ("spec", JObj [("token", JStr token); ("audiences", JArr [JStr audience])]);
        ("status", JObj [("authenticated", JBool false); ("audiences", JNull); ("error", JStr "");
                         ("user", JObj [("username", JStr ""); ("extra", JNull)])])].

(** [map[string][]string]: every member is decoded into a fresh slice. *)
Definition dec_extra (v : jv) (old : gmap string (list string)) : option (gmap string (list string)) :=
  match v with
  | JNull => Some ∅
  | JObj kvs =>
    foldl (λ acc kv, m ← acc; s ← dec_slice dec_string "" kv.2 nil_slice; Some (<[kv.1 := elems s]> m)) (Some old) kvs
  | _ => None
  end.

Definition dec_user : jv → tokenReviewUser → option tokenReviewUser :=
  dec_struct ["username"; "extra"] (λ n v u,
    if bool_decide (n = "username") then s ← dec_string v (us_Username u); Some (mkUser s (us_Extra u))
    else e ← dec_extra v (us_Extra u); Some (mkUser (us_Username u) e)).

Definition dec_status : jv → tokenReviewStatus → option tokenReviewStatus :=
  dec_struct ["authenticated"; "audiences"; "error"; "user"] (λ n v t,
    if bool_decide (n = "authenticated") then
      b ← dec_bool v (st_Authenticated t); Some (mkStatus b (st_Audiences t) (st_Error t) (st_User t))
    else if bool_decide (n = "audiences") then
      l ← dec_slice dec_string "" v (st_Audiences t); Some (mkStatus (st_Authenticated t) l (st_Error t) (st_User t))
    else if bool_decide (n = "error") then
      s ← dec_string v (st_Error t); Some (mkStatus (st_Authenticated t) (st_Audiences t) s (st_User t))
    else u ← dec_user v (st_User t); Some (mkStatus (st_Authenticated t) (st_Audiences t) (st_Error t) u)).

(** The other members must decode too: strings, and the spec's string and list. *)
Definition dec_spec : jv → string * slice string → option (string * slice string) :=
  dec_struct ["token"; "audiences"] (λ n v t,
    if bool_decide (n = "token") then s ← dec_string v t.1; Some (s, t.2)
    else l ← dec_slice dec_string "" v t.2; Some (t.1, l)).

Record tokenReview := mkTokenReview {
  tr_APIVersion : string; tr_Kind : string; tr_Spec : string * slice string; tr_Status : tokenReviewStatus }.

Definition dec_tokenReview (v : jv) : option tokenReview :=
  dec_struct ["apiVersion"; "kind"; "spec"; "status"] (λ n v t,
    if bool_decide (n = "apiVersion") then
      s ← dec_string v (tr_APIVersion t); Some (mkTokenReview s (tr_Kind t) (tr_Spec t) (tr_Status t))
    else if bool_decide (n = "kind") then
      s ← dec_string v (tr_Kind t); Some (mkTokenReview (tr_APIVersion t) s (tr_Spec t) (tr_Status t))
    else if bool_decide (n = "spec") then
      s ← dec_spec v (tr_Spec t); Some (mkTokenReview (tr_APIVersion t) (tr_Kind t) s (tr_Status t))
    else s ← dec_status v (tr_Status t); Some (mkTokenReview (tr_APIVersion t) (tr_Kind t) (tr_Spec t) s))
    v (mkTokenReview "" "" ("", nil_slice) zeroStatus).

(** ** Review *)

Inductive AuthErr :=
| AOwnToken
| ARequest
| AStatus (code : Z)
| ADecode
| ARejected
| AAudience
| ANotServiceAccount.

(** The errors that wrap [ErrUnauthenticated]. *)
Definition ErrUnauthenticated (e : AuthErr) : bool :=
  match e with ARejected | AAudience | ANotServiceAccount => true | _ => false end.

Definition first_extra (u : tokenReviewUser) (k : string) : string :=
  default "" (us_Extra u !! k ≫= head).

(** The verdict on a decoded status. *)
Definition verdict (audience : string) (st : tokenReviewStatus) : res AuthErr Subject :=
  if negb (st_Authenticated st) then Err ARejected
  else if negb (bool_decide (audience ∈ elems (st_Audiences st))) then Err AAudience
  else
    let username := us_Username (st_User st) in
    let '(ns, sa, ok) := Cut (TrimPrefix username saPrefix) ":" in
    if negb (HasPrefix username saPrefix) || negb ok || bool_decide (ns = "") || bool_decide (sa = "")
    then Err ANotServiceAccount
    else Ok (mkSubject ns sa (first_extra (st_User st) podNameExtra) (first_extra (st_User st) podUIDExtra)).

Definition review_request (rv : Reviewer) (own presented : string) : HttpRequest :=
  mkHttpRequest "POST" ((rv_apiBase rv) +:+ "/apis/authentication.k8s.io/v1/tokenreviews")
    [bearer own; ("Content-Type", "application/json")] (render (review_json presented (rv_audience rv))).

(** A request that cannot even be built (an unparsable API base) counts with the
    requests that fail. *)
Definition Review (rv : Reviewer) (presented : string) : prog (res AuthErr Subject) :=
  tok ← act (ReadFile (rv_tokenFile rv));
  match TrimSpace <$> tok with
  | None => Ret (Err AOwnToken)
  | Some own =>
    resp ← act (HttpDo (review_request rv own presented));
    match resp with
    | None => Ret (Err ARequest)
    | Some resp =>
      if negb (hr_StatusCode resp =? 201) && negb (hr_StatusCode resp =? 200) then Ret (Err (AStatus (hr_StatusCode resp)))
      else match dbind (decode_body (hr_Body resp)) dec_tokenReview with
      | DOk tr => Ret (verdict (rv_audience rv) (tr_Status tr))
      | _ => Ret (Err ADecode)
      end
    end
  end.

(** What the middleware makes of it: an error is a rejection. *)
Definition authenticator (rv : Reviewer) (token : string) : prog (option Subject) :=
  r ← Review rv token;
  Ret (match r with Ok sub => Some sub | Err _ => None end).

(** ** Properties *)

(** The API server vouches for [sub]: the token was accepted for the audience,
    and the user name is the one of that service account. *)
Definition vouched (audience : string) (st : tokenReviewStatus) (sub : Subject) : Prop :=
  st_Authenticated st = true
  ∧ audience ∈ elems (st_Audiences st)
  ∧ us_Username (st_User st) = saPrefix +:+ (s_Namespace sub) +:+ ":" +:+ (s_ServiceAccount sub)
  ∧ ¬ has_byte ":" (s_Namespace sub)
  ∧ s_Namespace sub ≠ "" ∧ s_ServiceAccount sub ≠ ""
  ∧ s_Pod sub = first_extra (st_User st) podNameExtra
  ∧ s_PodUID sub = first_extra (st_User st) podUIDExtra.

Lemma verdict_sound audience st sub : verdict audience st = Ok sub → vouched audience st sub.
Proof.
  unfold verdict, vouched. destruct (st_Authenticated st); [|done]. cbn [negb].
  case_bool_decide as Ha; [|done]. cbn [negb].
  destruct (HasPrefix _ _) eqn:Hp; [|by destruct (Cut _ _) as [[? ?] ?]].
  apply HasPrefix_spec in Hp as [rest Hu]. rewrite Hu. unfold TrimPrefix. rewrite CutPrefix_append. cbn [default id].
  destruct (Cut rest ":") as [[ns sa] []] eqn:E; [|done]. apply Cut_found in E as [-> Hn]. cbn [negb orb].
  do 2 case_bool_decide; cbn [orb]; try done. intros [= <-]. done.
Qed.

Lemma verdict_complete audience st sub : vouched audience st sub → verdict audience st = Ok sub.
Proof.
  destruct sub as [ns sa pod uid]. intros (H1 & H2 & H3 & H4 & H5 & H6 & H7 & H8). cbn in *. unfold verdict.
  rewrite H1, bool_decide_true, H3 by done. unfold TrimPrefix. rewrite CutPrefix_append. cbn [default id negb].
  rewrite (proj2 (HasPrefix_spec _ saPrefix)) by eauto. change (":" +:+ sa) with (String ":" sa).
  rewrite (Cut_append ns ":" sa H4). cbn [negb orb]. rewrite !bool_decide_false by done. cbn [orb]. by subst.
Qed.

Lemma verdict_iff audience st sub : verdict audience st = Ok sub ↔ vouched audience st sub.
Proof. split; [apply verdict_sound|apply verdict_complete]. Qed.

Section Review.
Context {X : Externals}.

(** In the trace [l], the API server's answer to the review of [presented] vouches for [sub]. *)
Definition vouched_by (rv : Reviewer) (presented : string) (l : list obs) (sub : Subject) : Prop :=
  ∃ own resp tr,
    reads l = [(rv_tokenFile rv, Some own)]
    ∧ https l = [(review_request rv (TrimSpace own) presented, Some resp)]
    ∧ (hr_StatusCode resp = 200 ∨ hr_StatusCode resp = 201)
    ∧ dbind (decode_body (hr_Body resp)) dec_tokenReview = DOk tr
    ∧ vouched (rv_audience rv) (tr_Status tr) sub.

Lemma Review_traced rv presented l r :
  traced (Review rv presented) l r → ∀ sub, r = Ok sub ↔ vouched_by rv presented l sub.
Proof.
  unfold Review, vouched_by. intros H sub. rewrite traced_act in H. destruct H as ([own|] & l1 & -> & H);
    cbn [fmap option_fmap option_map] in H; [|destruct H as [-> ->]; cbn [reads omap list_omap]; naive_solver].
  rewrite traced_act in H. destruct H as ([resp|] & l2 & -> & H); [|destruct H as [-> ->]; cbn [https omap list_omap]; naive_solver].
  revert H.
  destruct (Z.eqb_spec (hr_StatusCode resp) 201); destruct (Z.eqb_spec (hr_StatusCode resp) 200); cbn [negb andb]; intros H.
  4: { destruct H as [-> ->]. split; [done|]. cbn [https omap list_omap]. intros (? & ? & ? & [= <-] & [= <-] & [?|?] & _); done. }
  all: destruct (dbind _ _) as [tr| |] eqn:E3; destruct H as [-> ->]; cbn [https reads omap list_omap].
  all: try (split; [done|]; intros (? & ? & ? & [= <-] & [= <-] & _ & ? & _); congruence).
  all: rewrite verdict_iff; split; [intros ?; exists own, resp, tr; split_and!; auto|].
  all: by intros (? & ? & ? & [= <-] & [= <-] & _ & [= <-]%(eq_trans (eq_sym E3)) & ?).
Qed.

(** C29: [Review] accepts exactly what the API server vouches for: its result is
    a subject if and only if, in this very call, the broker's own token could be
    read, the API server answered the review of the presented token for the
    broker's audience with 200 or 201, and the answer says: authenticated, the
    broker's audience among the audiences, user name system:serviceaccount:NS:SA;
    and then the subject has that namespace (free of colons), that account, and
    the first pod name and uid of the answer.  Nothing else is read or sent. *)
Theorem review_accepts_vouched rv presented l r :
  traced (Review rv presented) l r → ∀ sub, r = Ok sub ↔ vouched_by rv presented l sub.
Proof. apply Review_traced. Qed.

Lemma authenticator_traced rv presented l sub :
  traced (authenticator rv presented) l (Some sub) → vouched_by rv presented l sub.
Proof.
  unfold authenticator. rewrite traced_bind. intros (r & l1 & l2 & -> & Hr & [-> Hs]). destruct r as [sub'|]; [|done].
  injection Hs as <-. rewrite app_nil_r. by apply (Review_traced _ _ _ _ Hr).
Qed.

Lemma authenticator_guarantees rv presented : guarantees (authenticator rv presented).
Proof.
  apply guarantees_bind; [|done]. unfold Review. apply guarantees_act; [done|]. intros tok.
  destruct (TrimSpace <$> tok); [|exact I]. apply guarantees_act; [done|]. intros [resp|]; [|exact I].
  case_match; [exact I|]. by destruct (dbind _ _).
Qed.

(** C28: With the TokenReview authenticator in place, a response of the API other
    than a 401 is the answer of the route's handler to a subject for whom the API
    server vouched, earlier in this request, when shown the very token of the
    request's Authorization header. *)
Theorem only_vouched_subjects_served sv rv r w h o w' :
  (∀ token, sv_authn sv token = authenticator rv token) →
  exec interference (Handler sv r) w h o w' → status_of o ≠ 401 →
  ∃ token sub src reqID w0 x0 h1 h2 w2,
    hi_Authorization r = "Bearer " +:+ token ∧ token ≠ ""
    ∧ h = Step (Rand 8) w0 x0 :: h1 ++ h2 ∧ vouched_by rv token (observed <$> h1) sub
    ∧ exec interference (route_request sv r (mkCtx sub reqID src (hi_Body r))) w2 h2 o w'.
Proof.
  intros Ha H Hs. apply Handler_exec in H
    as [(title & reqID & ->)|(token & sub & src & reqID & w0 & x0 & w1 & w2 & h1 & h2 & H1 & H2 & H3 & _ & H5 & _ & _ & H6)]; [done|].
  rewrite Ha in H5. apply exec_traced, authenticator_traced in H5.
  by exists token, sub, src, reqID, w0, x0, h1, h2, w2.
Qed.

End Review.

(** ** A review on the sample broker *)

Module ReviewSample.
Definition rv : Reviewer := mkReviewer None "https://k8s" "acb" "/var/token".

Definition answer : string :=
  render (JObj [("kind", JStr "TokenReview");
    ("status", JObj [("authenticated", JBool true); ("audiences", JArr [JStr "other"; JStr "acb"]);
      ("user", JObj [("username", JStr "system:serviceaccount:agents:ci");
                     ("extra", JObj [(podNameExtra, JArr [JStr "ci-0"])])])])]).

(** The review comes second and third, after the request id. *)
Definition oracle (n : nat) : ext :=
  match n with
  | 1%nat => mkExt sample_now sample_now "" [] Written (λ _, None) (λ p, if bool_decide (p = "/var/token") then Some " own " else None)
  | 2%nat => mkExt sample_now sample_now "" [] Written (λ _, Some (mkHttpResponse 201 answer)) (λ _, None)
  | _ => http_oracle n
  end.

Definition server : Server := mkServer (sv_cfg sample_server) (authenticator rv) (sv_providers sample_server).
Definition whoami : HttpIn := mkHttpIn "GET" ["v1"; "whoami"] "10.0.0.1:40000" "curl" "Bearer tok" "".
Definition whoami_run : outcome * nat * world := @run sample_ext _ oracle 0 sample_world (Handler server whoami).
Definition review_run : res AuthErr Subject * list obs := @run_trace sample_ext _ oracle 1 sample_world (Review rv "tok").
End ReviewSample.

Lemma review_accepts_vouched_witness :
  ReviewSample.review_run.1 = Ok (mkSubject "agents" "ci" "ci-0" "")
  ∧ vouched_by ReviewSample.rv "tok" ReviewSample.review_run.2 (mkSubject "agents" "ci" "ci-0" "").
Proof.
  assert (E : ReviewSample.review_run.1 = Ok (mkSubject "agents" "ci" "ci-0" "")) by (vm_compute; reflexivity).
  split; [exact E|]. apply (review_accepts_vouched ReviewSample.rv "tok" ReviewSample.review_run.2 ReviewSample.review_run.1).
  - apply (@run_trace_traced sample_ext).
  - exact E.
Defined.

Lemma only_vouched_subjects_served_witness :
  status_of ReviewSample.whoami_run.1.1 = 200
  ∧ ∃ sub (h1 : list step), vouched_by ReviewSample.rv "tok" (@observed sample_ext <$> h1) sub.
Proof.
  split; [vm_compute; reflexivity|].
  destruct (@only_vouched_subjects_served sample_ext ReviewSample.server ReviewSample.rv ReviewSample.whoami sample_world
              (@run_history sample_ext _ ReviewSample.oracle 0 sample_world (Handler ReviewSample.server ReviewSample.whoami))
              ReviewSample.whoami_run.1.1 ReviewSample.whoami_run.2)
    as (token & sub & src & reqID & w0 & x0 & h1 & h2 & w2 & H1 & _ & _ & H2 & _).
  - reflexivity.
  - apply (@run_exec sample_ext); [apply _|]. vm_compute. repeat split.
  - vm_compute. discriminate.
  - injection H1 as Ht. change ("tok" = token) in Ht. exists sub, h1. rewrite Ht. exact H2.
Defined.
