(* ===== verification/Upkeep.v ===== *)
(** * What the broker does beside serving requests (cmd/broker/main.go)

    The expiry gauge of the Connect token, readiness, and the health listener
    with its metrics page. *)

From S2P Require Import Prelude GoStrings GoTime Float64 Encoding Json AuditStream Metrics Exposition World Provider Server.
From Stdlib Require Import Ascii QArith.
Local Open Scope Z_scope.
Local Open Scope stdpp_scope.

(** ** The Connect token's expiry *)

(** [base64.RawURLEncoding.DecodeString]: no padding, and the URL alphabet. *)
Definition b64url_val (c : ascii) : option Z :=
  let v := byte_val c in
  if (65 <=? v) && (v <=? 90) then Some (v - 65)
  else if (97 <=? v) && (v <=? 122) then Some (v - 71)
  else if (48 <=? v) && (v <=? 57) then Some (v + 4)
  else if v =? 45 then Some 62
  else if v =? 95 then Some 63
  else None.

Fixpoint b64url_decode (l : list ascii) : option (list ascii) :=
  match l with
  | [] => Some []
  | [a; b] => x ← b64url_val a; y ← b64url_val b; Some [byte_of (x * 4 + y `div` 16)]
  | [a; b; c] =>
    x ← b64url_val a; y ← b64url_val b; z ← b64url_val c;
    Some [byte_of (x * 4 + y `div` 16); byte_of (y `mod` 16 * 16 + z `div` 4)]
  | a :: b :: c :: d :: l' =>
    x ← b64url_val a; y ← b64url_val b; z ← b64url_val c; w ← b64url_val d; rest ← b64url_decode l';
    Some (byte_of (x * 4 + y `div` 16) :: byte_of (y `mod` 16 * 16 + z `div` 4) :: byte_of (z `mod` 4 * 64 + w) :: rest)
  | _ => None
  end.
Definition RawURLDecodeString (s : string) : option string :=
  of_chars <$> b64url_decode (filter (λ c, is_break c = false) (chars s)).

Definition dec_exp (v : jv) : option Z := dec_struct ["exp"] (λ _ v z, dec_int64 v z) v 0.

Definition connectTokenExpiry (tok : string) : option Z :=
  match Split tok "." with
  | [_; part; _] =>
    payload ← RawURLDecodeString part;
    exp ← unmarshal payload ≫= dec_exp;
    if exp =? 0 then None else Some exp
  | _ => None
  end.

Example expiry_examples :
  connectTokenExpiry ("eyJhbGciOiJFUzI1NiJ9." +:+ (RawURLEncodeToString (render (JObj [("iss", JStr "op"); ("exp", JInt 1893456000)]))) +:+ ".c2ln")
    = Some 1893456000
  ∧ connectTokenExpiry "a.b" = None ∧ connectTokenExpiry ("a." +:+ (RawURLEncodeToString "{}") +:+ ".c") = None.
Proof. by vm_compute. Qed.

(** The gauge's update: a readable token with an expiry sets it. *)
Definition update_expiry (tokenFile : string) : prog () :=
  tok ← act (ReadFile tokenFile);
  match tok with
  | None => Ret ()
  | Some tok =>
    match connectTokenExpiry (TrimSpace tok) with
    | Some exp => act (MetricSet "acb_connect_token_expiry_timestamp_seconds" ∅ (f_of_int exp))
    | None => Ret ()
    end
  end.

(** ** Readiness *)

(** [ready()]: the policy is always there, and of the providers only 1Password
    has a health check. *)
Definition ready (o : OnePassword) (h : health) : prog (bool * health) :=
  _ ← act CurrentPolicy;
  '(err, h') ← Healthy o h;
  Ret (match err with Some _ => false | None => true end, h').

(** ** The health listener *)

(** Answers of the unauthenticated mux: a bare status, the metrics page, JSON. *)
Inductive page := PStatus (code : Z) | PText (body : string) | PJSON (o : outcome).

Inductive health_route := HHealthz | HReadyz | HMetrics | HVerifyKey.
Definition health_route_of (path : list string) : option health_route :=
  match path with
  | ["healthz"] => Some HHealthz
  | ["readyz"] => Some HReadyz
  | ["metrics"] => Some HMetrics
  | ["v1"; "audit"; "verify-key"] => Some HVerifyKey
  | _ => None
  end.
Definition is_get (method : string) : bool := bool_decide (method = "GET") || bool_decide (method = "HEAD").

(** [s.HealthHandler(ready)]; the cache of the probe is passed along. *)
Definition HealthHandler {S : Type} (signer : Signer) (ready : S → prog (bool * S)) (s : S) (method : string) (path : list string)
  : prog (page * S) :=
  match health_route_of path with
  | None => Ret (PStatus 404, s)
  | Some rt =>
    if negb (is_get method) then Ret (PStatus 405, s)
    else match rt with
    | HHealthz => Ret (PStatus 200, s)
    | HReadyz => '(ok, s') ← ready s; Ret (PStatus (if (ok : bool) then 200 else 503), s')
    | HMetrics => m ← act MetricsRead; Ret (PText (ServeHTTP m), s)
    | HVerifyKey => o ← handleVerifyKey signer; Ret (PJSON o, s)
    end
  end.

