(* ===== verification/Playground.v ===== *)
(** * The playground (cmd/acb-playground/main.go)

    The stand-in for the broker's two upstreams: its mux and its three handlers,
    and what the broker's clients make of their answers. *)

From S2P Require Import Prelude GoStrings GoTime Encoding Regex Json JsonRound AuditStream Policy World Trace Provider Server Samples Authn.
From Stdlib Require Import Ascii.
Local Open Scope Z_scope.
Local Open Scope stdpp_scope.

(** ** Handlers *)

(** The request the token review reads: a token, and audiences that may be nil. *)
Record review_spec := mkReviewSpec { pg_Token : string; pg_Audiences : option (slice string) }.
Definition dec_review_spec : jv → review_spec → option review_spec :=
  dec_struct ["token"; "audiences"] (λ n v t,
    if bool_decide (n = "token") then s ← dec_string v (pg_Token t); Some (mkReviewSpec s (pg_Audiences t))
    else match v with
    | JNull => Some (mkReviewSpec (pg_Token t) None)
    | _ => l ← dec_slice dec_string "" v (default nil_slice (pg_Audiences t)); Some (mkReviewSpec (pg_Token t) (Some l))
    end).
Definition dec_review (v : jv) : option review_spec := dec_struct ["spec"] (λ _, dec_review_spec) v (mkReviewSpec "" None).

Definition podUID : string := "00000000-feed-face-0000-000000000000".

(** The two statuses; a Go map is written with its keys sorted. *)
Definition rejected_status : jv :=
  JObj [("authenticated", JBool false); ("error", JStr "playground tokens look like <namespace>/<serviceaccount>")].
Definition accepted_status (audiences : option (slice string)) (ns sa : string) : jv :=
  JObj [("audiences", match audiences with None => JNull | Some l => JArr (JStr <$> elems l) end);
        ("authenticated", JBool true);
        ("user", JObj [("extra", JObj [("authentication.kubernetes.io/pod-name", JArr [JStr (sa +:+ "-playground-0")]);
                                       ("authentication.kubernetes.io/pod-uid", JArr [JStr podUID])]);
                       ("username", JStr ("system:serviceaccount:" +:+ ns +:+ ":" +:+ sa))])].
Definition status_json (spec : review_spec) : jv :=
  let '(ns, sa, ok) := Cut (TrimSpace (pg_Token spec)) "/" in
  if ok && negb (bool_decide (ns = "")) && negb (bool_decide (sa = "")) && negb (bool_decide (has_byte "/" sa))
  then accepted_status (pg_Audiences spec) ns sa
  else rejected_status.
Definition answer_json (status : jv) : jv :=
  JObj [("apiVersion", JStr "authentication.k8s.io/v1"); ("kind", JStr "TokenReview"); ("status", status)].

Definition tokenReview_ (body : string) : HttpResponse :=
  match dbind (decode_body body) dec_review with
  | DOk spec => mkHttpResponse 201 (encode (answer_json (status_json spec)))
  | _ => mkHttpResponse 400 ("bad tokenreview body" +:+ String newline "")
  end.

Definition listVaults : HttpResponse := mkHttpResponse 200 "[]".

Definition item_json (item : string) : jv :=
  let suffix := if 6 <? slen item then String.substring 0 6 item else item in
  JObj [("fields", JArr
    [JObj [("id", JStr "f1"); ("label", JStr "credential"); ("value", JStr ("playground-secret-" +:+ suffix))];
     JObj [("id", JStr "f2"); ("label", JStr "password"); ("value", JStr ("playground-password-" +:+ suffix))]])].
Definition getItem (item : string) : HttpResponse := mkHttpResponse 200 (encode (item_json item)).

(** The mux of [main], on the segments of the path. *)
Definition playground (method : string) (path : list string) (body : string) : HttpResponse :=
  let get r := if bool_decide (method = "GET") || bool_decide (method = "HEAD") then r
               else mkHttpResponse 405 ("Method Not Allowed" +:+ String newline "") in
  match path with
  | ["apis"; "authentication.k8s.io"; "v1"; "tokenreviews"] =>
    if bool_decide (method = "POST") then tokenReview_ body else mkHttpResponse 405 ("Method Not Allowed" +:+ String newline "")
  | ["v1"; "vaults"] => get listVaults
  | ["v1"; "vaults"; _; "items"; item] => get (getItem item)
  | _ => mkHttpResponse 404 ("404 page not found" +:+ String newline "")
  end.

(** The playground as seen by a client: what listens at [base]; nothing else answers. *)
Definition listening (base : string) (req : HttpRequest) : option HttpResponse :=
  path ← CutPrefix (hq_URL req) base;
  match Split path "/" with
  | "" :: segments => Some (playground (hq_Method req) segments (hq_Body req))
  | _ => None
  end.

Example playground_examples :
  hr_StatusCode <$> listening "http://pg" (mkHttpRequest "GET" "http://pg/v1/vaults" [] "") = Some 200
  ∧ hr_StatusCode <$> listening "http://pg" (mkHttpRequest "POST" "http://pg/v1/vaults" [] "") = Some 405
  ∧ hr_StatusCode <$> listening "http://pg" (mkHttpRequest "GET" "http://pg/v2" [] "") = Some 404
  ∧ hr_Body <$> listening "http://pg" (mkHttpRequest "POST" "http://pg/apis/authentication.k8s.io/v1/tokenreviews" [] "x")
    = Some ("bad tokenreview body" +:+ String newline "")
  ∧ listening "http://pg" (mkHttpRequest "GET" "http://elsewhere/v1/vaults" [] "") = None.
Proof. by vm_compute. Qed.

(** ** What the broker makes of it *)

Definition ascii_text (s : string) : Prop := forallb (in_range 0 127) (chars s) = true.

Lemma ascii_text_append s t : ascii_text (s +:+ t) ↔ ascii_text s ∧ ascii_text t.
Proof. unfold ascii_text. rewrite chars_append, forallb_app, andb_true_iff. done. Qed.

(** Replaces every ASCII text of a goal by itself. *)
Ltac ascii_texts :=
  repeat match goal with
  | |- context [valid_utf8 ?s] => rewrite (valid_utf8_ascii s) by first [assumption|reflexivity]
  end.

Lemma review_json_valid token audience :
  ascii_text token → ascii_text audience → valid_jv (review_json token audience) = review_json token audience.
Proof. intros Ht Ha. unfold review_json. cbn [valid_jv fmap list_fmap map fst snd]. ascii_texts. reflexivity. Qed.

Lemma review_json_read token audience :
  dec_review (review_json token audience) = Some (mkReviewSpec token (Some (mkSlice [audience] 1))).
Proof. vm_compute. reflexivity. Qed.

Definition accepted_answer (audience ns sa : string) : jv :=
  answer_json (accepted_status (Some (mkSlice [audience] 1)) ns sa).

Lemma accepted_answer_valid audience ns sa :
  ascii_text audience → ascii_text ns → ascii_text sa →
  valid_jv (accepted_answer audience ns sa) = accepted_answer audience ns sa.
Proof.
  intros Ha Hn Hs. unfold accepted_answer, answer_json, accepted_status. cbn [elems s_len s_back take fmap list_fmap].
  assert (Hp : ascii_text (sa +:+ "-playground-0")) by by apply ascii_text_append.
  assert (Hu : ascii_text ("system:serviceaccount:" +:+ ns +:+ ":" +:+ sa))
    by (repeat (apply ascii_text_append; split; [done|]); done).
  generalize dependent (sa +:+ "-playground-0"). generalize dependent ("system:serviceaccount:" +:+ ns +:+ ":" +:+ sa).
  intros user Hu pod Hp. cbn [valid_jv fmap list_fmap map fst snd]. ascii_texts. reflexivity.
Qed.

(** The status a client decodes. *)
Definition accepted_decoded (audience user pod : string) : tokenReviewStatus :=
  mkStatus true (mkSlice [audience] 1) "" (mkUser user {[podNameExtra := [pod]; podUIDExtra := [podUID]]}).

Lemma accepted_answer_read audience ns sa :
  option_map tr_Status (dec_tokenReview (accepted_answer audience ns sa))
  = Some (accepted_decoded audience (saPrefix +:+ ns +:+ ":" +:+ sa) (sa +:+ "-playground-0")).
Proof.
  unfold accepted_answer, accepted_status, saPrefix. generalize (sa +:+ "-playground-0") ("system:serviceaccount:" +:+ ns +:+ ":" +:+ sa).
  intros pod user. vm_compute. reflexivity.
Qed.

Lemma accepted_verdict audience ns sa :
  ns ≠ "" → sa ≠ "" → ¬ has_byte ":" ns →
  verdict audience (accepted_decoded audience (saPrefix +:+ ns +:+ ":" +:+ sa) (sa +:+ "-playground-0"))
  = Ok (mkSubject ns sa (sa +:+ "-playground-0") podUID).
Proof.
  intros Hn Hs Hc. apply verdict_complete. unfold vouched, accepted_decoded.
  cbn [st_Authenticated st_Audiences st_User us_Username us_Extra s_Namespace s_ServiceAccount s_Pod s_PodUID elems s_len s_back take].
  split_and!; [done|by left|done..].
Qed.

(** A namespace part with a colon: the user name divides at the first one. *)
Lemma accepted_verdict_colon audience a b sa :
  sa ≠ "" → ¬ has_byte ":" a →
  verdict audience (accepted_decoded audience (saPrefix +:+ (a +:+ ":" +:+ b) +:+ ":" +:+ sa) (sa +:+ "-playground-0"))
  = if bool_decide (a = "") then Err ANotServiceAccount
    else Ok (mkSubject a (b +:+ ":" +:+ sa) (sa +:+ "-playground-0") podUID).
Proof.
  intros Hs Hc. rewrite <-!append_assoc. destruct (decide (a = "")) as [->|Ha].
  - unfold verdict, accepted_decoded. cbn [st_Authenticated st_Audiences st_User us_Username elems s_len s_back take negb].
    rewrite bool_decide_true by (by left). cbn [negb]. unfold TrimPrefix. rewrite CutPrefix_append.
    rewrite (proj2 (HasPrefix_spec _ saPrefix)) by eauto. reflexivity.
  - rewrite bool_decide_false by done. apply verdict_complete. unfold vouched, accepted_decoded.
    cbn [st_Authenticated st_Audiences st_User us_Username us_Extra s_Namespace s_ServiceAccount s_Pod s_PodUID elems s_len s_back take].
    split_and!; try done; [by left|by destruct b].
Qed.

Lemma rejected_answer_verdict audience :
  valid_jv (answer_json rejected_status) = answer_json rejected_status
  ∧ (option_map (λ tr, verdict audience (tr_Status tr)) (dec_tokenReview (answer_json rejected_status)) = Some (Err ARejected)).
Proof. split; vm_compute; reflexivity. Qed.

(** ** Over the wire *)

Lemma decode_body_render v rest :
  int_nums v → (depth v ≤ 10)%nat → num_stop (chars rest) → decode_body (render v +:+ rest) = DOk (valid_jv v).
Proof. intros Hi Hd Hr. apply decode_stream_encode; [done| |done]. unfold maxNestingDepth. lia. Qed.

Lemma tokenReview_posted token audience :
  ascii_text token → ascii_text audience →
  tokenReview_ (render (review_json token audience))
  = mkHttpResponse 201 (encode (answer_json (status_json (mkReviewSpec token (Some (mkSlice [audience] 1)))))).
Proof.
  intros Ht Ha. unfold tokenReview_. rewrite <-(append_nil_r (render _)), decode_body_render; [|repeat constructor|cbn; lia|exact I].
  rewrite review_json_valid by done. cbn [dbind]. by rewrite review_json_read.
Qed.

Lemma listening_review base rv own token :
  rv_apiBase rv = base → ascii_text token → ascii_text (rv_audience rv) →
  listening base (review_request rv own token)
  = Some (mkHttpResponse 201 (encode (answer_json (status_json (mkReviewSpec token (Some (mkSlice [rv_audience rv] 1))))))).
Proof.
  intros <- Ht Ha. unfold listening, review_request. cbn [hq_URL hq_Method hq_Body]. rewrite CutPrefix_append. cbn [mbind option_bind].
  change (Split "/apis/authentication.k8s.io/v1/tokenreviews" "/") with ["" ; "apis"; "authentication.k8s.io"; "v1"; "tokenreviews"].
  cbv beta iota. unfold playground. cbn iota zeta. rewrite bool_decide_true by done. by rewrite tokenReview_posted.
Qed.

Lemma status_accepted token audiences ns sa :
  TrimSpace token = ns +:+ "/" +:+ sa → ns ≠ "" → sa ≠ "" → ¬ has_byte "/" ns → ¬ has_byte "/" sa →
  status_json (mkReviewSpec token audiences) = accepted_status audiences ns sa.
Proof.
  intros Ht Hn Hs Hsn Hss. unfold status_json. cbn [pg_Token pg_Audiences]. rewrite Ht.
  change ("/" +:+ sa) with (String "/" sa). rewrite Cut_append by done. by rewrite !bool_decide_false by done.
Qed.

Lemma status_rejected token audiences :
  (∀ ns sa, TrimSpace token = ns +:+ "/" +:+ sa → ns = "" ∨ sa = "" ∨ has_byte "/" sa) →
  status_json (mkReviewSpec token audiences) = rejected_status.
Proof.
  intros Hno. unfold status_json. cbn [pg_Token pg_Audiences]. destruct (Cut (TrimSpace token) "/") as [[ns sa] []] eqn:E; [|done].
  apply Cut_found in E as [E _]. cbn [andb]. destruct (Hno ns sa E) as [-> |[-> |Hs]].
  - done.
  - by rewrite (bool_decide_true ("" = "")), andb_false_r by done.
  - by rewrite (bool_decide_true _ Hs), andb_false_r.
Qed.

Lemma encode_read v :
  int_nums v → (depth v ≤ 10)%nat → valid_jv v = v → decode_body (encode v) = DOk v.
Proof. intros Hi Hd Hv. unfold encode. by rewrite decode_body_render, Hv. Qed.

(** What a client of the API server gets from a review it can send. *)
Definition answered (base : string) (l : list obs) : Prop :=
  Forall (λ p, is_Some p.2) (reads l) ∧ Forall (λ p, p.2 = listening base p.1) (https l).

Lemma Review_answered base rv token l r :
  rv_apiBase rv = base → ascii_text token → ascii_text (rv_audience rv) →
  traced (Review rv token) l r → answered base l →
  ∃ spec, spec = mkReviewSpec token (Some (mkSlice [rv_audience rv] 1))
    ∧ r = match dbind (decode_body (encode (answer_json (status_json spec)))) dec_tokenReview with
          | DOk tr => verdict (rv_audience rv) (tr_Status tr)
          | _ => Err ADecode
          end.
Proof.
  intros Hb Ht Ha H [Hr Hh]. eexists. split; [reflexivity|]. unfold Review in H.
  rewrite traced_act in H. destruct H as ([own|] & l1 & -> & H); [|by apply Forall_cons in Hr as [[? [=]] _]].
  cbn [fmap option_fmap option_map] in H. rewrite traced_act in H. destruct H as (resp & l2 & -> & H).
  apply Forall_cons in Hh as [E _]. cbn [fst snd] in E. rewrite (listening_review base) in E by done. subst resp.
  cbv beta iota in H. cbn [hr_StatusCode hr_Body] in H. change (negb (201 =? 201) && negb (201 =? 200)) with false in H. cbv iota in H.
  destruct (dbind _ _); by destruct H as [_ ->].
Qed.

(** *** Items *)

Definition fake (item label : string) : string :=
  let suffix := if 6 <? slen item then String.substring 0 6 item else item in
  if bool_decide (label = "credential") then "playground-secret-" +:+ suffix else "playground-password-" +:+ suffix.
Definition fake_item (item : string) : list opField :=
  [mkOpField "f1" "credential" (fake item "credential"); mkOpField "f2" "password" (fake item "password")].

Lemma item_json_valid item : ascii_text item → valid_jv (item_json item) = item_json item.
Proof.
  intros Hi. unfold item_json. cbv zeta.
  assert (Hs : ascii_text (if 6 <? slen item then String.substring 0 6 item else item)).
  { case_match; [|done]. unfold ascii_text in *. rewrite substring_chars, drop_0. rewrite forallb_forall in *.
    intros c Hc. apply Hi.
    rewrite <-(take_drop 6 (chars item)). apply in_or_app. by left. }
  generalize dependent (if 6 <? slen item then String.substring 0 6 item else item). intros suffix Hs.
  assert (Hc : ascii_text ("playground-secret-" +:+ suffix)) by by apply ascii_text_append.
  assert (Hp : ascii_text ("playground-password-" +:+ suffix)) by by apply ascii_text_append.
  generalize dependent ("playground-secret-" +:+ suffix). generalize dependent ("playground-password-" +:+ suffix).
  intros pw Hp se Hc. cbn [valid_jv fmap list_fmap map fst snd]. ascii_texts. reflexivity.
Qed.

Lemma item_json_read item : dec_opItem (item_json item) = Some (fake_item item).
Proof.
  unfold item_json, fake_item, fake. cbv zeta. generalize (if 6 <? slen item then String.substring 0 6 item else item). intros suffix.
  rewrite bool_decide_true, bool_decide_false by done.
  generalize ("playground-secret-" +:+ suffix), ("playground-password-" +:+ suffix). intros se pw. vm_compute. reflexivity.
Qed.

Definition playground_label (label : string) : Prop := label = "credential" ∨ label = "password".

Lemma fake_label item label :
  playground_label label → label_value (byLabel (fake_item item)) label = Some (fake item label).
Proof.
  intros Hl. unfold fake_item. assert (Hne : ∀ k, fake item k ≠ "") by (intros k; unfold fake; by case_bool_decide).
  pose proof (Hne "credential") as H1. pose proof (Hne "password") as H2. revert H1 H2.
  destruct Hl as [-> | ->]; generalize (fake item "credential"), (fake item "password"); intros se pw H1 H2;
    unfold label_value, byLabel; cbn [foldl of_Label of_Value].
  - rewrite lookup_insert_ne, lookup_insert_eq by done. cbn [mbind option_bind]. by rewrite bool_decide_false.
  - rewrite lookup_insert_eq. cbn [mbind option_bind]. by rewrite bool_decide_false.
Qed.

#[global] Instance playground_label_dec label : Decision (playground_label label).
Proof. unfold playground_label. apply _. Defined.

Lemma other_label item label : ¬ playground_label label → label_value (byLabel (fake_item item)) label = None.
Proof.
  unfold playground_label. intros Hl. unfold label_value, byLabel, fake_item. cbn [foldl of_Label of_Value].
  by rewrite !lookup_insert_ne, lookup_empty by naive_solver.
Qed.

Lemma fill_total look (g : string → string) l : ∀ out,
  Forall (λ p, look p.2 = Some (g p.2)) l → is_Some (fill look l out).
Proof.
  induction l as [|[f key] l IH]; intros out Hl; cbn [fill]; [eauto|]. apply Forall_cons in Hl as [H Hl]. cbn in H.
  rewrite H. cbn [mbind option_bind]. by apply IH.
Qed.

Lemma fill_fields_total look (g : string → string) fields :
  map_Forall (λ _ key, look key = Some (g key)) fields → fill_fields look fields = Some (g <$> fields).
Proof.
  intros Hf. destruct (fill_total look g (map_to_list fields) ∅) as [out E].
  { apply Forall_forall. intros [k v] Hin%elem_of_map_to_list. by apply (Hf k). }
  fold (fill_fields look fields) in E. rewrite E. f_equal. apply map_eq. intros k.
  destruct (fill_fields_spec _ _ _ E k) as [-> _]. rewrite lookup_fmap. destruct (fields !! k) as [key|] eqn:Ek; [|done].
  cbn. by apply (Hf k).
Qed.

Lemma az09_ascii c : az09 c = true → in_range 0 127 c = true.
Proof. destruct c as [[] [] [] [] [] [] [] []]; by vm_compute. Qed.

Lemma op_id_text s : op_id s → ¬ has_byte "/" s ∧ ascii_text s ∧ PathEscape s = s.
Proof.
  intros [_ Hs]. rewrite Forall_forall in Hs. split_and!.
  - intros Hin. specialize (Hs _ Hin). discriminate Hs.
  - apply forallb_forall. intros c Hc%list_elem_of_In. by apply az09_ascii, Hs.
  - apply PathEscape_id. by apply Forall_forall.
Qed.

Lemma listening_item o vault item token :
  op_id vault → op_id item →
  listening (op_base o) (mkHttpRequest "GET" (op_url o vault item) [bearer token] "") = Some (getItem item).
Proof.
  intros (Hv & _ & Ev)%op_id_text (Hi & _ & Ei)%op_id_text. unfold listening, op_url. cbn [hq_URL hq_Method hq_Body].
  rewrite Ev, Ei, CutPrefix_append. cbn [mbind option_bind].
  assert (E : Split ("/v1/vaults/" +:+ vault +:+ "/items/" +:+ item) "/" = [""; "v1"; "vaults"; vault; "items"; item]).
  { change ("/v1/vaults/" +:+ vault +:+ "/items/" +:+ item)
      with ("" +:+ String "/" ("v1" +:+ String "/" ("vaults" +:+ String "/" (vault +:+ String "/" ("items" +:+ String "/" item))))).
    rewrite !Split_cons, Split_whole; first [assumption|reflexivity|intros H; apply (bool_decide_eq_true_2 _) in H; discriminate H]. }
  rewrite E. reflexivity.
Qed.

Lemma op_Fetch_answered o req vault item l r :
  op_submatch (q_Ref req) = Some (vault, item) → traced (op_Fetch o req) l r → answered (op_base o) l →
  r = if bool_decide (map_Forall (λ _ label, playground_label label) (q_Fields req))
      then Ok (mkResult (fake item <$> q_Fields req) zeroTime) else Err FField.
Proof.
  intros Hsub H [Hr Hh]. unfold op_Fetch in H. rewrite Hsub in H. apply op_submatch_spec in Hsub as (_ & Hv & Hi).
  rewrite traced_act in H. destruct H as ([own|] & l1 & -> & H); [|by apply Forall_cons in Hr as [[? [=]] _]].
  cbn [fmap option_fmap option_map] in H. rewrite traced_act in H. destruct H as (resp & l2 & -> & H).
  apply Forall_cons in Hh as [E _]. cbn [fst snd] in E. rewrite listening_item in E by done. subst resp.
  cbv beta iota in H. cbn [hr_StatusCode hr_Body getItem] in H. change (negb (200 =? 200)) with false in H. cbv iota in H.
  destruct (op_id_text item Hi) as (_ & Ha & _). rewrite encode_read in H; [|repeat constructor|cbn; lia|by apply item_json_valid].
  cbn [dbind] in H. rewrite item_json_read in H.
  case_bool_decide as Hf.
  - rewrite (fill_fields_total _ (fake item)) in H; [by destruct H as [_ ->]|]. intros k label Hl. by apply fake_label, (Hf k).
  - destruct (fill_fields _ _) as [out|] eqn:E; [|by destruct H as [_ ->]]. destruct Hf. intros k label Hl.
    destruct (decide (playground_label label)) as [|Hno]; [done|]. apply other_label with (item := item) in Hno.
    destruct (fill_fields_spec _ _ _ E k) as [Hk Hs]. rewrite Hl in Hk, Hs. cbn [mbind option_bind] in Hk.
    rewrite Hno in Hk. rewrite Hk in Hs. destruct (proj2 Hs ltac:(by eexists)) as [? [=]].
Qed.

Lemma Review_accepted rv token ns sa l r :
  TrimSpace token = ns +:+ "/" +:+ sa → ns ≠ "" → sa ≠ "" → ¬ has_byte "/" ns → ¬ has_byte "/" sa →
  ascii_text token → ascii_text ns → ascii_text sa → ascii_text (rv_audience rv) →
  traced (Review rv token) l r → answered (rv_apiBase rv) l →
  r = verdict (rv_audience rv) (accepted_decoded (rv_audience rv) (saPrefix +:+ ns +:+ ":" +:+ sa) (sa +:+ "-playground-0")).
Proof.
  intros Ht Hn Hs Hsn Hss Hat Han Has Ha Htr Hans.
  destruct (Review_answered _ _ _ _ _ eq_refl Hat Ha Htr Hans) as (spec & -> & ->).
  rewrite (status_accepted _ _ ns sa) by done. fold (accepted_answer (rv_audience rv) ns sa).
  rewrite encode_read; [|repeat constructor|cbn; lia|by apply accepted_answer_valid]. cbn [dbind].
  pose proof (accepted_answer_read (rv_audience rv) ns sa) as E. destruct (dec_tokenReview _) as [tr|]; [|done].
  by injection E as ->.
Qed.

(** ** Property *)

(** C40: The playground stands in for both upstreams of the broker.  Reviewing
    an ASCII token [ns/sa] (two non-empty parts without a slash) against it, for an
    ASCII audience, yields that very namespace and service account, with the
    playground's pod, provided the namespace has no colon; with a colon in front
    of it the review is refused, and with one further on the namespace ends there
    and the rest counts with the service account.  An ASCII token of another form
    is rejected.  Fetching a 1Password item by a well-formed reference gives every
    requested field its marked fake value when the fields have the labels that the
    playground knows (credential and password), and fails otherwise. *)
Theorem playground_upstreams rv o :
  ascii_text (rv_audience rv) →
  (∀ token ns sa l r, TrimSpace token = ns +:+ "/" +:+ sa → ns ≠ "" → sa ≠ "" →
     ¬ has_byte "/" ns → ¬ has_byte "/" sa → ¬ has_byte ":" ns → ascii_text token → ascii_text ns → ascii_text sa →
     traced (Review rv token) l r → answered (rv_apiBase rv) l →
     r = Ok (mkSubject ns sa (sa +:+ "-playground-0") podUID))
  ∧ (∀ token a b sa l r, TrimSpace token = (a +:+ ":" +:+ b) +:+ "/" +:+ sa → sa ≠ "" →
     ¬ has_byte "/" (a +:+ ":" +:+ b) → ¬ has_byte "/" sa → ¬ has_byte ":" a →
     ascii_text token → ascii_text (a +:+ ":" +:+ b) → ascii_text sa →
     traced (Review rv token) l r → answered (rv_apiBase rv) l →
     r = if bool_decide (a = "") then Err ANotServiceAccount
         else Ok (mkSubject a (b +:+ ":" +:+ sa) (sa +:+ "-playground-0") podUID))
  ∧ (∀ token l r, ascii_text token →
     (∀ ns sa, TrimSpace token = ns +:+ "/" +:+ sa → ns = "" ∨ sa = "" ∨ has_byte "/" sa) →
     traced (Review rv token) l r → answered (rv_apiBase rv) l → r = Err ARejected)
  ∧ (∀ req vault item l r,
     op_submatch (q_Ref req) = Some (vault, item) → traced (op_Fetch o req) l r → answered (op_base o) l →
     r = if bool_decide (map_Forall (λ _ label, playground_label label) (q_Fields req))
         then Ok (mkResult (fake item <$> q_Fields req) zeroTime) else Err FField).
Proof.
  intros Ha. split_and!; [| | |intros; by eapply op_Fetch_answered].
  - intros token ns sa l r Ht Hn Hs Hsn Hss Hc Hat Han Has Htr Hans.
    rewrite (Review_accepted rv token ns sa l r) by done. by apply accepted_verdict.
  - intros token a b sa l r Ht Hs Hsn Hss Hc Hat Han Has Htr Hans.
    rewrite (Review_accepted rv token (a +:+ ":" +:+ b) sa l r) by (try done; by destruct a). by apply accepted_verdict_colon.
  - intros token l r Hat Hno Htr Hans.
    destruct (Review_answered _ _ _ _ _ eq_refl Hat Ha Htr Hans) as (spec & -> & ->).
    rewrite status_rejected by done. destruct (rejected_answer_verdict (rv_audience rv)) as [Hv E].
    rewrite encode_read; [|repeat constructor|cbn; lia|done]. cbn [dbind].
    destruct (dec_tokenReview _) as [tr|]; [|done]. by injection E as ->.
Qed.

(** A review of [agents/demo-agent] against a playground on its default port. *)
Module PlaygroundSample.
Definition base : string := "http://127.0.0.1:8181".
Definition rv : Reviewer := mkReviewer None base "agent-cred-broker" "/var/token".
Definition oracle (n : nat) : ext := mkExt sample_now sample_now "" [] Written (listening base) (λ _, Some "own").
Definition review : res AuthErr Subject * list obs :=
  @run_trace sample_ext _ oracle 0 sample_world (Review rv "agents/demo-agent").
End PlaygroundSample.

Lemma playground_upstreams_witness :
  PlaygroundSample.review.1 = Ok (mkSubject "agents" "demo-agent" "demo-agent-playground-0" podUID).
Proof.
  destruct (playground_upstreams PlaygroundSample.rv (mkOnePassword "" "") eq_refl) as [H _].
  apply (H "agents/demo-agent" "agents" "demo-agent" PlaygroundSample.review.2); [reflexivity|discriminate|discriminate| | | | | | | |].
  1-3: intros Hin; apply (bool_decide_eq_true_2 _) in Hin; discriminate Hin.
  1-3: reflexivity.
  - apply (@run_trace_traced sample_ext).
  - destruct (@run_trace_outside sample_ext _ (listening PlaygroundSample.base) (λ _, Some "own")
      (Review PlaygroundSample.rv "agents/demo-agent") PlaygroundSample.oracle 0 sample_world) as [Hh Hr]; [reflexivity..|].
    split; [|exact Hh]. eapply Forall_impl; [exact Hr|]. intros q ->. eauto.
Defined.
