(* ===== verification/Process.v ===== *)
(** * What the mains share (audit.ParseSignerPEM, provider.ParseKey, cmd/broker/main.go)

    Environment and files of a process, its keys and its listener.  Decoding of
    PEM blocks and of DER keys (packages encoding/pem and crypto/x509), the file
    system and the environment are parameters. *)

From S2P Require Import Prelude GoStrings GoTime Json AuditStream TlsReloader.
Local Open Scope Z_scope.
Local Open Scope stdpp_scope.

(** ** Keys *)

(** What [x509.ParsePKCS8PrivateKey] may return. *)
Inductive private_key := RSAKey (k : string) | Ed25519Key (k : string) | OtherKey.

(** What reading a file gives. *)
Inductive file := FContent (s : string) | FMissing | FUnreadable.
Definition content (f : file) : option string := match f with FContent s => Some s | _ => None end.

Section Keys.
Context (pem_Decode : string → option string).
Context (ParsePKCS1PrivateKey : string → option string) (ParsePKCS8PrivateKey : string → option private_key).
Context (ed25519_Public : string → string).

Definition ParseSignerPEM (pemBytes : string) : option Signer :=
  block ← pem_Decode pemBytes;
  parsed ← ParsePKCS8PrivateKey block;
  match parsed with Ed25519Key priv => Some (NewSigner ed25519_Public priv) | _ => None end.

Definition ParseKey (pemBytes : string) : option string :=
  block ← pem_Decode pemBytes;
  match ParsePKCS1PrivateKey block with
  | Some key => Some key
  | None => parsed ← ParsePKCS8PrivateKey block; match parsed with RSAKey key => Some key | _ => None end
  end.

(** [loadSigner(path, devInsecure)]; [generated] is the key a dev broker without
    one makes up. *)
Definition loadSigner (f : file) (devInsecure : bool) (generated : option string) : option Signer :=
  match f with
  | FContent raw => ParseSignerPEM raw
  | FMissing => if devInsecure then NewSigner ed25519_Public <$> generated else None
  | FUnreadable => None
  end.

End Keys.

(** A file holds an Ed25519 key: its PEM block is the PKCS#8 form of [priv]. *)
Definition key_in (pem_Decode : string → option string) (ParsePKCS8PrivateKey : string → option private_key)
    (f : file) (priv : string) : Prop :=
  ∃ raw block, f = FContent raw ∧ pem_Decode raw = Some block ∧ ParsePKCS8PrivateKey block = Some (Ed25519Key priv).

(** The key of a signer: that of the key file, or, when a dev process has no such
    file, the one it made up. *)
Definition key_origin (pem_Decode : string → option string) (ParsePKCS8PrivateKey : string → option private_key)
    (f : file) (dev : bool) (generated : option string) (priv : string) : Prop :=
  key_in pem_Decode ParsePKCS8PrivateKey f priv ∨ dev = true ∧ f = FMissing ∧ generated = Some priv.

Lemma loadSigner_new pem_Decode pkcs8 public f dev gen signer :
  loadSigner pem_Decode pkcs8 public f dev gen = Some signer →
  ∃ priv, signer = NewSigner public priv ∧ key_origin pem_Decode pkcs8 f dev gen priv.
Proof.
  unfold loadSigner, ParseSignerPEM. destruct f as [raw| |]; [|destruct dev|]; try done.
  - intros (block & Hb & (k & Hk & H)%bind_Some)%bind_Some. destruct k as [|priv|]; try done. injection H as <-.
    exists priv. split; [done|]. left. by exists raw, block.
  - intros (priv & Hg & ->)%fmap_Some. exists priv. split; [done|]. by right.
Qed.

(** ** Environment and listener *)

Definition env (getenv : string → string) (key fallback : string) : string :=
  let v := getenv key in if bool_decide (v = "") then fallback else v.

(** The instance name: the host name, when there is one. *)
Definition instance_of (hostname : option string) : string :=
  match hostname with Some h => if bool_decide (h = "") then "unknown-instance" else h | None => "unknown-instance" end.

Inductive listener (C : Type) := ListenTLS (r : @Reloader C) | ListenPlain.
Arguments ListenTLS {C} r.
Arguments ListenPlain {C}.
Inductive ListenErr := LKeyPair | LTlsRequired.

(** The listener a main ends with; [stat] and [load] are what the TLS files are. *)
Definition choose_listener {C : Type} (tlsCert tlsKey : string) (devInsecure : bool) (stat : option Time) (load : option C)
  : res ListenErr (listener C) :=
  if negb (bool_decide (tlsCert = "")) && negb (bool_decide (tlsKey = ""))
  then match TlsReloader.Config stat load with Ok r => Ok (ListenTLS r) | Err _ => Err LKeyPair end
  else if devInsecure then Ok ListenPlain
  else Err LTlsRequired.

Lemma choose_listener_secure {C} tlsCert tlsKey stat (load : option C) l :
  choose_listener tlsCert tlsKey false stat load = Ok l → ∃ r, l = ListenTLS r.
Proof.
  unfold choose_listener. destruct (_ && _); [|done]. destruct (TlsReloader.Config _ _) as [r|]; [|done].
  intros [= <-]. by exists r.
Qed.
