(* ===== verification/Broker.v ===== *)
(** * The whole broker: goroutines over the shared state (cmd/broker/main.go)

    Requests of the API and of the health listener, the expiry sweeper, the
    policy watcher and the gauge of the Connect token as a pool of goroutines
    interleaved action by action.  A
    goroutine of the pool is a program among others ([goroutine_exec]), so the
    theorems on single handlers hold of every execution of the broker from its
    start. *)

From S2P Require Import Prelude GoStrings GoTime Float64 Encoding RateLimit LeaseStore Json AuditStream Metrics Policy World Counters Provider Server Samples Watcher ServerProps ServerEffects ServerApi Upkeep.
From Stdlib Require Import QArith.
Local Open Scope Z_scope.
Local Open Scope stdpp_scope.

(** Walks through the programs of the broker, with what its helpers do unfolded. *)
Ltac walk_deep :=
  repeat (unfold inc, bad_request, not_found, not_yours, conflict, auditFailClosed, deny, cap_ttl, issue, rateLimited,
            recordAuthFailure; cbv beta zeta;
    lazymatch goal with
    | |- all_actions _ (mbind _ (act _)) => apply all_actions_act; [first [exact I|discriminate]|intros ?]
    | |- all_actions _ (match ?e with _ => _ end) => destruct e eqn:?
    | |- all_actions _ (Ret _) => exact I
    | |- all_actions _ (mbind _ _) => apply all_actions_bind; [|intros ?]
    end).

Section Broker.
Context {X : Externals} (err_text : WatchErr → string) (policyFile : string) (sv : Server).

Definition serve (r : HttpIn) : prog (option outcome) := o ← Handler sv r; Ret (Some o).

(** The tickers of main. *)
Definition sweeper (n : nat) : prog () := ticks n (SweepExpiredLeases Hour).
Definition expiry_gauge (tokenFile : string) (n : nat) : prog () :=
  _ ← update_expiry tokenFile; ticks n (update_expiry tokenFile).

(** What main starts: a goroutine per request of either listener, the sweeper,
    the watcher and the gauge. *)
Inductive goroutine : prog (option outcome) → Prop :=
| g_request r : goroutine (serve r)
| g_sweep n : goroutine (_ ← sweeper n; Ret None)
| g_reload n : goroutine (_ ← Watch err_text policyFile n; Ret None)
| g_expiry tokenFile n : goroutine (_ ← expiry_gauge tokenFile n; Ret None)
| g_health signer o h method path : goroutine (_ ← HealthHandler signer (ready o) h method path; Ret None).

(** A goroutine: where it started, what is left of it and what it did. *)
Record thread := mkThread { th_start : prog (option outcome); th_rest : prog (option outcome); th_past : list step }.
Abbreviation pool := (gmap nat thread).

Inductive pool_step : world * pool → world * pool → Prop :=
| ps_spawn w (ts : pool) i p :
    ts !! i = None → goroutine p → pool_step (w, ts) (w, <[i := mkThread p p []]> ts)
| ps_act w (ts : pool) i p0 T (a : action T) k h x :
    ts !! i = Some (mkThread p0 (Act a k) h) → ext_ok x w a →
    pool_step (w, ts) ((perform x w a).2, <[i := mkThread p0 (k (perform x w a).1) (h ++ [Step a w x])]> ts).

(** ** Every goroutine keeps the guarantee *)

Context (authn_ok : ∀ token, guarantees (sv_authn sv token)).
Context (providers_ok : map_Forall (λ _ p, ProviderLaws p) (sv_providers sv)).

Definition calm (T : Type) (a : action T) : Prop := guarantee a.

Lemma calm_guarantees {A} (p : prog A) : all_actions calm p ↔ guarantees p.
Proof. induction p as [a|T a k IH]; cbn; [done|]. by setoid_rewrite IH. Qed.

(** What the handlers and the health listener do to the shared state: neither the
    policy nor a gauge is theirs to set. *)
Definition at_work (T : Type) (a : action T) : Prop :=
  match a with
  | SwapPolicy _ _ | MetricSet _ _ _ => False
  | MetricAdd name _ _ => name ≠ auditCounter
  | _ => True
  end.

Lemma at_work_calm {A} (p : prog A) : all_actions at_work p → all_actions calm p.
Proof. apply all_actions_mono. intros T a. by destruct a. Qed.

Lemma record_claims_at_work c leaseID ms : ∀ ids, all_actions at_work (record_claims c leaseID ms ids).
Proof. induction ms as [|m ms IH]; intros ids; cbn [record_claims]; walk_deep. apply IH. Qed.

Lemma emit_expired_at_work h ls : all_actions at_work (emit_expired h ls).
Proof. induction ls as [|l ls IH]; cbn [emit_expired]; [done|]. walk_deep. apply IH. Qed.

Lemma fetch_at_work prov req : ProviderLaws prov → all_actions at_work (pv_Fetch prov req).
Proof. intros Hp. eapply all_actions_mono; [|apply fetch_outside]. intros T a. by destruct a. Qed.

Lemma dispatch_at_work rt c : all_actions at_work (dispatch sv rt c).
Proof.
  destruct rt as [|id|id|id| |]; cbn [dispatch].
  - unfold handleLeaseCreate. walk_deep. apply fetch_at_work. by eapply providers_ok.
  - unfold handleLeaseRenew. walk_deep.
  - unfold handleLeaseSurrender. walk_deep.
  - unfold handleLeaseGet. walk_deep.
  - unfold handleClaims. walk_deep. apply record_claims_at_work.
  - unfold handleWhoami. walk_deep.
Qed.

Lemma sweeper_at_work n : all_actions at_work (sweeper n).
Proof. apply all_actions_ticks. unfold SweepExpiredLeases. walk_deep. apply emit_expired_at_work. Qed.

Lemma health_at_work signer o h method path : all_actions at_work (HealthHandler signer (ready o) h method path).
Proof. unfold HealthHandler, ready, Healthy, probeAuthenticated, handleVerifyKey. walk_deep. Qed.

Lemma goroutine_guarantees p : goroutine p → guarantees p.
Proof.
  intros Hp. apply calm_guarantees. destruct Hp as [r|n|n|f n|sg o h method path]; apply all_actions_bind; try done.
  - unfold Handler, withRequestID, withAuth. walk_deep; [by apply calm_guarantees|apply at_work_calm, dispatch_at_work].
  - apply at_work_calm, sweeper_at_work.
  - apply all_actions_ticks, calm_guarantees, reloadIfChanged_guarantees.
  - apply all_actions_bind; [|intros _; apply all_actions_ticks]; unfold update_expiry; walk_deep; by split.
  - apply at_work_calm, health_at_work.
Qed.

(** ** Goroutines of the pool are programs among others *)

(** What holds of a goroutine at any time: to run from here on is to have run
    from its start, with its past as history. *)
Record tracked (w0 w : world) (t : thread) : Prop := {
  tr_guarantees : guarantees (th_rest t);
  tr_started : goroutine (th_start t);
  tr_exec : ∃ ws, interference w0 ws
    ∧ ∀ h r w', exec interference (th_rest t) w h r w' → exec interference (th_start t) ws (th_past t ++ h) r w'
}.

Lemma tracked_later w0 w w' t : any_action w w' → tracked w0 w t → tracked w0 w' t.
Proof.
  intros Ha [Hg Hs (ws & Hws & He)]. split; [done..|]. exists ws. split; [done|]. intros h r w'' H. apply He.
  eapply exec_prefix; [apply _| |exact H]. by apply rtc_once.
Qed.

Lemma tracked_act w0 w p0 {T} (a : action T) k h x :
  ext_ok x w a → tracked w0 w (mkThread p0 (Act a k) h) →
  any_action w (perform x w a).2
  ∧ tracked w0 (perform x w a).2 (mkThread p0 (k (perform x w a).1) (h ++ [Step a w x])).
Proof.
  intros Hx [[Ha Hk] Hs (ws & Hws & He)]. split; [by exists T, a, x|]. split; [apply Hk|done|]. exists ws. split; [done|].
  cbn [th_rest th_past th_start] in *. intros h' r w' H. rewrite <-app_assoc. apply He. cbn.
  by exists w, x, h'.
Qed.

Lemma pool_invariant w0 w ts :
  rtc pool_step (w0, ∅) (w, ts) → interference w0 w ∧ map_Forall (λ _ t, tracked w0 w t) ts.
Proof.
  intros Hr. remember (w, ts) as s eqn:Es. revert w ts Es. pattern s. revert s Hr.
  apply rtc_ind_r.
  - intros w ts [= <- <-]. split; [apply rtc_refl|apply map_Forall_empty].
  - intros [w1 ts1] s _ Hstep IH w ts ->. destruct (IH _ _ eq_refl) as [Hi Hall]. clear IH.
    inversion Hstep as [w' ts' i p Hn Hg|w' ts' i p0 T a k h x Hi' Hx]; subst.
    + split; [done|]. apply map_Forall_insert_2; [|done]. split; [by apply goroutine_guarantees|done|]. by exists w.
    + destruct (tracked_act w0 w1 p0 a k h x Hx (Hall _ _ Hi')) as [Hone Ht].
      split; [etrans; [exact Hi|]; by apply rtc_once|]. apply map_Forall_insert_2; [exact Ht|].
      intros j q Hj. eapply tracked_later; [exact Hone|by apply (Hall j)].
Qed.

(** A finished goroutine ran, from its start, among the others. *)
Lemma goroutine_exec w0 w ts i p0 r h :
  rtc pool_step (w0, ∅) (w, ts) → ts !! i = Some (mkThread p0 (Ret r) h) →
  ∃ ws, goroutine p0 ∧ interference w0 ws ∧ exec interference p0 ws h r w.
Proof.
  intros Hp Hi. apply pool_invariant in Hp as [_ Hall]. destruct (Hall _ _ Hi) as [_ Hg (ws & Hws & He)].
  exists ws. split_and!; [done..|]. rewrite <-(app_nil_r h). apply He. split_and!; [done..|apply rtc_refl].
Qed.

(** A goroutine may be scheduled alone to its end. *)
Lemma run_pool p0 (p : prog (option outcome)) : ∀ o n w (ts : pool) i h,
  oracle_ok o n w p → ts !! i = Some (mkThread p0 p h) →
  rtc pool_step (w, ts) ((run o n w p).2, <[i := mkThread p0 (Ret (run o n w p).1.1) (h ++ run_history o n w p)]> ts).
Proof.
  induction p as [a|T a k IH]; intros o n w ts i h; cbn.
  - intros _ Hi. rewrite app_nil_r, insert_id by done. apply rtc_refl.
  - intros [Hx Ho] Hi. eapply rtc_l; [by eapply ps_act|].
    specialize (IH _ o (S n) _ (<[i := mkThread p0 (k (perform (o n) w a).1) (h ++ [Step a w (o n)])]> ts) i
      (h ++ [Step a w (o n)]) Ho (lookup_insert_eq _ _ _)).
    rewrite insert_insert_eq, <-app_assoc in IH. destruct (perform (o n) w a) as [t w1]. exact IH.
Qed.

(** ** Properties *)

Lemma initial_wf cfg authn providers policy sum signer instance metrics :
  validated policy → world_wf (New cfg authn providers policy sum (NewEmitter signer instance) metrics).2.
Proof.
  intros Hp. split; cbn; [done| |apply map_Forall_empty]. by split; cbn.
Qed.

(** C4: In every state the broker can reach from its start, whatever the
    requests, the policy files, the interleaving and the failures: the policy in
    force passed validation, the committed audit events are numbered 1, 2, 3, ...
    without gap or duplicate and are each signed with the broker's key under its
    instance name, every lease is stored under its own identifier, and the
    counter of audit events on the metrics page shows, for every series, exactly
    the number of committed events of that type (while they are fewer than
    [2^53], the whole numbers of a float64). *)
Theorem broker_invariant cfg authn providers policy sum signer instance w ts :
  validated policy →
  rtc pool_step ((New cfg authn providers policy sum (NewEmitter signer instance) NewMetrics).2, ∅) (w, ts) →
  validated (w_policy w)
  ∧ ((λ ev, bi_Seq (ev_Broker ev)) <$> em_log (w_emitter w)) = seqs_from 0 (length (em_log (w_emitter w)))
  ∧ Forall (λ ev, signed_by ed25519_Sign jcs_Transform signer ev ∧ bi_Instance (ev_Broker ev) = instance
                  ∧ bi_KID (ev_Broker ev) = sg_kid signer) (em_log (w_emitter w))
  ∧ map_Forall (λ id l, l_ID l = id) (w_leases w)
  ∧ counted w.
Proof.
  intros Hp Hr. apply pool_invariant in Hr as [Hi _].
  pose proof (interference_wf _ _ Hi (initial_wf cfg authn providers policy sum signer instance NewMetrics Hp)) as [H1 [H2 _ H3] H4].
  destruct (interference_identity _ _ Hi) as [Hs Hn]. rewrite Hs, Hn in H3. split_and!; try done.
  eapply interference_counted; [exact Hi|]. intros _ s. reflexivity.
Qed.

(** In every execution from [w0], a request whose response carries secret material
    was authenticated, its scope was granted by the policy it read, and the audit
    stream already holds the signed event. *)
Lemma pool_disclosure w0 w ts i q r h l :
  rtc pool_step (w0, ∅) (w, ts) →
  ts !! i = Some (mkThread (serve q) (Ret (Some (Reply r))) h) → rp_Body r = BLease l → lr_Secret l ≠ ∅ →
  ∃ token sub w1 w2 wx x h1 h2 wp xp g ev,
    hi_Authorization q = "Bearer " +:+ token
    ∧ h = Step (Rand 8) wx x :: h1 ++ h2 ∧ exec interference (sv_authn sv token) w1 h1 (Some sub) w2
    ∧ Step CurrentPolicy wp xp ∈ h2 ∧ interference w0 wp ∧ grantOf (w_policy wp) (Key sub) (lr_Scope l) = Some g
    ∧ (ev ∈ em_log (w_emitter w)) ∧ signed_by ed25519_Sign jcs_Transform (em_signer (w_emitter w0)) ev
    ∧ ev_Type ev = TypeLeaseIssued ∧ ev_Subject ev = Some sub
    ∧ ev_Attested ev !! "lease_id" = Some (AStr (lr_LeaseID l))
    ∧ ev_Attested ev !! "scope" = Some (AStr (lr_Scope l)).
Proof.
  intros Hr Hi Hb Hs. destruct (goroutine_exec _ _ _ _ _ _ _ Hr Hi) as (ws & _ & Hws & Hrun).
  unfold serve in Hrun. apply exec_bind in Hrun as (o & wa & ha & hb & -> & Hrun & (-> & Ho & Hwa)); [|apply _].
  injection Ho as <-. rewrite app_nil_r in *. destruct r as [st nost body]. cbn in Hb. subst body.
  apply Handler_exec in Hrun as [(title & reqID & [=])|(token & sub & src & reqID & wx & x & w1 & w2 & h1 & h2 & Ha & _ & -> & Hi1 & Hsub & _ & _ & Hd)].
  unfold route_request in Hd. destruct (route_of _ _) as [rt|]; [|by destruct Hd as (_ & Hd & _)].
  assert (Hi02 : interference w0 w2).
  { etrans; [exact Hws|]. etrans; [exact Hi1|]. eapply runs_interference; [apply authn_ok|by eapply exec_runs]. }
  destruct (disclosure_issuance _ _ _ _ _ _ _ l Hd eq_refl Hs) as (-> & d & Hiss).
  destruct (is_current _ _ _ _ _ _ _ Hiss) as (wp & xp & Hin & Hwp & Hpol), (is_created _ _ _ _ _ _ _ Hiss) as (wc & xc & _ & El).
  pose proof (is_granted _ _ _ _ _ _ _ Hiss) as Hgr. pose proof (is_reply _ _ _ _ _ _ _ Hiss) as E. injection E as -> -> ->.
  destruct (is_logged _ _ _ _ _ _ _ Hiss) as (new & ev & Hl & Hinl & (H1 & _ & H3 & _ & H5 & _) & Hsg).
  apply interference_log in Hwa as [[n Hn] _]. apply interference_log in Hi02 as Hah. destruct Hah as [_ Hsg0].
  exists token, sub, w1, w2, wx, x, h1, h2, wp, xp, (is_grant d), ev. rewrite H1, H3, H5, <-Hsg0. split_and!; try done.
  - by etrans.
  - rewrite Hpol. cbn [issued_response leaseMeta lr_Scope]. by rewrite El.
  - rewrite Hn, Hl. apply elem_of_app. left. apply elem_of_app. by right.
  - cbn [issued_event newEvent ev_Attested]. unfold issued_attested. case_match; reflexivity.
  - cbn [issued_event newEvent ev_Attested]. unfold issued_attested. case_match; reflexivity.
Qed.

End Broker.

(** ** The sample broker, one request *)

Definition sample_goroutine : prog (option outcome) := serve sample_server sample_http.

Definition sample_final : option outcome * nat * world :=
  @run sample_ext _ http_oracle 0 sample_world sample_goroutine.
Definition sample_past : list step := @run_history sample_ext _ http_oracle 0 sample_world sample_goroutine.

Abbreviation sample_pool_step := (@pool_step sample_ext (λ _, "error") "/policy.yaml" sample_server).

Lemma sample_pool_run :
  rtc sample_pool_step (sample_world, ∅) (sample_final.2, {[0%nat := mkThread sample_goroutine (Ret sample_final.1.1) sample_past]}).
Proof.
  eapply rtc_l; [apply (ps_spawn _ _ _ _ _ 0%nat sample_goroutine); [reflexivity|apply g_request]|].
  pose proof (@run_pool sample_ext (λ _, "error") "/policy.yaml" sample_server sample_goroutine sample_goroutine http_oracle 0%nat
    sample_world {[0%nat := mkThread sample_goroutine sample_goroutine []]} 0%nat []) as Hr.
  rewrite insert_singleton_eq in Hr. apply Hr; [vm_compute; repeat split|apply lookup_singleton_eq].
Qed.

Lemma sample_authn_ok : ∀ token, @guarantees sample_ext _ (sv_authn sample_server token).
Proof. intros token. exact I. Qed.

Lemma broker_invariant_witness :
  ((λ ev, bi_Seq (ev_Broker ev)) <$> em_log (w_emitter sample_final.2)) = seqs_from 0 1.
Proof.
  destruct (@broker_invariant sample_ext (λ _, "error") "/policy.yaml" sample_server sample_authn_ok sample_laws
    (mkConfig 0%Q 0 0%Q 0 0 0 0 0) sample_authn sample_providers Sample.policy "sum" (mkSigner "priv" "pub" "k00000000") "broker-0"
    sample_final.2 {[0%nat := mkThread sample_goroutine (Ret sample_final.1.1) sample_past]}) as (_ & H & _).
  - exists "policy". exact Sample.policy_parsed.
  - exact sample_pool_run.
  - rewrite H. vm_compute. reflexivity.
Defined.
