(* ===== verification/BrokerMain.v ===== *)
(** * The broker's main (cmd/broker/main.go)

    How a broker comes up from its environment and its files, and the guarantees
    of a broker that came up, from the first request on.  Decoding of PEM
    blocks and of DER keys (packages encoding/pem and crypto/x509) and the file
    system are parameters. *)

From S2P Require Import Prelude GoStrings GoTime Float64 Encoding RateLimit LeaseStore Json AuditStream Metrics Policy World Trace.
From S2P Require Import Provider Server Samples Watcher ServerProps ServerEffects ServerApi Authn Upkeep Playground TlsReloader Process Broker.
From Stdlib Require Import Ascii QArith.
Local Open Scope Z_scope.
Local Open Scope stdpp_scope.

(** ** Coming up *)

Inductive RunErr := RSigner | RPolicy (e : WatchErr) | RNoConnectURL | RNotInCluster | RReviewer (e : NewReviewerErr) | RListener (e : ListenErr).

Section Startup.
Context {X : Externals}.
Context (pem_Decode : string → option string).
Context (ParsePKCS1PrivateKey : string → option string) (ParsePKCS8PrivateKey : string → option private_key).
Context (AppendCertsFromPEM : string → bool) (err_text : WatchErr → string).
Context (getenv : string → string) (files : string → file) {Certificate : Type}.

Abbreviation env := (Process.env getenv).

Definition policyFile : string := env "ACB_POLICY_FILE" "/etc/agent-cred-broker/policy.yaml".
Definition devInsecure : bool := bool_decide (getenv "ACB_DEV_INSECURE" = "1").

Definition providers : gmap string Provider :=
  let connectTok := env "ACB_CONNECT_TOKEN_FILE" "/etc/agent-cred-broker/connect/token" in
  let ps : gmap string Provider :=
    {["onepassword-connect" := OnePassword_provider (NewOnePassword (getenv "ACB_CONNECT_URL") connectTok)]} in
  let appID := getenv "ACB_GITHUB_APP_ID" in
  if bool_decide (appID = "") then ps
  else match content (files (env "ACB_GITHUB_APP_KEY_FILE" "/etc/agent-cred-broker/github/app-key.pem"))
             ≫= ParseKey pem_Decode ParsePKCS1PrivateKey ParsePKCS8PrivateKey with
  | None => ps
  | Some ghKey => <["github-app" := GitHubApp_provider (NewGitHubApp (getenv "ACB_GITHUB_API_URL") appID ghKey)]> ps
  end.

Definition reviewerCfg : option AuthnConfig :=
  let audience := env "ACB_AUDIENCE" "agent-cred-broker" in
  let kubeAPI := getenv "ACB_KUBE_API" in
  if bool_decide (kubeAPI = "") then InClusterConfig getenv audience
  else Some (mkAuthnConfig kubeAPI (env "ACB_KUBE_TOKEN_FILE" "/var/run/secrets/kubernetes.io/serviceaccount/token")
               (getenv "ACB_KUBE_CA_FILE") audience).

Definition started_event (w : world) (signer : Signer) : Event :=
  newEvent TypeBrokerStarted "" None None
    {["policy_hash" := AStr (p_Hash (w_policy w)); "kid" := AStr (sg_kid signer); "public_key" := AStr (PublicBase64 signer)]} None.

(** [run()] up to its listener: the server, its state after the broker.started
    event ([x] is what the outside contributes to writing it), its reviewer, its
    signer and the listener. *)
Definition startup (hostname generated : option string) (stat : option Time) (load : option Certificate) (x : ext)
  : res RunErr (Server * world * Reviewer * Signer * listener Certificate) :=
  match loadSigner pem_Decode ParsePKCS8PrivateKey ed25519_Public
          (files (env "ACB_SIGNING_KEY_FILE" "/etc/agent-cred-broker/keys/signing.pem")) devInsecure generated with
  | None => Err RSigner
  | Some signer =>
    match NewStore (content (files policyFile)) with
    | Err e => Err (RPolicy e)
    | Ok (pol, sum) =>
      if bool_decide (getenv "ACB_CONNECT_URL" = "") then Err RNoConnectURL
      else match reviewerCfg with
      | None => Err RNotInCluster
      | Some cfg =>
        match NewReviewer AppendCertsFromPEM (λ p, content (files p)) cfg with
        | Err e => Err (RReviewer e)
        | Ok rv =>
          let '(sv, w0) := New (mkConfig 0%Q 0 0%Q 0 0 0 0 0) (authenticator rv) providers pol sum
                             (NewEmitter signer (instance_of hostname)) NewMetrics in
          let w := (perform x w0 (EmitEvent (started_event w0 signer))).2 in
          match choose_listener (getenv "ACB_TLS_CERT_FILE") (getenv "ACB_TLS_KEY_FILE") devInsecure stat load with
          | Ok l => Ok (sv, w, rv, signer, l)
          | Err e => Err (RListener e)
          end
        end
      end
    end
  end.

(** ** What coming up establishes *)

Lemma providers_laws : map_Forall (λ _ p, ProviderLaws p) providers.
Proof.
  unfold providers. repeat case_match; repeat (apply map_Forall_insert_2; [apply _|]); apply map_Forall_empty.
Qed.

(** The server [run] builds. *)
Lemma startup_server hostname generated stat load x sv w rv signer l :
  startup hostname generated stat load x = Ok (sv, w, rv, signer, l) →
  sv_cfg sv = applyDefaults (mkConfig 0%Q 0 0%Q 0 0 0 0 0) ∧ sv_authn sv = authenticator rv ∧ sv_providers sv = providers.
Proof.
  unfold startup. destruct (loadSigner _ _ _ _ _ _) as [sg|]; [|done]. destruct (NewStore _) as [[pol sum]|e]; [|done].
  case_bool_decide; [done|]. destruct reviewerCfg as [cfg|]; [|done]. destruct (NewReviewer _ _ _) as [rv'|]; [|done].
  destruct (New _ _ _ _ _ _ _) as [sv' w0] eqn:En. injection En as <- _.
  destruct (choose_listener _ _ _ _ _) as [l'|]; [|done]. intros H0. by injection H0 as <- _ <- _ _.
Qed.

(** A broker that came up. *)
Record came_up (generated : option string) (sv : Server) (w : world) (rv : Reviewer) (signer : Signer) (l : listener Certificate) : Prop := {
  cu_authn : ∀ token, sv_authn sv token = authenticator rv token;
  cu_providers : map_Forall (λ _ p, ProviderLaws p) (sv_providers sv);
  cu_wf : world_wf w;
  cu_empty : w_leases w = ∅;
  cu_signer : em_signer (w_emitter w) = signer
    ∧ ∃ priv, signer = NewSigner ed25519_Public priv
        ∧ key_origin pem_Decode ParsePKCS8PrivateKey
            (files (env "ACB_SIGNING_KEY_FILE" "/etc/agent-cred-broker/keys/signing.pem")) devInsecure generated priv;
  cu_secure : devInsecure = false → ∃ r, l = ListenTLS r
}.

Lemma startup_up hostname generated stat load x sv w rv signer l :
  startup hostname generated stat load x = Ok (sv, w, rv, signer, l) → came_up generated sv w rv signer l.
Proof.
  unfold startup. destruct (loadSigner _ _ _ _ _ _) as [sg|] eqn:Es; [|done].
  apply loadSigner_new in Es as (priv & -> & Hkey). cbv zeta.
  destruct (NewStore _) as [[pol sum]|e] eqn:Ep; [|done]. case_bool_decide; [done|].
  destruct reviewerCfg as [cfg|]; [|done]. destruct (NewReviewer _ _ _) as [rv'|]; [|done].
  destruct (New _ _ _ _ _ _ _) as [sv' w0] eqn:En.
  remember (perform x w0 (EmitEvent (started_event w0 (NewSigner ed25519_Public priv)))).2 as w1 eqn:Ew.
  destruct (choose_listener _ _ _ _ _) as [l'|] eqn:Hl; [|done]. intros H0. injection H0 as <- <- <- <- <-.
  assert (Hv : validated pol).
  { unfold NewStore in Ep. destruct (content _) as [raw|]; [|done]. destruct (Parse _ _ raw) eqn:E; [|done].
    injection Ep as <- _. by exists raw. }
  assert (Hw : world_wf w0).
  { replace w0 with (New (mkConfig 0%Q 0 0%Q 0 0 0 0 0) (authenticator rv') providers pol sum
      (NewEmitter (NewSigner ed25519_Public priv) (instance_of hostname)) NewMetrics).2
      by (by rewrite En). by apply initial_wf. }
  assert (Hsg : em_signer (w_emitter w0) = NewSigner ed25519_Public priv) by (by injection En as _ <-).
  split.
  - by injection En as <- _.
  - injection En as <- _. apply providers_laws.
  - rewrite Ew. by apply perform_wf.
  - rewrite Ew, perform_no_lease_write by done. by injection En as _ <-.
  - split; [|exists priv; by split]. rewrite Ew.
    destruct (perform_log x w0 (EmitEvent (started_event w0 (NewSigner ed25519_Public priv)))) as (_ & _ & -> & _). done.
  - intros Hd. rewrite Hd in Hl. by eapply choose_listener_secure.
Qed.

(** C1: End to end, from a process start: in every execution of a broker that came
    up, whatever the requests, the probes, the policy reloads, the sweeps, their
    interleaving and the failures, a response that carries secret material went
    to a caller for whom the API server vouched, earlier in that request, when
    shown the bearer token of the request; the validated policy that the request
    read from the store grants that caller the scope of the response; and by then
    the audit stream holds a lease.issued event of that caller with the lease id
    and scope of the response, signed with the broker's key.  That key is the
    Ed25519 key of the PEM block in the key file, or, only in dev mode and only
    when there is no such file, the one generated at start-up; and outside dev
    mode the listener is TLS. *)
Theorem started_broker_discloses hostname generated stat load x sv w0 rv signer l w ts i q r h le :
  startup hostname generated stat load x = Ok (sv, w0, rv, signer, l) →
  rtc (pool_step err_text policyFile sv) (w0, ∅) (w, ts) →
  ts !! i = Some (mkThread (serve sv q) (Ret (Some (Reply r))) h) → rp_Body r = BLease le → lr_Secret le ≠ ∅ →
  (∃ token sub wx x0 h1 h2 wp xp g ev,
     hi_Authorization q = "Bearer " +:+ token
     ∧ h = Step (Rand 8) wx x0 :: h1 ++ h2 ∧ vouched_by rv token (observed <$> h1) sub
     ∧ Step CurrentPolicy wp xp ∈ h2 ∧ validated (w_policy wp)
     ∧ grantOf (w_policy wp) (Key sub) (lr_Scope le) = Some g
     ∧ ev ∈ em_log (w_emitter w) ∧ signed_by ed25519_Sign jcs_Transform signer ev
     ∧ ev_Type ev = TypeLeaseIssued ∧ ev_Subject ev = Some sub
     ∧ ev_Attested ev !! "lease_id" = Some (AStr (lr_LeaseID le))
     ∧ ev_Attested ev !! "scope" = Some (AStr (lr_Scope le)))
  ∧ (∃ priv, signer = NewSigner ed25519_Public priv
      ∧ key_origin pem_Decode ParsePKCS8PrivateKey
          (files (env "ACB_SIGNING_KEY_FILE" "/etc/agent-cred-broker/keys/signing.pem")) devInsecure generated priv)
  ∧ (devInsecure = false → ∃ tls, l = ListenTLS tls).
Proof.
  intros Hs Hr Hi Hb Hsec. destruct (startup_up _ _ _ _ _ _ _ _ _ _ Hs) as [Ha Hp Hw _ [Hsg Hpr] Hd].
  split; [|done]. assert (Hg : ∀ token, guarantees (sv_authn sv token)).
  { intros token. rewrite Ha. apply authenticator_guarantees. }
  destruct (pool_disclosure err_text policyFile sv Hg Hp _ _ _ _ _ _ _ _ Hr Hi Hb Hsec)
    as (token & sub & w1 & w2 & wx & x0 & h1 & h2 & wp & xp & g & ev & H1 & H2 & H3 & H4 & H5 & H6 & H7 & H8 & H9).
  rewrite Ha in H3. apply exec_traced, authenticator_traced in H3.
  exists token, sub, wx, x0, h1, h2, wp, xp, g, ev. rewrite <-Hsg. split_and!; try done; try apply H9.
  by apply (interference_wf _ _ H5).
Qed.

End Startup.

(** ** A broker coming up against the playground and serving one request *)

Module StartSample.
Definition getenv (k : string) : string :=
  default "" (({["ACB_CONNECT_URL" := PlaygroundSample.base +:+ "/"; "ACB_KUBE_API" := PlaygroundSample.base; "ACB_AUDIENCE" := "acb";
                 "ACB_TLS_CERT_FILE" := "/tls.crt"; "ACB_TLS_KEY_FILE" := "/tls.key"]} : gmap string string) !! k).
Definition files (p : string) : file :=
  if bool_decide (p = "/etc/agent-cred-broker/keys/signing.pem") then FContent "signing key"
  else if bool_decide (p = "/etc/agent-cred-broker/policy.yaml") then FContent "policy"
  else FMissing.

(** A PEM block holds the Ed25519 key [k]. *)
Definition pkcs8 (block : string) : option private_key := Some (Ed25519Key "k").

Definition oracle (n : nat) : ext :=
  mkExt (sample_now + Z.of_nat n * Second) (sample_now + Z.of_nat n * Second)
    (if bool_decide (n = 0%nat) then "01234567" else "0123456789abc") [] Written (listening PlaygroundSample.base) (λ _, Some "token").

Definition boot : res RunErr (Server * world * Reviewer * Signer * listener string) :=
  @startup sample_ext Some (λ _, None) pkcs8 (λ _, true) getenv files string (Some "broker-0") None (Some 1) (Some "cert") (oracle 1).

Definition booted : Server * world * Reviewer * Signer * listener string :=
  match boot with Ok s => s | Err _ => (sample_server, sample_world, ReviewSample.rv, mkSigner "" "" "", ListenPlain) end.
Definition sv : Server := booted.1.1.1.1.
Definition w0 : world := booted.1.1.1.2.

Lemma boot_ok : boot = Ok booted.
Proof.
  assert (E : match boot with Ok _ => true | Err _ => false end = true) by (vm_compute; reflexivity).
  unfold booted. destruct boot; [reflexivity|discriminate E].
Qed.

Definition http : HttpIn :=
  mkHttpIn "POST" ["v1"; "leases"] "10.0.0.1:40000" "curl" "Bearer agents/builder" (create_body "db" 60).
Definition request : prog (option outcome) := serve sv http.
Definition final : option outcome * nat * world := @run sample_ext _ oracle 0 w0 request.
Definition past : list step := @run_history sample_ext _ oracle 0 w0 request.
Definition reply : Response := match final.1.1 with Some o => reply_of o | None => mkResponse 0 false BEmpty end.

Abbreviation step := (@pool_step sample_ext (λ _, "error") (policyFile getenv) sv).

Lemma execution : rtc step (w0, ∅) (final.2, {[0%nat := mkThread request (Ret (Some (Reply reply))) past]}).
Proof.
  assert (E : final.1.1 = Some (Reply reply)) by (vm_compute; reflexivity).
  eapply rtc_l; [apply (ps_spawn _ _ _ _ _ 0%nat request); [reflexivity|apply g_request]|].
  pose proof (@run_pool sample_ext (λ _, "error") (policyFile getenv) sv request request oracle 0%nat w0
    {[0%nat := mkThread request request []]} 0%nat []) as Hr.
  change (run oracle 0 w0 request) with final in Hr. rewrite E in Hr.
  rewrite insert_singleton_eq in Hr. apply Hr; [vm_compute; repeat split|apply lookup_singleton_eq].
Qed.

Lemma secret : ∃ l, rp_Body reply = BLease l ∧ lr_Secret l ≠ ∅.
Proof. apply secret_body. vm_compute. discriminate. Qed.

Example playground_lease : status_of (Reply reply) = 201 ∧ secret_of (Reply reply) = {["password" := "playground-secret-012345"]}.
Proof. vm_compute. done. Qed.
End StartSample.

Lemma started_broker_discloses_witness :
  ∃ le ev, ev ∈ em_log (w_emitter StartSample.final.2) ∧ ev_Attested ev !! "lease_id" = Some (AStr (lr_LeaseID le)).
Proof.
  destruct StartSample.secret as (le & E & Hs). pose proof StartSample.boot_ok as Hb. pose proof StartSample.execution as He.
  unfold StartSample.request in He. unfold StartSample.sv, StartSample.w0 in He.
  destruct StartSample.booted as [[[[sv w0] rv] signer] l] eqn:Eb. cbn [fst snd] in He.
  destruct (@started_broker_discloses sample_ext Some (λ _, None) StartSample.pkcs8 (λ _, true) (λ _, "error")
    StartSample.getenv StartSample.files string (Some "broker-0") None (Some 1) (Some "cert") (StartSample.oracle 1)
    sv w0 rv signer l StartSample.final.2 {[0%nat := mkThread (serve sv StartSample.http) (Ret (Some (Reply StartSample.reply))) StartSample.past]}
    0%nat StartSample.http StartSample.reply StartSample.past le Hb He (lookup_singleton_eq _ _) E Hs)
    as ((token & sub & wx & x0 & h1 & h2 & wp & xp & g & ev & _ & _ & _ & _ & _ & _ & H1 & _ & _ & _ & H2 & _) & _).
  exists le, ev. split; [exact H1|exact H2].
Defined.
