(* ===== verification/Records.v ===== *)
(** * No lease without its record

    A lease enters the table before its [lease.issued] event is written, and is
    taken out again when the write fails.  In between, the request that created
    it has that write, or that removal, as its next action: what is in the table
    and what is in the audit stream never drift apart. *)

From S2P Require Import Prelude GoStrings GoTime Float64 Encoding RateLimit LeaseStore Json AuditStream Metrics Policy World Trace.
From S2P Require Import Provider Server Samples Watcher ServerProps ServerEffects ServerApi Authn Upkeep Playground TlsReloader Process Broker BrokerMain.
From Stdlib Require Import QArith.
Local Open Scope Z_scope.
Local Open Scope stdpp_scope.

(** ** The record of a lease *)

(** [ev] reports the issuance of [l]: to its subject, under its identifier, for its scope. *)
Definition issued_for (l : Lease) (ev : Event) : Prop :=
  ev_Type ev = TypeLeaseIssued
  ∧ (∃ sub, ev_Subject ev = Some sub ∧ Key sub = l_SubjectKey l)
  ∧ ev_Attested ev !! "lease_id" = Some (AStr (l_ID l))
  ∧ ev_Attested ev !! "scope" = Some (AStr (l_Scope l))
  ∧ ev_Attested ev !! "semantics" = Some (AStr (l_Semantics l)).

(** What no operation on a lease changes. *)
Definition same_lease (l l' : Lease) : Prop :=
  l_ID l = l_ID l' ∧ l_SubjectKey l = l_SubjectKey l' ∧ l_Scope l = l_Scope l' ∧ l_Semantics l = l_Semantics l'.

Lemma issued_for_same l l' ev : same_lease l l' → issued_for l ev → issued_for l' ev.
Proof. intros (E1 & E2 & E3 & E4). unfold issued_for. by rewrite E1, E2, E3, E4. Qed.

(** ** What a program owes *)

(** The next action of [p] writes the record of [l], and removes [l] at once
    should the write fail; or is that removal. *)
Definition settling {A} (l : Lease) (p : prog A) : Prop :=
  match p with
  | Ret _ => False
  | Act a k =>
    match a in action T return (T → prog A) → Prop with
    | EmitEvent ev => λ k, issued_for l ev ∧ ∀ e, ∃ k', k (Err e) = Act (LeaseRemove (l_ID l)) k'
    | LeaseRemove id => λ _, id = l_ID l
    | _ => λ _, False
    end k
  end.

(** Every lease [p] creates is settled next. *)
Definition then_settled {A T} (a : action T) : (T → prog A) → Prop :=
  match a in action T return (T → prog A) → Prop with
  | LeaseCreate sk sc sem _ _ => λ k, ∀ l, l_SubjectKey l = sk → l_Scope l = sc → l_Semantics l = sem → settling l (k l)
  | _ => λ _, True
  end.
Fixpoint tidy {A} (p : prog A) : Prop :=
  match p with
  | Ret _ => True
  | Act a k => then_settled a k ∧ ∀ t, tidy (k t)
  end.

Lemma settling_same {A} l l' (p : prog A) : same_lease l l' → settling l p → settling l' p.
Proof.
  intros Hs. destruct p as [|T a k]; [done|]. destruct a; try done; cbn.
  - by destruct Hs as [<- _].
  - intros [H1 H2]. split; [by eapply issued_for_same|]. by destruct Hs as [<- _].
Qed.

Lemma settling_bind {A B} l (p : prog A) (f : A → prog B) : settling l p → settling l (p ≫= f).
Proof.
  destruct p as [|T a k]; [done|]. destruct a; try done. cbn. intros [H1 H2]. split; [done|]. intros e.
  destruct (H2 e) as [k' E]. exists (λ t, k' t ≫= f). change (k (Err e) ≫= f = Act (LeaseRemove (l_ID l)) (λ t, k' t ≫= f)). by rewrite E.
Qed.

Lemma tidy_bind {A B} (p : prog A) (f : A → prog B) : tidy p → (∀ a, tidy (f a)) → tidy (p ≫= f).
Proof.
  induction p as [a|T a k IH]; intros Hp Hf; [apply Hf|]. destruct Hp as [Ha Hk].
  change (Act a k ≫= f) with (Act a (λ t, k t ≫= f)). split; [|intros t; by apply IH].
  destruct a; try done. cbn in *. intros l H1 H2 H3. by apply settling_bind, Ha.
Qed.

Lemma tidy_act {A B} (a : action A) (f : A → prog B) : then_settled a f → (∀ t, tidy (f t)) → tidy (act a ≫= f).
Proof. intros Ha Hf. split; [done|exact Hf]. Qed.

Definition no_create (T : Type) (a : action T) : Prop :=
  match a with LeaseCreate _ _ _ _ _ => False | _ => True end.

Lemma tidy_no_create {A} (p : prog A) : all_actions no_create p → tidy p.
Proof.
  induction p as [a|T a k IH]; [done|]. intros [Ha Hk]. split; [by destruct a|]. intros t. by apply IH.
Qed.

(** ** The broker's goroutines are tidy *)

Ltac walk_tidy :=
  repeat (unfold inc, bad_request, not_found, not_yours, conflict, auditFailClosed, deny, rateLimited, recordAuthFailure;
    cbv beta zeta;
    lazymatch goal with
    | |- tidy (mbind _ (act _)) => apply tidy_act; [exact I|intros ?]
    | |- tidy (match ?e with _ => _ end) => destruct e eqn:?
    | |- tidy (Ret _) => exact I
    | |- tidy (mbind _ _) => apply tidy_bind; [|intros ?]
    end).

Section Goroutines.
Context {X : Externals} (err_text : WatchErr → string) (policyFile : string) (sv : Server).
Context (authn_outside : ∀ token, all_actions outside (sv_authn sv token)).
Context (providers_ok : map_Forall (λ _ p, ProviderLaws p) (sv_providers sv)).

Lemma outside_tidy {A} (p : prog A) : all_actions outside p → tidy p.
Proof. intros H. apply tidy_no_create. eapply all_actions_mono; [|exact H]. intros T a. by destruct a. Qed.

Lemma fetch_tidy prov req : ProviderLaws prov → tidy (pv_Fetch prov req).
Proof. intros Hp. apply outside_tidy, fetch_outside. Qed.

Lemma issue_tidy c pol req g prov ttl result : tidy (issue c pol req g prov ttl result).
Proof.
  unfold issue. cbv zeta. apply tidy_bind; [unfold cap_ttl; walk_tidy|]. intros ttl'. apply tidy_act; [|intros l; walk_tidy].
  intros l Hk Hs Hm. split; [|intros e; by eexists]. unfold issued_for. cbn [issued_event newEvent ev_Type ev_Subject ev_Attested].
  split_and!; [done|by exists (cx_sub c)|..]; unfold issued_attested; case_match; reflexivity.
Qed.

Lemma record_claims_tidy c leaseID ms : ∀ ids, tidy (record_claims c leaseID ms ids).
Proof. induction ms as [|m ms IH]; intros ids; cbn [record_claims]; walk_tidy. apply IH. Qed.

Lemma emit_expired_tidy h ls : tidy (emit_expired h ls).
Proof. induction ls as [|l ls IH]; cbn [emit_expired]; [done|]. walk_tidy. apply IH. Qed.

Lemma dispatch_tidy rt c : tidy (dispatch sv rt c).
Proof.
  destruct rt as [|id|id|id| |]; cbn [dispatch].
  - unfold handleLeaseCreate. walk_tidy; [|apply issue_tidy]. apply fetch_tidy. by eapply providers_ok.
  - unfold handleLeaseRenew. walk_tidy.
  - unfold handleLeaseSurrender. walk_tidy.
  - unfold handleLeaseGet. walk_tidy.
  - unfold handleClaims. walk_tidy. apply record_claims_tidy.
  - unfold handleWhoami. walk_tidy.
Qed.

Lemma ticks_tidy n body : tidy body → tidy (ticks n body).
Proof. intros Hb. induction n as [|n IH]; cbn [ticks]; [done|]. by apply tidy_bind. Qed.

Lemma goroutine_tidy p : goroutine err_text policyFile sv p → tidy p.
Proof.
  intros Hp. destruct Hp as [r|n|n|f n|sg o h method path]; apply tidy_bind; try done.
  - unfold Handler, withRequestID, withAuth. walk_tidy; [by apply outside_tidy|apply dispatch_tidy].
  - apply ticks_tidy. unfold SweepExpiredLeases. walk_tidy. apply emit_expired_tidy.
  - apply ticks_tidy. unfold reloadIfChanged, OnReload, OnError. walk_tidy.
  - apply tidy_bind; [|intros _; apply ticks_tidy]; unfold update_expiry; walk_tidy; by split.
  - unfold HealthHandler, ready, Healthy, probeAuthenticated, handleVerifyKey. walk_tidy.
Qed.

End Goroutines.

(** ** Leases after an action *)

Section Pool.
Context {X : Externals} (err_text : WatchErr → string) (policyFile : string) (sv : Server).
Context (authn_outside : ∀ token, all_actions outside (sv_authn sv token)).
Context (providers_ok : map_Forall (λ _ p, ProviderLaws p) (sv_providers sv)).

Definition creates {T} (a : action T) : T → option Lease :=
  match a in action T return T → option Lease with LeaseCreate _ _ _ _ _ => Some | _ => λ _, None end.

(** A lease of the table was there before, or has just been created. *)
Lemma lease_origin x w {T} (a : action T) id l' :
  ext_ok x w a → w_leases (perform x w a).2 !! id = Some l' →
  (∃ l, w_leases w !! id = Some l ∧ same_lease l l') ∨ creates a (perform x w a).1 = Some l'.
Proof.
  intros Hx. assert (Hold : ∀ l, w_leases w !! id = Some l → ∃ l0, w_leases w !! id = Some l0 ∧ same_lease l0 l) by (intros l ?; by exists l).
  destruct a; cbn [perform]; intros H; try (left; by apply Hold).
  - destruct (Allow _ _ _), i; left; by apply Hold.
  - destruct (Spend _ _ _ _ _). left. by apply Hold.
  - cbn in H. apply lookup_insert_Some in H as [[_ <-]|[_ H]]; [by right|left; by apply Hold].
  - left. pose proof (Renew_store (w_leases w) (x_now x) (x_now2 x) id0 ttl) as Hr.
    pose proof (Renew_Some (w_leases w) (x_now x) (x_now2 x) id0 ttl) as Hs.
    destruct (Renew _ _ _ _ _) as [[[l|] o] st]; cbn in *; subst st; [|by apply Hold].
    destruct (Hs l o eq_refl) as (l0 & Hl0 & -> & _).
    apply lookup_insert_Some in H as [[<- <-]|[_ H]]; [by exists l0|by apply Hold].
  - left. pose proof (Surrender_store (w_leases w) id0) as Hr. destruct (Surrender _ _) as [[l o] st]. cbn in *. subst st.
    destruct (w_leases w !! id0) as [l0|] eqn:E; [|by apply Hold].
    apply lookup_insert_Some in H as [[<- <-]|[_ H]]; [by exists l0|by apply Hold].
  - left. cbn in H. unfold Remove in H. apply lookup_delete_Some in H as [_ H]. by apply Hold.
  - left. pose proof (λ k, SweepExpired_lookup (w_leases w) (x_now x) retain (x_order x) k Hx) as Hs.
    destruct (SweepExpired _ _ _ _) as [ls st]. cbn in *. rewrite Hs in H. apply bind_Some in H as (l & Hl & H).
    exists l. split; [done|]. unfold swept in H. case_match; [done|]. injection H as <-. by case_match.
  - left. destruct (Emit _ _ _ _ _ _) as [[|] e]; by apply Hold.
Qed.

(** ** The invariant *)

Definition recorded (l : Lease) (w : world) : Prop := ∃ ev, (ev ∈ em_log (w_emitter w)) ∧ issued_for l ev.

Record accounted (w : world) (ts : gmap nat thread) : Prop := {
  ac_tidy : map_Forall (λ _ t, tidy (th_rest t)) ts;
  ac_ids : map_Forall (λ id l, l_ID l = id) (w_leases w);
  ac_leases : ∀ id l, w_leases w !! id = Some l → recorded l w ∨ ∃ i t, ts !! i = Some t ∧ settling l (th_rest t)
}.

Lemma recorded_later x w {T} (a : action T) l : recorded l w → recorded l (perform x w a).2.
Proof.
  intros (ev & Hin & Hf). exists ev. split; [|done]. destruct (perform_log x w a) as (new & E & _).
  change (ev ∈ log (perform x w a).2). rewrite E. apply elem_of_app. by left.
Qed.

Lemma recorded_same l l' w : same_lease l l' → recorded l w → recorded l' w.
Proof. intros Hs (ev & Hin & Hf). exists ev. split; [done|by eapply issued_for_same]. Qed.

(** The settling goroutine acts: the lease is recorded, or gone, or about to go. *)
Lemma settling_acts x w {A T} (a : action T) (k : T → prog A) l :
  settling l (Act a k) →
  recorded l (perform x w a).2 ∨ w_leases (perform x w a).2 !! l_ID l = None ∨ settling l (k (perform x w a).1).
Proof.
  destruct a; try done; cbn [settling].
  - intros ->. right. left. cbn. apply lookup_delete_eq.
  - intros [Hf Hk]. cbn [perform].
    destruct (Emit_cases ed25519_Sign jcs_Transform (w_emitter w) (x_now x) (x_write x) ev)
      as [(sig & _ & _ & ->)|(err & out & -> & _)]; cbn [fst snd].
    + left. eexists. split; [apply elem_of_app; right; by apply list_elem_of_singleton|]. exact Hf.
    + right. right. destruct (Hk err) as [k' ->]. done.
Qed.

Lemma accounted_step w ts w' ts' :
  pool_step err_text policyFile sv (w, ts) (w', ts') → accounted w ts → accounted w' ts'.
Proof.
  intros Hstep [Ht Hi Hl]. inversion Hstep as [w1 ts1 i p Hn Hg|w1 ts1 i p0 T a k h x Hti Hx]; subst.
  - split; [apply map_Forall_insert_2; [by eapply goroutine_tidy|done]|done|].
    intros id l H. destruct (Hl id l H) as [Hr|(j & t & Hj & Hs)]; [by left|right].
    exists j, t. split; [|done]. rewrite lookup_insert_ne; [done|]. intros ->. congruence.
  - destruct (Ht _ _ Hti) as [Ha Hk]. cbn [th_rest] in Ha, Hk. pose proof (perform_ids x w a Hx Hi) as Hi'.
    split; [apply map_Forall_insert_2; [apply Hk|done]|exact Hi'|].
    intros id l' H. destruct (lease_origin x w a id l' Hx H) as [(l & Hlo & Hs)|Hc].
    + destruct (Hl id l Hlo) as [Hr|(j & t & Hj & Hset)]; [left; by eapply recorded_same, recorded_later|].
      destruct (decide (j = i)) as [->|Hne].
      * rewrite Hti in Hj. injection Hj as <-. cbn [th_rest] in Hset. apply (settling_same _ _ _ Hs) in Hset.
        destruct (settling_acts x w a k l' Hset) as [Hr|[Hgone|Hset']]; [by left| |].
        { rewrite (Hi' id l' H) in Hgone. congruence. }
        right. eexists i, _. split; [apply lookup_insert_eq|exact Hset'].
      * right. exists j, t. rewrite lookup_insert_ne by done. split; [done|by eapply settling_same].
    + right. eexists i, _. split; [apply lookup_insert_eq|]. cbn [th_rest]. clear -Ha Hc. destruct a; try done.
      cbn in Ha, Hc |- *. injection Hc as <-. by apply Ha.
Qed.

Lemma pool_accounted w0 w ts :
  w_leases w0 = ∅ → rtc (pool_step err_text policyFile sv) (w0, ∅) (w, ts) → accounted w ts.
Proof.
  intros H0 Hr. remember (w, ts) as s eqn:Es. revert w ts Es. pattern s. revert s Hr. apply rtc_ind_r.
  - intros w ts [= <- <-]. split; [apply map_Forall_empty|rewrite H0; apply map_Forall_empty|].
    intros id l H. by rewrite H0, lookup_empty in H.
  - intros [w1 ts1] s _ Hstep IH w ts ->. eapply accounted_step; [exact Hstep|by apply IH].
Qed.

End Pool.

Section Started.
Context {X : Externals}.
Context (pem_Decode : string → option string).
Context (ParsePKCS1PrivateKey : string → option string) (ParsePKCS8PrivateKey : string → option private_key).
Context (AppendCertsFromPEM : string → bool) (err_text : WatchErr → string).
Context (getenv : string → string) (files : string → file) {Certificate : Type}.

Lemma authenticator_outside rv token : all_actions outside (authenticator rv token).
Proof. unfold authenticator. apply all_actions_bind; [|done]. unfold Review. walk; exact I. Qed.

(** C19: No lease without its record.  In every state a broker that came up can
    reach, whatever the interleaving and the failures, every lease of the table
    has a committed [lease.issued] event, signed with the broker's key, of its
    subject, identifier, scope and semantics; or some request has the writing of
    that event (followed by the removal of the lease should the write fail), or
    that removal, as its very next action.  So when no request is under way every
    lease of the table is on record. *)
Theorem leases_on_record hostname generated stat load x sv w0 rv signer (l : listener Certificate) w ts id le :
  startup pem_Decode ParsePKCS1PrivateKey ParsePKCS8PrivateKey AppendCertsFromPEM getenv files hostname generated stat load x
    = Ok (sv, w0, rv, signer, l) →
  rtc (pool_step err_text (policyFile getenv) sv) (w0, ∅) (w, ts) →
  w_leases w !! id = Some le →
  l_ID le = id
  ∧ ((∃ ev, (ev ∈ em_log (w_emitter w)) ∧ issued_for le ev ∧ signed_by ed25519_Sign jcs_Transform signer ev)
     ∨ ∃ i t, ts !! i = Some t ∧ settling le (th_rest t))
  ∧ ((∀ i t, ts !! i = Some t → ∃ o, th_rest t = Ret o) →
     ∃ ev, (ev ∈ em_log (w_emitter w)) ∧ issued_for le ev ∧ signed_by ed25519_Sign jcs_Transform signer ev).
Proof.
  intros Hs Hr Hl. destruct (startup_up _ _ _ _ _ _ _ _ _ _ _ _ _ _ _ _ Hs) as [Ha Hp Hw He [Hsg _] _].
  assert (Ho : ∀ token, all_actions outside (sv_authn sv token)) by (intros token; rewrite Ha; apply authenticator_outside).
  assert (Hg : ∀ token, guarantees (sv_authn sv token)) by (intros token; rewrite Ha; apply authenticator_guarantees).
  destruct (pool_accounted _ _ _ Ho Hp _ _ _ He Hr) as [_ Hid Hle].
  destruct (pool_invariant _ _ _ Hg Hp _ _ _ Hr) as [Hi _]. destruct (interference_wf _ _ Hi Hw) as [_ [_ _ Hsigned] _].
  destruct (interference_log _ _ Hi) as [_ Hsi]. rewrite Hsi, Hsg, Forall_forall in Hsigned.
  assert (Hrec : recorded le w → ∃ ev, (ev ∈ em_log (w_emitter w)) ∧ issued_for le ev ∧ signed_by ed25519_Sign jcs_Transform signer ev).
  { intros (ev & Hin & Hf). exists ev. split_and!; [done..|]. by destruct (Hsigned ev Hin) as [H _]. }
  split_and!; [by apply Hid| |].
  - destruct (Hle id le Hl) as [H|H]; [left; by apply Hrec|by right].
  - intros Hq. apply Hrec. destruct (Hle id le Hl) as [H|(i & t & Ht & Hset)]; [done|].
    destruct (Hq i t Ht) as [o E]. by rewrite E in Hset.
Qed.

End Started.

Lemma leases_on_record_witness :
  ∃ le ev, w_leases StartSample.final.2 !! NewID "lease" "0123456789abc" = Some le
    ∧ (ev ∈ em_log (w_emitter StartSample.final.2)) ∧ issued_for le ev.
Proof.
  assert (Hl : is_Some (w_leases StartSample.final.2 !! NewID "lease" "0123456789abc")).
  { apply (bool_decide_eq_true_1 _). vm_compute. reflexivity. }
  pose proof StartSample.boot_ok as Hb. pose proof StartSample.execution as He. revert Hl He.
  generalize StartSample.final.2. intros w [le Hl] He.
  unfold StartSample.request, StartSample.sv, StartSample.w0 in He.
  destruct StartSample.booted as [[[[sv w0] rv] signer] l] eqn:Eb. cbn [fst snd] in He.
  destruct (@leases_on_record sample_ext Some (λ _, None) StartSample.pkcs8 (λ _, true) (λ _, "error")
    StartSample.getenv StartSample.files string (Some "broker-0") None (Some 1) (Some "cert") (StartSample.oracle 1)
    sv w0 rv signer l w
    {[0%nat := mkThread (serve sv StartSample.http) (Ret (Some (Reply StartSample.reply))) StartSample.past]}
    (NewID "lease" "0123456789abc") le Hb He Hl) as (_ & _ & H).
  destruct H as (ev & Hin & Hf & _).
  - intros i t Hi. apply lookup_singleton_Some in Hi as [_ <-]. eexists. reflexivity.
  - exists le, ev. split_and!; [exact Hl|exact Hin|exact Hf].
Defined.
