(* ===== verification/Termination.v ===== *)
(** * Requests end

    Every handler ends after a bounded number of actions, whatever the outside
    answers; for a broker with its default limits the bound is a number. *)

From S2P Require Import Prelude GoStrings GoTime Float64 Encoding RateLimit LeaseStore Json AuditStream Metrics Policy World Trace.
From S2P Require Import Provider Server Samples Watcher ServerProps ServerEffects ServerApi Authn Upkeep Playground TlsReloader Process Broker BrokerMain.
From Stdlib Require Import Ascii QArith.
Local Open Scope Z_scope.
Local Open Scope stdpp_scope.

Lemma authenticator_within rv token : within 2 (authenticator rv token).
Proof.
  unfold authenticator. apply (within_bind _ _ 2); [lia| |by intros [|]]. unfold Review. walk_within.
Qed.

Lemma op_Fetch_within o req : within 2 (op_Fetch o req).
Proof. unfold op_Fetch. walk_within. Qed.

Section Handlers.
Context {X : Externals}.

Lemma gh_Fetch_within g req : within 2 (gh_Fetch g req).
Proof. unfold gh_Fetch. walk_within. Qed.

Lemma rateLimited_within c endpoint title : within 4 (rateLimited c endpoint title).
Proof.
  unfold rateLimited, inc. walk_within. apply (within_bind _ _ 2); [lia|walk_within|by intros []].
Qed.

Ltac count :=
  repeat (unfold inc, bad_request, not_found, not_yours, conflict, auditFailClosed, deny, recordAuthFailure; walk_within;
    try (lazymatch goal with
      | |- within _ (rateLimited _ _ _) => eapply within_mono; [|apply rateLimited_within]; lia
      end)).

Lemma record_claims_within c leaseID ms : ∀ ids, within (2 * length ms + 1) (record_claims c leaseID ms ids).
Proof.
  induction ms as [|m ms IH]; intros ids; cbn [record_claims]; [count|].
  replace (2 * length (m :: ms) + 1)%nat with (S (S (2 * length ms + 1))) by (cbn; lia). walk_within; [apply IH|].
  eapply (within_mono _ 1); [lia|]. count.
Qed.

(** The effects of the handlers, given how long fetching may take. *)
Context (sv : Server).
Hypothesis fetch_within : map_Forall (λ _ p, ∀ req, within 2 (pv_Fetch p req)) (sv_providers sv).

Lemma issue_within c pol req g prov ttl result : within 5 (issue c pol req g prov ttl result).
Proof.
  unfold issue. cbv zeta. apply (within_bind _ _ 1); [lia|unfold cap_ttl; walk_within|]. intros ttl'. count.
Qed.

Lemma create_within c : within 14 (handleLeaseCreate sv c).
Proof.
  unfold handleLeaseCreate. count. apply (within_bind _ _ 2); [lia|by eapply fetch_within|]. intros result. count. apply issue_within.
Qed.

Lemma claims_within c : within (2 * Z.to_nat (MaxClaimsPerReq (sv_cfg sv)) + 5) (handleClaims sv c).
Proof.
  rewrite (Nat.add_succ_r _ 4). remember (2 * Z.to_nat (MaxClaimsPerReq (sv_cfg sv)) + 4)%nat as k eqn:Hk.
  unfold handleClaims. apply within_act. intros [|]; cbn [negb].
  2:{ eapply within_mono; [|apply rateLimited_within]. lia. }
  destruct (dbind _ _) as [req| |]; [|count..]. cbv zeta. destruct (_ || _) eqn:En; [count|].
  apply orb_false_iff in En as [_ En%Z.ltb_ge]. destruct (claim_bytes _ _ _) as [total|]; [|count].
  apply (within_bind _ _ 1); [lia|walk_within|]. intros held. destruct held; cbn [negb]; [|exact I].
  replace (k - 1)%nat with (S (S (k - 3))) by lia. walk_within.
  - replace (k - 3)%nat with (S (k - 4)) by lia. count.
  - eapply within_mono; [|apply record_claims_within]. lia.
Qed.

Lemma renew_within c id : within 14 (handleLeaseRenew sv c id).
Proof. unfold handleLeaseRenew. count. Qed.

Lemma surrender_within c id : within 14 (handleLeaseSurrender sv c id).
Proof. unfold handleLeaseSurrender. count. Qed.

Lemma get_within c id : within 14 (handleLeaseGet c id).
Proof. unfold handleLeaseGet. count. Qed.

Lemma whoami_within c : within 14 (handleWhoami c).
Proof. unfold handleWhoami. count. Qed.

Lemma dispatch_within rt c :
  within (Nat.max 14 (2 * Z.to_nat (MaxClaimsPerReq (sv_cfg sv)) + 5)) (dispatch sv rt c).
Proof.
  destruct rt as [|id|id|id| |]; cbn [dispatch]; (eapply within_mono; [|first
    [exact (create_within c)|exact (renew_within c id)|exact (surrender_within c id)
    |exact (get_within c id)|exact (claims_within c)|exact (whoami_within c)]]); lia.
Qed.

Lemma Handler_within r :
  (∀ token, within 2 (sv_authn sv token)) →
  within (3 + Nat.max 14 (2 * Z.to_nat (MaxClaimsPerReq (sv_cfg sv)) + 5)) (Handler sv r).
Proof.
  intros Ha. set (m := Nat.max _ _). assert (Hm : (14 ≤ m)%nat) by lia. unfold Handler, withRequestID. apply within_act. intros b.
  cbv beta zeta. unfold withAuth. destruct (CutPrefix _ _) as [[|a token]|].
  - eapply (within_mono _ 3); [lia|]. apply (within_bind _ _ 3); [lia|count|by intros []].
  - apply (within_bind _ _ 2); [lia|apply Ha|]. intros [sub|].
    + cbv beta. replace (S (S m) - 2)%nat with m by lia. destruct (route_of _ _) as [rt|]; [apply dispatch_within|exact I].
    + eapply (within_mono _ 3); [lia|]. apply (within_bind _ _ 3); [lia|count|by intros []].
  - eapply (within_mono _ 3); [lia|]. apply (within_bind _ _ 3); [lia|count|by intros []].
Qed.

End Handlers.

(** ** The next action is always possible *)

(** All the texts of [n] bytes. *)
Definition all_bytes : list ascii := byte_of <$> seqZ 0 256.
Fixpoint all_texts (n : nat) : list string :=
  match n with
  | O => [""]
  | S m => all_bytes ≫= λ c, String c <$> all_texts m
  end.

Lemma all_bytes_NoDup : NoDup all_bytes.
Proof.
  apply NoDup_fmap_2_strong; [|apply NoDup_seqZ]. intros a b Ha%elem_of_seqZ Hb%elem_of_seqZ E.
  apply (f_equal byte_val) in E. by rewrite !byte_val_of in E by lia.
Qed.

Lemma all_texts_length n s : s ∈ all_texts n → String.length s = n.
Proof.
  revert s. induction n as [|n IH]; intros s; cbn [all_texts].
  - by intros ->%list_elem_of_singleton.
  - intros (c & (t & -> & Ht)%list_elem_of_fmap & _)%list_elem_of_bind. cbn. f_equal. by apply IH.
Qed.

Lemma all_texts_NoDup n : NoDup (all_texts n).
Proof.
  induction n as [|n IH]; cbn [all_texts]; [apply NoDup_singleton|]. apply NoDup_bind; [| |apply all_bytes_NoDup].
  - intros c1 c2 s _ _ (t1 & -> & _)%list_elem_of_fmap (t2 & [= ->] & _)%list_elem_of_fmap. done.
  - intros c _. apply NoDup_fmap_2; [by intros ? ? [= ->]|done].
Qed.

Lemma all_texts_size n : Z.of_nat (length (all_texts n)) = 256 ^ Z.of_nat n.
Proof.
  induction n as [|n IH]; [done|]. rewrite Nat2Z.inj_succ, Z.pow_succ_r by lia. rewrite <-IH. cbn [all_texts].
  assert (E : ∀ l : list ascii, length (l ≫= λ c, String c <$> all_texts n) = (length l * length (all_texts n))%nat).
  { induction l as [|c l IHl]; [done|]. rewrite bind_cons, length_app, length_fmap, IHl. done. }
  rewrite E, Nat2Z.inj_mul. unfold all_bytes. rewrite length_fmap, length_seqZ. lia.
Qed.

(** As long as not every lease identifier is in use, one can be drawn. *)
Lemma fresh_rand (st : Store) :
  Z.of_nat (size st) < 256 ^ 13 → ∃ rand, String.length rand = 13%nat ∧ st !! NewID "lease" rand = None.
Proof.
  intros Hs. destruct (decide (Exists (λ s, st !! NewID "lease" s = None) (all_texts 13))) as [He|He].
  - apply Exists_exists in He as (s & Hin & Hn). exists s. split; [by apply all_texts_length|done].
  - exfalso. apply not_Exists_Forall in He; [|apply _]. rewrite Forall_forall in He.
    assert (Hsub : (NewID "lease" <$> all_texts 13) ⊆+ (map_to_list st).*1).
    { apply NoDup_submseteq.
      - apply NoDup_fmap_2; [|apply all_texts_NoDup]. intros a b E. apply (f_equal chars) in E. unfold NewID in E.
        rewrite !chars_append in E. do 2 apply app_inv_head in E. by apply chars_inj, (inj hex_encode) in E.
      - intros id (s & -> & Hin)%list_elem_of_fmap. apply map_keys_elem. apply not_eq_None_Some. by apply He. }
    apply submseteq_length in Hsub. rewrite !length_fmap, length_map_to_list in Hsub.
    pose proof (all_texts_size 13) as E. change (Z.of_nat 13) with 13 in E. lia.
Qed.

Section Progress.
Context {X : Externals}.

Lemma ext_exists {T} (a : action T) w : Z.of_nat (size (w_leases w)) < 256 ^ 13 → ∃ x, ext_ok x w a.
Proof.
  intros Hs. set (x rand order := mkExt 0 0 rand order Written (λ _, None) (λ _, None)).
  destruct a; try (exists (x "" []); exact I).
  - exists (x (of_chars (replicate n zero)) []).
    cbn. rewrite <-length_chars. rewrite String.list_ascii_of_string_of_list_ascii. apply length_replicate.
  - destruct (fresh_rand _ Hs) as (rand & H1 & H2). by exists (x rand []).
  - exists (x "" (map_to_list (w_leases w)).*1). unfold ext_ok, range_order. reflexivity.
Qed.

End Progress.

(** ** Goroutines of the pool *)

Section Broker.
Context {X : Externals} (err_text : WatchErr → string) (policyFile : string) (sv : Server).

(** A goroutine that may take [n] actions has so many left. *)
Lemma pool_within w0 w ts i t n :
  rtc (pool_step err_text policyFile sv) (w0, ∅) (w, ts) → ts !! i = Some t → within n (th_start t) →
  (length (th_past t) ≤ n)%nat ∧ within (n - length (th_past t)) (th_rest t).
Proof.
  intros Hr. remember (w, ts) as s eqn:Es. revert w ts Es i t. pattern s. revert s Hr. apply rtc_ind_r.
  - intros w ts [= <- <-] i t Hi. by rewrite lookup_empty in Hi.
  - intros [w1 ts1] s _ Hstep IH w ts -> i t Hi Hn. specialize (IH _ _ eq_refl).
    inversion Hstep as [w' ts' j p Hj Hg|w' ts' j p0 T a k h x Hj Hx]; subst; (destruct (decide (i = j)) as [->|Hne];
      [rewrite lookup_insert_eq in Hi; injection Hi as <-|rewrite lookup_insert_ne in Hi by done; by apply (IH i)]).
    + cbn [th_past th_rest th_start length] in *. rewrite Nat.sub_0_r. split; [lia|done].
    + destruct (IH j _ Hj Hn) as [Hl Hw]. cbn [th_past th_rest th_start] in *. rewrite length_app. cbn [length].
      destruct (n - length h)%nat as [|m] eqn:Em; [done|]. split; [lia|].
      replace (n - (length h + 1))%nat with m by lia. apply Hw.
Qed.

End Broker.

Section Started.
Context {X : Externals}.
Context (pem_Decode : string → option string).
Context (ParsePKCS1PrivateKey : string → option string) (ParsePKCS8PrivateKey : string → option private_key).
Context (AppendCertsFromPEM : string → bool) (err_text : WatchErr → string).
Context (getenv : string → string) (files : string → file) {Certificate : Type}.

Lemma providers_within :
  map_Forall (λ _ p, ∀ req, within 2 (pv_Fetch p req))
    (providers pem_Decode ParsePKCS1PrivateKey ParsePKCS8PrivateKey getenv files).
Proof.
  unfold providers. repeat case_match;
    repeat (apply map_Forall_insert_2; [intros req; first [apply op_Fetch_within|apply gh_Fetch_within]|]); apply map_Forall_empty.
Qed.

(** C25: Requests end.  In every execution of a broker that came up, a request has
    answered after at most 108 actions of its own on the shared state and the
    outside, whatever the other goroutines do in between and whatever the
    outside answers; and as long as not every lease identifier is in use, a
    request that has not answered can take its next action at once: no handler
    waits for another, retries, or loops on caller input beyond its limits. *)
Theorem request_terminates hostname generated stat load x sv w0 rv signer (l : listener Certificate) w ts i q p h :
  startup pem_Decode ParsePKCS1PrivateKey ParsePKCS8PrivateKey AppendCertsFromPEM getenv files hostname generated stat load x
    = Ok (sv, w0, rv, signer, l) →
  rtc (pool_step err_text (policyFile getenv) sv) (w0, ∅) (w, ts) →
  ts !! i = Some (mkThread (serve sv q) p h) →
  (length h ≤ 108)%nat ∧ within (108 - length h) p ∧ (length h = 108%nat → ∃ o, p = Ret o)
  ∧ (Z.of_nat (size (w_leases w)) < 256 ^ 13 →
     (∃ o, p = Ret o)
     ∨ ∃ w' p' st, pool_step err_text (policyFile getenv) sv (w, ts) (w', <[i := mkThread (serve sv q) p' (h ++ [st])]> ts)).
Proof.
  intros Hs Hr Hi. destruct (startup_server _ _ _ _ _ _ _ _ _ _ _ _ _ _ _ _ Hs) as (Hc & Ha & Hp).
  assert (Hn : within 108 (serve sv q)).
  { unfold serve. apply (within_bind _ _ 108); [lia| |done]. eapply within_mono; [|apply Handler_within].
    - rewrite Hc. vm_compute. lia.
    - rewrite Hp. apply providers_within.
    - intros token. rewrite Ha. apply authenticator_within. }
  destruct (pool_within _ _ _ _ _ _ _ _ _ Hr Hi Hn) as [Hl Hw]. cbn [th_past th_rest] in *. split_and!; [done..| |].
  - intros El. rewrite El in Hw. destruct p as [o|]; [by exists o|done].
  - intros Hsize. destruct p as [o|T a k]; [left; by exists o|right].
    destruct (ext_exists a w Hsize) as [e He]. do 3 eexists. by apply (ps_act _ _ _ _ _ _ _ _ a k _ e).
Qed.

End Started.

Lemma request_terminates_witness : (length StartSample.past ≤ 108)%nat.
Proof.
  pose proof StartSample.boot_ok as Hb. pose proof StartSample.execution as He.
  unfold StartSample.request in He. unfold StartSample.sv, StartSample.w0 in He.
  destruct StartSample.booted as [[[[sv w0] rv] signer] l] eqn:Eb. cbn [fst snd] in He.
  destruct (@request_terminates sample_ext Some (λ _, None) StartSample.pkcs8 (λ _, true) (λ _, "error")
    StartSample.getenv StartSample.files string (Some "broker-0") None (Some 1) (Some "cert") (StartSample.oracle 1)
    sv w0 rv signer l StartSample.final.2
    {[0%nat := mkThread (serve sv StartSample.http) (Ret (Some (Reply StartSample.reply))) StartSample.past]}
    0%nat StartSample.http (Ret (Some (Reply StartSample.reply))) StartSample.past Hb He (lookup_singleton_eq _ _)) as [H _].
  exact H.
Defined.
