(* ===== verification/NotifyMain.v ===== *)
(** * The notify proxy's main (cmd/ha-notify-proxy/main.go)

    How a proxy comes up from its environment and its files, its health listener
    with the cached probe of Home Assistant, and what a proxy that came up does
    with every request. *)

From S2P Require Import Prelude GoStrings GoTime Float64 Encoding RateLimit Json AuditStream Metrics Exposition World Trace.
From S2P Require Import Provider Server Samples ServerProps ServerApi Authn Upkeep TlsReloader Process NotifyPolicy NotifyServer NotifyProps.
From Stdlib Require Import Ascii QArith.
Local Open Scope Z_scope.
Local Open Scope stdpp_scope.

(** ** The cached probe *)

(** The variables [newCachedProbe] closes over. *)
Record probe := mkProbe { pb_at : Time; pb_ok : bool; pb_seen : bool }.
Definition probe_init : probe := mkProbe zeroTime false false.

Definition probe_request (url : string) : HttpRequest :=
  mkHttpRequest "GET" url [("User-Agent", "ha-notify-proxy-readyz/1.0")] "".

(** One call of the function [newCachedProbe(url, ttl)] returns; a URL that makes
    no request counts as no answer. *)
Definition probe_again (url : string) : prog (bool * probe) :=
  resp ← act (HttpDo (probe_request url));
  now ← act Now;
  let ok := match resp with Some _ => true | None => false end in
  Ret (ok, mkProbe now ok true).
Definition cached_probe (url : string) (ttl : Duration) (p : probe) : prog (bool * probe) :=
  if pb_seen p then
    now ← act Now;
    if tSub now (pb_at p) <? ttl then Ret (pb_ok p, p) else probe_again url
  else probe_again url.

(** [ready]: the policy is always there. *)
Definition ready (haURL : string) : probe → prog (bool * probe) :=
  cached_probe (haURL +:+ "/manifest.json") (30 * Second).

(** [s.HealthHandler(ready)] *)
Definition keys_json (signer : Signer) : jv :=
  JObj [("keys", JArr [JObj [("alg", JStr "Ed25519"); ("kid", JStr (sg_kid signer)); ("public_key", JStr (PublicBase64 signer))]])].
Definition HealthHandler (signer : Signer) (ready : probe → prog (bool * probe)) (p : probe) (method : string) (path : list string)
  : prog ((Z * string) * probe) :=
  match health_route_of path with
  | None => Ret ((404, ""), p)
  | Some rt =>
    if negb (is_get method) then Ret ((405, ""), p)
    else match rt with
    | HHealthz => Ret ((200, ""), p)
    | HReadyz => '(ok, p') ← ready p; Ret ((if (ok : bool) then 200 else 503, ""), p')
    | HMetrics => m ← act MetricsRead; Ret ((200, ServeHTTP m), p)
    | HVerifyKey => Ret ((200, encode (keys_json signer)), p)
    end
  end.

(** ** Coming up *)

Inductive ProxyErr :=
| PNoHA | PNoBroker | PSigner | PReadPolicy | PPolicy (e : ParseErr) | PNotInCluster | PReviewer (e : NewReviewerErr)
| PLeaseClient (e : NewLeaseClientErr) | PListener (e : ListenErr).

Section Startup.
Context {X : Externals}.
Context (pem_Decode : string → option string) (ParsePKCS8PrivateKey : string → option private_key).
Context (AppendCertsFromPEM : string → bool) (yaml_Unmarshal : string → option (list SubjectPolicy)).
Context (getenv : string → string) (files : string → file) {Certificate : Type}.

Abbreviation env := (Process.env getenv).

Definition devInsecure : bool := bool_decide (getenv "HANP_DEV_INSECURE" = "1").

Definition reviewerCfg : option AuthnConfig :=
  let audience := env "HANP_AUDIENCE" "ha-notify-proxy" in
  let kubeAPI := getenv "HANP_KUBE_API" in
  if bool_decide (kubeAPI = "") then InClusterConfig getenv audience
  else Some (mkAuthnConfig kubeAPI (env "HANP_KUBE_TOKEN_FILE" "/var/run/secrets/kubernetes.io/serviceaccount/token")
               (getenv "HANP_KUBE_CA_FILE") audience).

(** [loadSigner(signingKey, devInsecure)] and the choice of listener, which are
    the broker's code. *)
Definition proxySigner (generated : option string) : option Signer :=
  loadSigner pem_Decode ParsePKCS8PrivateKey ed25519_Public
    (files (env "HANP_SIGNING_KEY_FILE" "/etc/ha-notify-proxy/keys/signing.pem")) devInsecure generated.
Definition proxyListener (stat : option Time) (load : option Certificate) : res ListenErr (listener Certificate) :=
  choose_listener (getenv "HANP_TLS_CERT_FILE") (getenv "HANP_TLS_KEY_FILE") devInsecure stat load.

(** [run()] up to its listener: the server, its state after the proxy.started
    event ([x] is what the outside contributes to writing it), its reviewer and
    the listener. *)
Definition startup (hostname generated : option string) (stat : option Time) (load : option Certificate) (x : ext)
  : res ProxyErr (Server * world * Reviewer * listener Certificate) :=
  let haURL := getenv "HANP_HA_URL" in
  let brokerURL := getenv "HANP_BROKER_URL" in
  if bool_decide (haURL = "") then Err PNoHA
  else if bool_decide (brokerURL = "") then Err PNoBroker
  else match proxySigner generated with
  | None => Err PSigner
  | Some signer =>
    match content (files (env "HANP_POLICY_FILE" "/etc/ha-notify-proxy/policy/policy.yaml")) with
    | None => Err PReadPolicy
    | Some raw =>
      match Parse yaml_Unmarshal raw with
      | Err e => Err (PPolicy e)
      | Ok pol =>
        match reviewerCfg with
        | None => Err PNotInCluster
        | Some cfg =>
          match NewReviewer AppendCertsFromPEM (λ p, content (files p)) cfg with
          | Err e => Err (PReviewer e)
          | Ok rv =>
            match NewLeaseClient AppendCertsFromPEM (λ p, content (files p)) brokerURL
                    (env "HANP_BROKER_CA_FILE" "/etc/ha-notify-proxy/broker-ca/ca.crt")
                    (env "HANP_LEASE_SCOPE" "ha-notify-token") (env "HANP_BROKER_TOKEN_FILE" "/var/run/secrets/broker/token") with
            | Err e => Err (PLeaseClient e)
            | Ok lease =>
              let '(sv, w0) := New (mkConfig 0%Q 0 0) pol (authenticator rv) (NewHAClient haURL) lease
                                 (NewEmitter signer (instance_of hostname)) signer NewMetrics in
              let w := (run (λ _, x) 0 w0 (EmitStarted sv)).2 in
              match proxyListener stat load with
              | Ok l => Ok (sv, w, rv, l)
              | Err e => Err (PListener e)
              end
            end
          end
        end
      end
    end
  end.

(** A proxy that came up. *)
Record came_up (sv : Server) (rv : Reviewer) (l : listener Certificate) : Prop := {
  pu_authn : nv_authn sv = authenticator rv;
  pu_policy : ∃ raw, Parse yaml_Unmarshal raw = Ok (nv_policy sv);
  pu_ha : nv_ha sv = NewHAClient (getenv "HANP_HA_URL");
  pu_secure : devInsecure = false → ∃ r, l = ListenTLS r
}.

Lemma proxy_startup_up hostname generated stat load x sv w rv l :
  startup hostname generated stat load x = Ok (sv, w, rv, l) → came_up sv rv l.
Proof.
  unfold startup. cbv zeta. do 2 (case_bool_decide; [done|]). destruct (proxySigner generated) as [sg|]; [|done].
  destruct (content _) as [raw|]; [|done]. destruct (Parse _ raw) as [pol|e] eqn:Ep; [|done].
  destruct reviewerCfg as [cfg|]; [|done]. destruct (NewReviewer _ _ _) as [rv'|]; [|done].
  destruct (NewLeaseClient _ _ _ _ _ _) as [lc|]; [|done].
  destruct (New _ _ _ _ _ _ _ _) as [sv' w0] eqn:En. injection En as Hsv _.
  destruct (proxyListener stat load) as [l'|] eqn:El; [|done]. intros [= <- <- <- <-]. rewrite <-Hsv.
  split; cbn; [done|by exists raw|done|]. intros Hd. unfold proxyListener in El. rewrite Hd in El. by eapply choose_listener_secure.
Qed.

(** ** Every request to a proxy that came up *)

Section Requests.
Context (range_keys : gmap string string → list string).
Hypothesis range_all : ∀ m k, k ∈ range_keys m ↔ is_Some (m !! k).

(** Turned away unauthenticated: the only thing sent, if anything, is the review
    of the token. *)
Definition unauthenticated (rv : Reviewer) (q : HttpIn) (tr : list obs) (o : Response) : Prop :=
  ∃ title reqID, o = writeProblem 401 ProblemUnauthenticated title "" reqID
    ∧ Forall (λ e, ∃ own token, e.1 = review_request rv own token ∧ hi_Authorization q = "Bearer " +:+ token) (https tr).

Lemma recordAuthFailure_https src reqID reason l u : traced (recordAuthFailure src reqID reason) l u → https l = [].
Proof.
  unfold recordAuthFailure. intros H. trace_step H. trace_step H. destruct t; cbn [negb] in H.
  - trace_step H. trace_step H. done.
  - by trace_step H.
Qed.

Lemma authenticator_https rv token l r :
  traced (authenticator rv token) l r → Forall (λ e, ∃ own, e.1 = review_request rv own token) (https l).
Proof.
  unfold authenticator, Review. rewrite traced_bind. intros (a & l1 & l2 & -> & H & [-> _]). rewrite app_nil_r.
  trace_step H. destruct (TrimSpace <$> t) as [own|]; [|trace_step H; constructor].
  trace_step H. cbn [https omap list_omap]. constructor; [by exists own|].
  destruct t0 as [resp|]; [|trace_step H; constructor]. case_match; [trace_step H; constructor|].
  destruct (dbind _ _); trace_step H; constructor.
Qed.

(** C34: The compiled ceiling.  Whatever the policy says, validated or not, whatever
    the caller sends and the upstreams answer, all that a request makes a proxy
    send is POST requests: the review of its own bearer token; and, once the API
    server vouched for the caller, to the broker's lease endpoint for the
    configured scope, or to Home Assistant: on the push route the notify service
    that the policy names for that caller, and only if it is one path segment of
    lower-case letters, digits and underscores; on the two others
    persistent_notification create or dismiss. *)
Theorem notify_ceiling rv sv q tr o req resp :
  nv_authn sv = authenticator rv → traced (Handler range_keys sv q) tr o → (req, resp) ∈ https tr →
  (∃ own token, hi_Authorization q = "Bearer " +:+ token ∧ req = review_request rv own token ∧ hq_Method req = "POST")
  ∨ ∃ token sub id tr1 tr2 rt,
      hi_Authorization q = "Bearer " +:+ token ∧ tr = Obs (Rand 8) id :: tr1 ++ tr2 ∧ vouched_by rv token tr1 sub
      ∧ route_of (hi_Method q) (hi_Path q) = Some rt ∧ ceiling sv (Key sub) rt req.
Proof.
  intros Ha H Hin. unfold Handler, withRequestID in H. trace_step H. unfold withAuth in H.
  assert (Hfail : ∀ src id reason title k, traced (recordAuthFailure src id reason ≫= λ _, Ret (writeProblem 401 ProblemUnauthenticated title "" id)) k o →
    https k = []).
  { intros src id reason title k Hr. rewrite traced_bind in Hr. destruct Hr as (u & l3 & l4 & -> & Hu & -> & ->).
    by rewrite app_nil_r, (recordAuthFailure_https _ _ _ _ _ Hu). }
  change (https (Obs (Rand 8) t :: l)) with (https l) in Hin.
  destruct (CutPrefix _ _) as [[|b token]|] eqn:Ec; [apply Hfail in H; rewrite H in Hin; by apply elem_of_nil in Hin| |apply Hfail in H; rewrite H in Hin; by apply elem_of_nil in Hin].
  apply CutPrefix_Some in Ec. rewrite traced_bind, Ha in H. destruct H as (r & l1 & l2 & -> & Hr & H).
  rewrite https_app, elem_of_app in Hin. destruct Hin as [Hin|Hin].
  { left. apply authenticator_https in Hr. rewrite Forall_forall in Hr. destruct (Hr _ Hin) as [own Ho]. cbn in Ho. subst req. by exists own, (String b token). }
  destruct r as [sub|]; [|apply Hfail in H; rewrite H in Hin; by apply elem_of_nil in Hin].
  destruct (route_of _ _) as [rt|] eqn:Er; [|destruct H as [-> _]; by apply elem_of_nil in Hin].
  right. exists (String b token), sub, t, l1, l2, rt. split_and!; [done|done|by apply authenticator_traced|done|].
  exact (sends_https _ _ _ _ _ _ (dispatch_ceiling range_keys sv rt (mkCtx sub _ _ _)) H Hin).
Qed.

(** C32: End to end: every request to a proxy that came up is turned away with a
    401 before anything but the review of its token is sent; or the API server
    vouched for its caller when shown its bearer token, and then the mux turns
    it away without further action, or it is throttled (429, nothing sent, at
    most one sampled record), or denied (400 or 403, nothing sent, one signed
    notify.denied), or the policy entitles it to its call (its pinned push target
    and allowlisted data keys, or an id under its own prefix) and then a token is
    leased in its own name, at most one call is made with that token, one
    notify.forwarded event records the lease id, the status and the outcome, and
    the answer is 201 exactly when Home Assistant answered 2xx.  The records are
    what is handed to the audit emitter, whose failure does not change the answer.
    Outside dev mode the proxy listens with TLS only. *)
Theorem started_proxy_accounts hostname generated stat load x sv w rv l q tr o :
  startup hostname generated stat load x = Ok (sv, w, rv, l) →
  traced (Handler range_keys sv q) tr o →
  (unauthenticated rv q tr o
   ∨ ∃ token sub src reqID id tr1 tr2, let c := mkCtx sub reqID src (hi_Body q) in
       hi_Authorization q = "Bearer " +:+ token ∧ tr = Obs (Rand 8) id :: tr1 ++ tr2 ∧ vouched_by rv token tr1 sub
       ∧ ((route_of (hi_Method q) (hi_Path q) = None ∧ tr2 = [] ∧ (nr_Status o = 404 ∨ nr_Status o = 405))
          ∨ ∃ rt, route_of (hi_Method q) (hi_Path q) = Some rt
              ∧ (throttled sv c tr2 o ∨ denied sv c tr2 o
                 ∨ ∃ kind domain service body, entitled sv c rt kind domain service body
                     ∧ forwarded sv c kind domain service body tr2 o)))
  ∧ (devInsecure = false → ∃ r, l = ListenTLS r).
Proof.
  intros [Ha [raw Hp] _ Hd]%proxy_startup_up H. split; [|exact Hd]. unfold Handler, withRequestID in H. trace_step H. unfold withAuth in H.
  assert (Hfail : ∀ src id reason title l1 l2, Forall (λ e, ∃ own token, e.1 = review_request rv own token ∧ hi_Authorization q = "Bearer " +:+ token) (https l1) →
    traced (recordAuthFailure src id reason ≫= λ _, Ret (writeProblem 401 ProblemUnauthenticated title "" id)) l2 o →
    unauthenticated rv q (Obs (Rand 8) t :: l1 ++ l2) o).
  { intros src id reason title l1 l2 Hl Hr. rewrite traced_bind in Hr. destruct Hr as (u & l3 & l4 & -> & Hu & -> & ->).
    apply recordAuthFailure_https in Hu. exists title, id. split; [done|].
    change (https (?a :: ?b)) with (https b). rewrite !https_app, Hu, !app_nil_r. exact Hl. }
  destruct (CutPrefix _ _) as [[|b token]|] eqn:Ec; [left; by apply (Hfail _ _ _ _ [] l0 (List.Forall_nil _)) in H| |left; by apply (Hfail _ _ _ _ [] l0 (List.Forall_nil _)) in H].
  apply CutPrefix_Some in Ec. rewrite traced_bind, Ha in H. destruct H as (r & l1 & l2 & -> & Hr & H).
  destruct r as [sub|].
  - right. eexists (String b token), sub, _, _, t, l1, l2. cbv zeta. split; [exact Ec|]. split; [done|].
    split; [by apply authenticator_traced|]. destruct (route_of _ _) as [rt|] eqn:Er.
    + right. exists rt. split; [done|]. by eapply dispatch_traced.
    + left. split; [done|]. destruct H as [-> ->]. split; [done|]. cbn. case_match; auto.
  - left. eapply Hfail; [|exact H]. apply authenticator_https in Hr. eapply Forall_impl; [exact Hr|].
    intros e [own He]. by exists own, (String b token).
Qed.

End Requests.
End Startup.

(** ** A proxy coming up and serving one push *)

Module ProxyStart.
Definition getenv (k : string) : string :=
  default "" (({["HANP_HA_URL" := "http://ha/"; "HANP_BROKER_URL" := "https://broker/"; "HANP_KUBE_API" := "https://k8s";
                 "HANP_TLS_CERT_FILE" := "/tls.crt"; "HANP_TLS_KEY_FILE" := "/tls.key"]} : gmap string string) !! k).
Definition files (p : string) : file :=
  if bool_decide (p = "/etc/ha-notify-proxy/keys/signing.pem") then FContent "signing key"
  else if bool_decide (p = "/etc/ha-notify-proxy/policy/policy.yaml") then FContent "doc"
  else if bool_decide (p = "/etc/ha-notify-proxy/broker-ca/ca.crt") then FContent "ca"
  else FMissing.
Definition pkcs8 (block : string) : option private_key := Some (Ed25519Key "k").

Definition review : string :=
  render (JObj [("status", JObj [("authenticated", JBool true); ("audiences", JArr [JStr "ha-notify-proxy"]);
      ("user", JObj [("username", JStr "system:serviceaccount:agents:builder")])])]).
Definition upstream (req : HttpRequest) : option HttpResponse :=
  if HasPrefix (hq_URL req) "https://k8s" then Some (mkHttpResponse 201 review) else ProxySample.upstream req.
Definition oracle (n : nat) : ext :=
  mkExt (sample_now + Z.of_nat n) (sample_now + Z.of_nat n) "01234567" [] Written upstream (λ _, Some "own").

Definition boot : res ProxyErr (Server * world * Reviewer * listener string) :=
  @startup sample_ext Some pkcs8 (λ _, true) NotifySample.yaml getenv files string (Some "proxy-0") None (Some 1) (Some "cert") (oracle 0).
Definition booted : Server * world * Reviewer * listener string :=
  match boot with Ok s => s | Err _ => (ProxySample.proxy, ReviewSample.rv, ListenPlain) end.

Lemma proxy_boot_ok : boot = Ok booted.
Proof.
  assert (E : match boot with Ok _ => true | Err _ => false end = true) by (vm_compute; reflexivity).
  unfold booted. destruct boot; [reflexivity|discriminate E].
Qed.

Definition push : HttpIn :=
  mkHttpIn "POST" ["v1"; "notify"; "push"] "10.0.0.1:40000" "curl" "Bearer tok" (cx_body ProxySample.ctx).
Definition served : Response * list obs :=
  @run_trace sample_ext _ oracle 0 booted.1.1.2 (Handler ProxySample.range_keys booted.1.1.1 push).
End ProxyStart.

Lemma started_proxy_accounts_witness :
  nr_Status ProxyStart.served.1 = 201
  ∧ ∃ sub tr1, vouched_by ProxyStart.booted.1.2 "tok" tr1 sub.
Proof.
  assert (E : nr_Status ProxyStart.served.1 = 201) by (vm_compute; reflexivity). split; [exact E|].
  pose proof ProxyStart.proxy_boot_ok as Hb. destruct ProxyStart.booted as [[[sv w] rv] l] eqn:Eb.
  destruct (@started_proxy_accounts sample_ext Some ProxyStart.pkcs8 (λ _, true) NotifySample.yaml ProxyStart.getenv ProxyStart.files string
    ProxySample.range_keys ProxySample.range_all (Some "proxy-0") None (Some 1) (Some "cert") (ProxyStart.oracle 0)
    sv w rv l ProxyStart.push ProxyStart.served.2 ProxyStart.served.1 Hb) as [[Hu|Hs] _].
  - pose proof (@run_trace_traced sample_ext _ (Handler ProxySample.range_keys sv ProxyStart.push) ProxyStart.oracle 0 w) as Ht.
    unfold ProxyStart.served. rewrite Eb. exact Ht.
  - destruct Hu as (title & reqID & Ho & _). rewrite Ho in E. discriminate E.
  - destruct Hs as (token & sub & src & reqID & id & tr1 & tr2 & H1 & _ & H2 & _).
    injection H1 as Ht. change ("tok" = token) in Ht. exists sub, tr1. rewrite Ht. exact H2.
Defined.

(** The pushing of the sample: a review, a lease and a call. *)
Lemma notify_ceiling_witness :
  length (https ProxyStart.served.2) = 3%nat
  ∧ ∀ req resp, (req, resp) ∈ https ProxyStart.served.2 → hq_Method req = "POST".
Proof.
  split; [vm_compute; reflexivity|]. intros req resp. pose proof ProxyStart.proxy_boot_ok as Hb. unfold ProxyStart.served.
  destruct ProxyStart.booted as [[[sv w] rv] l] eqn:Eb. cbn [fst snd]. intros Hin.
  destruct (proxy_startup_up _ _ _ _ _ _ _ _ _ _ _ _ _ _ _ Hb) as [Ha _ _ _].
  destruct (@notify_ceiling ProxySample.range_keys rv sv ProxyStart.push _ _ req resp Ha
    (@run_trace_traced sample_ext _ (Handler ProxySample.range_keys sv ProxyStart.push) ProxyStart.oracle 0 w) Hin)
    as [(own & token & _ & _ & H)|(token & sub & id & tr1 & tr2 & rt & _ & _ & _ & _ & H & _)]; exact H.
Defined.
