(* ===== verification/Streams.v ===== *)
(** * The two audit streams joined

    The notify proxy leases from the broker over HTTP: what the proxy's request
    is when it reaches the broker's handler, what the broker's response is when
    the proxy reads it, and what the lease id the proxy records says of the
    broker's own audit stream. *)

From S2P Require Import Prelude GoStrings GoTime Encoding RateLimit LeaseStore Json JsonRound AuditStream AuditVerify Metrics World Trace Provider.
From S2P Require Import Server Samples ServerProps ServerApi NotifyPolicy NotifyServer NotifyProps.
From Stdlib Require Import Ascii QArith.
Local Open Scope Z_scope.
Local Open Scope stdpp_scope.

(** ** Between the two processes *)

(** A request as the server at [base] sees it: the path has no escapes here. *)
Definition arrives (base : string) (req : HttpRequest) (r : HttpIn) : Prop :=
  hi_Method r = hq_Method req
  ∧ (∃ path, hq_URL req = base +:+ path ∧ Split path "/" = "" :: hi_Path r)
  ∧ ("Authorization", hi_Authorization r) ∈ hq_Header req
  ∧ hi_Body r = hq_Body req.

(** A response as its client sees it; a panic closes the connection.  The text
    the mux adds to its own refusals is left out. *)
Definition wire (o : outcome) : option HttpResponse :=
  match o with
  | Reply r => Some (mkHttpResponse (rp_Status r) (match Server.body_json (rp_Body r) with Some v => encode v | None => "" end))
  | Panic => None
  end.

(** ** Reading back maps of strings *)

Lemma valid_go_ascii l : ∀ k, forallb (in_range 0 127) (valid_go k l) = true → valid_go k l = l.
Proof.
  induction l as [|c l IH]; intros k; [done|]. cbn [valid_go]. destruct k as [|k].
  - destruct (rune_width (c :: l)); [|cbn [forallb]; intros [_ H]%andb_true_iff; by rewrite IH].
    intros H. exfalso. revert H. by vm_compute.
  - cbn [forallb]. intros [_ H]%andb_true_iff. by rewrite IH.
Qed.

(** Only an ASCII text is read back as one. *)
Lemma valid_utf8_is_ascii s k : forallb (in_range 0 127) (chars k) = true → valid_utf8 s = k ↔ s = k.
Proof.
  intros Hk. split; [|intros ->; by apply valid_utf8_ascii]. unfold valid_utf8. intros E.
  rewrite <-E, String.list_ascii_of_string_of_list_ascii in Hk. apply valid_go_ascii in Hk. by rewrite <-(of_chars_chars s), <-Hk.
Qed.

Lemma foldl_valid_lookup {V W} (f : V → W) k (l : list (string * V)) :
  forallb (in_range 0 127) (chars k) = true → NoDup l.*1 → ∀ acc : gmap string W,
  foldl (λ acc kv, <[valid_utf8 kv.1 := f kv.2]> acc) acc l !! k
  = match (list_to_map l : gmap string V) !! k with Some v => Some (f v) | None => acc !! k end.
Proof.
  intros Hk. induction l as [|[k' v] l IH]; intros Hn acc; [done|].
  apply NoDup_cons in Hn as [Hnot Hn]. cbn [foldl fst snd]. rewrite list_to_map_cons, IH by done.
  destruct (decide (k' = k)) as [->|Hne].
  - rewrite lookup_insert_eq. apply not_elem_of_list_to_map_1 in Hnot. cbn [fst] in Hnot. rewrite Hnot, valid_utf8_ascii by done.
    by rewrite lookup_insert_eq.
  - rewrite (lookup_insert_ne (list_to_map l)) by done. destruct (list_to_map l !! k); [done|].
    rewrite lookup_insert_ne; [done|]. intros E. by apply Hne, (valid_utf8_is_ascii k' k Hk).
Qed.

(** A map read back has its ASCII keys, with their values made valid UTF-8. *)
Lemma read_back_lookup {V W} (f : V → W) (m : gmap string V) k :
  forallb (in_range 0 127) (chars k) = true → default ∅ (read_back f m) !! k = f <$> m !! k.
Proof.
  intros Hk. unfold read_back. case_bool_decide as E; [by rewrite E, !lookup_empty|]. cbn [from_option id].
  assert (Hp : sorted_entries m ≡ₚ map_to_list m) by apply merge_sort_Permutation.
  assert (Hn : NoDup (sorted_entries m).*1) by (rewrite Hp; apply NoDup_fst_map_to_list).
  rewrite foldl_valid_lookup by done. rewrite lookup_empty.
  rewrite (list_to_map_proper (sorted_entries m) (map_to_list m)) by done. rewrite list_to_map_to_list.
  by destruct (m !! k).
Qed.

(** ** Reading back structures *)

Lemma dec_struct_obj {A} names (set : string → jv → A → option A) l old :
  dec_struct names set (valid_jv (JObj l)) old = foldl (dec_member names set) (Some old) (valid_member <$> l).
Proof. reflexivity. Qed.

(** A member the structure has no field for. *)
Lemma fold_skip {A} names (set : string → jv → A → option A) k v l a :
  forallb (in_range 0 127) (chars k) = true → field_of names k = None →
  foldl (dec_member names set) (Some a) (valid_member <$> ((k, v) :: l))
  = foldl (dec_member names set) (Some a) (valid_member <$> l).
Proof.
  intros Hk Hf. cbn [fmap list_fmap foldl]. f_equal. unfold dec_member, valid_member. cbn [fst snd mbind option_bind].
  rewrite valid_utf8_ascii by done. by rewrite Hf.
Qed.

(** A map of strings into a field that is still nil. *)
Lemma dec_strmap_JMap m : m ≠ ∅ → dec_strmap (valid_jv (JMap JStr m)) None = Some (read_back valid_utf8 m).
Proof.
  intros Hm. unfold read_back. rewrite bool_decide_false by done. rewrite valid_JMap. unfold dec_strmap. cbn [default].
  by rewrite fold_str.
Qed.

Lemma dec_leaseRequest_json scope context :
  dec_leaseRequest (valid_jv (leaseReq_json scope context))
  = Some (mkLeaseRequest (valid_utf8 scope) 0 (read_back valid_utf8 context)).
Proof.
  unfold dec_leaseRequest, leaseReq_json. rewrite dec_struct_obj. cbn [app].
  erewrite fold_cons; [|own|reflexivity]. rewrite fold_map by own. case_bool_decide as E; [by rewrite E|].
  transitivity (m ← dec_strmap (valid_jv (JMap JStr context)) None; Some (mkLeaseRequest (valid_utf8 scope) 0 m)); [reflexivity|].
  by rewrite dec_strmap_JMap.
Qed.

Lemma dec_leaseResp_json l :
  dec_leaseResp (valid_jv (lease_json l)) = Some (mkLeaseResp (valid_utf8 (lr_LeaseID l)) (read_back valid_utf8 (lr_Secret l))).
Proof.
  unfold dec_leaseResp, lease_json. rewrite dec_struct_obj. cbn [app].
  erewrite fold_cons; [|own|reflexivity]. do 3 (rewrite fold_skip; [|done|by vm_compute]).
  unfold omitempty. case_bool_decide; cbn [app]; [|rewrite fold_skip; [|done|by vm_compute]].
  all: do 2 (rewrite fold_skip; [|done|by vm_compute]); rewrite fold_map by own;
    case_bool_decide as E; [by rewrite E|];
    transitivity (m ← dec_strmap (valid_jv (JMap JStr (lr_Secret l))) None; Some (mkLeaseResp (valid_utf8 (lr_LeaseID l)) m));
    [reflexivity|by rewrite dec_strmap_JMap].
Qed.

(** ** Over the wire *)

Lemma decode_stream_under limit body : slen body ≤ limit → decode_stream limit body = decode_stream (slen body) body.
Proof.
  intros H. unfold decode_stream. cbv zeta. rewrite length_chars. unfold slen in *.
  assert ((limit <? Z.of_nat (String.length body)) = false) as -> by (apply Z.ltb_ge; lia). by rewrite Z.ltb_irrefl.
Qed.

Lemma string_map_field k (m : gmap string string) :
  Forall (λ kv, int_nums kv.2) (map_field k JStr m) ∧ Forall (λ kv, depth kv.2 ≤ 1)%nat (map_field k JStr m).
Proof.
  unfold map_field. case_bool_decide; [done|]. split; (constructor; [|constructor]); cbn [snd].
  - by apply JMap_int_nums.
  - apply depth_obj_le, Forall_fmap, Forall_true. cbn. lia.
Qed.

Lemma leaseReq_json_shape scope context :
  int_nums (leaseReq_json scope context) ∧ (depth (leaseReq_json scope context) ≤ 2)%nat.
Proof.
  destruct (string_map_field "context" context) as [Hi Hd]. unfold leaseReq_json. split.
  - apply int_nums_obj, Forall_app. split; [by repeat constructor|done].
  - apply depth_obj_le, Forall_app. split; [repeat constructor; cbn; lia|done].
Qed.

Lemma lease_json_shape l : int_nums (lease_json l) ∧ (depth (lease_json l) ≤ 2)%nat.
Proof.
  destruct (string_map_field "secret" (lr_Secret l)) as [Hi Hd]. unfold lease_json. split.
  - apply int_nums_obj. rewrite !Forall_app. split_and!; [by repeat constructor|apply omitempty_int_nums|by repeat constructor|done].
  - apply depth_obj_le. rewrite !Forall_app. unfold omitempty.
    split_and!; [repeat constructor; cbn; lia|case_match; repeat constructor; cbn; lia|repeat constructor; cbn; lia|done].
Qed.

(** What the broker decodes of the proxy's request. *)
Lemma lease_request_read lc own context limit :
  slen (hq_Body (lease_request lc own context)) ≤ limit →
  dbind (decode_stream limit (hq_Body (lease_request lc own context))) dec_leaseRequest
  = DOk (mkLeaseRequest (valid_utf8 (lc_scope lc)) 0 (read_back valid_utf8 context)).
Proof.
  intros H. rewrite decode_stream_under by done. cbn [hq_Body lease_request].
  destruct (leaseReq_json_shape (lc_scope lc) context) as [Hi Hd].
  pose proof (decode_stream_encode (leaseReq_json (lc_scope lc) context) "" Hi) as E. rewrite append_nil_r in E.
  rewrite E; [|unfold maxNestingDepth; lia|done]. cbn [dbind]. by rewrite dec_leaseRequest_json.
Qed.

(** What the proxy reads of the broker's response to an issuance. *)
Definition lease_of (l : leaseResponse) : option Lease :=
  let token := default "" (valid_utf8 <$> lr_Secret l !! "token") in
  if bool_decide (token = "") || bool_decide (valid_utf8 (lr_LeaseID l) = "") then None
  else Some (mkLease token (valid_utf8 (lr_LeaseID l))).

Lemma lease_response_read nostore l : read_lease (wire (Reply (Server.mkResponse 201 nostore (BLease l)))) = lease_of l.
Proof.
  destruct (lease_json_shape l) as [Hi Hd]. unfold read_lease, wire. cbn [Server.rp_Body rp_Status Server.body_json hr_StatusCode hr_Body].
  cbn [Z.eqb negb]. unfold decode_body, encode. rewrite decode_stream_encode; [|done|unfold maxNestingDepth; lia|done].
  cbn [dbind]. rewrite dec_leaseResp_json. cbn [lp_Secret lp_LeaseID]. by rewrite read_back_lookup.
Qed.

(** *** Lease identifiers are ASCII *)

Lemma hex_digit_ascii z : 0 ≤ z < 16 → in_range 0 127 (hex_digit z) = true.
Proof.
  intros Hz. unfold in_range, hex_digit. rewrite andb_true_iff, !Z.leb_le. destruct (Z.ltb_spec z 10); rewrite byte_val_of; lia.
Qed.

Lemma hex_encode_ascii s : forallb (in_range 0 127) (chars (hex_encode s)) = true.
Proof.
  induction s as [|c s IH]; [done|]. pose proof (byte_val_range c).
  cbn [hex_encode String.list_ascii_of_string forallb]. rewrite IH, !hex_digit_ascii; [done|apply Z.mod_pos_bound; lia|].
  split; [apply Z.div_pos; lia|apply Z.div_lt_upper_bound; lia].
Qed.

Lemma NewID_valid rand : valid_utf8 (NewID "lease" rand) = NewID "lease" rand.
Proof.
  apply valid_utf8_ascii. unfold NewID. rewrite !chars_append, !forallb_app, hex_encode_ascii. done.
Qed.

(** ** The broker behind the proxy *)

Section Joined.
Context `{X : Externals}.

Lemma arrives_lease_request lc own context r :
  arrives (lc_brokerURL lc) (lease_request lc own context) r →
  Server.route_of (hi_Method r) (hi_Path r) = Some Server.RCreate
  ∧ hi_Authorization r = "Bearer " +:+ own ∧ hi_Body r = hq_Body (lease_request lc own context).
Proof.
  intros (Hm & (path & Hu & Hp) & Ha & Hb). split_and!; [| |done].
  - cbn [hq_URL lease_request] in Hu. apply (inj (String.append _)) in Hu. subst path.
    change (Split "/v1/leases" "/") with [""; "v1"; "leases"] in Hp. injection Hp as Hp. by rewrite Hm, <-Hp.
  - cbn [hq_Header lease_request] in Ha. apply elem_of_cons in Ha as [Ha|Ha]; [by injection Ha|].
    by apply list_elem_of_singleton in Ha.
Qed.

(** A lease the proxy obtained is one the broker issued, to the subject its
    authenticator returned for the proxy's own token. *)
Lemma broker_leased (bs : Server.Server) lc own context r w h bo w' lease :
  arrives (lc_brokerURL lc) (lease_request lc own context) r →
  exec interference (Server.Handler bs r) w h bo w' →
  read_lease (wire bo) = Some lease →
  ∃ sub src reqID w1 w2 h1 h2 d,
    exec interference (sv_authn bs own) w1 h1 (Some sub) w2
    ∧ issuance bs (mkCtx sub reqID src (hi_Body r)) w2 h2 w' bo d
    ∧ ahead w w2
    ∧ lease = mkLease (default "" (valid_utf8 <$> rs_Secret (is_result d) !! "token")) (l_ID (is_lease d)).
Proof.
  intros (Hrt & Hau & _)%arrives_lease_request H Hl.
  apply Handler_exec in H as [(title & reqID & ->)|(token & sub & src & reqID & w0 & x0 & w1 & w2 & h1 & h2 & Ht & _ & _ & Hi & Ha & _ & _ & H)];
    [done|].
  rewrite Hau in Ht. apply (inj (String.append _)) in Ht. subst token.
  unfold route_request in H. rewrite Hrt in H. cbn [Server.dispatch] in H.
  apply create_exec in H as [(st & ty & ti & Hne & ->)|[[-> _]|[d Hd]]].
  - exfalso. revert Hl. unfold read_lease, wire, Server.writeProblem. cbn [rp_Status hr_StatusCode].
    by rewrite (proj2 (Z.eqb_neq st 201) Hne).
  - done.
  - exists sub, src, reqID, w1, w2, h1, h2, d. split_and!; [done..| |].
    + etrans; [apply (interference_log _ _ Hi)|apply (runs_log _ _ _ _ (exec_runs _ _ _ _ _ Ha))].
    + destruct (is_created _ _ _ _ _ _ _ Hd) as (w3 & x3 & _ & El). rewrite (is_reply _ _ _ _ _ _ _ Hd) in Hl.
      rewrite lease_response_read in Hl. unfold lease_of in Hl. cbn [lr_Secret lr_LeaseID issued_response leaseMeta] in Hl.
      assert (Hid : valid_utf8 (l_ID (is_lease d)) = l_ID (is_lease d)) by (rewrite El; apply NewID_valid).
      rewrite Hid in Hl. destruct (_ || _); [done|]. by injection Hl as <-.
Qed.

(** ** The proxy's records *)

Section Proxy.
Context (range_keys : gmap string string → list string).
Hypothesis range_all : ∀ m k, k ∈ range_keys m ↔ is_Some (m !! k).
Context (yaml_Unmarshal : string → option (list SubjectPolicy)) (raw : string) (ps : Server).
Hypothesis policy_parsed : Parse yaml_Unmarshal raw = Ok (nv_policy ps).

(** Only the record of a forwarded request has a lease id: the one of the lease
    that the call was made with. *)
Lemma lease_id_recorded rt c l o ev id :
  traced (dispatch range_keys ps rt c) l o → ev ∈ emits l → ev_Attested ev !! "lease_id" = Some (AStr id) →
  ∃ kind domain service body own r1 token r2,
    https l = [(lease_request (nv_lease ps) own (lease_context c kind domain service), r1);
               (ha_request (nv_ha ps) token domain service body, r2)]
    ∧ read_lease r1 = Some (mkLease token id)
    ∧ ev = forwarded_event ps c kind domain service (ha_status r2) (ha_delivered r2) id (ha_error r2).
Proof.
  intros H Hin Hid.
  apply (dispatch_traced _ range_all _ _ _ policy_parsed) in H
    as [(_ & _ & [He|He])|[(k & rs & st & pt & ti & a & _ & _ & _ & He)|(kind & domain & service & body & _ & H)]];
    try (rewrite He in Hin; apply list_elem_of_singleton in Hin; by subst ev).
  - rewrite He in Hin. by apply elem_of_nil in Hin.
  - destruct H as [(He & _)|(own & r1 & [token lid] & r2 & Hh & Hl & He & _)]; rewrite He in Hin;
      apply list_elem_of_singleton in Hin; subst ev; [done|]. cbn [le_LeaseID le_Token] in *.
    assert (id = lid) as ->.
    { clear -Hid. unfold forwarded_event in Hid. cbv zeta in Hid. repeat case_bool_decide; cbn in Hid; try done; by injection Hid. }
    by exists kind, domain, service, body, own, r1, token, r2.
Qed.

(** What the proxy asks the broker to record of a request. *)
Lemma lease_context_asserted c kind domain service (m := default ∅ (read_back valid_utf8 (lease_context c kind domain service))) :
  m !! "originating_agent" = Some (valid_utf8 (sub_key c)) ∧ m !! "action" = Some (valid_utf8 kind)
  ∧ m !! "ha_service" = Some (valid_utf8 (domain +:+ "/" +:+ service)).
Proof.
  unfold m. rewrite !read_back_lookup by done. unfold lease_context. case_bool_decide; [done|].
  rewrite !lookup_insert_ne by done. done.
Qed.

(** C33: The two audit streams join.  When a record the proxy writes names a
    lease, and the answer to its lease request came from a broker that served it,
    whatever else that broker was doing, then the record is a notify.forwarded
    event, and the broker's own stream holds, committed while it served that
    request and signed with its key, the lease.issued event of the same lease id
    and of the proxy's scope, in the name of the subject the broker's
    authenticator returned for the proxy's own token; its asserted context names
    the caller, the kind and the service that the proxy's record attests; and
    Home Assistant was called once, with the token of that very issuance. *)
Theorem streams_join (bs : Server.Server) rt c l o req rest r w h bo w' ev id :
  traced (dispatch range_keys ps rt c) l o →
  https l = (req, wire bo) :: rest →
  arrives (lc_brokerURL (nv_lease ps)) req r →
  slen (hi_Body r) ≤ Server.MaxBodyBytes (sv_cfg bs) →
  exec interference (Server.Handler bs r) w h bo w' →
  ev ∈ emits l → ev_Attested ev !! "lease_id" = Some (AStr id) →
  ∃ new bev own sub w1 h1 w2 lr token kind domain service body answer,
    log w' = log w ++ new ∧ (bev ∈ new) ∧ signed_by ed25519_Sign jcs_Transform (em_signer (w_emitter w)) bev
    ∧ ev_Type ev = TypeNotifyForwarded ∧ ev_Type bev = TypeLeaseIssued
    ∧ ev_Attested bev !! "lease_id" = Some (AStr id)
    ∧ ev_Attested bev !! "scope" = Some (AStr (valid_utf8 (lc_scope (nv_lease ps))))
    ∧ hi_Authorization r = "Bearer " +:+ own ∧ exec interference (sv_authn bs own) w1 h1 (Some sub) w2
    ∧ ev_Subject bev = Some sub
    ∧ ev_Subject ev = Some (cx_sub c)
    ∧ default ∅ (ev_Asserted bev) !! "originating_agent" = Some (valid_utf8 (Key (cx_sub c)))
    ∧ ev_Attested ev !! "kind" = Some (AStr kind)
    ∧ default ∅ (ev_Asserted bev) !! "action" = Some (valid_utf8 kind)
    ∧ ev_Attested ev !! "ha_domain" = Some (AStr domain) ∧ ev_Attested ev !! "ha_service" = Some (AStr service)
    ∧ default ∅ (ev_Asserted bev) !! "ha_service" = Some (valid_utf8 (domain +:+ "/" +:+ service))
    ∧ bo = Reply (Server.mkResponse 201 true (BLease lr)) ∧ lr_LeaseID lr = id
    ∧ token = default "" (valid_utf8 <$> lr_Secret lr !! "token")
    ∧ rest = [(ha_request (nv_ha ps) token domain service body, answer)].
Proof.
  intros Ht Hh Har Hlen H Hin Hid.
  destruct (lease_id_recorded _ _ _ _ _ _ Ht Hin Hid) as (kind & domain & service & body & own & r1 & token & r2 & Hh' & Hrl & Hev).
  rewrite Hh in Hh'. injection Hh' as -> <- ->.
  destruct (broker_leased _ _ _ _ _ _ _ _ _ _ Har H Hrl) as (sub & src & reqID & w1 & w2 & h1 & h2 & d & Hau & Hd & Hah & El).
  injection El as -> ->. destruct (arrives_lease_request _ _ _ _ Har) as (_ & Hbear & Hbody).
  pose proof (is_decoded _ _ _ _ _ _ _ Hd) as Hdec. cbn [cx_body] in Hdec. rewrite Hbody in Hdec, Hlen.
  rewrite lease_request_read in Hdec by done. injection Hdec as Hreq.
  destruct (logged_since_ahead _ _ _ _ Hah (is_logged _ _ _ _ _ _ _ Hd)) as (new & bev & Hl & Hbin & (T & _ & S & _ & At & As) & Hsg).
  destruct (is_created _ _ _ _ _ _ _ Hd) as (w3 & x3 & _ & Enew). pose proof (is_reply _ _ _ _ _ _ _ Hd) as Hbo.
  destruct (lease_context_asserted c kind domain service) as (A1 & A2 & A3).
  eexists new, bev, own, sub, w1, h1, w2, _, _, kind, domain, service, body, r2.
  assert (Has : ev_Asserted bev = read_back valid_utf8 (lease_context c kind domain service)) by (rewrite As, <-Hreq; done).
  assert (Hat : ∀ k, ev_Attested bev !! k = issued_attested (is_pol d) (is_lease d) (is_capped d) (upstream_text (is_result d)) !! k)
    by (intros k; rewrite At; done).
  split_and!; rewrite ?Has, ?Hat, ?Hev; try done; unfold issued_attested, forwarded_event; repeat case_bool_decide; try done.
  all: transitivity (Some (AStr (l_Scope (is_lease d)))); [reflexivity|]; rewrite Enew, <-Hreq; done.
Qed.

End Proxy.

End Joined.

(** ** A proxy and its broker *)

Module JoinSample.

(** The broker's policy grants the notify token to the proxy alone. *)
Definition doc : Policy.RawPolicy :=
  Policy.mkRawPolicy [Policy.mkScope "ha-notify-token" "onepassword-connect" Policy.Sample.op_ref {["token" := "credential"]} ∅]
    [Policy.mkSubjectPolicy "home/ha-notify-proxy" [Policy.mkGrant "ha-notify-token" Minute (5 * Minute) false []] 0].
Definition policy : Policy.Policy :=
  match Policy.Parse (λ _, Some doc) Policy.Sample.cron "policy" with Ok p => p | Err _ => Policy.mkPolicy [] [] "" ∅ ∅ end.

Definition authn (token : string) : prog (option Subject) :=
  Ret (if bool_decide (token = "own") then Some (mkSubject "home" "ha-notify-proxy" "" "") else None).
Definition broker : Server.Server * world :=
  Server.New (Server.mkConfig 0%Q 0 0%Q 0 0 0 0 0) authn sample_providers policy "sum"
    (NewEmitter (mkSigner "priv" "pub" "k00000000") "broker-0") NewMetrics.

(** The proxy's request, as it arrives, and what the broker makes of it. *)
Definition req : HttpRequest :=
  lease_request (nv_lease ProxySample.proxy.1) "own" (lease_context ProxySample.ctx KindPush "notify" "mobile_app_phone").
Definition arrived : HttpIn := mkHttpIn "POST" ["v1"; "leases"] "10.0.0.9:40000" "" "Bearer own" (hq_Body req).
Definition served : outcome * nat * world := @run sample_ext _ http_oracle 0 broker.2 (Server.Handler broker.1 arrived).

(** The proxy at work, with this broker and a Home Assistant that accepts. *)
Definition upstream (q : HttpRequest) : option HttpResponse :=
  if bool_decide (hq_URL q = "https://broker/v1/leases") then wire served.1.1 else Some (mkHttpResponse 200 "").
Definition oracle (n : nat) : ext :=
  mkExt (sample_now + Z.of_nat n) (sample_now + Z.of_nat n) "" [] Written upstream (λ _, Some "own").
Definition push : Response * list obs :=
  @run_trace sample_ext _ oracle 0 ProxySample.proxy.2 (dispatch ProxySample.range_keys ProxySample.proxy.1 RPush ProxySample.ctx).

Definition id : string := NewID "lease" "0123456789abc".
Definition record : Event :=
  forwarded_event ProxySample.proxy.1 ProxySample.ctx KindPush "notify" "mobile_app_phone" 200 true id "".

Definition history : list step := @run_history sample_ext _ http_oracle 0 broker.2 (Server.Handler broker.1 arrived).
Definition calls : list (HttpRequest * option HttpResponse) :=
  [(ha_request (nv_ha ProxySample.proxy.1) "hunter2" "notify" "mobile_app_phone"
      (push_body (mkPushReq "hi" "" (Some {["tag" := "ci"]}))), Some (mkHttpResponse 200 ""))].

Lemma served_exec :
  @exec sample_ext (@interference sample_ext) _ (Server.Handler broker.1 arrived) broker.2 history served.1.1 served.2.
Proof. apply (@run_exec sample_ext); [apply _|]. vm_compute. repeat split. Qed.

Lemma push_https : https push.2 = (req, wire served.1.1) :: calls.
Proof. vm_compute. reflexivity. Qed.

Lemma push_record : emits push.2 = [record].
Proof. vm_compute. reflexivity. Qed.

Lemma req_arrives : arrives "https://broker" req arrived.
Proof. split_and!; [done| |by left|done]. by exists "/v1/leases". Qed.

End JoinSample.

Lemma streams_join_witness :
  ∃ bev, (bev ∈ log JoinSample.served.2) ∧ ev_Type bev = TypeLeaseIssued
    ∧ ev_Attested bev !! "lease_id" = Some (AStr JoinSample.id)
    ∧ default ∅ (ev_Asserted bev) !! "originating_agent" = Some "agents/builder".
Proof.
  destruct (@streams_join sample_ext ProxySample.range_keys ProxySample.range_all NotifySample.yaml "doc" ProxySample.proxy.1
    NotifySample.notify_policy_parsed JoinSample.broker.1 RPush ProxySample.ctx JoinSample.push.2 JoinSample.push.1 JoinSample.req JoinSample.calls
    JoinSample.arrived JoinSample.broker.2 JoinSample.history JoinSample.served.1.1 JoinSample.served.2 JoinSample.record JoinSample.id)
    as (new & bev & own & sub & w1 & h1 & w2 & lr & token & kind & domain & service & body & answer & Hl & Hin & _ & _ & HT & Hid & _ & _ & _ & _ & _ & Ha & _).
  - apply (@run_trace_traced sample_ext).
  - exact JoinSample.push_https.
  - exact JoinSample.req_arrives.
  - vm_compute. discriminate.
  - exact JoinSample.served_exec.
  - rewrite JoinSample.push_record. by left.
  - vm_compute. reflexivity.
  - exists bev. split_and!; [rewrite Hl; apply elem_of_app; by right|exact HT|exact Hid|].
    rewrite Ha. vm_compute. reflexivity.
Defined.
