(* ===== verification/Lifecycle.v ===== *)
(** * From start to exit (cmd/broker/main.go and cmd/ha-notify-proxy/main.go: main, and run after start-up)

    The goroutines of [run] around the work of a service: the two listeners, the
    one that waits for a signal and shuts them down, and [main], whose return
    ends the process whatever the others do.  A listener is a [http.Server]: once
    [Shutdown] is called its [ListenAndServe] returns [ErrServerClosed] at once,
    while [Shutdown] itself waits for the open requests or its deadline.  The work
    is a parameter, a [service]; the broker's is its pool of goroutines. *)

From S2P Require Import Prelude GoStrings Json AuditStream Metrics World Trace Provider Server Watcher Upkeep Samples ServerApi Broker.
From S2P Require NotifyServer NotifyMain.
Local Open Scope stdpp_scope.

(** ** What run and main make of the listener's error *)

Inductive serve_err := ErrServerClosed | EListen.

Definition run_result (err : serve_err) : option serve_err :=
  match err with ErrServerClosed => None | EListen => Some EListen end.
(** [log.Fatalf] exits with status 1. *)
Definition main_status (err : option serve_err) : Z := match err with Some _ => 1 | None => 0 end.
Definition health_status (err : serve_err) : option Z :=
  match err with ErrServerClosed => None | EListen => Some 1%Z end.

(** ** Processes *)

Inductive phase := Pending | Serving | Ended.
Record http_server := mkHttpServer { hs_phase : phase; hs_closed : bool; hs_open : gset nat }.
Definition new_server : http_server := mkHttpServer Pending false ∅.

Definition set_phase (p : phase) (h : http_server) : http_server := mkHttpServer p (hs_closed h) (hs_open h).
Definition close (h : http_server) : http_server := mkHttpServer (hs_phase h) true (hs_open h).
Definition opened (i : nat) (h : http_server) : http_server := mkHttpServer (hs_phase h) (hs_closed h) ({[i]} ∪ hs_open h).
Definition answered (i : nat) (h : http_server) : http_server := mkHttpServer (hs_phase h) (hs_closed h) (hs_open h ∖ {[i]}).

(** Why [ListenAndServe] of a server returns: [Shutdown] was called, or binding
    or accepting failed. *)
Definition returns_with (h : http_server) (err : serve_err) : Prop :=
  hs_phase h ≠ Ended ∧ match err with ErrServerClosed => hs_closed h = true | EListen => hs_closed h = false end.

(** The goroutine that waits for the signal. *)
Inductive stopper := SWaiting | SApi | SHealth | SDone.

(** What the process does for its clients: requests to its two listeners start
    goroutines, and the goroutines work. *)
Record service (W : Type) := mkService {
  sv_request : nat → W → W → Prop;
  sv_probe : nat → W → W → Prop;
  sv_work : W → W → Prop;
  sv_answered : nat → W → Prop
}.
Arguments sv_request {W}.
Arguments sv_probe {W}.
Arguments sv_work {W}.
Arguments sv_answered {W}.

Record process (W : Type) := mkProcess {
  p_api : http_server;
  p_health : http_server;
  p_stopper : stopper;
  p_signalled : bool; (* the context of [signal.NotifyContext] is done *)
  p_exit : option Z;
  p_work : W
}.
Arguments mkProcess {W}.
Arguments p_api {W}.
Arguments p_health {W}.
Arguments p_stopper {W}.
Arguments p_signalled {W}.
Arguments p_exit {W}.
Arguments p_work {W}.

Definition launched {W} (w0 : W) : process W := mkProcess new_server new_server SWaiting false None w0.

Section Process.
Context {W : Type} (S : service W).

(** One step of a running process. *)
Inductive process_step : process W → process W → Prop :=
| pr_signal api health st sg w :
    process_step (mkProcess api health st sg None w) (mkProcess api health st true None w)
| pr_listen api health st sg w :
    hs_phase api = Pending → hs_closed api = false →
    process_step (mkProcess api health st sg None w) (mkProcess (set_phase Serving api) health st sg None w)
| pr_return api health st sg w err :
    returns_with api err →
    process_step (mkProcess api health st sg None w)
      (mkProcess (set_phase Ended api) health st sg (Some (main_status (run_result err))) w)
| pr_listen_health api health st sg w :
    hs_phase health = Pending → hs_closed health = false →
    process_step (mkProcess api health st sg None w) (mkProcess api (set_phase Serving health) st sg None w)
| pr_return_health api health st sg w err :
    returns_with health err →
    process_step (mkProcess api health st sg None w)
      (mkProcess api (set_phase Ended health) st sg (health_status err) w)
| pr_request api health st sg w w' i :
    hs_phase api = Serving → hs_closed api = false → sv_request S i w w' →
    process_step (mkProcess api health st sg None w) (mkProcess (opened i api) health st sg None w')
| pr_answer api health st sg w i :
    i ∈ hs_open api → sv_answered S i w →
    process_step (mkProcess api health st sg None w) (mkProcess (answered i api) health st sg None w)
| pr_probe api health st sg w w' i :
    hs_phase health = Serving → hs_closed health = false → sv_probe S i w w' →
    process_step (mkProcess api health st sg None w) (mkProcess api (opened i health) st sg None w')
| pr_probed api health st sg w i :
    i ∈ hs_open health → sv_answered S i w →
    process_step (mkProcess api health st sg None w) (mkProcess api (answered i health) st sg None w)
| pr_work api health st sg w w' :
    sv_work S w w' → process_step (mkProcess api health st sg None w) (mkProcess api health st sg None w')
| pr_shutdown_api api health w :
    process_step (mkProcess api health SWaiting true None w) (mkProcess (close api) health SApi true None w)
| pr_shutdown_health api health sg w (expired : bool) :
    expired = true ∨ hs_open api = ∅ →
    process_step (mkProcess api health SApi sg None w) (mkProcess api (close health) SHealth sg None w)
| pr_shutdown_done api health sg w (expired : bool) :
    expired = true ∨ hs_open health = ∅ →
    process_step (mkProcess api health SHealth sg None w) (mkProcess api health SDone sg None w).

(** Any step of the work. *)
Definition service_step (w w' : W) : Prop :=
  (∃ i, sv_request S i w w') ∨ (∃ i, sv_probe S i w w') ∨ sv_work S w w'.

(** ** The invariant of a process *)

(** The listener that decided the exit status. *)
Definition exit_status (api health : http_server) : option Z :=
  match hs_phase api, hs_phase health with
  | Ended, _ => Some (if hs_closed api then 0%Z else 1%Z)
  | _, Ended => if hs_closed health then None else Some 1%Z
  | _, _ => None
  end.

Record process_wf (w0 : W) (s : process W) : Prop := {
  pw_work : rtc service_step w0 (p_work s);
  pw_closed : hs_closed (p_api s) = match p_stopper s with SWaiting => false | _ => true end;
  pw_closed_health : hs_closed (p_health s) = match p_stopper s with SWaiting | SApi => false | _ => true end;
  pw_signalled : p_stopper s = SWaiting ∨ p_signalled s = true;
  pw_exit : p_exit s = exit_status (p_api s) (p_health s)
}.

Lemma process_wf_step w0 s s' : process_step s s' → process_wf w0 s → process_wf w0 s'.
Proof.
  intros Hs [Hw Hc Hh Hg He].
  destruct Hs as [api ? ? ? ?|[[] ? ?]|[[] [] ?] ? ? ? ? []|? [[] ? ?]|[[] [] ?] [[] [] ?] ? ? ? []|[[] ? ?]|[[] ? ?]
    |? [[] ? ?]|? [[] ? ?]| |[[] [] ?] [[] [] ?]|[[] [] ?] [[] [] ?]|];
    unfold returns_with, exit_status in *;
    cbn [p_api p_health p_stopper p_signalled p_exit p_work hs_phase hs_closed set_phase close opened answered
         main_status run_result health_status] in *;
    split; cbn; try done; try (by destruct Hg as [?|?]; auto);
    try (eapply rtc_r; [exact Hw|unfold service_step; by eauto]); try (by destruct_and?); auto.
Qed.

Lemma process_wf_reachable w0 s : rtc process_step (launched w0) s → process_wf w0 s.
Proof.
  intros H. remember (launched w0) as s0 eqn:E. assert (Hw : process_wf w0 s0) by (subst s0; split; [done..|by left|done]).
  clear E. induction H as [s|s s1 s2 Hs _ IH]; [done|]. apply IH. by eapply process_wf_step.
Qed.

(** ** How a process ends *)

(** A listener that ended without having been shut down. *)
Definition failed (h : http_server) : Prop := hs_phase h = Ended ∧ hs_closed h = false.

Record orderly (s : process W) : Prop := {
  (* status 0 only after a signal, with the API listener shut down *)
  or_clean : p_exit s = Some 0%Z → p_signalled s = true ∧ hs_closed (p_api s) = true;
  (* any other exit is status 1, after a failure of one of the listeners *)
  or_failed : ∀ z, p_exit s = Some z → z ≠ 0%Z → z = 1%Z ∧ (failed (p_api s) ∨ failed (p_health s));
  (* once the API listener is shut down no request is accepted *)
  or_closed : hs_closed (p_api s) = true → ∀ s', rtc process_step s s' → hs_open (p_api s') ⊆ hs_open (p_api s);
  (* a running process can end with status 0 at once, its requests left where they are *)
  or_prompt : p_exit s = None → ∃ s', rtc process_step s s' ∧ p_exit s' = Some 0%Z
    ∧ p_work s' = p_work s ∧ hs_open (p_api s') = hs_open (p_api s)
}.

Lemma closed_step s s' : process_step s s' → hs_closed (p_api s) = true →
  hs_closed (p_api s') = true ∧ hs_open (p_api s') ⊆ hs_open (p_api s).
Proof. intros Hs Hc. destruct Hs; cbn in *; try congruence; (split; [by auto|]); first [done|apply subseteq_difference_l; done]. Qed.

Lemma closed_steps s s' : rtc process_step s s' → hs_closed (p_api s) = true → hs_open (p_api s') ⊆ hs_open (p_api s).
Proof.
  induction 1 as [s|s s1 s2 Hs _ IH]; intros Hc; [done|]. destruct (closed_step _ _ Hs Hc) as [Hc1 Ho].
  etrans; [by apply IH|done].
Qed.

(** From a running process: the signal, the shutdown of the API listener, the
    return of [ListenAndServe]. *)
Lemma prompt_exit w0 s : process_wf w0 s → p_exit s = None →
  ∃ s', rtc process_step s s' ∧ p_exit s' = Some 0%Z ∧ p_work s' = p_work s ∧ hs_open (p_api s') = hs_open (p_api s).
Proof.
  intros [_ Hc _ _ He] Hn. destruct s as [api health st sg ex w]. cbn [p_api p_health p_stopper p_exit p_work] in *.
  rewrite Hn in He. subst ex.
  assert (Hp : hs_phase api ≠ Ended) by (intros Ep; unfold exit_status in He; by rewrite Ep in He).
  exists (mkProcess (set_phase Ended (close api)) health (match st with SWaiting => SApi | _ => st end) true (Some 0%Z) w).
  split; [|done]. eapply rtc_l; [apply pr_signal|].
  assert (Hr : ∀ st, process_step (mkProcess (close api) health st true None w)
    (mkProcess (set_phase Ended (close api)) health st true (Some 0%Z) w)).
  { intros st'. by apply (pr_return (close api) health st' true w ErrServerClosed). }
  destruct st; [eapply rtc_l; [apply pr_shutdown_api|apply rtc_once, Hr]|..];
    assert (close api = api) as Ea by (destruct api; cbn in *; by subst); apply rtc_once; rewrite <-Ea at 1; apply Hr.
Qed.

Lemma process_orderly w0 s : rtc process_step (launched w0) s → orderly s.
Proof.
  intros H%process_wf_reachable. pose proof H as [_ Hc Hh Hg He]. split.
  - intros E. rewrite He in E. unfold exit_status in E.
    destruct (hs_phase (p_api s)); [by destruct (hs_phase (p_health s)), (hs_closed (p_health s))..|].
    destruct (hs_closed (p_api s)) eqn:Ec; [|done]. split; [|done]. destruct Hg as [Hg|Hg]; [by rewrite Hg in Hc|done].
  - intros z E Hz. rewrite He in E. unfold exit_status, failed in *.
    destruct (hs_phase (p_api s)), (hs_phase (p_health s)), (hs_closed (p_api s)), (hs_closed (p_health s));
      simplify_eq; auto.
  - intros Hcl s' Hr. by eapply closed_steps.
  - by eapply prompt_exit.
Qed.

End Process.

(** ** The broker *)

Section BrokerService.
Context {X : Externals} (err_text : WatchErr → string) (policyFile : string) (sv : Server).

(** Starting goroutine [p] under a free number. *)
Definition spawned (i : nat) (p : prog (option outcome)) (s s' : world * gmap nat thread) : Prop :=
  s.2 !! i = None ∧ s' = (s.1, <[i := mkThread p p []]> s.2).

(** The loops that wait for their ticker or the signal; each may see any number
    of ticks first. *)
Inductive ticker : prog (option outcome) → Prop :=
| t_sweep n : ticker (_ ← sweeper n; Ret None)
| t_reload n : ticker (_ ← Watch err_text policyFile n; Ret None)
| t_expiry tokenFile n : ticker (_ ← expiry_gauge tokenFile n; Ret None).

Inductive broker_work : world * gmap nat thread → world * gmap nat thread → Prop :=
| bw_ticker i p s s' : ticker p → spawned i p s s' → broker_work s s'
| bw_act w ts i p0 T (a : action T) k h x :
    ts !! i = Some (mkThread p0 (Act a k) h) → ext_ok x w a →
    broker_work (w, ts) ((perform x w a).2, <[i := mkThread p0 (k (perform x w a).1) (h ++ [Step a w x])]> ts).

Definition broker_service : service (world * gmap nat thread) :=
  mkService _
    (λ i s s', ∃ r, spawned i (serve sv r) s s')
    (λ i s s', ∃ signer o h method path, spawned i (_ ← HealthHandler signer (ready o) h method path; Ret None) s s')
    broker_work
    (λ i s, ∃ p0 o h, s.2 !! i = Some (mkThread p0 (Ret o) h)).

Lemma broker_service_pool s s' : service_step broker_service s s' → pool_step err_text policyFile sv s s'.
Proof.
  assert (Hsp : ∀ i p s s', goroutine err_text policyFile sv p → spawned i p s s' → pool_step err_text policyFile sv s s').
  { clear. intros i p s s' Hp [Hi ->]. destruct s as [w ts]. by apply ps_spawn. }
  intros [(i & r & H)|[(i & sg & o & h & m & pa & H)|[i p s1 s2 Ht H|w ts i p0 T a k h x Hi Hx]]].
  - eapply Hsp; [apply g_request|exact H].
  - eapply Hsp; [apply g_health|exact H].
  - eapply Hsp; [|exact H]. destruct Ht; constructor.
  - by eapply ps_act.
Qed.

(** C26: From launch to exit.  Whatever the listeners, the signals and the
    requests do, what a broker process has done by any time is an execution of
    its pool of goroutines, so that what is proved of those holds up to the exit;
    it exits with status 0 only after a signal, and otherwise with status 1 after
    a failure of one of its listeners; after [Shutdown] no request is accepted.
    At any time a signal, the call of [Shutdown] and the return of
    [ListenAndServe] bring it to a clean exit in which no request has moved on:
    the exit does not wait for the requests under way. *)
Theorem broker_lifecycle w0 s :
  rtc (process_step broker_service) (launched (w0, ∅)) s →
  rtc (pool_step err_text policyFile sv) (w0, ∅) (p_work s) ∧ orderly broker_service s.
Proof.
  intros H. split; [|by eapply process_orderly].
  eapply (rtc_subrel _ _ _ _ broker_service_pool), pw_work, process_wf_reachable, H.
Qed.

End BrokerService.

(** ** The notify proxy *)

Section ProxyService.
Context {X : Externals} (range_keys : gmap string string → list string) (sv : NotifyServer.Server) (haURL : string).

(** A goroutine of the proxy: where it started, what is left of it, what it observed. *)
Record proxy_thread := mkProxyThread {
  pt_start : prog (option NotifyServer.Response);
  pt_rest : prog (option NotifyServer.Response);
  pt_past : list obs
}.
Abbreviation proxy_pool := (world * gmap nat proxy_thread)%type.

Definition proxy_request (q : HttpIn) : prog (option NotifyServer.Response) :=
  o ← NotifyServer.Handler range_keys sv q; Ret (Some o).
Definition proxy_probe (p : NotifyMain.probe) (method : string) (path : list string) : prog (option NotifyServer.Response) :=
  _ ← NotifyMain.HealthHandler (NotifyServer.nv_signer sv) (NotifyMain.ready haURL) p method path; Ret None.

Definition proxy_spawned (i : nat) (p : prog (option NotifyServer.Response)) (s s' : proxy_pool) : Prop :=
  s.2 !! i = None ∧ s' = (s.1, <[i := mkProxyThread p p []]> s.2).

Inductive proxy_work : proxy_pool → proxy_pool → Prop :=
| xw_act w ts i p0 T (a : action T) k l x :
    ts !! i = Some (mkProxyThread p0 (Act a k) l) → ext_ok x w a →
    proxy_work (w, ts) ((perform x w a).2, <[i := mkProxyThread p0 (k (perform x w a).1) (l ++ [Obs a (perform x w a).1])]> ts).

Definition proxy_service : service proxy_pool :=
  mkService _
    (λ i s s', ∃ q, proxy_spawned i (proxy_request q) s s')
    (λ i s s', ∃ p method path, proxy_spawned i (proxy_probe p method path) s s')
    proxy_work
    (λ i s, ∃ p0 o l, s.2 !! i = Some (mkProxyThread p0 (Ret o) l)).

(** What a goroutine observed so far is the beginning of a trace of a request or
    of a probe. *)
Definition on_track (t : proxy_thread) : Prop :=
  ((∃ q, pt_start t = proxy_request q) ∨ ∃ p method path, pt_start t = proxy_probe p method path)
  ∧ ∀ l o, traced (pt_rest t) l o → traced (pt_start t) (pt_past t ++ l) o.

Lemma proxy_on_track s s' : service_step proxy_service s s' →
  map_Forall (λ _, on_track) s.2 → map_Forall (λ _, on_track) s'.2.
Proof.
  intros [(i & q & _ & ->)|[(i & p & method & path & _ & ->)|[w ts i p0 T a k l x Hi Hx]]] H; cbn [fst snd] in *.
  - apply map_Forall_insert_2; [|done]. split; [left; by exists q|done].
  - apply map_Forall_insert_2; [|done]. split; [right; by exists p, method, path|done].
  - apply map_Forall_insert_2; [|done]. destruct (H _ _ Hi) as [Hst Htr]. split; [done|]. cbn [pt_start pt_rest pt_past] in *.
    intros l' o Hl. rewrite <-app_assoc. apply Htr. cbn [traced]. eauto.
Qed.

(** The same of a proxy process: how it exits, and that every goroutine that
    answered has run its handler to the end. *)
Lemma proxy_lifecycle w0 s :
  rtc (process_step proxy_service) (launched (w0, ∅)) s →
  orderly proxy_service s
  ∧ ∀ i t o, (p_work s).2 !! i = Some t → pt_rest t = Ret o → traced (pt_start t) (pt_past t) o.
Proof.
  intros H. split; [by eapply process_orderly|]. intros i t o Ht Ho.
  assert (Hall : map_Forall (λ _, on_track) (p_work s).2).
  { apply process_wf_reachable, pw_work in H. revert H. generalize (p_work s). intros sw H.
    remember (w0, ∅) as s0 eqn:E. assert (H0 : map_Forall (λ _, on_track) s0.2) by (subst s0; apply map_Forall_empty).
    clear E. induction H as [s0|s0 s1 s2 Hs _ IH]; [done|]. by apply IH, (proxy_on_track s0). }
  destruct (Hall _ _ Ht) as [_ Htr]. rewrite Ho in Htr. specialize (Htr [] o). rewrite app_nil_r in Htr. by apply Htr.
Qed.

End ProxyService.

(** A request has just been accepted. *)
Module ServingSample.
Definition svc : service (world * gmap nat thread) := @broker_service sample_ext (λ _, "error") "policy" sample_server.
Definition api : http_server := mkHttpServer Serving false ∅.
Definition started : thread := mkThread (serve sample_server sample_http) (serve sample_server sample_http) [].
Definition accepted : process (world * gmap nat thread) :=
  mkProcess (opened 0 api) new_server SWaiting false None (sample_world, <[0%nat := started]> ∅).

Lemma accepted_reachable : rtc (process_step svc) (launched (sample_world, ∅)) accepted.
Proof.
  eapply rtc_l; [by apply (pr_listen svc new_server new_server SWaiting false (sample_world, ∅))|].
  apply rtc_once. apply (pr_request svc api new_server SWaiting false (sample_world, ∅) _ 0); [done..|].
  exists sample_http. split; [apply lookup_empty|reflexivity].
Qed.
End ServingSample.

(** The accepted request is abandoned. *)
Lemma broker_lifecycle_witness :
  ∃ s', rtc (process_step ServingSample.svc) ServingSample.accepted s' ∧ p_exit s' = Some 0%Z
    ∧ p_work s' = p_work ServingSample.accepted ∧ hs_open (p_api s') = {[0%nat]}.
Proof.
  destruct (@broker_lifecycle sample_ext (λ _, "error") "policy" sample_server sample_world
    ServingSample.accepted ServingSample.accepted_reachable) as [_ [_ _ _ H]].
  destruct (H eq_refl) as (s' & Hr & He & Hw & Ho). exists s'. split_and!; [exact Hr|exact He|exact Hw|].
  rewrite Ho. apply set_eq. set_solver.
Defined.
