(* ===== verification/Flood.v ===== *)
(** * How much of the audit stream one caller can fill

    The limiters "exist to keep a compromised agent from flooding the audit
    stream to bury its own records".  Every event that a caller can provoke is
    charged to a limiter and a key: a goroutine holds what its last granted call
    of a limiter is worth, and spends it on the events it emits.  So the events of
    a caller are bounded by the calls granted to it, whatever the interleaving. *)

From S2P Require Import Prelude GoStrings GoTime Float64 Encoding RateLimit LeaseStore Json AuditStream Metrics Policy World Trace.
From S2P Require Import Provider Server Samples Watcher ServerProps ServerEffects ServerApi Authn Upkeep TlsReloader Process Broker BrokerMain Records.
From Stdlib Require Import QArith Lqa.
Local Open Scope Z_scope.
Local Open Scope stdpp_scope.

(** ** Charges *)

#[global] Instance limiter_id_eq_dec : EqDecision limiter_id.
Proof. solve_decision. Defined.

Definition subject_key (ev : Event) : string := default "" (Key <$> ev_Subject ev).

(** The limiter and the key an event is charged to; reloads, expiries and the
    start of the broker are not provoked by a caller. *)
Definition charge (ev : Event) : option (limiter_id * string) :=
  if bool_decide (ev_Type ev = TypeAuthFailed) then Some (LimAuthFail, default "" (src_IP <$> ev_Source ev))
  else if bool_decide (ev_Type ev = TypeClaimRecorded) then Some (LimClaim, subject_key ev)
  else if bool_decide (ev_Type ev = TypeLeaseDenied) then
    Some (if bool_decide (ev_Attested ev !! "aggregated" = Some (ABool true)) then LimAudit else LimLease, subject_key ev)
  else if bool_decide (ev_Type ev = TypeLeaseIssued) || bool_decide (ev_Type ev = TypeLeaseRenewed)
          || bool_decide (ev_Type ev = TypeLeaseSurrendered) then Some (LimLease, subject_key ev)
  else None.

Definition charged (i : limiter_id) (key : string) (l : list Event) : Z :=
  Z.of_nat (length (filter (λ ev, charge ev = Some (i, key)) l)).

(** ** Credit *)

Section Credit.
Context (units : limiter_id → nat).

(** The limiter that was granted last, its key, and the events left of it. *)
Abbreviation credit := (limiter_id * string * nat)%type.

Definition after {T} (cr : option credit) (a : action T) : T → option credit :=
  match a in action T return T → option credit with
  | LimiterAllow i key => λ ok, if ok then Some (i, key, units i) else cr
  | EmitEvent _ => λ _, match cr with Some (i, key, S n) => Some (i, key, n) | _ => cr end
  | _ => λ _, cr
  end.

Definition covered {T} (cr : option credit) (a : action T) : Prop :=
  match a with
  | EmitEvent ev => match charge ev with Some (i, key) => ∃ n, cr = Some (i, key, S n) | None => True end
  | _ => True
  end.

Fixpoint gated {A} (cr : option credit) (p : prog A) : Prop :=
  match p with
  | Ret _ => True
  | Act a k => covered cr a ∧ ∀ t, gated (after cr a t) (k t)
  end.

Lemma gated_act {A B} cr (a : action A) (f : A → prog B) :
  covered cr a → (∀ t, gated (after cr a t) (f t)) → gated cr (act a ≫= f).
Proof. intros Ha Hf. split; [done|exact Hf]. Qed.

Lemma gated_bind {A B} (p : prog A) (f : A → prog B) : ∀ cr,
  gated cr p → (∀ a cr', gated cr' (f a)) → gated cr (p ≫= f).
Proof.
  induction p as [a|T a k IH]; intros cr Hp Hf; [apply Hf|]. destruct Hp as [Ha Hk]. split; [done|]. intros t. by apply IH.
Qed.

(** Programs that neither ask a limiter nor emit anything. *)
Definition silent (T : Type) (a : action T) : Prop :=
  match a with LimiterAllow _ _ | EmitEvent _ => False | _ => True end.

Lemma gated_silent {A B} (p : prog A) (f : A → prog B) cr :
  all_actions silent p → (∀ a, gated cr (f a)) → gated cr (p ≫= f).
Proof.
  induction p as [a|T a k IH]; intros Hp Hf; [apply Hf|]. destruct Hp as [Ha Hk]. split; [by destruct a|].
  intros t. assert (after cr a t = cr) as -> by (by destruct a). by apply IH.
Qed.

(** Programs that emit only what is charged to nobody. *)
Definition uncharged (T : Type) (a : action T) : Prop :=
  match a with LimiterAllow _ _ => False | EmitEvent ev => charge ev = None | _ => True end.

Lemma gated_uncharged {A} (p : prog A) : all_actions uncharged p → gated None p.
Proof.
  induction p as [a|T a k IH]; intros Hp; [done|]. destruct Hp as [Ha Hk]. split.
  - destruct a; try done. cbn in *. by rewrite Ha.
  - intros t. assert (after None a t = None) as -> by (by destruct a). by apply IH.
Qed.

End Credit.

(** ** The broker's goroutines spend what they were granted *)

Ltac walk_gated :=
  repeat (unfold bad_request, not_found, not_yours, conflict, auditFailClosed, inc;
    cbv beta zeta;
    lazymatch goal with
    | |- gated _ (if ?b then _ else _) _ => destruct b; cbn [negb]
    | |- gated _ _ (mbind _ (act _)) => apply gated_act; [try first [exact I|by eexists]|intros ?; cbn [after]]
    | |- gated _ _ (match ?e with _ => _ end) => destruct e eqn:?; cbn [negb] in *
    | |- gated _ _ (Ret _) => exact I
    end).

Section Goroutines.
Context {X : Externals} (err_text : WatchErr → string) (policyFile : string) (sv : Server).
Context (authn_outside : ∀ token, all_actions outside (sv_authn sv token)).
Context (providers_ok : map_Forall (λ _ p, ProviderLaws p) (sv_providers sv)).

(** One event for a granted call, a batch of claims for one of the claim limiter. *)
Definition units (i : limiter_id) : nat :=
  match i with LimClaim => Z.to_nat (MaxClaimsPerReq (sv_cfg sv)) | _ => 1%nat end.

Lemma outside_silent {A} (p : prog A) : all_actions outside p → all_actions silent p.
Proof. intros H. eapply all_actions_mono; [|exact H]. intros T a. by destruct a. Qed.

Lemma fetch_silent prov req : ProviderLaws prov → all_actions silent (pv_Fetch prov req).
Proof. intros Hp. apply outside_silent, fetch_outside. Qed.

Lemma rateLimited_gated c endpoint title : gated units None (rateLimited c endpoint title).
Proof. unfold rateLimited. walk_gated; (apply gated_bind; [walk_gated|done]). Qed.

Lemma record_claims_gated c leaseID claims : ∀ ids n, (length claims ≤ n)%nat →
  gated units (Some (LimClaim, sub_key c, n)) (record_claims c leaseID claims ids).
Proof.
  induction claims as [|m claims IH]; intros ids n Hn; cbn [record_claims]; [walk_gated|].
  destruct n as [|n]; [cbn in Hn; lia|]. walk_gated. apply IH. cbn in Hn. lia.
Qed.

Lemma deny_gated c pol req scope status typ title reason :
  gated units (Some (LimLease, sub_key c, 1%nat)) (deny c pol req scope status typ title reason).
Proof. unfold deny. walk_gated. exists 0%nat. destruct scope; reflexivity. Qed.

Lemma issue_gated c pol req g prov ttl result :
  gated units (Some (LimLease, sub_key c, 1%nat)) (issue c pol req g prov ttl result).
Proof.
  unfold issue. cbv zeta. apply gated_silent; [unfold cap_ttl; case_match; [done|]; by repeat split|]. intros ttl'. walk_gated.
Qed.

Lemma dispatch_gated rt c : gated units None (dispatch sv rt c).
Proof.
  destruct rt as [|id|id|id| |]; cbn [dispatch].
  - unfold handleLeaseCreate. walk_gated; try apply rateLimited_gated; try apply deny_gated.
    apply gated_silent; [by eapply fetch_silent, providers_ok|]. intros result.
    walk_gated; [apply issue_gated|apply deny_gated].
  - unfold handleLeaseRenew. walk_gated. apply rateLimited_gated.
  - unfold handleLeaseSurrender. walk_gated. apply rateLimited_gated.
  - unfold handleLeaseGet. walk_gated.
  - unfold handleClaims. walk_gated; try apply rateLimited_gated.
    apply gated_silent; [case_match; [done|by repeat split]|]. intros held. walk_gated. apply record_claims_gated. cbn [units].
    match goal with H : _ || _ = false |- _ => apply orb_false_iff in H as [_ H%Z.ltb_ge] end. lia.
  - unfold handleWhoami. walk_gated.
Qed.

Lemma emit_expired_uncharged h ls : all_actions uncharged (emit_expired h ls).
Proof.
  induction ls as [|l ls IH]; cbn [emit_expired]; [done|]. destruct (Cut _ _) as [[ns sa] b]. by split.
Qed.

Lemma authFailure_gated {A} src reqID reason (o : A) : gated units None (recordAuthFailure src reqID reason ≫= λ _, Ret o).
Proof. apply gated_bind; [unfold recordAuthFailure; walk_gated|done]. Qed.

Lemma goroutine_gated p : goroutine err_text policyFile sv p → gated units None p.
Proof.
  intros Hp. destruct Hp as [r|n|n|f n|sg o h method path]; apply gated_bind; try done.
  - unfold Handler, withRequestID, withAuth. walk_gated; try apply authFailure_gated.
    apply gated_silent; [by apply outside_silent|]. intros [sub|]; [|apply authFailure_gated]. walk_gated. apply dispatch_gated.
  - apply gated_uncharged, all_actions_ticks. split; [done|intros pol]. split; [done|intros ls]. apply emit_expired_uncharged.
  - apply gated_uncharged, all_actions_ticks. unfold reloadIfChanged, OnReload, OnError. walk; done.
  - apply gated_uncharged, all_actions_bind; [|intros _; apply all_actions_ticks]; unfold update_expiry; walk; by split.
  - apply gated_uncharged. unfold HealthHandler, ready, Healthy, probeAuthenticated, handleVerifyKey. repeat first [progress walk|apply all_actions_bind; [|intros ?]|exact I].
Qed.

End Goroutines.

(** ** Executions with the calls of the limiters *)

Section Pool.
Context {X : Externals} (err_text : WatchErr → string) (policyFile : string) (sv : Server).
Context (authn_outside : ∀ token, all_actions outside (sv_authn sv token)).
Context (providers_ok : map_Forall (λ _ p, ProviderLaws p) (sv_providers sv)).
Abbreviation call := (limiter_id * (Time * string))%type.
Abbreviation state := (world * gmap nat thread)%type.

Definition call_of {T} (a : action T) (x : ext) : list call :=
  match a with LimiterAllow i key => [(i, (x_now x, key))] | _ => [] end.
Definition calls_of (i : limiter_id) (cs : list call) : list (Time * string) :=
  omap (λ c, if decide (c.1 = i) then Some c.2 else None) cs.

(** An execution of the pool, with the calls of the limiters in their order. *)
Inductive metered : state → list call → state → Prop :=
| mt_refl s : metered s [] s
| mt_spawn w ts i p cs s' :
    ts !! i = None → goroutine err_text policyFile sv p →
    metered (w, <[i := mkThread p p []]> ts) cs s' → metered (w, ts) cs s'
| mt_act w ts i p0 T (a : action T) k h x cs s' :
    ts !! i = Some (mkThread p0 (Act a k) h) → ext_ok x w a →
    metered ((perform x w a).2, <[i := mkThread p0 (k (perform x w a).1) (h ++ [Step a w x])]> ts) cs s' →
    metered (w, ts) (call_of a x ++ cs) s'.

(** Nothing but the pool's executions. *)
Lemma metered_pool s s' : (∃ cs, metered s cs s') ↔ rtc (pool_step err_text policyFile sv) s s'.
Proof.
  split.
  - intros [cs H]. induction H as [s|w ts i p cs s' Hi Hp _ IH|w ts i p0 T a k h x cs s' Hi Hx _ IH]; [done|..].
    + eapply rtc_l; [by eapply ps_spawn|done].
    + eapply rtc_l; [by eapply ps_act|done].
  - induction 1 as [s|s s1 s2 Hs _ [cs IH]]; [exists []; constructor|].
    destruct Hs as [w ts i p Hi Hp|w ts i p0 T a k h x Hi Hx]; eexists; [by eapply mt_spawn|by eapply mt_act].
Qed.

(** The calls granted to a key. *)
Definition granted (i : limiter_id) (key : string) (w : world) (cs : list call) : Z :=
  allowed_count key (calls_of i cs) (Allows (get_limiter i w) (calls_of i cs)).1.
Definition grants (i : limiter_id) (key : string) {T} (a : action T) : T → Z :=
  match a in action T return T → Z with
  | LimiterAllow i' key' => λ ok, if ok && bool_decide (i' = i) && bool_decide (key' = key) then 1 else 0
  | _ => λ _, 0
  end.

Lemma granted_act i key x w {T} (a : action T) cs :
  granted i key w (call_of a x ++ cs) = grants i key a (perform x w a).1 + granted i key (perform x w a).2 cs
  ∧ (Allows (get_limiter i w) (calls_of i (call_of a x ++ cs))).2
    = (Allows (get_limiter i (perform x w a).2) (calls_of i cs)).2.
Proof.
  unfold granted. destruct a; cbn [call_of app grants perform]; try (repeat case_match; split; reflexivity).
  rename i0 into j. destruct (Allow (get_limiter j w) (x_now x) key0) as [ok l] eqn:E. cbn [fst snd].
  assert (Hc : calls_of i ((j, (x_now x, key0)) :: cs) = if decide (j = i) then (x_now x, key0) :: calls_of i cs else calls_of i cs)
    by (unfold calls_of; cbn; by destruct (decide (j = i))).
  rewrite Hc. destruct (decide (j = i)) as [->|Hne].
  - assert (get_limiter i (set_limiter i l w) = l) as -> by (by destruct i). cbn [Allows]. rewrite E.
    destruct (Allows l (calls_of i cs)) as [oks l2]. rewrite bool_decide_true by done. cbn [fst snd allowed_count].
    by rewrite andb_true_r.
  - assert (get_limiter i (set_limiter j l w) = get_limiter i w) as -> by (by destruct i, j).
    rewrite bool_decide_false by done. by rewrite andb_false_r.
Qed.

(** ** Every event is paid for *)

Abbreviation credits := (gmap nat (limiter_id * string * nat)).
Abbreviation units := (units sv).

Definition amount (i : limiter_id) (key : string) (cr : option (limiter_id * string * nat)) : Z :=
  match cr with
  | Some (i', key', n) => if bool_decide (i' = i ∧ key' = key) then Z.of_nat n else 0
  | None => 0
  end.
Definition total (i : limiter_id) (key : string) (cr : credits) : Z :=
  map_fold (λ _ c acc, amount i key (Some c) + acc) 0 cr.

Lemma total_split i key (cr : credits) j : total i key cr = amount i key (cr !! j) + total i key (delete j cr).
Proof.
  unfold total. destruct (cr !! j) as [c|] eqn:E; [|by rewrite delete_id].
  rewrite (map_fold_delete_L _ _ j c cr); [done|intros; lia|done].
Qed.

Lemma total_alter i key (cr : credits) j c :
  total i key (partial_alter (λ _, c) j cr) = amount i key c + total i key (delete j cr).
Proof.
  rewrite (total_split i key _ j), lookup_partial_alter_eq. by rewrite delete_partial_alter_eq.
Qed.

Lemma charge_records tpl ev : records tpl ev → charge ev = charge tpl.
Proof. intros (H1 & _ & H3 & H4 & H5 & _). unfold charge, subject_key. by rewrite H1, H3, H4, H5. Qed.

Lemma charged_snoc i key l ev :
  charged i key (l ++ [ev]) = charged i key l + if decide (charge ev = Some (i, key)) then 1 else 0.
Proof.
  unfold charged. rewrite filter_app, length_app, filter_cons, filter_nil. case_decide; cbn [length]; lia.
Qed.

(** One action spends at most what it was given. *)
Lemma act_charged i key x w {T} (a : action T) cr :
  covered cr a →
  charged i key (log (perform x w a).2) + amount i key (after units cr a (perform x w a).1)
  ≤ charged i key (log w) + amount i key cr + Z.of_nat (units i) * grants i key a (perform x w a).1.
Proof.
  intros Hc. assert (Hpos : ∀ c, 0 ≤ amount i key c) by (intros [[[]]|]; cbn; [case_bool_decide|]; lia).
  destruct a; try (cbn [perform after grants]; repeat case_match; cbn; lia).
  - cbn [perform after grants]. destruct (Allow _ _ _) as [ok l]. cbn [fst snd]. specialize (Hpos cr).
    destruct ok; cbn; [|lia]. repeat case_bool_decide; naive_solver lia.
  - cbn [after grants]. set (cr' := match cr with Some _ => _ | None => _ end).
    assert (Hle : amount i key cr' ≤ amount i key cr) by (unfold cr'; destruct cr as [[[i' k'] [|n]]|]; cbn; try case_bool_decide; lia).
    destruct (perform_emit x w ev) as [(ev' & _ & -> & Hr & _)|[_ ->]]; [|lia].
    rewrite charged_snoc, (charge_records _ _ Hr). case_decide as E; [|lia].
    cbn in Hc. rewrite E in Hc. destruct Hc as [n ->]. unfold cr'. cbn. rewrite bool_decide_true by done. lia.
Qed.

(** What the goroutines of a pool hold covers what they may emit. *)
Record paid (ts : gmap nat thread) (cr : credits) : Prop := {
  pd_gated : ∀ j t, ts !! j = Some t → gated units (cr !! j) (th_rest t);
  pd_fresh : ∀ j, ts !! j = None → cr !! j = None;
  pd_units : ∀ j i key n, cr !! j = Some (i, key, n) → (n ≤ units i)%nat
}.

Lemma paid_spawn ts cr i p :
  ts !! i = None → goroutine err_text policyFile sv p → paid ts cr → paid (<[i := mkThread p p []]> ts) cr.
Proof.
  intros Hi Hp [Hg Hf Hu]. split; [|intros j [Hj _]%lookup_insert_None; by apply Hf|done].
  intros j t [[<- <-]|[_ Hj]]%lookup_insert_Some; [|by apply Hg]. rewrite Hf by done. by eapply goroutine_gated.
Qed.

Lemma paid_act ts cr j p0 {T} (a : action T) k h t past :
  ts !! j = Some (mkThread p0 (Act a k) h) → paid ts cr →
  covered (cr !! j) a
  ∧ paid (<[j := mkThread p0 (k t) past]> ts) (partial_alter (λ _, after units (cr !! j) a t) j cr).
Proof.
  intros Hj [Hg Hf Hu]. destruct (Hg _ _ Hj) as [Hc Hk]. split; [done|]. split.
  - intros j' t' [[<- <-]|[Hne Hj']]%lookup_insert_Some.
    + rewrite lookup_partial_alter_eq. apply Hk.
    + rewrite lookup_partial_alter_ne by done. by apply Hg.
  - intros j' [Hj' Hne]%lookup_insert_None. rewrite lookup_partial_alter_ne by done. by apply Hf.
  - intros j' i key n. destruct (decide (j = j')) as [<-|Hne]; [|rewrite lookup_partial_alter_ne by done; apply Hu].
    rewrite lookup_partial_alter_eq. specialize (Hu j). destruct a; cbn [after]; try apply Hu.
    + destruct t; [|apply Hu]. by intros [= <- <- <-].
    + destruct (cr !! j) as [[[i' key'] [|m]]|] eqn:E; [apply Hu| |done]. intros [= <- <- <-]. specialize (Hu _ _ _ eq_refl). lia.
Qed.

(** Whatever the interleaving, the events charged to a key and the credit still
    held grow by no more than the calls granted to it are worth. *)
Lemma metered_paid s cs s' : metered s cs s' → ∀ cr, paid s.2 cr →
  ∃ cr', paid s'.2 cr'
    ∧ (∀ i, get_limiter i s'.1 = (Allows (get_limiter i s.1) (calls_of i cs)).2)
    ∧ ∀ i key, charged i key (log s'.1) + total i key cr'
        ≤ charged i key (log s.1) + total i key cr + Z.of_nat (units i) * granted i key s.1 cs.
Proof.
  induction 1 as [s|w ts i p cs s' Hi Hp _ IH|w ts j p0 T a k h x cs s' Hj Hx _ IH]; intros cr Hpd; cbn [fst snd] in *.
  - exists cr. split; [done|]. split; [done|]. intros i key. change (granted i key s.1 []) with 0. lia.
  - apply IH. by apply paid_spawn.
  - destruct (paid_act _ _ _ _ a k h (perform x w a).1 (h ++ [Step a w x]) Hj Hpd) as [Hc Hpd1].
    destruct (IH _ Hpd1) as (cr' & Hpd' & Hlim & Hle). exists cr'. split; [done|]. split.
    + intros i. destruct (granted_act i "" x w a cs) as [_ ->]. apply Hlim.
    + intros i key. destruct (granted_act i key x w a cs) as [-> _]. specialize (Hle i key).
      pose proof (act_charged i key x w a _ Hc) as Hstep. rewrite total_alter in Hle. rewrite (total_split i key cr j). lia.
Qed.

(** ** Goroutines under way *)

Definition running (t : thread) : bool := match th_rest t with Ret _ => false | Act _ _ => true end.
Definition under_way (ts : gmap nat thread) : gmap nat thread := filter (λ jt, running jt.2 = true) ts.

(** Only those under way hold credit worth counting. *)
Lemma paid_under_way ts cr : paid ts cr →
  ∃ cr', paid ts cr' ∧ ∀ i key, total i key cr' ≤ Z.of_nat (units i) * Z.of_nat (size (under_way ts)).
Proof.
  intros [Hg Hf Hu]. exists (filter (λ jc, is_Some (under_way ts !! jc.1)) cr). split.
  - split.
    + intros j t Hj. destruct (running t) eqn:Er; [|unfold running in Er; by destruct (th_rest t)].
      assert (filter (λ jc, is_Some (under_way ts !! jc.1)) cr !! j = cr !! j) as ->; [|by apply Hg].
      destruct (cr !! j) as [c|] eqn:E.
      * apply map_lookup_filter_Some. split; [done|]. exists t. by apply map_lookup_filter_Some.
      * apply map_lookup_filter_None. by left.
    + intros j Hj. apply map_lookup_filter_None. left. by apply Hf.
    + intros j i key n [Hj _]%map_lookup_filter_Some. by eapply Hu.
  - intros i key. set (cr' := filter _ cr).
    assert (Hs : (size cr' ≤ size (under_way ts))%nat).
    { rewrite <-!size_dom. apply subseteq_size. intros j [c Hj]%elem_of_dom. apply elem_of_dom.
      by apply map_lookup_filter_Some in Hj as [_ Hj]. }
    assert (Hu' : map_Forall (λ _ c, amount i key (Some c) ≤ Z.of_nat (units i)) cr').
    { intros j [[i' key'] n] [Hj _]%map_lookup_filter_Some. cbn. case_bool_decide as E; [|lia]. destruct E as [<- _].
      apply Hu in Hj. lia. }
    clearbody cr'. transitivity (Z.of_nat (units i) * Z.of_nat (size cr')); [|nia]. clear Hs. revert Hu'. unfold total.
    induction cr' as [|j c m Hm IH] using map_ind; intros Hu'; [rewrite map_fold_empty; lia|].
    apply map_Forall_insert in Hu' as [Hc Hu']; [|done]. rewrite map_fold_insert_L by (done || (intros; lia)).
    rewrite map_size_insert_None by done. specialize (IH Hu'). lia.
Qed.

(** A goroutine scheduled alone to its end. *)
Fixpoint run_calls {A} (o : nat → ext) (n : nat) (w : world) (p : prog A) : list call :=
  match p with
  | Ret _ => []
  | Act a k => call_of a (o n) ++ run_calls o (S n) (perform (o n) w a).2 (k (perform (o n) w a).1)
  end.

Lemma run_metered p0 (p : prog (option outcome)) : ∀ o n w ts i h,
  oracle_ok o n w p → ts !! i = Some (mkThread p0 p h) →
  metered (w, ts) (run_calls o n w p)
    ((run o n w p).2, <[i := mkThread p0 (Ret (run o n w p).1.1) (h ++ run_history o n w p)]> ts).
Proof.
  induction p as [a|T a k IH]; intros o n w ts i h; cbn.
  - intros _ Hi. rewrite app_nil_r, insert_id by done. constructor.
  - intros [Hx Ho] Hi. eapply mt_act; [done..|].
    specialize (IH _ o (S n) _ (<[i := mkThread p0 (k (perform (o n) w a).1) (h ++ [Step a w (o n)])]> ts) i
      (h ++ [Step a w (o n)]) Ho (lookup_insert_eq _ _ _)).
    rewrite insert_insert_eq, <-app_assoc in IH. destruct (perform (o n) w a) as [t w1]. exact IH.
Qed.

End Pool.

(** ** The bound *)

(** The rate per minute and the burst of each limiter of a broker. *)
Definition allowance (i : limiter_id) : Z := match i with LimLease => 10 | LimClaim => 60 | _ => 1 end.
(** What one granted call may put on record: a batch of claims, or one event. *)
Definition batch (i : limiter_id) : Z := match i with LimClaim => 50 | _ => 1 end.

Section Started.
Context {X : Externals}.
Context (pem_Decode : string → option string).
Context (ParsePKCS1PrivateKey : string → option string) (ParsePKCS8PrivateKey : string → option private_key).
Context (AppendCertsFromPEM : string → bool) (err_text : WatchErr → string).
Context (getenv : string → string) (files : string → file) {Certificate : Type}.
Abbreviation startup := (startup pem_Decode ParsePKCS1PrivateKey ParsePKCS8PrivateKey AppendCertsFromPEM getenv files).

Lemma startup_limiters hostname generated stat load x sv w rv signer (l : listener Certificate) i :
  startup hostname generated stat load x = Ok (sv, w, rv, signer, l) →
  get_limiter i w = NewLimiter (inject_Z (allowance i)) (allowance i).
Proof.
  unfold BrokerMain.startup. destruct (loadSigner _ _ _ _ _ _) as [sg|]; [|done]. destruct (NewStore _) as [[pol sum]|e]; [|done].
  case_bool_decide; [done|]. destruct reviewerCfg as [cfg|]; [|done]. destruct (NewReviewer _ _ _) as [rv'|]; [|done].
  destruct (New _ _ _ _ _ _ _) as [sv' w0] eqn:En.
  destruct (choose_listener _ _ _ _ _) as [l'|]; [|done]. intros H0. injection H0 as _ <- _ _ _.
  destruct (granted_act i "" x w0 (EmitEvent (started_event w0 sg)) []) as [_ E]. cbn [call_of app calls_of omap list_omap Allows snd] in E.
  transitivity (get_limiter i w0); [symmetry; exact E|]. injection En as _ <-. by destruct i.
Qed.

(** C21: Flooding is bounded.  In every execution of a broker that came up, over
    any stretch of it in which the clock does not go back, whatever the requests
    and their interleaving: the events committed to the audit stream on account
    of one caller are at most the burst of the limiter they are charged to plus
    its rate times the elapsed time, and one more for each goroutine already under
    way (each times 50 for claims, which come in batches); the relative error and
    the slack per call are the accumulated binary64 rounding.  Issuances, denials,
    renewals and surrenders are charged to the lease limiter (10 a minute, burst
    10), claims to the claim limiter (60, 60), sampled rate-limit denials and
    failed authentications to the limiters that sample them (1, 1). *)
Theorem audit_flood_bound hostname generated stat load x sv w0 rv signer (l : listener Certificate) before w1 ts1 calls w2 ts2 i key t0 t1 t2 :
  startup hostname generated stat load x = Ok (sv, w0, rv, signer, l) →
  metered err_text (policyFile getenv) sv (w0, ∅) before (w1, ts1) →
  metered err_text (policyFile getenv) sv (w1, ts1) calls (w2, ts2) →
  clocked t0 t1 (calls_of i before) → clocked t1 t2 (calls_of i calls) →
  (inject_Z (charged i key (log w2) - charged i key (log w1))
   <= inject_Z (batch i)
      * (inject_Z (Z.of_nat (size (under_way ts1))) + inject_Z (allowance i)
         + fdiv (inject_Z (allowance i)) 60 * elapsed t1 t2 * (1 + drift)
         + inject_Z (Z.of_nat (length (calls_of i calls))) * (drift * (inject_Z (allowance i) + fdiv (inject_Z (allowance i)) 60 + 1))))%Q.
Proof.
  intros Hs H1 H2 Hc1 Hc2. destruct (startup_up _ _ _ _ _ _ _ _ _ _ _ _ _ _ _ _ Hs) as [Ha Hp _ _ _ _].
  destruct (startup_server _ _ _ _ _ _ _ _ _ _ _ _ _ _ _ _ Hs) as [Hcfg _].
  assert (Ho : ∀ token, all_actions outside (sv_authn sv token)) by (intros token; rewrite Ha; apply authenticator_outside).
  assert (Hu : Z.of_nat (units sv i) = batch i) by (unfold units; rewrite Hcfg; by destruct i).
  destruct (metered_paid _ _ _ Ho Hp _ _ _ H1 ∅) as (cr1 & Hpd1 & Hl1 & _); [by split|]. cbn [fst snd] in *.
  destruct (paid_under_way _ _ _ Hpd1) as (cr & Hpd & Hopen). specialize (Hopen i key).
  destruct (metered_paid _ _ _ Ho Hp _ _ _ H2 cr Hpd) as (cr2 & _ & _ & Hle). specialize (Hle i key). cbn [fst snd] in *.
  assert (Hpos : 0 ≤ total i key cr2).
  { unfold total. apply (map_fold_weak_ind (λ z _, 0 ≤ z)); [lia|]. intros j [[i' k'] n] m z _ Hz. cbn. case_bool_decide; lia. }
  pose proof (limiter_rate_bound (inject_Z (allowance i)) (allowance i) (calls_of i before) t0 t1 t2 (calls_of i calls) key) as Hb.
  cbv zeta in Hb. rewrite <-(startup_limiters _ _ _ _ _ _ _ _ _ _ i Hs), <-Hl1 in Hb.
  fold (granted i key w1 calls) in Hb. rewrite Hu in *.
  assert (Hz : charged i key (log w2) - charged i key (log w1) ≤ batch i * (Z.of_nat (size (under_way ts1)) + granted i key w1 calls)) by lia.
  rewrite Zle_Qle in Hz. eapply Qle_trans; [exact Hz|]. rewrite inject_Z_mult, inject_Z_plus.
  rewrite !(Qmult_comm (inject_Z (batch i))). apply Qmult_le_compat_r; [|by destruct i].
  specialize (Hb ltac:(by destruct i) ltac:(by destruct i) Hc1 Hc2). lra.
Qed.

End Started.

(** The first request to a broker that has just come up. *)
Module FloodSample.
Import StartSample.
Definition calls : list (limiter_id * (Time * string)) := @run_calls sample_ext _ oracle 0 w0 request.

Lemma served : @metered sample_ext (λ _, "error") (policyFile getenv) sv (w0, ∅) calls
  (final.2, {[0%nat := mkThread request (Ret (Some (Reply reply))) past]}).
Proof.
  assert (E : final.1.1 = Some (Reply reply)) by (vm_compute; reflexivity).
  eapply (mt_spawn _ _ _ _ _ 0%nat request); [reflexivity|apply g_request|].
  pose proof (@run_metered sample_ext (λ _, "error") (policyFile getenv) sv request request oracle 0%nat w0
    {[0%nat := mkThread request request []]} 0%nat []) as Hr.
  change (run oracle 0 w0 request) with final in Hr. rewrite E in Hr.
  rewrite insert_singleton_eq in Hr. apply Hr; [vm_compute; repeat split|apply lookup_singleton_eq].
Qed.

Lemma lease_calls : ∃ t, calls_of LimLease calls = [(t, "agents/builder")] ∧ sample_now ≤ t ≤ sample_now + Minute.
Proof. eexists. split; [vm_compute; reflexivity|]. vm_compute. split; discriminate. Qed.
End FloodSample.

(** At most the burst and what a minute adds. *)
Lemma audit_flood_bound_witness :
  charged LimLease "agents/builder" (log StartSample.final.2) - charged LimLease "agents/builder" (log StartSample.w0) ≤ 20.
Proof.
  destruct FloodSample.lease_calls as (t & Ec & Ht). pose proof FloodSample.served as H2. pose proof StartSample.boot_ok as Hb.
  revert H2. generalize StartSample.final.2. intros w H2. unfold StartSample.request, StartSample.sv, StartSample.w0 in *.
  destruct StartSample.booted as [[[[sv w0] rv] signer] l] eqn:Eb. cbn [fst snd] in *.
  pose proof (@audit_flood_bound sample_ext Some (λ _, None) StartSample.pkcs8 (λ _, true) (λ _, "error")
    StartSample.getenv StartSample.files string (Some "broker-0") None (Some 1) (Some "cert") (StartSample.oracle 1)
    sv w0 rv signer l [] w0 ∅ FloodSample.calls w _ LimLease "agents/builder" sample_now sample_now (sample_now + Minute) Hb
    (mt_refl _ _ _ _) H2) as H.
  rewrite Ec in H. specialize (H ltac:(done) ltac:(cbn; lia)).
  apply Z.lt_succ_r. rewrite Zlt_Qlt. eapply Qle_lt_trans; [exact H|]. vm_compute. reflexivity.
Defined.
