(* ===== verification/Probes.v ===== *)
(** * The cached readiness probes (provider/onepassword.go: Healthy, cmd/ha-notify-proxy/main.go: newCachedProbe)

    Two functions cache the answer of an upstream for a while, "so Kubernetes
    readiness checks don't hammer Connect".  [CachedProbe] is what both promise of
    one call: it answers from the cache while that is young enough, and probes and
    dates the answer otherwise.  What follows of a health listener, which anyone
    may ask as often as they like, is proved of the contract and holds of both
    services. *)

From S2P Require Import Prelude GoStrings GoTime Encoding RateLimit Json AuditStream Metrics World Trace Provider Server Upkeep Samples.
From S2P Require NotifyMain.
Local Open Scope Z_scope.
Local Open Scope stdpp_scope.

(** ** What a trace shows of the clock and of the outside *)

Definition clock (l : list obs) : list Time :=
  omap (λ o, match o with Obs Now t => Some t | _ => None end) l.

Lemma clock_app l1 l2 : clock (l1 ++ l2) = clock l1 ++ clock l2.
Proof. apply omap_app. Qed.

(** No file read, no request sent. *)
Definition inward (l : list obs) : Prop := reads l = [] ∧ https l = [].

Lemma inward_app l1 l2 : inward (l1 ++ l2) ↔ inward l1 ∧ inward l2.
Proof. unfold inward. rewrite reads_app, https_app, !app_nil. naive_solver. Qed.

(** The clock does not go back, and stays within two instants. *)
Definition steady (t0 t1 : Time) (l : list obs) : Prop :=
  StronglySorted Z.le (clock l) ∧ Forall (λ t, t0 ≤ t ≤ t1) (clock l).

Lemma steady_app t0 t1 l1 l2 : steady t0 t1 (l1 ++ l2) → steady t0 t1 l1 ∧ steady t0 t1 l2.
Proof.
  unfold steady. rewrite clock_app. intros [[H1 H2]%StronglySorted_app [H3 H4]%Forall_app]; tauto.
Qed.

(** [time.Since] compared with a constant, saturation included. *)
Lemma tSub_ltb t u d : 0 < d ≤ int64_max → (tSub t u <? d) = (t - u <? d).
Proof. unfold tSub, int64_max, int64_min. intros Hd. destruct (Z.ltb_spec (t - u) d); [apply Z.ltb_lt|apply Z.ltb_ge]; lia. Qed.

(** ** The contract of one call *)

Section Contract.
Context {S : Type} (ttl : Duration) (probe : prog bool) (held : S → option (Time * bool)).

(** The answer is the one held, which is young. *)
Definition answers_held (s : S) (l : list obs) (ok : bool) (s' : S) : Prop :=
  ∃ at_ now, held s = Some (at_, ok) ∧ s' = s ∧ clock l = [now] ∧ inward l ∧ now - at_ < ttl.

(** The answer is that of a probe, made because what was held was old. *)
Definition answers_probed (s : S) (l : list obs) (ok : bool) (s' : S) : Prop :=
  ∃ pre lp now, l = pre ++ lp ++ [Obs Now now] ∧ inward pre ∧ traced probe lp ok ∧ held s' = Some (now, ok)
    ∧ ∀ at_ b, held s = Some (at_, b) → ∃ t, t ∈ clock pre ∧ ttl ≤ t - at_.

End Contract.

Class CachedProbe {S : Type} (ttl : Duration) (probe : prog bool) (held : S → option (Time * bool)) (ask : S → prog (bool * S)) := {
  cp_ttl : 0 < ttl ≤ int64_max;
  cp_once lp ok : traced probe lp ok → clock lp = [] ∧ (length (https lp) ≤ 1)%nat;
  cp_ask s l ok s' : traced (ask s) l (ok, s') →
    answers_held ttl held s l ok s' ∨ answers_probed ttl probe held s l ok s'
}.

(** ** A health listener: any requests, one after the other as the mutex of the
    probe orders them *)

Fixpoint serve {S R} (handle : S → string → list string → prog (R * S)) (reqs : list (string * list string)) (s : S)
  : prog (list R * S) :=
  match reqs with
  | [] => Ret ([], s)
  | (method, path) :: reqs' =>
    '(r, s1) ← handle s method path;
    '(rs, s2) ← serve handle reqs' s1;
    Ret (r :: rs, s2)
  end.

Lemma serve_cons {S R} (handle : S → string → list string → prog (R * S)) m p reqs s l rs s' :
  traced (serve handle ((m, p) :: reqs) s) l (rs, s') →
  ∃ r rs' s1 l1 l2, l = l1 ++ l2 ∧ rs = r :: rs' ∧ traced (handle s m p) l1 (r, s1) ∧ traced (serve handle reqs s1) l2 (rs', s').
Proof.
  cbn [serve]. intros ([r s1] & l1 & l2' & -> & H1 & H2)%traced_bind.
  apply traced_bind in H2 as ([rs' s2] & l2 & l3 & -> & H2 & [-> H]). injection H as -> ->.
  rewrite app_nil_r. eauto 10.
Qed.

Section Listener.
Context {S R : Type} {ttl : Duration} {probe : prog bool} {held : S → option (Time * bool)} {ask : S → prog (bool * S)}.
Context `{!CachedProbe ttl probe held ask}.
Context (handle : S → string → list string → prog (R * S)) (status : bool → R).

(** The listener reaches the probe through readiness only, and reports its answer. *)
Class ReadyHandler := {
  rh_other s m p l r s' : traced (handle s m p) l (r, s') →
    (∃ ok, traced (ask s) l (ok, s')) ∨ s' = s ∧ clock l = [] ∧ inward l;
  rh_ready s l r s' : traced (handle s "GET" ["readyz"]) l (r, s') → ∃ ok, traced (ask s) l (ok, s') ∧ r = status ok
}.

(** What a probe of the trace [l] says, if it is the last one and not old. *)
Definition latest (t0 : Time) (l : list obs) (s : S) (ok : bool) : Prop :=
  ∃ l1 lp at_ l2, l = l1 ++ lp ++ Obs Now at_ :: l2 ∧ traced probe lp ok ∧ held s = Some (at_, ok)
    ∧ inward l2 ∧ Forall (λ t, t - at_ < ttl) (clock l2)
    ∧ (Z.of_nat (length (https l)) - 1) * ttl ≤ at_ - t0.

Definition dated (t0 : Time) (s0 : S) (l : list obs) (s : S) : Prop :=
  s = s0 ∧ inward l ∨ ∃ ok, latest t0 l s ok.

(** What is held at the start is too old to be an answer. *)
Definition stale (t0 : Time) (s0 : S) : Prop := ∀ at_ b, held s0 = Some (at_, b) → at_ + ttl ≤ t0.

Lemma latest_quiet t0 l s ok l' :
  inward l' → (∀ at_, held s = Some (at_, ok) → Forall (λ t, t - at_ < ttl) (clock l')) → latest t0 l s ok → latest t0 (l ++ l') s ok.
Proof.
  intros Hi Hc (l1 & lp & at_ & l2 & -> & Hp & Hh & Hi2 & Hc2 & Hn).
  exists l1, lp, at_, (l2 ++ l'). rewrite inward_app, clock_app, Forall_app, https_app, (proj2 Hi), app_nil_r, <-!app_assoc. cbn [app].
  split_and!; auto; apply Hi2.
Qed.

Lemma ask_latest t0 t1 s0 l s l' ok s' :
  stale t0 s0 → steady t0 t1 (l ++ l') → dated t0 s0 l s → traced (ask s) l' (ok, s') → latest t0 (l ++ l') s' ok.
Proof.
  intros Hs Ht Hd [H|H]%cp_ask.
  - destruct H as (at_ & now & Hh & -> & Hc & Hi & Hy). destruct Hd as [[-> _]|[ok' Hl]].
    + apply steady_app in Ht as [_ [_ Ht]]. rewrite Hc, Forall_singleton in Ht. specialize (Hs _ _ Hh). lia.
    + assert (ok' = ok) as -> by (destruct Hl as (?&?&?&?&_&_&Hh'&_); congruence).
      apply latest_quiet; [done| |done]. intros at' Hat. rewrite Hc, Forall_singleton. assert (at' = at_) by congruence. by subst.
  - destruct H as (pre & lp & now & -> & Hi & Hp & Hh & Hold).
    destruct (cp_once (ttl := ttl) (held := held) (ask := ask) lp ok Hp) as [Hcp Hn]. pose proof cp_ttl as Httl.
    exists (l ++ pre), lp, now, []. rewrite <-app_assoc. split_and!; [done..|constructor|].
    rewrite !https_app, !length_app, (proj2 Hi). cbn [length https omap list_omap]. apply steady_app in Ht as [_ Ht].
    destruct Ht as [Hsrt Hrng]. rewrite !clock_app, Hcp in Hsrt, Hrng. cbn [app clock omap list_omap] in Hsrt, Hrng.
    rewrite Forall_app, Forall_singleton in Hrng. destruct Hrng as [_ Hnow].
    destruct Hd as [[-> [_ H0]]|[ok' Hl]].
    + rewrite H0. cbn [length]. nia.
    + destruct Hl as (l1 & lp' & at_ & l2 & _ & _ & Hh' & _ & _ & Hle). destruct (Hold _ _ Hh') as (t & Hin & Hge).
      apply StronglySorted_app in Hsrt as (Hlt & _ & _).
      assert (t ≤ now) by (apply Hlt; [done|by left]). nia.
Qed.

Context {handler_ok : ReadyHandler}.

Lemma serve_dated t0 t1 s0 reqs : stale t0 s0 → ∀ s l0 l rs s',
  steady t0 t1 (l0 ++ l) → dated t0 s0 l0 s → traced (serve handle reqs s) l (rs, s') → dated t0 s0 (l0 ++ l) s'.
Proof.
  intros Hs. induction reqs as [|[m p] reqs IH]; intros s l0 l rs s' Ht Hd H.
  - destruct H as [-> H]. injection H as _ ->. by rewrite app_nil_r.
  - apply serve_cons in H as (r & rs' & s1 & l1 & l2 & -> & -> & H1 & H2). rewrite app_assoc in *.
    eapply IH; [exact Ht| |exact H2]. apply steady_app in Ht as [Ht _].
    destruct (rh_other _ _ _ _ _ _ H1) as [[ok Ha]|(-> & Hc & Hi)].
    + right. exists ok. by eapply ask_latest.
    + destruct Hd as [[-> Hi0]|[ok Hl]]; [left; by rewrite inward_app|right; exists ok].
      apply latest_quiet; [done| |done]. intros at_ _. by rewrite Hc.
Qed.

End Listener.

(** Any number of requests to the listener and then one of readiness, while the
    clock does not go back: at most one request goes upstream per [ttl], and one
    to begin with; the answer is that of a probe in the trace, the last one, and
    every clock reading since is less than [ttl] later. *)
Definition readiness_contract {S R} (ttl : Duration) (probe : prog bool) (handle : S → string → list string → prog (R * S))
    (status : bool → R) (s0 : S) (epoch : Time) : Prop :=
  ∀ reqs l rs s l' r s' t0 t1, epoch ≤ t0 ≤ t1 →
    traced (serve handle reqs s0) l (rs, s) → traced (handle s "GET" ["readyz"]) l' (r, s') → steady t0 t1 (l ++ l') →
    Z.of_nat (length (https (l ++ l'))) ≤ 1 + (t1 - t0) `div` ttl
    ∧ ∃ l1 lp ok at_ l2, l ++ l' = l1 ++ lp ++ Obs Now at_ :: l2 ∧ traced probe lp ok ∧ r = status ok
        ∧ inward l2 ∧ Forall (λ t, t - at_ < ttl) (clock l2).

Lemma cached_readiness {S R : Type} `{CP : !@CachedProbe S ttl probe held ask} (handle : S → string → list string → prog (R * S)) status s0 epoch :
  ReadyHandler (ask := ask) handle status → (∀ t0, epoch ≤ t0 → stale (ttl := ttl) (held := held) t0 s0) →
  readiness_contract ttl probe handle status s0 epoch.
Proof.
  intros Hh Hs reqs l rs s l' r s' t0 t1 Ht H1 H2 Hst. pose proof cp_ttl as Httl.
  assert (Hd : dated (ttl := ttl) (probe := probe) (held := held) t0 s0 l s).
  { eapply (serve_dated handle status t0 t1 s0 reqs (Hs t0 ltac:(lia)) s0 []); [by apply steady_app in Hst as [? _]|by left|done]. }
  destruct (rh_ready handle status _ _ _ _ H2) as (ok & Ha & ->).
  destruct (ask_latest _ _ _ _ _ _ _ _ (Hs t0 ltac:(lia)) Hst Hd Ha) as (l1 & lp & at_ & l2 & E & Hp & _ & Hi & Hc & Hn).
  split; [|by exists l1, lp, ok, at_, l2].
  assert (at_ ≤ t1).
  { destruct Hst as [_ Hst]. rewrite E, !clock_app in Hst. do 2 apply Forall_app in Hst as [_ Hst]. cbn in Hst. inversion Hst. lia. }
  assert (Z.of_nat (length (https (l ++ l'))) - 1 ≤ (t1 - t0) `div` ttl); [|lia].
  apply Z.div_le_lower_bound; lia.
Qed.

(** ** The two services *)

(** The broker's: its readiness is the health of 1Password Connect. *)
Definition healthy (err : option HealthErr) : bool := match err with Some _ => false | None => true end.
Definition connect_probe (o : OnePassword) : prog bool := err ← probeAuthenticated o; Ret (healthy err).
Definition health_held (h : health) : option (Time * bool) := Some (h_at h, healthy (h_err h)).

Ltac trace_steps :=
  repeat match goal with
  | H : traced (mbind _ (act _)) _ _ |- _ => let t := fresh "t" in let l := fresh "l" in rewrite traced_act in H; destruct H as (t & l & -> & H)
  | H : traced (Ret _) _ _ |- _ => destruct H as [-> H]; try (injection H as -> ->)
  end.

#[global] Instance broker_cached o : CachedProbe healthTTL (connect_probe o) health_held (Upkeep.ready o).
Proof.
  split; [by split|..].
  - intros lp ok H. unfold connect_probe, probeAuthenticated in H. apply traced_bind in H as (err & l1 & l2 & -> & H1 & H2).
    trace_steps. destruct (TrimSpace <$> t); trace_steps; [case_match; trace_steps|]; (split; [done|cbn; lia]).
  - intros s l ok s' H. unfold Upkeep.ready in H. trace_steps. apply traced_bind in H as ([err h'] & l1 & l2 & -> & H1 & H2).
    unfold Healthy in H1. trace_steps. rewrite tSub_ltb in H1 by done. destruct (Z.ltb_spec (t0 - h_at s) healthTTL) as [Hlt|Hge].
    + trace_steps. left. exists (h_at s), t0. by repeat split.
    + right. apply traced_bind in H1 as (err' & l3 & l4 & -> & H1 & H3). trace_steps.
      exists [Obs CurrentPolicy t; Obs Now t0], l3, t1. split_and!; [cbn; by rewrite <-?app_assoc|done| |done|].
      * apply traced_bind. exists err', l3, []. by rewrite app_nil_r.
      * intros at_ b [= <- <-]. exists t0. split; [by left|lia].
Qed.

#[global] Instance broker_ready_handler signer o :
  ReadyHandler (ask := Upkeep.ready o) (Upkeep.HealthHandler signer (Upkeep.ready o)) (λ ok, PStatus (if ok then 200 else 503)).
Proof.
  split.
  - intros s m p l r s' H. unfold HealthHandler in H. destruct (health_route_of p) as [rt|]; [|trace_steps; by right].
    destruct (negb (is_get m)); [trace_steps; by right|]. destruct rt; [trace_steps; by right| |trace_steps; by right|].
    + apply traced_bind in H as ([ok s1] & l1 & l2 & -> & H1 & H2). trace_steps. left. exists ok. by rewrite app_nil_r.
    + right. unfold handleVerifyKey in H. apply traced_bind in H as (? & l1 & l2 & -> & H1 & H2). by trace_steps.
  - intros s l r s' H. apply traced_bind in H as ([ok s1] & l1 & l2 & -> & H1 & H2). trace_steps. exists ok. by rewrite app_nil_r.
Qed.

(** The proxy's: its readiness is that Home Assistant answers at all. *)
Definition manifest_probe (haURL : string) : prog bool :=
  resp ← act (HttpDo (NotifyMain.probe_request (haURL +:+ "/manifest.json")));
  Ret (match resp with Some _ => true | None => false end).
Definition probe_held (p : NotifyMain.probe) : option (Time * bool) :=
  if NotifyMain.pb_seen p then Some (NotifyMain.pb_at p, NotifyMain.pb_ok p) else None.

#[global] Instance proxy_cached haURL : CachedProbe (30 * Second) (manifest_probe haURL) probe_held (NotifyMain.ready haURL).
Proof.
  split; [by split|..].
  - intros lp ok H. unfold manifest_probe in H. trace_steps. split; [done|cbn; lia].
  - intros s l ok s' H. unfold NotifyMain.ready, NotifyMain.cached_probe in H.
    assert (Hagain : ∀ l, traced (NotifyMain.probe_again (haURL +:+ "/manifest.json")) l (ok, s') →
      ∃ lp now, l = lp ++ [Obs Now now] ∧ traced (manifest_probe haURL) lp ok ∧ probe_held s' = Some (now, ok)).
    { clear H l. intros l H. unfold NotifyMain.probe_again in H. trace_steps. eexists [_], _. split; [done|]. split; [|done]. eexists _, []. done. }
    destruct (NotifyMain.pb_seen s) eqn:Es.
    + trace_steps. rewrite tSub_ltb in H by done. destruct (Z.ltb_spec (t - NotifyMain.pb_at s) (30 * Second)) as [Hlt|Hge].
      * trace_steps. left. exists (NotifyMain.pb_at s), t. unfold probe_held. rewrite Es. by repeat split.
      * apply Hagain in H as (lp & now & -> & Hp & Hh). right. exists [Obs Now t], lp, now. split_and!; [done..|].
        unfold probe_held. rewrite Es. intros at_ b [= <- <-]. exists t. split; [by left|lia].
    + apply Hagain in H as (lp & now & -> & Hp & Hh). right. exists [], lp, now. unfold probe_held at 2. by rewrite Es.
Qed.

#[global] Instance proxy_ready_handler signer haURL :
  ReadyHandler (ask := NotifyMain.ready haURL) (NotifyMain.HealthHandler signer (NotifyMain.ready haURL))
    (λ ok, (if ok then 200 else 503, "")).
Proof.
  split.
  - intros s m p l r s' H. unfold NotifyMain.HealthHandler in H. destruct (health_route_of p) as [rt|]; [|trace_steps; by right].
    destruct (negb (is_get m)); [trace_steps; by right|]. destruct rt; [trace_steps; by right| |trace_steps; by right|trace_steps; by right].
    apply traced_bind in H as ([ok s1] & l1 & l2 & -> & H1 & H2). trace_steps. left. exists ok. by rewrite app_nil_r.
  - intros s l r s' H. apply traced_bind in H as ([ok s1] & l1 & l2 & -> & H1 & H2). trace_steps. exists ok. by rewrite app_nil_r.
Qed.

(** C38: Readiness checks cannot be used to hammer the upstreams, and never report
    old news.  Of the broker's health listener and 1Password Connect with a cache
    of 60 seconds, and of the proxy's and Home Assistant with one of 30: however
    many requests the listener gets, of whatever method and path, at most one
    request goes upstream per lifetime of the cache, and one to begin with; and
    the answer to a readiness check is that of the last probe made, by which no
    clock reading since is as much as a lifetime later.  The zero date the
    broker's cache starts from never passes for an answer once the clock is past
    the first minute of year 1. *)
Theorem readiness_probes signer o haURL :
  readiness_contract healthTTL (connect_probe o) (Upkeep.HealthHandler signer (Upkeep.ready o))
    (λ ok, PStatus (if ok then 200 else 503)) health_init (zeroTime + healthTTL)
  ∧ readiness_contract (30 * Second) (manifest_probe haURL) (NotifyMain.HealthHandler signer (NotifyMain.ready haURL))
      (λ ok, (if ok then 200 else 503, "")) NotifyMain.probe_init zeroTime.
Proof.
  split; (eapply cached_readiness; [exact _|]).
  - intros t0 Ht at_ b [= <- _]. exact Ht.
  - intros t0 Ht at_ b [=].
Qed.

(** Two readiness checks of a proxy ten seconds apart, the second answered from
    the cache; the first of a broker, whose token cannot be read. *)
Module ProbeSample.
Definition ha : string := "http://ha.local".
Definition asked : list obs :=
  [Obs (HttpDo (NotifyMain.probe_request (ha +:+ "/manifest.json"))) (Some (mkHttpResponse 401 "")); Obs Now sample_now].
Definition again : list obs := [Obs Now (sample_now + 10 * Second)].
Definition cache : NotifyMain.probe := NotifyMain.mkProbe sample_now true true.
Definition connect : OnePassword := NewOnePassword "http://connect" "/token".
Definition policy : Policy.Policy := Policy.mkPolicy [] [] "" ∅ ∅.
Definition unread : list obs :=
  [Obs CurrentPolicy policy; Obs Now sample_now; Obs (ReadFile "/token") None; Obs Now (sample_now + Second)].
End ProbeSample.

Lemma readiness_probes_witness :
  Z.of_nat (length (https (ProbeSample.asked ++ ProbeSample.again))) ≤ 1 + 10 `div` 30
  ∧ Z.of_nat (length (https ProbeSample.unread)) ≤ 1 + 1 `div` 60.
Proof.
  destruct (readiness_probes demo_signer ProbeSample.connect ProbeSample.ha) as [Hb Hp]. split.
  - refine (proj1 (Hp [("GET", ["readyz"])] _ _ _ _ (200, "") ProbeSample.cache sample_now (sample_now + 10 * Second) _ _ _ _)).
    + by vm_compute.
    + apply traced_bind. eexists (_, _), _, []. split; [symmetry; apply app_nil_r|]. split; [|by repeat split].
      cbn. eexists (Some _), _. split; [reflexivity|]. eexists sample_now, []. by repeat split.
    + eexists _, []. split; [reflexivity|]. by vm_compute.
    + split; [repeat constructor; by vm_compute|repeat constructor; by vm_compute].
  - refine (proj1 (Hb [] [] [] health_init ProbeSample.unread (PStatus 503) _ sample_now (sample_now + Second) _ _ _ _)).
    + by vm_compute.
    + done.
    + do 4 (eexists _, _; split; [reflexivity|]). by vm_compute.
    + split; [repeat constructor; by vm_compute|repeat constructor; by vm_compute].
Defined.
