(* ===== verification/Expiry.v ===== *)
(** * The expiry gauge of the Connect token (cmd/broker/main.go: connectTokenExpiry and the goroutine that publishes it)

    Base64url decoding inverts encoding, so the [exp] claim of a JSON Web Token is
    read back as it was written; and the gauge shows the expiry of the last token
    read that has one, whatever the rest of the broker does meanwhile. *)

From S2P Require Import Prelude GoStrings GoTime Float64 Encoding RateLimit Json JsonRound AuditStream AuditVerify Metrics World Trace.
From S2P Require Import Provider Server Samples Watcher ServerProps ServerEffects ServerApi Upkeep Broker.
From Stdlib Require Import Ascii QArith.
Local Open Scope Z_scope.
Local Open Scope stdpp_scope.

(** ** Base64url round trip *)

Lemma b64url_digit z : 0 ≤ z < 64 →
  b64url_val (b64_char true z) = Some z ∧ is_break (b64_char true z) = false ∧ b64_char true z ≠ "."%char.
Proof.
  intros Hz. assert (Forall (λ z, b64url_val (b64_char true z) = Some z ∧ is_break (b64_char true z) = false
    ∧ b64_char true z ≠ "."%char) (seqZ 0 64)) as H.
  { apply (bool_decide_unpack _). vm_compute. exact I. }
  rewrite Forall_forall in H. apply H. rewrite elem_of_seqZ. lia.
Qed.

Lemma b64url_filter z s : 0 ≤ z < 64 →
  filter (λ c, is_break c = false) (chars (String (b64_char true z) s))
  = b64_char true z :: filter (λ c, is_break c = false) (chars s).
Proof. intros Hz. cbn [String.list_ascii_of_string]. apply filter_cons_True. by apply b64url_digit. Qed.

Lemma b64url_decode_encode l :
  b64url_decode (filter (λ c, is_break c = false) (chars (b64_encode true l))) = Some l ∧ ¬ has_byte "."%char (b64_encode true l).
Proof.
  induction l as [l IH] using (induction_ltof1 _ length). unfold ltof in IH.
  destruct l as [|a [|b [|c l]]]; [by split; [|apply has_byte_nil]|..]; cbn [b64_encode]; pose proof (byte_val_range a) as Ha.
  - destruct (b64_group (byte_val a) 0 0 Ha) as ((H1 & H2 & _) & E1 & _); [lia..|].
    rewrite Z.div_0_l, Z.add_0_r in * by lia. rewrite !b64url_filter, !has_byte_cons by done. cbn.
    destruct (b64url_digit _ H1) as (-> & _ & N1), (b64url_digit _ H2) as (-> & _ & N2). cbn. rewrite E1, byte_of_val.
    split; [done|]. pose proof (has_byte_nil "."%char). naive_solver.
  - pose proof (byte_val_range b) as Hb.
    destruct (b64_group (byte_val a) (byte_val b) 0 Ha Hb) as ((H1 & H2 & H3 & _) & E1 & E2 & _); [lia|].
    rewrite Z.div_0_l, Z.add_0_r in * by lia. rewrite !b64url_filter, !has_byte_cons by done. cbn.
    destruct (b64url_digit _ H1) as (-> & _ & N1), (b64url_digit _ H2) as (-> & _ & N2), (b64url_digit _ H3) as (-> & _ & N3).
    cbn. rewrite E1, E2, !byte_of_val. split; [done|]. pose proof (has_byte_nil "."%char). naive_solver.
  - pose proof (byte_val_range b) as Hb. pose proof (byte_val_range c) as Hc.
    destruct (b64_group (byte_val a) (byte_val b) (byte_val c) Ha Hb Hc) as ((H1 & H2 & H3 & H4) & E1 & E2 & E3).
    destruct (IH l) as [IHd IHn]; [cbn; lia|]. rewrite !b64url_filter, !has_byte_cons by done. cbn.
    destruct (b64url_digit _ H1) as (-> & _ & N1), (b64url_digit _ H2) as (-> & _ & N2), (b64url_digit _ H3) as (-> & _ & N3),
      (b64url_digit _ H4) as (-> & _ & N4).
    cbn. rewrite IHd. cbn. rewrite E1, E2, E3, !byte_of_val. split; [done|]. naive_solver.
Qed.

Lemma RawURLDecode_encode s : RawURLDecodeString (RawURLEncodeToString s) = Some s.
Proof.
  unfold RawURLDecodeString, RawURLEncodeToString. rewrite (proj1 (b64url_decode_encode _)). cbn.
  by rewrite String.string_of_list_ascii_of_string.
Qed.

(** ** JSON Web Tokens *)

(** The compact form of a token. *)
Definition jwt (header claims : jv) (sig : string) : string :=
  (RawURLEncodeToString (render header)) +:+ "." +:+ (RawURLEncodeToString (render claims)) +:+ "." +:+ (RawURLEncodeToString sig).

(** Claims with the expiry [e]: no other member is called [exp], in any case. *)
Definition claims_expire (claims : jv) (e : Z) : Prop :=
  ∃ pre post, claims = JObj (pre ++ ("exp", JInt e) :: post) ∧ int_nums claims ∧ (depth claims ≤ maxNestingDepth)%nat
    ∧ Forall (λ kv, field_of ["exp"] (valid_utf8 kv.1) = None) (pre ++ post).

Lemma Split_dot a b : ¬ has_byte "."%char a → Split (a +:+ "." +:+ b) "." = a :: Split b ".".
Proof. apply Split_cons. Qed.

Lemma dec_exp_skip l (z : Z) : Forall (λ kv, field_of ["exp"] (valid_utf8 kv.1) = None) l →
  foldl (λ acc kv, a ← acc; match field_of ["exp"] kv.1 with Some n => dec_int64 kv.2 a | None => Some a end) (Some z)
    ((λ kv : string * jv, (valid_utf8 kv.1, valid_jv kv.2)) <$> l) = Some z.
Proof.
  induction 1 as [|kv l Hkv _ IH]; [done|]. cbn [fmap list_fmap foldl fst snd]. cbn [mbind option_bind]. by rewrite Hkv.
Qed.

Lemma dec_exp_claims claims e : claims_expire claims e → in_int64 e → dec_exp (valid_jv claims) = Some e.
Proof.
  intros (pre & post & -> & _ & _ & [Hpre Hpost]%Forall_app) He. unfold dec_exp, dec_struct. cbn [valid_jv].
  rewrite fmap_app, fmap_cons, foldl_app. cbn [foldl fst snd]. rewrite dec_exp_skip by done.
  change (valid_utf8 "exp") with "exp". change (field_of ["exp"] "exp") with (Some "exp"). cbn [mbind option_bind].
  change (valid_jv (JInt e)) with (JInt e). rewrite dec_int64_itoa by done. by rewrite dec_exp_skip.
Qed.

Lemma jwt_expiry header claims sig e :
  claims_expire claims e → in_int64 e → e ≠ 0 → connectTokenExpiry (jwt header claims sig) = Some e.
Proof.
  intros Hc He Hz. unfold connectTokenExpiry, jwt. rewrite !Split_dot by apply b64url_decode_encode. rewrite Split_whole by apply b64url_decode_encode.
  rewrite RawURLDecode_encode. cbn [mbind option_bind]. pose proof Hc as (_ & _ & _ & Hi & Hd & _). rewrite unmarshal_render by done.
  cbn [mbind option_bind]. rewrite (dec_exp_claims _ e) by done. cbn [mbind option_bind]. by apply Z.eqb_neq in Hz as ->.
Qed.

(** ** The contents of a token file *)

Definition graphic (c : ascii) : Prop := 33 ≤ byte_val c ≤ 126.
#[global] Instance graphic_dec c : Decision (graphic c).
Proof. unfold graphic. apply _. Defined.
Definition blank (c : ascii) : Prop := 9 ≤ byte_val c ≤ 13 ∨ byte_val c = 32.

Lemma strip_space_none encs c l :
  graphic c → Forall (λ e : list Z, default 40 (head e) < 33 ∨ 126 < default 40 (head e)) encs → strip_space encs (c :: l) = None.
Proof.
  intros Hc. induction 1 as [|[|z e] encs Hz _ IH]; [done|cbn in Hz; lia|]. cbn in Hz. cbn [strip_space foldr strip_bytes].
  unfold graphic in Hc. rewrite (proj2 (Z.eqb_neq z (byte_val c))) by lia. exact IH.
Qed.

Lemma trim_graphic n c l : graphic c →
  trim_left_go n space_encodings (c :: l) = c :: l ∧ trim_left_go n (reverse <$> space_encodings) (c :: l) = c :: l.
Proof.
  intros Hc. split; (destruct n as [|n]; [done|]); cbn [trim_left_go];
    (rewrite strip_space_none; [done|done|apply (bool_decide_unpack _); vm_compute; exact I]).
Qed.

Lemma trim_blanks b n l : Forall blank b → (length b ≤ n)%nat →
  trim_left_go n (reverse <$> space_encodings) (b ++ l) = trim_left_go (n - length b) (reverse <$> space_encodings) l.
Proof.
  intros Hb. revert n. induction Hb as [|c b Hc _ IH]; intros n Hn; [by rewrite Nat.sub_0_r|].
  destruct n as [|n]; [cbn in Hn; lia|]. cbn [trim_left_go app].
  assert (strip_space (reverse <$> space_encodings) (c :: b ++ l) = Some (b ++ l)) as ->; [|apply IH; cbn in Hn; lia].
  assert (byte_val c ∈ [9; 10; 11; 12; 13; 32]) as Hv.
  { unfold blank in Hc. rewrite !elem_of_cons. lia. }
  repeat (apply elem_of_cons in Hv as [E|Hv]; [cbn; by rewrite E|]). by apply not_elem_of_nil in Hv.
Qed.

(** A word and the line break after it. *)
Lemma TrimSpace_word w b : w ≠ "" → Forall graphic (chars w) → Forall blank (chars b) → TrimSpace (w +:+ b) = w.
Proof.
  intros Hne Hw Hb. unfold TrimSpace. rewrite chars_append. destruct (chars w) as [|c l] eqn:E; [by destruct w|].
  apply Forall_cons in Hw as Hw'. destruct Hw' as [Hc _]. cbn [app]. rewrite (proj1 (trim_graphic _ c _ Hc)), app_comm_cons, reverse_app.
  rewrite trim_blanks; [|by apply Forall_reverse|rewrite length_reverse, length_app; lia].
  destruct (reverse (c :: l)) as [|d l'] eqn:Er; [by apply (f_equal length) in Er; rewrite length_reverse in Er|].
  assert (Hd : graphic d).
  { apply Forall_reverse in Hw. rewrite Er in Hw. by apply Forall_cons in Hw as [? _]. }
  rewrite (proj2 (trim_graphic _ d _ Hd)), <-Er, reverse_involutive, <-E. apply of_chars_chars.
Qed.

Lemma b64url_graphic z : 0 ≤ z < 64 → graphic (b64_char true z).
Proof.
  intros Hz. assert (Forall (λ z, graphic (b64_char true z)) (seqZ 0 64)) as H.
  { apply (bool_decide_unpack _). vm_compute. exact I. }
  rewrite Forall_forall in H. apply H. rewrite elem_of_seqZ. lia.
Qed.

Lemma b64_encode_graphic l : Forall graphic (chars (b64_encode true l)).
Proof.
  induction l as [l IH] using (induction_ltof1 _ length). unfold ltof in IH.
  destruct l as [|a [|b [|c l]]]; cbn [b64_encode]; [constructor|..]; pose proof (byte_val_range a) as Ha;
    try pose proof (byte_val_range b) as Hb; try pose proof (byte_val_range c) as Hc; cbn [String.list_ascii_of_string];
    repeat (apply Forall_cons; split; [apply b64url_graphic; Z.div_mod_to_equations; lia|]); [constructor..|apply IH; cbn; lia].
Qed.

Lemma jwt_graphic header claims sig : Forall graphic (chars (jwt header claims sig)).
Proof.
  unfold jwt. rewrite !chars_append, !Forall_app. split_and!; try apply b64_encode_graphic; repeat constructor; by vm_compute.
Qed.

(** The expiry an update finds in what it read. *)
Definition token_expiry (tok : option string) : option Z := t ← tok; connectTokenExpiry (TrimSpace t).

Lemma jwt_token_expiry header claims sig e blanks :
  claims_expire claims e → in_int64 e → e ≠ 0 → Forall blank (chars blanks) →
  token_expiry (Some ((jwt header claims sig) +:+ blanks)) = Some e.
Proof.
  intros Hc He Hz Hb. cbn [token_expiry mbind option_bind].
  rewrite TrimSpace_word; [by apply jwt_expiry| |apply jwt_graphic|done]. unfold jwt. intros E.
  apply (f_equal chars) in E. rewrite !chars_append in E. by destruct (chars (RawURLEncodeToString (render header))).
Qed.

(** ** The gauge *)

Definition expiry_name : string := "acb_connect_token_expiry_timestamp_seconds".

Section Gauge.
Context {X : Externals}.

(** The value on the metrics page, if any. *)
Definition gauge (w : world) : option float64 :=
  mt_gauges (w_metrics w) !! expiry_name ≫= λ set, set !! labelString isPrint ∅.

(** What the other goroutines do meanwhile: anything but set a gauge. *)
Definition gauge_free (T : Type) (a : action T) : Prop := match a with MetricSet _ _ _ => False | _ => True end.
Definition meanwhile : relation world :=
  rtc (λ w w', ∃ T (a : action T) x, gauge_free T a ∧ ext_ok x w a ∧ (perform x w a).2 = w').

#[global] Instance meanwhile_preorder : PreOrder meanwhile.
Proof. apply _. Qed.

Lemma perform_gauge x w {T} (a : action T) : gauge_free T a → gauge (perform x w a).2 = gauge w.
Proof. unfold gauge. destruct a; try done; intros _; cbn; repeat case_match; by simplify_eq. Qed.

Lemma meanwhile_gauge w w' : meanwhile w w' → gauge w' = gauge w.
Proof. induction 1 as [|w w1 w' (T & a & x & Ha & _ & <-) _ IH]; [done|]. by rewrite IH, perform_gauge. Qed.

Lemma set_gauge x w v : gauge (perform x w (MetricSet expiry_name ∅ v)).2 = Some v.
Proof. unfold gauge. cbn. rewrite lookup_insert_eq. cbn. apply lookup_insert_eq. Qed.

(** What the gauge shows after [toks] were read. *)
Definition shown (before : option float64) (toks : list (option string)) : option float64 :=
  match last (omap token_expiry toks) with Some e => Some (f_of_int e) | None => before end.

Lemma shown_cons before tok toks : shown before (tok :: toks) = shown (shown before [tok]) toks.
Proof.
  unfold shown. cbn [omap list_omap]. destruct (token_expiry tok) as [e|]; [|done]. rewrite last_cons. by destruct (last _).
Qed.

Lemma update_gauge f w h r w' : exec meanwhile (update_expiry f) w h r w' →
  ∃ tok, reads (observed <$> h) = [(f, tok)] ∧ gauge w' = shown (gauge w) [tok].
Proof.
  unfold update_expiry. rewrite exec_act. intros (w1 & x & h' & -> & Hm & _ & H). cbn [perform fst snd] in H.
  exists (x_file x f). unfold shown, token_expiry. rewrite <-(meanwhile_gauge _ _ Hm). cbn [omap list_omap mbind option_bind].
  destruct (x_file x f) as [tok|] eqn:E; cbn [mbind option_bind].
  - destruct (connectTokenExpiry (TrimSpace tok)) as [e|] eqn:Ee.
    + destruct H as (w2 & x2 & h2 & -> & Hm2 & _ & (-> & _ & Hm3)). cbn. rewrite E. split; [done|].
      rewrite (meanwhile_gauge _ _ Hm3). apply set_gauge.
    + destruct H as (-> & _ & Hm2). cbn. rewrite E. split; [done|]. by apply meanwhile_gauge.
  - destruct H as (-> & _ & Hm2). cbn. rewrite E. split; [done|]. by apply meanwhile_gauge.
Qed.

(** A token without an expiry leaves the last one's on show. *)
Lemma expiry_kept f w h w' tok :
  exec meanwhile (update_expiry f) w h () w' → reads (observed <$> h) = [(f, tok)] → token_expiry tok = None → gauge w' = gauge w.
Proof.
  intros (tok' & E & ->)%update_gauge E' Ht. rewrite E in E'. injection E' as ->. unfold shown. cbn [omap list_omap]. by rewrite Ht.
Qed.

Lemma ticks_gauge f n : ∀ w h r w', exec meanwhile (ticks n (update_expiry f)) w h r w' →
  ∃ toks, reads (observed <$> h) = (λ t, (f, t)) <$> toks ∧ length toks = n ∧ gauge w' = shown (gauge w) toks.
Proof.
  induction n as [|n IH]; intros w h r w' H.
  - destruct H as (-> & _ & Hm). exists []. split_and!; [done..|]. by apply meanwhile_gauge.
  - cbn [ticks] in H. apply exec_bind in H as (u & w1 & h1 & h2 & -> & H1 & H2); [|apply _].
    apply update_gauge in H1 as (tok & E1 & G1). apply IH in H2 as (toks & E2 & <- & G2).
    exists (tok :: toks). rewrite fmap_app, reads_app, E1, E2. split_and!; [done..|]. by rewrite G2, G1, <-shown_cons.
Qed.

Context (err_text : WatchErr → string) (policyFile : string) (sv : Server).
Context (authn_outside : ∀ token, all_actions outside (sv_authn sv token)).
Context (providers_ok : map_Forall (λ _ p, ProviderLaws p) (sv_providers sv)).

Lemma at_work_free {A} (p : prog A) : all_actions at_work p → all_actions gauge_free p.
Proof. apply all_actions_mono. intros T a. by destruct a. Qed.

(** Only the goroutine of the gauge sets it. *)
Lemma others_gauge_free p : goroutine err_text policyFile sv p →
  (∃ f n, p = (_ ← expiry_gauge f n; Ret None)) ∨ all_actions gauge_free p.
Proof.
  intros Hp. destruct Hp as [r|n|n|f n|sg o h method path]; [right|right|right|left; eauto|right]; apply all_actions_bind; try done.
  - unfold Handler, withRequestID, withAuth. walk_deep; [|apply at_work_free; by apply dispatch_at_work].
    eapply all_actions_mono; [|apply authn_outside]. by intros ? [].
  - apply at_work_free, sweeper_at_work.
  - apply all_actions_ticks. unfold reloadIfChanged, OnReload, OnError. walk; exact I.
  - apply at_work_free, health_at_work.
Qed.

(** C39: The Connect token's expiry is published exactly.  While the rest of the
    broker does anything it may do (no other goroutine of it sets a gauge), the
    goroutine of the gauge reads the token file once at the start and once per
    tick, and the gauge shows the expiry of the last of those readings that had
    one, and nothing if none had.  A file with a JSON Web Token whose claims carry
    an expiry, however the other claims and the signature look and whatever blanks
    follow it, has that expiry: base64url and JSON decoding invert encoding. *)
Theorem connect_expiry_published f n w h w' :
  exec meanwhile (expiry_gauge f n) w h () w' → gauge w = None →
  (∃ toks, reads (observed <$> h) = (λ t, (f, t)) <$> toks ∧ length toks = S n
     ∧ gauge w' = f_of_int <$> last (omap token_expiry toks))
  ∧ (∀ header claims sig e blanks, claims_expire claims e → in_int64 e → e ≠ 0 → Forall blank (chars blanks) →
       token_expiry (Some ((jwt header claims sig) +:+ blanks)) = Some e)
  ∧ ∀ p, goroutine err_text policyFile sv p →
      (∃ f n, p = (_ ← expiry_gauge f n; Ret None)) ∨ all_actions gauge_free p.
Proof.
  intros H Hg. split; [|split; [apply jwt_token_expiry|apply others_gauge_free]].
  destruct (ticks_gauge f (S n) w h () w' H) as (toks & E & Hl & G). exists toks. split_and!; [done..|].
  rewrite G, Hg. unfold shown. by destruct (last _).
Qed.

End Gauge.

(** A token that expires in 2030 is replaced by one of another form: the gauge
    keeps showing 2030. *)
Module ExpirySample.
Definition claims : jv := JObj [("iss", JStr "connect"); ("exp", JInt 1893456000); ("aud", JArr [JStr "broker"])].
Definition token : string := (jwt (JObj [("alg", JStr "ES256")]) claims "signature") +:+ (String newline "").
Definition oracle (n : nat) : ext :=
  mkExt sample_now sample_now "" [] Written (λ _, None) (λ _, Some (if (n =? 0)%nat then token else "opaque")).
Definition final : world := (@run sample_ext _ oracle 0 sample_world (expiry_gauge "/token" 1)).2.

Lemma claims_ok : claims_expire claims 1893456000.
Proof.
  exists [("iss", JStr "connect")], [("aud", JArr [JStr "broker"])]. split_and!; [done|split; [done|]; split; [by exists 1893456000|done]|unfold maxNestingDepth; change (depth claims) with 2%nat; lia|].
  apply (bool_decide_unpack _). by vm_compute.
Qed.

Lemma ran : ∃ h, @exec sample_ext (@meanwhile sample_ext) _ (expiry_gauge "/token" 1) sample_world h () final.
Proof.
  eexists. unfold final. pose proof (@run_exec sample_ext (@meanwhile sample_ext) _ _ (expiry_gauge "/token" 1) oracle 0 sample_world) as H.
  destruct (run _ _ _ _) as [[[] n] w]. apply H. apply oracle_unconditional.
  apply all_actions_bind; [|intros _; apply (all_actions_ticks unconditional)]; unfold update_expiry; walk; by split.
Qed.
End ExpirySample.

Lemma connect_expiry_published_witness :
  token_expiry (Some ExpirySample.token) = Some 1893456000
  ∧ ∃ toks, length toks = 2%nat ∧ @gauge sample_ext ExpirySample.final = f_of_int <$> last (omap token_expiry toks).
Proof.
  destruct ExpirySample.ran as [h Hr].
  destruct (@connect_expiry_published sample_ext (λ _, "error") "/policy.yaml" sample_server (λ _, I)
    sample_laws "/token" 1%nat sample_world h ExpirySample.final Hr eq_refl) as ((toks & _ & Hl & G) & Hj & _).
  split; [|exact (ex_intro _ toks (conj Hl G))].
  apply (Hj _ _ _ _ (String newline "") ExpirySample.claims_ok); [split; by vm_compute|done|by repeat constructor].
Defined.
