(* ===== verification/NotifyRate.v ===== *)
(** * How much a caller of the notify proxy can have sent and recorded

    A caller that the limiter admitted has at most one token leased and one call
    made, and one event recorded.  Every goroutine of the proxy keeps to that at
    every moment, so over an execution what was done on account of a caller is
    bounded by the calls the limiter let through, whatever the interleaving. *)

From S2P Require Import Prelude GoStrings GoTime Float64 Encoding RateLimit Json AuditStream Metrics World Trace Provider Server Samples.
From S2P Require Import ServerProps ServerEffects Authn Upkeep TlsReloader Process NotifyPolicy NotifyServer NotifyProps NotifyMain Lifecycle Flood.
From Stdlib Require Import QArith Lqa.
Local Open Scope Z_scope.
Local Open Scope stdpp_scope.

(** ** What a trace did on account of whom *)

(** The caller admitted last. *)
Definition admitting (cur : option string) (o : obs) : option string :=
  match o with Obs (LimiterAllow LimLease key) true => Some key | _ => cur end.
Definition admitted (l : list obs) : option string := foldl admitting None l.

(** How often the limiter admitted [key]. *)
Definition admits (key : string) (l : list obs) : nat :=
  length (filter (λ o, admitting None o = Some key) l).

Inductive deed := Requests | Records.
Definition is_deed (d : deed) (o : obs) : bool :=
  match d, o with Requests, Obs (HttpDo _) _ => true | Records, Obs (EmitEvent _) _ => true | _, _ => false end.

(** The requests sent, or the events recorded, since [key] was the caller
    admitted last. *)
Fixpoint on_account (d : deed) (key : string) (cur : option string) (l : list obs) : nat :=
  match l with
  | [] => 0
  | o :: l' => (if is_deed d o && bool_decide (cur = Some key) then 1 else 0) + on_account d key (admitting cur o) l'
  end.

Definition worth (d : deed) : nat := match d with Requests => 2 | Records => 1 end.

Lemma on_account_app d key l1 : ∀ cur l2,
  on_account d key cur (l1 ++ l2) = (on_account d key cur l1 + on_account d key (foldl admitting cur l1) l2)%nat.
Proof. induction l1 as [|o l1 IH]; intros cur l2; cbn; [done|]. rewrite IH. lia. Qed.

Lemma admitted_snoc l o : admitted (l ++ [o]) = admitting (admitted l) o.
Proof. unfold admitted. by rewrite foldl_app. Qed.

Lemma on_account_snoc d key l o :
  on_account d key None (l ++ [o])
  = (on_account d key None l + if is_deed d o && bool_decide (admitted l = Some key) then 1 else 0)%nat.
Proof. rewrite on_account_app. cbn. unfold admitted. lia. Qed.

Lemma admits_snoc key l o : admits key (l ++ [o]) = (admits key l + if bool_decide (admitting None o = Some key) then 1 else 0)%nat.
Proof. unfold admits. rewrite filter_app, length_app, filter_cons, filter_nil. by repeat case_decide; case_bool_decide. Qed.

(** Whose deed it was: an event names the caller it is charged to; what is done
    on nobody's account is free. *)
Definition owned (key : string) (o : obs) : Prop :=
  match o with Obs (EmitEvent ev) _ => subject_key ev = key | _ => True end.

Definition proper (free : obs → Prop) (d : deed) (cur : option string) (o : obs) : Prop :=
  is_deed d o = true → match cur with Some key => owned key o | None => free o end.

Fixpoint properly (free : obs → Prop) (d : deed) (cur : option string) (l : list obs) : Prop :=
  match l with [] => True | o :: l' => proper free d cur o ∧ properly free d (admitting cur o) l' end.

Lemma properly_snoc free d l o : ∀ cur, properly free d cur l → proper free d (foldl admitting cur l) o → properly free d cur (l ++ [o]).
Proof. induction l as [|o' l IH]; intros cur; cbn; [done|]. intros [H1 H2] Ho. split; [done|]. by apply IH. Qed.

(** ** Programs that spend no more than an admission is worth *)

Definition spend (d : deed) (n : nat) (o : obs) : nat :=
  match o with
  | Obs (LimiterAllow LimLease _) true => worth d
  | _ => if is_deed d o then (n - 1)%nat else n
  end.

(** An observation admits a caller, or leaves the one admitted last. *)
Lemma admitting_cases d o :
  (∃ key, (∀ cur, admitting cur o = Some key) ∧ is_deed d o = false ∧ ∀ n, spend d n o = worth d)
  ∨ (∀ cur, admitting cur o = cur) ∧ ∀ n, spend d n o = if is_deed d o then (n - 1)%nat else n.
Proof.
  destruct o as [T a t]. destruct a; try (by right). destruct i; try (by right). destruct t; [|by right].
  left. exists key. by destruct d.
Qed.

Section Frugal.
Context (free : obs → Prop) (d : deed).

(** [n] deeds are left to the caller admitted last. *)
Fixpoint frugal {A} (cur : option string) (n : nat) (p : prog A) : Prop :=
  match p with
  | Ret _ => True
  | Act a k => ∀ t, (proper free d cur (Obs a t) ∧ (cur ≠ None → is_deed d (Obs a t) = true → (0 < n)%nat))
      ∧ frugal (admitting cur (Obs a t)) (spend d n (Obs a t)) (k t)
  end.

Lemma frugal_act {A B} cur n (a : action A) (f : A → prog B) :
  (∀ t, (proper free d cur (Obs a t) ∧ (cur ≠ None → is_deed d (Obs a t) = true → (0 < n)%nat))
     ∧ frugal (admitting cur (Obs a t)) (spend d n (Obs a t)) (f t)) →
  frugal cur n (act a ≫= f).
Proof. exact id. Qed.
Lemma frugal_act_bind {A B C} cur n (a : action A) (g : A → prog B) (f : B → prog C) :
  frugal cur n (act a ≫= λ t, g t ≫= f) → frugal cur n ((act a ≫= g) ≫= f).
Proof. exact id. Qed.
Lemma frugal_ret {A B} cur n (a : A) (f : A → prog B) : frugal cur n (f a) → frugal cur n (Ret a ≫= f).
Proof. exact id. Qed.
Lemma frugal_map {A B} (p : prog A) (f : A → B) : ∀ cur n, frugal cur n p → frugal cur n (p ≫= λ a, Ret (f a)).
Proof. induction p as [a|T a k IH]; intros cur n Hp; [exact I|]. intros t. destruct (Hp t) as [H1 H2]. split; [exact H1|]. by apply IH. Qed.

(** Programs that do nothing but what is free. *)
Definition harmless (T : Type) (a : action T) : Prop :=
  match a with Now | Rand _ | ReadFile _ => True | HttpDo _ => ∀ t, free (Obs a t) | _ => False end.

Lemma frugal_harmless {A B} (p : prog A) (f : A → prog B) : all_actions harmless p →
  ∀ n, (∀ a n, frugal None n (f a)) → frugal None n (p ≫= f).
Proof.
  induction p as [a|T a k IH]; intros Hp n Hf; [apply Hf|]. destruct Hp as [Ha Hk]. intros t.
  split; [split; [|done]|]; destruct a; try done; try (by apply (IH t (Hk t))); destruct d; intros Hd; try discriminate Hd; apply Ha.
Qed.

Definition thrifty {A} (p : prog A) (l : list obs) : Prop :=
  properly free d None l
  ∧ ∃ n, frugal (admitted l) n p
    ∧ ∀ key, (on_account d key None l + (if bool_decide (admitted l = Some key) then n else 0) ≤ worth d * admits key l)%nat.

Lemma thrifty_start {A} (p : prog A) : frugal None 0 p → thrifty p [].
Proof. intros H. split; [done|]. exists 0%nat. split; [done|]. intros key. case_bool_decide; cbn; lia. Qed.

Lemma thrifty_act {A T} (a : action T) (k : T → prog A) l t : thrifty (Act a k) l → thrifty (k t) (l ++ [Obs a t]).
Proof.
  intros (Hp & n & Hf & Hle). destruct (Hf t) as [[Hprop Hpos] Hk]. split; [by apply properly_snoc|].
  exists (spend d n (Obs a t)). rewrite admitted_snoc. split; [exact Hk|].
  intros key. rewrite on_account_snoc, admits_snoc. specialize (Hle key).
  destruct (admitting_cases d (Obs a t)) as [(k0 & Ha & Hd & Hs)|[Ha Hs]]; rewrite !Ha, Hs.
  - rewrite Hd. cbn [andb]. repeat case_bool_decide; lia.
  - rewrite (bool_decide_false (None = Some key)) by done. destruct (is_deed d (Obs a t)) eqn:Ed; cbn [andb]; [|lia].
    case_bool_decide as Ek; [|lia]. specialize (Hpos ltac:(by rewrite Ek) eq_refl). lia.
Qed.

End Frugal.

(** ** The proxy's goroutines *)

Ltac walk_frugal :=
  repeat (unfold inc; cbv beta zeta;
    lazymatch goal with
    | |- frugal _ _ _ _ (mbind _ (act _)) =>
        apply frugal_act; intros ?; split;
        [split; [intros Hdeed; cbn in Hdeed; first [discriminate Hdeed|cbn]|intros; cbn in *; first [done|lia]]
        |cbn [admitting is_deed spend worth Nat.sub]]
    | |- frugal _ _ _ _ (mbind _ (mbind _ (act _))) => apply frugal_act_bind
    | |- frugal _ _ _ _ (mbind _ (Ret _)) => apply frugal_ret
    | |- frugal _ _ _ _ (mbind _ (match ?e with _ => _ end)) => destruct e eqn:?
    | |- frugal _ _ _ _ (match ?e with _ => _ end) => destruct e eqn:?
    | |- frugal _ _ _ _ (Ret _) => exact I
    end).

Section ProxyPrograms.
Context (range_keys : gmap string string → list string) (sv : Server) (haURL : string) (rv : Reviewer).
Context (authn_review : nv_authn sv = authenticator rv).

(** What the proxy does on nobody's account: token reviews, readiness probes, and
    the events that the other limiters sample. *)
Definition proxy_free (o : obs) : Prop :=
  match o with
  | Obs (HttpDo req) _ =>
    (∃ own token, req = review_request rv own token) ∨ req = probe_request (haURL +:+ "/manifest.json")
  | Obs (EmitEvent ev) _ => ev_Attested ev !! "aggregated" = Some (ABool true)
  | _ => False
  end.
Abbreviation frugal := (frugal proxy_free).

Lemma forward_frugal d c kind domain service body :
  frugal d (Some (sub_key c)) (worth d) (forward sv c kind domain service body).
Proof. unfold forward, leaseToken, Call. destruct d; cbn [worth]; walk_frugal; done. Qed.

Lemma deny_frugal d c kind reason status ptype title asserted :
  frugal d (Some (sub_key c)) (worth d) (deny sv c kind reason status ptype title asserted).
Proof. unfold deny. destruct d; cbn [worth]; walk_frugal; done. Qed.

Lemma rateOK_frugal d c next n : frugal d (Some (sub_key c)) (worth d) next → frugal d None n (rateOK sv c next).
Proof. intros Hn. unfold rateOK. destruct d; cbn [worth] in *; walk_frugal; done. Qed.

Lemma notify_dispatch_frugal d rt c n : frugal d None n (dispatch range_keys sv rt c).
Proof.
  destruct rt; cbn [dispatch]; unfold handlePush, handlePersistentCreate, handlePersistentDismiss; apply rateOK_frugal;
    cbv zeta; repeat first [apply deny_frugal|apply forward_frugal|case_match].
Qed.

Lemma authFailure_frugal d {A} src reqID reason (o : A) n : frugal d None n (recordAuthFailure src reqID reason ≫= λ _, Ret o).
Proof. unfold recordAuthFailure. destruct d; walk_frugal; done. Qed.

Lemma authenticator_harmless token : all_actions (harmless proxy_free) (authenticator rv token).
Proof.
  unfold authenticator. apply all_actions_bind; [|done]. unfold Review. walk; [done|]. intros resp. left. by eexists _, _.
Qed.

Lemma proxy_request_frugal d q n : frugal d None n (proxy_request range_keys sv q).
Proof.
  apply frugal_map. unfold Handler, withRequestID. apply frugal_act. intros b. split; [by destruct d|].
  generalize (spend d n (Obs (Rand 8) b)). clear n. intros n. cbn [admitting]. unfold withAuth.
  assert (Ha : ∀ token src reqID, frugal d None n (sub ← nv_authn sv token;
    match sub with
    | None =>
      _ ← recordAuthFailure src reqID "token-rejected";
      Ret (writeProblem 401 ProblemUnauthenticated "token rejected" "" reqID)
    | Some sub =>
      match route_of (hi_Method q) (hi_Path q) with
      | Some rt => dispatch range_keys sv rt (mkCtx sub reqID src (hi_Body q))
      | None => Ret (mkResponse (match route_of "POST" (hi_Path q) with Some _ => 405 | None => 404 end) false NEmpty)
      end
    end)).
  { intros token src reqID. apply frugal_harmless; [rewrite authn_review; apply authenticator_harmless|].
    intros [sub|] m; [|apply authFailure_frugal]. case_match; [apply notify_dispatch_frugal|done]. }
  destruct (CutPrefix _ _) as [[|c token]|]; [apply authFailure_frugal|apply Ha|apply authFailure_frugal].
Qed.

Lemma proxy_probe_frugal d p method path n : frugal d None n (proxy_probe sv haURL p method path).
Proof.
  apply (frugal_map proxy_free d (NotifyMain.HealthHandler (nv_signer sv) (NotifyMain.ready haURL) p method path) (λ _, None)).
  unfold NotifyMain.HealthHandler, NotifyMain.ready, cached_probe, probe_again. destruct d; walk_frugal; by right.
Qed.

End ProxyPrograms.

(** ** Executions of the proxy *)

Definition pool_sum (f : proxy_thread → nat) (ts : gmap nat proxy_thread) : nat := map_fold (λ _ t acc, f t + acc)%nat 0%nat ts.

Lemma pool_sum_insert f ts i t : ts !! i = None → pool_sum f (<[i := t]> ts) = (f t + pool_sum f ts)%nat.
Proof. intros Hi. unfold pool_sum. rewrite map_fold_insert_L; [done|intros; lia|done]. Qed.

Lemma pool_sum_update f ts i t t' : ts !! i = Some t → (pool_sum f (<[i := t']> ts) + f t = pool_sum f ts + f t')%nat.
Proof.
  intros Hi. rewrite <-insert_delete_eq, pool_sum_insert by apply lookup_delete_eq.
  rewrite <-(insert_delete_id _ _ _ Hi) at 2. rewrite pool_sum_insert by apply lookup_delete_eq. lia.
Qed.

Lemma pool_sum_le f g ts : map_Forall (λ _ t, (f t ≤ g t)%nat) ts → (pool_sum f ts ≤ pool_sum g ts)%nat.
Proof.
  induction ts as [|i t ts Hi IH] using map_ind; intros H; [done|].
  apply map_Forall_insert in H as [Ht H]; [|done]. rewrite !pool_sum_insert by done. specialize (IH H). lia.
Qed.

Lemma pool_sum_scale k f ts : pool_sum (λ t, k * f t)%nat ts = (k * pool_sum f ts)%nat.
Proof.
  induction ts as [|i t ts Hi IH] using map_ind; [cbn; unfold pool_sum; rewrite !map_fold_empty; lia|].
  rewrite !pool_sum_insert, IH by done. lia.
Qed.

Section ProxyPool.
Context {X : Externals} (range_keys : gmap string string → list string) (sv : Server) (haURL : string) (rv : Reviewer).
Abbreviation proxy_free := (proxy_free haURL rv).

(** What the proxy starts: a goroutine per request of either listener. *)
Definition proxy_starts (p : prog (option Response)) : Prop :=
  (∃ q, p = proxy_request range_keys sv q) ∨ ∃ pb method path, p = proxy_probe sv haURL pb method path.

(** An execution of the proxy, with the calls of its limiters in their order. *)
Inductive proxy_metered : world * gmap nat proxy_thread → list (limiter_id * (Time * string)) → world * gmap nat proxy_thread → Prop :=
| xm_refl s : proxy_metered s [] s
| xm_spawn w ts i p cs s' :
    ts !! i = None → proxy_starts p →
    proxy_metered (w, <[i := mkProxyThread p p []]> ts) cs s' → proxy_metered (w, ts) cs s'
| xm_act w ts i p0 T (a : action T) k l x cs s' :
    ts !! i = Some (mkProxyThread p0 (Act a k) l) → ext_ok x w a →
    proxy_metered ((perform x w a).2, <[i := mkProxyThread p0 (k (perform x w a).1) (l ++ [Obs a (perform x w a).1])]> ts) cs s' →
    proxy_metered (w, ts) (call_of a x ++ cs) s'.

(** Nothing but the executions of the proxy's work. *)
Lemma proxy_metered_service s s' :
  (∃ cs, proxy_metered s cs s') ↔ rtc (service_step (proxy_service range_keys sv haURL)) s s'.
Proof.
  split.
  - intros [cs H]. induction H as [s|w ts i p cs s' Hi Hp _ IH|w ts i p0 T a k l x cs s' Hi Hx _ IH]; [done|..].
    + eapply rtc_l; [|exact IH]. destruct Hp as [[q ->]|(pb & m & pa & ->)].
      * left. exists i, q. by split.
      * right. left. exists i, pb, m, pa. by split.
    + eapply rtc_l; [|exact IH]. right. right. by constructor.
  - induction 1 as [s|s s1 s2 Hs _ [cs IH]]; [exists []; constructor|].
    destruct Hs as [(i & q & Hi & ->)|[(i & pb & m & pa & Hi & ->)|Hw]].
    + destruct s as [w ts]. eexists. eapply xm_spawn; [exact Hi|left; by eexists|exact IH].
    + destruct s as [w ts]. eexists. eapply xm_spawn; [exact Hi|right; by eexists _, _, _|exact IH].
    + change (proxy_work s s1) in Hw. destruct Hw as [w ts i p0 T a k l x Hi Hx]. eexists. by eapply xm_act.
Qed.

Lemma admits_grants key {T} (a : action T) t :
  Z.of_nat (if bool_decide (admitting None (Obs a t) = Some key) then 1 else 0) = grants LimLease key a t.
Proof.
  destruct a; try done. destruct i; cbn [admitting grants]; [|destruct t; by rewrite ?bool_decide_false by done..].
  destruct t; [|by rewrite bool_decide_false by done]. rewrite (bool_decide_true (LimLease = LimLease)) by done. cbn [andb].
  repeat case_bool_decide; naive_solver.
Qed.

Context (authn_review : nv_authn sv = authenticator rv).

Lemma proxy_metered_admits key s cs s' : proxy_metered s cs s' →
  Z.of_nat (pool_sum (λ t, admits key (pt_past t)) s'.2)
  = Z.of_nat (pool_sum (λ t, admits key (pt_past t)) s.2) + granted LimLease key s.1 cs.
Proof.
  induction 1 as [s|w ts i p cs s' Hi Hp _ IH|w ts i p0 T a k l x cs s' Hi Hx _ IH]; cbn [fst snd] in *.
  - change (granted LimLease key s.1 []) with 0. lia.
  - rewrite IH, pool_sum_insert by done. done.
  - rewrite IH. destruct (granted_act LimLease key x w a cs) as [-> _]. rewrite <-admits_grants.
    pose proof (pool_sum_update (λ t, admits key (pt_past t)) ts i _
      (mkProxyThread p0 (k (perform x w a).1) (l ++ [Obs a (perform x w a).1])) Hi) as Hu.
    cbn [pt_past] in Hu. rewrite admits_snoc in Hu. lia.
Qed.

Lemma proxy_metered_thrifty d s cs s' : proxy_metered s cs s' →
  map_Forall (λ _ t, thrifty proxy_free d (pt_rest t) (pt_past t)) s.2 → map_Forall (λ _ t, thrifty proxy_free d (pt_rest t) (pt_past t)) s'.2.
Proof.
  induction 1 as [s|w ts i p cs s' Hi Hp _ IH|w ts i p0 T a k l x cs s' Hi Hx _ IH]; intros H; cbn [fst snd] in *; [done|apply IH..].
  - apply map_Forall_insert_2; [|done]. apply thrifty_start.
    destruct Hp as [[q ->]|(pb & m & pa & ->)]; [by apply proxy_request_frugal|apply proxy_probe_frugal].
  - apply map_Forall_insert_2; [|done]. apply thrifty_act. exact (H _ _ Hi).
Qed.

(** What was done on account of a caller against what the limiter let through. *)
Lemma proxy_metered_account d key w0 cs s : proxy_metered (w0, ∅) cs s →
  Z.of_nat (pool_sum (λ t, on_account d key None (pt_past t)) s.2) ≤ Z.of_nat (worth d) * granted LimLease key w0 cs.
Proof.
  intros H. pose proof (proxy_metered_admits key _ _ _ H) as Ha. cbn [fst snd] in Ha.
  assert (Hle : (pool_sum (λ t, on_account d key None (pt_past t)) s.2 ≤ worth d * pool_sum (λ t, admits key (pt_past t)) s.2)%nat).
  { rewrite <-pool_sum_scale. apply pool_sum_le. intros i t Hi.
    destruct (proxy_metered_thrifty d _ _ _ H (map_Forall_empty _) i t Hi) as (_ & n & _ & Ht). specialize (Ht key). lia. }
  unfold pool_sum at 2 in Ha. rewrite map_fold_empty in Ha. destruct d; cbn [worth] in *; lia.
Qed.

(** A goroutine scheduled alone to its end. *)
Lemma run_proxy_metered p0 (p : prog (option Response)) : ∀ o n w ts i h,
  oracle_ok o n w p → ts !! i = Some (mkProxyThread p0 p h) →
  proxy_metered (w, ts) (run_calls o n w p)
    ((run o n w p).2, <[i := mkProxyThread p0 (Ret (run o n w p).1.1) (h ++ (run_trace o n w p).2)]> ts).
Proof.
  induction p as [a|T a k IH]; intros o n w ts i h; cbn.
  - intros _ Hi. rewrite app_nil_r, insert_id by done. constructor.
  - intros [Hx Ho] Hi. eapply xm_act; [done..|].
    specialize (IH _ o (S n) _ (<[i := mkProxyThread p0 (k (perform (o n) w a).1) (h ++ [Obs a (perform (o n) w a).1])]> ts) i
      (h ++ [Obs a (perform (o n) w a).1]) Ho (lookup_insert_eq _ _ _)).
    rewrite insert_insert_eq, <-app_assoc in IH. destruct (perform (o n) w a) as [t w1]. cbn [fst snd] in *.
    destruct (run_trace o (S n) w1 (k t)) as [r l]. exact IH.
Qed.

End ProxyPool.

(** ** The bound *)

Section Started.
Context {X : Externals}.
Context (pem_Decode : string → option string) (ParsePKCS8PrivateKey : string → option private_key).
Context (AppendCertsFromPEM : string → bool) (yaml_Unmarshal : string → option (list SubjectPolicy)).
Context (getenv : string → string) (files : string → file) {Certificate : Type}.
Context (range_keys : gmap string string → list string).
Abbreviation startup := (NotifyMain.startup pem_Decode ParsePKCS8PrivateKey AppendCertsFromPEM yaml_Unmarshal getenv files).

Lemma proxy_startup_limiter hostname generated stat load x sv w rv (l : listener Certificate) :
  startup hostname generated stat load x = Ok (sv, w, rv, l) → get_limiter LimLease w = NewLimiter 12%Q 6.
Proof.
  unfold NotifyMain.startup. cbv zeta. do 2 (case_bool_decide; [done|]). destruct (proxySigner _ _ _ _ _) as [sg|]; [|done].
  destruct (content _) as [raw|]; [|done]. destruct (Parse _ raw) as [pol|e]; [|done].
  destruct (NotifyMain.reviewerCfg _) as [cfg|]; [|done]. destruct (NewReviewer _ _ _) as [rv'|]; [|done].
  destruct (NewLeaseClient _ _ _ _ _ _) as [lc|]; [|done].
  destruct (New _ _ _ _ _ _ _ _) as [sv' w0] eqn:En. destruct (proxyListener _ _ _) as [l'|]; [|done]. intros Hi. injection Hi as <- <- _ _.
  unfold EmitStarted. cbn. injection En as _ <-. destruct (Emit _ _ _ _ _ _) as [[]]; done.
Qed.

(** C35: What a caller can have a proxy do is bounded.  In every execution of a
    proxy that came up, while the clock does not go back, whatever the requests
    and their interleaving: the events recorded on account of one caller are at
    most the burst of the limiter (6) plus its rate (12 a minute) times the elapsed
    time, and the requests sent for it, to lease a token and to call Home
    Assistant, at most twice that; the relative error and the slack per call are
    the accumulated binary64 rounding.  Every event names the caller it is on
    account of, and what is done on nobody's account is reviewing tokens, probing
    Home Assistant for readiness, and recording the sampled rejections of the
    other two limiters. *)
Theorem notify_rate_bound hostname generated stat load x sv w0 rv (l : listener Certificate) haURL calls w ts d key t0 t1 :
  startup hostname generated stat load x = Ok (sv, w0, rv, l) →
  proxy_metered range_keys sv haURL (w0, ∅) calls (w, ts) → clocked t0 t1 (calls_of LimLease calls) →
  (inject_Z (Z.of_nat (pool_sum (λ t, on_account d key None (pt_past t)) ts))
   <= inject_Z (Z.of_nat (worth d))
      * (6 + fdiv 12 60 * elapsed t0 t1 * (1 + drift)
         + inject_Z (Z.of_nat (length (calls_of LimLease calls))) * (drift * (6 + fdiv 12 60 + 1))))%Q
  ∧ map_Forall (λ _ t, properly (proxy_free haURL rv) d None (pt_past t)) ts.
Proof.
  intros Hs Hm Hc. destruct (proxy_startup_up _ _ _ _ _ _ _ _ _ _ _ _ _ _ _ Hs) as [Ha _ _ _]. split.
  - pose proof (proxy_metered_account range_keys sv haURL rv Ha d key w0 calls (w, ts) Hm) as Hle. cbn [snd] in Hle.
    pose proof (limiter_rate_bound 12 6 [] t0 t0 t1 (calls_of LimLease calls) key ltac:(done) ltac:(lia) ltac:(cbn; lia) Hc) as Hb.
    cbv zeta in Hb. cbn [Allows snd] in Hb. rewrite <-(proxy_startup_limiter _ _ _ _ _ _ _ _ _ Hs) in Hb.
    fold (granted LimLease key w0 calls) in Hb. rewrite Zle_Qle, inject_Z_mult in Hle. eapply Qle_trans; [exact Hle|].
    rewrite !(Qmult_comm (inject_Z (Z.of_nat (worth d)))). apply Qmult_le_compat_r; [exact Hb|by destruct d].
  - intros i t Hi. by destruct (proxy_metered_thrifty range_keys sv haURL rv Ha d _ _ _ Hm (map_Forall_empty _) i t Hi) as [Hp _].
Qed.

End Started.

(** The first push through a proxy that has just come up. *)
Module RateSample.
Import ProxyStart.
Definition sv : Server := booted.1.1.1.
Definition w0 : world := booted.1.1.2.
Definition request : prog (option Response) := proxy_request ProxySample.range_keys sv push.
Definition calls : list (limiter_id * (Time * string)) := @run_calls sample_ext _ oracle 0 w0 request.
Definition past : list obs := (@run_trace sample_ext _ oracle 0 w0 request).2.
Definition final : world := (@run sample_ext _ oracle 0 w0 request).2.
Definition answer : option Response := (@run sample_ext _ oracle 0 w0 request).1.1.

Lemma pushed : @proxy_metered sample_ext ProxySample.range_keys sv "http://ha/" (w0, ∅) calls
  (final, {[0%nat := mkProxyThread request (Ret answer) past]}).
Proof.
  eapply (xm_spawn _ _ _ _ _ 0%nat request); [reflexivity|left; by exists push|].
  pose proof (@run_proxy_metered sample_ext ProxySample.range_keys sv "http://ha/" request request oracle 0%nat w0
    {[0%nat := mkProxyThread request request []]} 0%nat []) as Hr.
  rewrite insert_singleton_eq in Hr. apply Hr; [vm_compute; repeat split|apply lookup_singleton_eq].
Qed.

Lemma notify_calls : ∃ t, calls_of LimLease calls = [(t, "agents/builder")] ∧ sample_now ≤ t ≤ sample_now + Minute.
Proof. eexists. split; [vm_compute; reflexivity|]. vm_compute. split; discriminate. Qed.
End RateSample.

(** At most twice the burst and what a minute adds; the push had its two requests. *)
Lemma notify_rate_bound_witness :
  on_account Requests "agents/builder" None RateSample.past = 2%nat
  ∧ Z.of_nat (pool_sum (λ t, on_account Requests "agents/builder" None (pt_past t))
      {[0%nat := mkProxyThread RateSample.request (Ret RateSample.answer) RateSample.past]}) ≤ 36.
Proof.
  split; [vm_compute; reflexivity|].
  destruct RateSample.notify_calls as (t & Ec & Ht). pose proof RateSample.pushed as H2. pose proof ProxyStart.proxy_boot_ok as Hb.
  revert H2. generalize RateSample.final RateSample.answer RateSample.past. intros w o past H2.
  unfold RateSample.request, RateSample.sv, RateSample.w0 in *.
  destruct ProxyStart.booted as [[[sv w0] rv] l] eqn:Eb. cbn [fst snd] in *.
  pose proof (@notify_rate_bound sample_ext Some ProxyStart.pkcs8 (λ _, true) NotifySample.yaml ProxyStart.getenv ProxyStart.files string
    ProxySample.range_keys (Some "proxy-0") None (Some 1) (Some "cert") (ProxyStart.oracle 0)
    sv w0 rv l "http://ha/" RateSample.calls w _ Requests "agents/builder" sample_now (sample_now + Minute) Hb H2) as H.
  rewrite Ec in H. destruct (H ltac:(cbn; lia)) as [H' _]. clear H. rename H' into H.
  apply Z.lt_succ_r. rewrite Zlt_Qlt. eapply Qle_lt_trans; [exact H|]. vm_compute. reflexivity.
Defined.
